(* ===== verification/_CoqProject ===== *)
-Q . S2P
Prelude.v
GoTime.v
Common.v
Scoring.v
Models.v
KeyBuilder.v
Subscribers.v
Consumption.v
TodCache.v
Env.v
Schema.v
Sql.v
SqlSyntax.v
SqlTexts.v
Engine.v
EngineLemmas.v
QueryMeaning.v
ChangeMeaning.v
SchemaMeaning.v
World.v
Queries.v
Sqlc.v
PgAdapter.v
Interfaces.v
PgStorage.v
Example.v
Managers.v
PgConsumption.v
StorageTheorems.v
EventLoop.v
Frame.v
AuthLib.v
Auth.v
Weather.v
Resolvers.v
TeaOfTheDay.v
Api.v
Expiration.v
Adviser.v
Envconfig.v
Server.v
Announce.v
System.v
Delivery.v
Footprint.v
Effects.v
Http.v
PrintQr.v
Interference.v
CategoryDeletion.v
Json.v
Rfc3339.v
JsonCodec.v
Encoder.v
