(* ===== verification/Prelude.v ===== *)
(** * TeaElephantMemory: a verification development

    TeaElephantMemory is a GraphQL server that remembers teas, their tags, the QR
    codes glued on their boxes and the collections its users keep. A request is
    authenticated, its resolver calls the managers, the managers call the
    PostgreSQL adapter and announce changes on buffered channels, and event loops
    broadcast the changes to subscribers. Beside the requests run a weekly
    alerter for expired boxes and AI services that recommend and describe teas.

    ** How the program is modelled

    Code that mutates state or can fail is a function in the small monad
    [M S E] of this file: from a state to an [outcome], a value, an error, a
    panic, or a goroutine parked on a channel, and a new state. The server's
    state is [World.World]: the database, the events in the channels, the two
    caches and the push notifications sent. Everything the surroundings decide,
    the clock, random UUIDs, which round trips fail and whether they fail before
    or after the statement ran, is a function of a tick in the class [Env.Env],
    so that a theorem for every [Env] is a theorem for every behaviour of the
    surroundings.

    ** The files

    - Foundations: Prelude (monad, tactics, lists, machine integers); GoTime
      (Go's [time]); Common and Models (src/common, src/pkg/api/v2/models: the
      domain and the GraphQL types); Env and World.
    - Storage: Schema (src/db/schema.sql: tables and constraints, the invariant
      [db_wf]); Sql and Queries (src/pkg/pgstore/queries.go: statements and round
      trips); SqlTexts (the SQL texts of queries.go, of the generated package and
      of the schema file, as they stand), SqlSyntax (a lexer and a parser for
      them), Engine (what a server does with a text: the schema compiled from its
      definitions, and an evaluator of queries and changes that knows no statement
      in particular), QueryMeaning and ChangeMeaning (each text is the statement
      of Sql) and SchemaMeaning (the schema file is the invariant), over the lemmas
      of EngineLemmas; Sqlc (src/db/pkg/pgstore, the
      package sqlc generates, with its records and its scanning of rows); PgAdapter (src/pkg/pg/db.go, over any database client
      [World.PgClient]); KeyBuilder
      (src/common/key_value/key_builder, the keys of the former key-value store).
    - Interfaces: what the managers ask of a storage, as classes with an abstract
      view and the effect each operation promises. PgStorage shows that the
      adapter keeps the promises; Managers proves the managers against them.
    - Components: Managers (src/internal/managers); Subscribers and EventLoop
      (src/common/subscribers, the loops and their subscriber sets); Scoring
      (src/internal/scoring); Consumption and PgConsumption
      (src/internal/consumption); TodCache
      (src/pkg/api/v2/graphql/teaoftheday_cache.go); AuthLib and Auth
      (src/internal/auth); Weather (src/common/weather.go,
      src/internal/openweather); Adviser (src/internal/adviser,
      src/internal/descrgen); Expiration (src/internal/expiration,
      src/internal/apns); PrintQr (src/printqr, src/cmd/qr_gen); Encoder
      (src/common/key_value/encoder) over Json, Rfc3339 and JsonCodec, Go's
      [encoding/json] and the text of [time.Time]: the scanner as its automaton,
      quoting as a left-to-right rewriting of the bytes, codecs that store into an
      old value field by field.
    - The API: Resolvers (schema.resolvers.go, errors.go and resolver.go of
      src/pkg/api/v2/graphql); TeaOfTheDay (its largest resolver); Api (all
      operations as one type).
    - The whole: Envconfig (the variables of the process, by the tags of the
      structures that hold them); Server (src/cmd/server/main.go: start-up, the services main
      wires, a request from its header to its operation, the handshake of a
      websocket and the operations sent over it), Http
      (src/internal/server/server.go: the routes, the transports and which
      requests reach an operation) and System (the server as a
      labelled step relation over the world, the subscriber sets of both loops,
      the alerter, the open connections and the parked goroutines). Announce
      carries what the managers announce up to the request, and finds what a
      parked goroutine has still to send by running its method over channels that
      are never full; Delivery follows it through the loops to the
      subscribers, and Footprint the tables an operation may change, both over
      every run; Effects states what each operation has done to the database when
      it is answered without an error. Interference runs the tea and collection managers, and CategoryDeletion
      the deletion of a tag category, over a world that other requests change
      between their round trips to the database.
    - Frame states which part of the database a call leaves alone, Example is
      the concrete world of the witnesses, StorageTheorems holds the theorems
      about storage as a whole.

    A definition has the name of the function, method, type or constant it
    models, in a Module where the program has several of one name
    ([TeaManager.Create], [TagManager.Create]); a list method is [List_], a
    resolver whose name is taken is [Query_Tea] or [Collection_Records].

    ** What is shown

    - Start-up. The server starts for exactly one set of conditions, which the
      token of OpenAI and the key of the weather service are not among
      ([System.main_fails_fast]).
    - Consistency. Every reachable database satisfies every constraint of the
      schema ([StorageTheorems.database_stays_consistent]; the constraints are
      those of the schema file, [SchemaMeaning.schema_file_is_the_invariant]), and so does every
      state of the whole system, whose channels stay within their buffers and
      whose subscriber sets stay well formed ([System.system_stays_sound]).
    - SQL. Each text the server sends, parsed and run under the keys, checks,
      indexes and cascades that the schema file declares, is the statement the
      other theorems speak of ([QueryMeaning.queries_mean_their_statements],
      [ChangeMeaning.changes_mean_their_statements]), and the generated package
      does what the handwritten one does ([Sqlc.generated_package_agrees]).
    - Refinement. The adapter implements the storage interfaces, but for two
      operations that can fail half way
      ([StorageTheorems.pg_implements_storage]); each manager method does what
      its storage promises and announces it exactly once; so does a request, from
      its token to the channels ([Announce.operations_announce_what_they_did]).
    - Security. Which tokens are accepted, and as whom, over HTTP and in the
      handshake of a websocket, whose operations keep its authority; that the catalogue
      changes by an admin's hand only and a collection by its owner's, for one
      operation, for one request from its header on, and for every run of the
      system. The records of a collection are listed to its owner only, also by
      the field that trusts the user id of an answer
      ([Api.collection_fields_stay_private]). Over HTTP only the path of the API
      and only a POST changes more than the consumptions
      ([Http.http_requests_are_contained]). What is not guarded is stated as
      well ([Api.WriteToQR_is_public]: anybody may write a QR record).
    - Function. The tea of the day is a best choice by what the adviser, the
      weather and the store say, is recorded, cached and stable within the day;
      scoring picks a maximum; a subscriber hears in order what the operations
      of a run did ([Delivery.subscribers_hear_what_happened]); an operation
      changes only its own tables
      ([Footprint.operations_change_their_footprint]), and one that is answered
      without an error has done what it promises
      ([Effects.success_takes_effect]); collections, consumptions, QR records and
      tags behave as their callers expect on every branch, errors included.
    - Concurrency and termination. Channels are bounded queues; one turn of a
      loop serves exactly the right subscribers; turns terminate, and drain the
      channels and the goroutines parked on them if the subscribers read; a subscriber that does not read stops a
      loop, and a full channel its senders. Requests interleaved at their round
      trips leave collections safe
      ([Interference.collections_hold_under_interleaving]) and a deleted category
      announced with its tags
      ([CategoryDeletion.category_deletion_is_announced]), unless a tag is created
      in it meanwhile ([CategoryDeletion.tags_can_vanish_unannounced]); the
      announcements of two updates can change places.
    - Round trips, bounds and types: tokens, keys, QR records, JSON records
      whose strings are UTF-8
      ([Encoder.records_survive_encoding]), scores, page layouts, and the category
      a tag must have.

    ** Bounds

    The channels hold a hundred events, as in the code. Loops run over lists or
    counters. Fuel is taken twice, for SQL: a comma list of the parser has at most
    fifty elements, and every text of the sources parses, or no theorem about its
    meaning would hold; a chain of cascading deletions visits each of the eleven
    tables at most once, and the theorem on the changes shows that the fuel never
    runs out. Go's [int] and [int32] are [Z]
    with the wrap-around or the clamping written out where a value can leave its
    range.

    ** Parameters

    Code outside the repository is a parameter with its documented behaviour as
    laws: JWT, keys and Sign in with Apple ([AuthLib]), envconfig
    ([Envconfig.Process]), OpenAI, the description
    cache, OpenWeatherMap, APNS, pgx ([Sqlc.DBTX]), mux, the CORS handler and the
    transports of gqlgen ([Http.HttpLib]), the PDF and QR packages, the collation and
    [lower] of the database, the text form of a UUID, [strings.ToLower] and
    [TrimSpace] and the order in which [range] visits a map ([Locale]). Each
    class has a concrete instance, which the witnesses use.

    ** Not modelled

    A request, a turn of a loop and a run of the alerter are single steps of
    [System]: between two round trips of one of them no other runs. Interference
    and CategoryDeletion give that up for the tea and collection managers and for
    the deletion of a category; a round trip is atomic. A goroutine that
    parks on a full channel goes on with its sends when there is room, in any
    order among the parked (Go wakes the first that parked); the reads a resolver
    makes for its answer after that are left out. A turn of a loop that parks on a
    subscriber is no step, and the loop stays where it was. Contexts are not
    cancelled in the middle of a call. A subscription is registered by whoever asks, without a
    connection, and what reaches a reader is the channel of its subscription, not
    a message. Of SQL the engine knows what the texts use. An error that ends the
    rows of a query comes before the first of them. Logging, the metrics, the
    tracing and the code gqlgen generates (src/pkg/api/v2/graphql/generated) are
    left out; a request is one operation. *)

From stdpp Require Import base gmap sets list strings sorting.
From Stdlib Require Import ZArith Lia.

Declare Scope go_scope.
Delimit Scope go_scope with go.
Open Scope go_scope.

Create Rewrite HintDb go.
Create HintDb go.
Create HintDb go_preserves.

(** ** Outcomes of a Go call

    A call returns a value, returns an error, panics, or parks its goroutine on
    a channel operation that cannot proceed. *)
Inductive outcome (E A : Type) :=
  | Ok (a : A)
  | Err (e : E)
  | Panic
  | Blocked.

Arguments Ok {E A} a.
Arguments Err {E A} e.
Arguments Panic {E A}.
Arguments Blocked {E A}.

Definition is_Ok {E A} (o : outcome E A) : bool :=
  match o with Ok _ => true | _ => false end.

#[export] Instance outcome_eq_dec {E A} `{EqDecision E, EqDecision A} : EqDecision (outcome E A).
Proof. solve_decision. Defined.

(** ** The state-and-outcome monad

    [M S E A] is a Go function body that reads and writes the state [S]. The
    state survives an error, a panic and a parked goroutine: what was done
    before stays done. *)
Definition M (S E A : Type) : Type := S → outcome E A * S.

Definition ret {S E A} (a : A) : M S E A := λ s, (Ok a, s).
Definition throw {S E A} (e : E) : M S E A := λ s, (Err e, s).
Definition panic {S E A} : M S E A := λ s, (Panic, s).
Definition bind {S E A B} (m : M S E A) (k : A → M S E B) : M S E B := λ s,
  match m s with
  | (Ok a, s') => k a s'
  | (Err e, s') => (Err e, s')
  | (Panic, s') => (Panic, s')
  | (Blocked, s') => (Blocked, s')
  end.
(** [v, err := m] followed by a test of [err]: the continuation sees it. *)
Definition try {S E A} (m : M S E A) : M S E (E + A) := λ s,
  match m s with
  | (Ok a, s') => (Ok (inr a), s')
  | (Err e, s') => (Ok (inl e), s')
  | (Panic, s') => (Panic, s')
  | (Blocked, s') => (Blocked, s')
  end.
(** [if err != nil { return f(err) }]. *)
Definition map_err {S E A} (f : E → E) (m : M S E A) : M S E A := λ s,
  match m s with
  | (Err e, s') => (Err (f e), s')
  | r => r
  end.
Definition get {S E} : M S E S := λ s, (Ok s, s).
Definition modify {S E} (f : S → S) : M S E unit := λ s, (Ok tt, f s).

Notation "'let!' x ':=' m 'in' k" := (bind m (λ x, k))
  (at level 10, x binder, m at level 100, k at level 200) : go_scope.
Notation "'do!' m 'in' k" := (bind m (λ _, k))
  (at level 10, m at level 100, k at level 200) : go_scope.

(** A call of a function that only returns a value or an error. *)
Definition of_sum {S E A} (r : E + A) : M S E A :=
  match r with inl e => throw e | inr a => ret a end.

(** Run a method on one field of a struct. *)
Definition zoom {S T E A} (get : S → T) (put : T → S → S) (m : M T E A) : M S E A := λ s,
  let '(r, t) := m (get s) in (r, put t s).

(** [for _, x := range l { if err := f(x); err != nil { return err } }]. *)
Fixpoint for_range {S E A} (f : A → M S E unit) (l : list A) : M S E unit :=
  match l with
  | [] => ret tt
  | x :: l' => do! f x in for_range f l'
  end.

(** ** Invariants of monadic programs *)
Definition preserves {S E A} (I : S → Prop) (m : M S E A) : Prop :=
  ∀ s, I s → I (m s).2.

Section preserves.
Context {S E : Type} (I : S → Prop).

Lemma preserves_ret {A} (a : A) : preserves (E := E) I (ret a).
Proof. intros s Hs. exact Hs. Qed.

Lemma preserves_throw {A} (e : E) : preserves (A := A) I (throw e).
Proof. intros s Hs. exact Hs. Qed.

Lemma preserves_panic {A} : preserves (E := E) (A := A) I panic.
Proof. intros s Hs. exact Hs. Qed.

Lemma preserves_get : preserves (E := E) I get.
Proof. intros s Hs. exact Hs. Qed.

Lemma preserves_modify f : (∀ s, I s → I (f s)) → preserves (E := E) I (modify f).
Proof. intros Hf s Hs. exact (Hf s Hs). Qed.

Lemma preserves_bind {A B} (m : M S E A) (k : A → M S E B) :
  preserves I m → (∀ a, preserves I (k a)) → preserves I (bind m k).
Proof.
  intros Hm Hk s Hs. unfold bind. specialize (Hm s Hs).
  destruct (m s) as [[a|e| |] s']; simpl in *; [apply Hk| | |]; assumption.
Qed.

Lemma preserves_try {A} (m : M S E A) : preserves I m → preserves I (try m).
Proof.
  intros Hm s Hs. specialize (Hm s Hs). unfold try.
  by destruct (m s) as [[a|e| |] s'].
Qed.

Lemma preserves_of_sum {A} (r : E + A) : preserves I (of_sum r).
Proof. destruct r; [apply preserves_throw|apply preserves_ret]. Qed.

Lemma preserves_map_err {A} f (m : M S E A) : preserves I m → preserves I (map_err f m).
Proof.
  intros Hm s Hs. specialize (Hm s Hs). unfold map_err.
  by destruct (m s) as [[a|e| |] s'].
Qed.

Lemma preserves_for_range {A} (f : A → M S E unit) l :
  (∀ x, preserves I (f x)) → preserves I (for_range f l).
Proof.
  intros Hf. induction l as [|x l IH]; [apply preserves_ret|].
  simpl. apply preserves_bind; [apply Hf|intros _; exact IH].
Qed.
End preserves.

#[export] Hint Resolve preserves_ret preserves_throw preserves_panic preserves_get
  preserves_bind preserves_try preserves_of_sum preserves_map_err preserves_for_range : go_preserves.

(** Case analysis on the run of one call inside a longer one. *)
Lemma bind_Ok_inv {S E A B} (m : M S E A) (k : A → M S E B) s b s' :
  bind m k s = (Ok b, s') → ∃ a s1, m s = (Ok a, s1) ∧ k a s1 = (Ok b, s').
Proof. unfold bind. destruct (m s) as [[a|e| |] s1]; naive_solver. Qed.

Lemma bind_Ok {S E A B} (m : M S E A) (k : A → M S E B) s a s1 :
  m s = (Ok a, s1) → bind m k s = k a s1.
Proof. unfold bind. by intros ->. Qed.

Lemma bind_Err {S E A B} (m : M S E A) (k : A → M S E B) s e s1 :
  m s = (Err e, s1) → bind m k s = (Err e, s1).
Proof. unfold bind. by intros ->. Qed.

Lemma map_err_Ok_inv {S E A} f (m : M S E A) s a s' :
  map_err f m s = (Ok a, s') → m s = (Ok a, s').
Proof. unfold map_err. destruct (m s) as [[?|?| |] ?]; naive_solver. Qed.

Lemma map_err_Err_inv {S E A} f (m : M S E A) s e s' :
  map_err f m s = (Err e, s') → ∃ e0, e = f e0 ∧ m s = (Err e0, s').
Proof. unfold map_err. destruct (m s) as [[?|?| |] ?]; naive_solver. Qed.

(** What holds of a loop that ran to its end: [P l s] is what is known after the
    elements [l]. *)
Lemma for_range_Ok_ind {S E A} (f : A → M S E unit) (P : list A → S → Prop) l s s' :
  P [] s ->
  (∀ l1 x s1 s2, x ∈ l -> P l1 s1 -> f x s1 = (Ok tt, s2) -> P (l1 ++ [x]) s2) ->
  for_range f l s = (Ok tt, s') -> P l s'.
Proof.
  intros H0 Hstep. assert (∀ l1 s1, l1 `prefix_of` l -> P l1 s1 ->
    ∀ l2, l = l1 ++ l2 -> for_range f l2 s1 = (Ok tt, s') -> P l s') as Hgen.
  { intros l1 s1 _ HP l2. revert l1 s1 HP. induction l2 as [|x l2 IH]; intros l1 s1 HP Hl Hrun.
    - rewrite app_nil_r in Hl. simpl in Hrun. unfold ret in Hrun. by simplify_eq.
    - simpl in Hrun. apply bind_Ok_inv in Hrun as ([] & s2 & Hx & Hrun).
      apply (IH (l1 ++ [x]) s2); [|by rewrite <-app_assoc|done].
      apply (Hstep l1 x s1); [|done..]. subst l. set_solver. }
  intros Hrun. by apply (Hgen [] s (prefix_nil _) H0 l).
Qed.

(** [inv_go H] splits [H : bind m k s = (Ok b, s')] and its relatives as far as
    they go. *)
Ltac inv_go H :=
  lazymatch type of H with
  | bind _ _ _ = (Ok _, _) =>
      let a := fresh "a" in let s1 := fresh "s" in
      let H1 := fresh H in
      apply bind_Ok_inv in H as (a & s1 & H1 & H); inv_go H1; inv_go H
  | map_err _ _ _ = (Ok _, _) => apply map_err_Ok_inv in H; inv_go H
  | ret _ _ = (Ok _, _) => unfold ret in H; simplify_eq
  | _ => idtac
  end.

(** ** Machine integers *)
Definition int32_max : Z := 2147483647.
Definition int32_min : Z := -2147483648.
Definition int64_max : Z := 9223372036854775807.
Definition int64_min : Z := -9223372036854775808.

(** Conversion to [int64] (two's complement) and to [uint64]. *)
Definition wrap_int64 (z : Z) : Z := ((z + 2^63) mod 2^64 - 2^63)%Z.
Definition wrap_uint64 (z : Z) : Z := (z mod 2^64)%Z.
Definition wrap_int32 (z : Z) : Z := ((z + 2^31) mod 2^32 - 2^31)%Z.

Lemma wrap_int64_small z : (int64_min ≤ z ≤ int64_max)%Z → wrap_int64 z = z.
Proof. unfold wrap_int64, int64_min, int64_max. intros. rewrite Z.mod_small; lia. Qed.

Lemma wrap_int32_small z : (int32_min ≤ z ≤ int32_max)%Z → wrap_int32 z = z.
Proof. unfold wrap_int32, int32_min, int32_max. intros. rewrite Z.mod_small; lia. Qed.

Lemma wrap_uint64_small z : (0 ≤ z < 2^64)%Z → wrap_uint64 z = z.
Proof. intros. unfold wrap_uint64. by apply Z.mod_small. Qed.

#[export] Hint Rewrite wrap_int64_small wrap_int32_small wrap_uint64_small using lia : go.

(** ** Orders used by comparisons and [ORDER BY] *)

(** Go's [<] and [strings.Compare] on strings: bytewise lexicographic. *)
Definition str_ltb (a b : string) : bool :=
  match String.compare a b with Lt => true | _ => false end.

Lemma ascii_compare_spec (a b : Ascii.ascii) :
  Ascii.compare a b = N.compare (Ascii.N_of_ascii a) (Ascii.N_of_ascii b).
Proof. reflexivity. Qed.

Lemma N_of_ascii_inj a b : Ascii.N_of_ascii a = Ascii.N_of_ascii b → a = b.
Proof. intros H. by rewrite <-(Ascii.ascii_N_embedding a), <-(Ascii.ascii_N_embedding b), H. Qed.

Lemma str_ltb_irrefl a : str_ltb a a = false.
Proof.
  unfold str_ltb. induction a as [|c a IH]; [done|]. simpl.
  by rewrite ascii_compare_spec, N.compare_refl.
Qed.

Lemma str_ltb_trans a b c : str_ltb a b = true → str_ltb b c = true → str_ltb a c = true.
Proof.
  unfold str_ltb. revert b c.
  induction a as [|x a IH]; intros [|y b] [|z c]; simpl; try done.
  rewrite !ascii_compare_spec.
  destruct (N.compare_spec (Ascii.N_of_ascii x) (Ascii.N_of_ascii y)) as [E1| |]; [|..];
  destruct (N.compare_spec (Ascii.N_of_ascii y) (Ascii.N_of_ascii z)) as [E2| |]; try done;
  destruct (N.compare_spec (Ascii.N_of_ascii x) (Ascii.N_of_ascii z)); try done; try lia.
  apply IH.
Qed.

Lemma str_ltb_total a b : str_ltb a b = false → str_ltb b a = false → a = b.
Proof.
  unfold str_ltb. rewrite (String.compare_antisym b a).
  destruct (String.compare a b) eqn:E; simpl; try done.
  intros. by apply String.compare_eq_iff.
Qed.

Lemma str_ltb_asym a b : str_ltb a b = true → str_ltb b a = false.
Proof.
  intros H. destruct (str_ltb b a) eqn:E; [|done].
  pose proof (str_ltb_trans _ _ _ H E) as T. by rewrite str_ltb_irrefl in T.
Qed.

(** Sorting keys: [le_on key] compares rows by an integer column ascending,
    [ge_on key] descending. *)
Definition le_on {A} (key : A → Z) (a b : A) : Prop := (key a ≤ key b)%Z.
Definition ge_on {A} (key : A → Z) (a b : A) : Prop := (key b ≤ key a)%Z.

#[export] Instance le_on_dec {A} (key : A → Z) a b : Decision (le_on key a b).
Proof. unfold le_on. apply _. Defined.
#[export] Instance ge_on_dec {A} (key : A → Z) a b : Decision (ge_on key a b).
Proof. unfold ge_on. apply _. Defined.
#[export] Instance le_on_total {A} (key : A → Z) : Total (le_on key).
Proof. intros a b. unfold le_on. lia. Qed.
#[export] Instance ge_on_total {A} (key : A → Z) : Total (ge_on key).
Proof. intros a b. unfold ge_on. lia. Qed.
#[export] Instance le_on_trans {A} (key : A → Z) : Transitive (le_on key).
Proof. intros a b c. unfold le_on. lia. Qed.
#[export] Instance ge_on_trans {A} (key : A → Z) : Transitive (ge_on key).
Proof. intros a b c. unfold ge_on. lia. Qed.

(** ** Lists *)

(** Remove the element at index [i] by moving the last element there and
    truncating: [l[i] = l[len(l)-1]; l = l[:len(l)-1]]. *)
Definition swap_remove {A} (i : nat) (l : list A) : list A :=
  match l !! (length l - 1) with
  | Some x => take (length l - 1) (<[i:=x]> l)
  | None => l
  end.

Lemma swap_remove_Permutation {A} (i : nat) (l : list A) :
  i < length l → swap_remove i l ≡ₚ delete i l.
Proof.
  intros Hi. destruct l as [|a l _] using rev_ind; [simpl in *; lia|].
  unfold swap_remove. rewrite length_app; simpl.
  replace (length l + 1 - 1) with (length l) by lia.
  rewrite lookup_app_r, Nat.sub_diag by lia; simpl.
  rewrite length_app in Hi; simpl in Hi.
  destruct (decide (i = length l)) as [->|Hne].
  - rewrite insert_app_r_alt, Nat.sub_diag, take_app_length by lia.
    rewrite delete_middle. by rewrite app_nil_r.
  - destruct (lookup_lt_is_Some_2 l i) as [x Hx]; [lia|].
    rewrite insert_app_l by lia. rewrite <-(length_insert l i a), take_app_length.
    pose proof (take_drop_middle l i x Hx) as Hl. rewrite <-Hl at 1 2.
    rewrite insert_app_r_alt by (rewrite length_take; lia).
    rewrite length_take, Nat.min_l by lia. rewrite Nat.sub_diag. simpl.
    rewrite <-app_assoc. simpl.
    replace (delete i (take i l ++ x :: drop (S i) l ++ [a]))
      with (take i l ++ drop (S i) l ++ [a]).
    + apply Permutation_app_head, Permutation_cons_append.
    + pose proof (delete_middle (take i l) (drop (S i) l ++ [a]) x) as Hd.
      rewrite length_take, Nat.min_l in Hd by lia. by rewrite Hd.
Qed.

(** [filter] keeps exactly the elements that satisfy the predicate, so the
    complement filters partition the list. *)
Lemma filter_partition_Permutation {A} (P : A → Prop) `{∀ x, Decision (P x)} (l : list A) :
  filter P l ++ filter (λ x, ¬ P x) l ≡ₚ l.
Proof.
  induction l as [|x l IH]; [done|]. rewrite !filter_cons.
  destruct (decide (P x)); destruct (decide (¬ P x)); try done; simpl.
  - by rewrite IH.
  - by rewrite <-Permutation_middle, IH.
Qed.
