(* ===== verification/GoTime.v ===== *)
(** Instants, durations, locations and the calendar operations of Go's [time]
    package that the program uses.

    An instant is a number of nanoseconds since 1 January of year 1, 00:00 UTC,
    the zero value of [time.Time]. The wall clock and the monotonic clock are
    one clock here. A [time.Duration] is an [int64] of nanoseconds. *)

From stdpp Require Import base gmap list strings.
From Stdlib Require Import ZArith Lia.
From S2P Require Import Prelude.

Local Open Scope Z_scope.

Definition Time : Type := Z.
Definition Duration : Type := Z.

#[export] Instance Time_eq_dec : EqDecision Time := _ : EqDecision Z.
#[export] Instance Time_countable : Countable Time := _ : Countable Z.

Definition Nanosecond : Duration := 1.
Definition Second : Duration := 1000000000 * Nanosecond.
Definition Minute : Duration := 60 * Second.
Definition Hour : Duration := 60 * Minute.

(** Seconds between the zero [time.Time] and the Unix epoch. *)
Definition unixEpoch : Time := 62135596800 * Second.

Definition IsZero (t : Time) : bool := t =? 0.
Definition Before (t u : Time) : bool := t <? u.
Definition After (t u : Time) : bool := u <? t.
Definition Add (t : Time) (d : Duration) : Time := t + d.

(** [t.Sub(u)] saturates at the largest and the smallest duration. *)
Definition Sub (t u : Time) : Duration :=
  Z.max int64_min (Z.min int64_max (t - u)).

(** [t.UnixNano()], an [int64] that wraps outside the years 1678 to 2262, and
    its inverse [time.Unix(0, n)]. *)
Definition UnixNano (t : Time) : Z := wrap_int64 (t - unixEpoch).
Definition UnixNs (n : Z) : Time := unixEpoch + n.
(** [t.Unix()]: whole seconds since the Unix epoch. *)
Definition Unix (t : Time) : Z := (t - unixEpoch) / Second.

Lemma Sub_le t u d : d < int64_max -> int64_min <= d -> Sub t u <= d <-> t - u <= d.
Proof. unfold Sub, int64_min, int64_max. lia. Qed.

Lemma UnixNs_UnixNano t :
  int64_min <= t - unixEpoch <= int64_max -> UnixNs (UnixNano t) = t.
Proof. intros H. unfold UnixNs, UnixNano. rewrite wrap_int64_small by exact H. lia. Qed.

(** ** Locations

    [Location.lookup] gives, for a Unix second, the offset in force in seconds
    east of UTC and the interval of Unix seconds in which it stays in force. *)
Record ZoneSpan : Type := mkZoneSpan { zs_offset : Z; zs_start : Z; zs_end : Z }.

Record Location : Type := mkLocation { lookup_zone : Z → ZoneSpan }.

(** A location with a single offset for all times ([time.UTC], [time.FixedZone]). *)
Definition FixedZone (off : Z) : Location :=
  mkLocation (λ _, mkZoneSpan off int64_min int64_max).
Definition UTC : Location := FixedZone 0.

Definition secondsPerDay : Z := 86400.

(** The civil day [t] falls on in [loc], counted from the Unix epoch. It stands
    for the triple [t.In(loc).Date()]. *)
Definition civil_day (loc : Location) (t : Time) : Z :=
  (Unix t + zs_offset (lookup_zone loc (Unix t))) / secondsPerDay.

(** [time.Date(y, m, d, 0, 0, 0, 0, loc)] for the civil day [day]; the day
    argument of [time.Date] is normalised, so [d+1] is the next civil day. The
    offset is first looked up as if the local time were UTC, and looked up again
    when the result leaves the span that lookup found. *)
Definition Date_midnight (loc : Location) (day : Z) : Time :=
  let unix := day * secondsPerDay in
  let z := lookup_zone loc unix in
  let unix' :=
    if zs_offset z =? 0 then unix
    else
      let utc := unix - zs_offset z in
      if (utc <? zs_start z) || (zs_end z <=? utc)
      then unix - zs_offset (lookup_zone loc utc)
      else unix - zs_offset z in
  UnixNs (unix' * Second).

(** The offset [off] is in force in [loc] throughout the two days on each side
    of [t]. *)
Definition steady_offset (loc : Location) (t : Time) (off : Z) : Prop :=
  - secondsPerDay < off < secondsPerDay ∧
  ∀ u, Unix t - 2 * secondsPerDay <= u <= Unix t + 2 * secondsPerDay ->
    zs_offset (lookup_zone loc u) = off.

Lemma FixedZone_steady off t :
  - secondsPerDay < off < secondsPerDay -> steady_offset (FixedZone off) t off.
Proof. intros H. split; [exact H|done]. Qed.

Lemma civil_day_bounds loc t off :
  steady_offset loc t off ->
  civil_day loc t * secondsPerDay <= Unix t + off < (civil_day loc t + 1) * secondsPerDay.
Proof.
  intros [_ H]. unfold civil_day, secondsPerDay in *. rewrite H by lia.
  pose proof (Z.div_mod (Unix t + off) 86400). pose proof (Z.mod_pos_bound (Unix t + off) 86400).
  lia.
Qed.

(** In a steady location the second lookup never changes the answer. *)
Lemma Date_midnight_steady loc t off day :
  steady_offset loc t off ->
  civil_day loc t <= day <= civil_day loc t + 1 ->
  Date_midnight loc day = UnixNs ((day * secondsPerDay - off) * Second).
Proof.
  intros Hst Hday. pose proof (civil_day_bounds _ _ _ Hst) as Hb.
  destruct Hst as [Hoff Hst]. unfold Date_midnight.
  rewrite (Hst (day * secondsPerDay)) by (unfold secondsPerDay in *; lia).
  destruct (Z.eqb_spec off 0) as [->|Hne]; [f_equal; lia|].
  rewrite (Hst (day * secondsPerDay - off)) by (unfold secondsPerDay in *; lia).
  by destruct (_ || _).
Qed.

Lemma Unix_bounds t : unixEpoch + Unix t * Second <= t < unixEpoch + (Unix t + 1) * Second.
Proof.
  unfold Unix, Second, Nanosecond.
  pose proof (Z.div_mod (t - unixEpoch) (1000000000 * 1)).
  pose proof (Z.mod_pos_bound (t - unixEpoch) (1000000000 * 1)). lia.
Qed.

Lemma Unix_UnixNs s : Unix (UnixNs (s * Second)) = s.
Proof. unfold Unix, UnixNs, Second, Nanosecond. replace (_ - _) with (s * (1000000000 * 1)) by lia. apply Z.div_mul. lia. Qed.
