(* ===== verification/Common.v ===== *)
(** The shared domain model: package [common] of the program (src/common), that
    is the domain records, the beverage types and the error values, with the
    part of Go's [errors] package they rely on. *)

From stdpp Require Import base gmap list strings.
From Stdlib Require Import ZArith Lia.
From S2P Require Import Prelude GoTime.

(** ** UUIDs

    A [uuid.UUID] is sixteen bytes, kept as the number they spell in
    big-endian order; [uuid_Nil] is the all-zero UUID. [gqlCommon.ID] is a
    defined type over [uuid.UUID] and conversions between them do nothing. *)
Definition UUID : Type := N.
Definition uuid_Nil : UUID := 0%N.
Definition uuid_valid (u : UUID) : Prop := (Z.of_N u < 2^128)%Z.

#[export] Instance UUID_eq_dec : EqDecision UUID := _ : EqDecision N.
#[export] Instance UUID_countable : Countable UUID := _ : Countable N.
#[export] Instance UUID_inhabited : Inhabited UUID := populate uuid_Nil.

(** ** Beverage types (src/common/tea_element.go) *)
Definition BeverageType : Type := Z.
Definition TeaBeverageType : BeverageType := 0%Z.
Definition HerbBeverageType : BeverageType := 1%Z.
Definition CoffeeBeverageType : BeverageType := 2%Z.
Definition OtherBeverageType : BeverageType := 3%Z.

#[export] Instance BeverageType_eq_dec : EqDecision BeverageType := _ : EqDecision Z.

Definition BeverageTypeStringMap : gmap Z string :=
  list_to_map [(TeaBeverageType, "tea"); (HerbBeverageType, "herb");
               (CoffeeBeverageType, "coffee"); (OtherBeverageType, "other")].

(** The loop of [StringToBeverageType] over the entries in the order the map
    iteration yields them: the first entry whose label matches wins. *)
Fixpoint StringToBeverageType_range (entries : list (Z * string)) (str : string) : BeverageType :=
  match entries with
  | [] => OtherBeverageType
  | (beverage, data) :: entries' =>
      if String.eqb data str then beverage else StringToBeverageType_range entries' str
  end.

Definition StringToBeverageType (str : string) : BeverageType :=
  StringToBeverageType_range (map_to_list BeverageTypeStringMap) str.

Definition BeverageType_String (b : BeverageType) : string :=
  match BeverageTypeStringMap !! b with
  | Some str => str
  | None => default "" (BeverageTypeStringMap !! OtherBeverageType)
  end.

(** ** Domain records *)
Record TeaData : Type := mkTeaData {
  td_Name : string;
  td_Type : BeverageType;
  td_Description : string }.

Record Tea : Type := mkTea { tea_ID : UUID; tea_Data : TeaData }.

Record QR : Type := mkQR {
  qr_Tea : UUID;
  qr_BowlingTemp : Z;
  qr_ExpirationDate : Time }.

Record TagCategory : Type := mkTagCategory { tc_ID : UUID; tc_Name : string }.

Record TagData : Type := mkTagData {
  tagd_Name : string;
  tagd_Color : string;
  tagd_CategoryID : UUID }.

Record Tag : Type := mkTag { tag_ID : UUID; tag_Data : TagData }.

Record Collection : Type := mkCollection { col_ID : UUID; col_Name : string }.

Record CollectionRecord : Type := mkCollectionRecord {
  cr_ID : UUID;
  cr_Tea : Tea;
  cr_BowlingTemp : Z;
  cr_ExpirationDate : Time }.

Definition NotificationType : Type := Z.
Definition NotificationTypeTeaExpiration : NotificationType := 0%Z.
Definition NotificationTypeTeaRecommendation : NotificationType := 1%Z.

Record Notification : Type := mkNotification {
  ntf_UserID : UUID;
  ntf_Type : NotificationType }.

(** [common.User] with the two fields of its embedded session the program
    reads through it. *)
Record User : Type := mkUser {
  usr_ID : UUID;
  usr_AppleID : string;
  usr_JWT : string;
  usr_ExpiredAt : Time }.

Record Session : Type := mkSession {
  ses_JWT : string;
  ses_User : User;
  ses_ExpiredAt : Time }.

#[export] Instance TeaData_eq_dec : EqDecision TeaData.
Proof. solve_decision. Defined.
#[export] Instance Tea_eq_dec : EqDecision Tea.
Proof. solve_decision. Defined.
#[export] Instance QR_eq_dec : EqDecision QR.
Proof. solve_decision. Defined.
#[export] Instance TagCategory_eq_dec : EqDecision TagCategory.
Proof. solve_decision. Defined.
#[export] Instance TagData_eq_dec : EqDecision TagData.
Proof. solve_decision. Defined.
#[export] Instance Tag_eq_dec : EqDecision Tag.
Proof. solve_decision. Defined.
#[export] Instance User_eq_dec : EqDecision User.
Proof. solve_decision. Defined.
#[export] Instance Collection_eq_dec : EqDecision Collection.
Proof. solve_decision. Defined.
#[export] Instance CollectionRecord_eq_dec : EqDecision CollectionRecord.
Proof. solve_decision. Defined.

(** ** Errors

    The package-level [errors.New] values of the program and the one of
    [database/sql] it compares against; they are compared by identity. *)
Inductive Sentinel : Type :=
  (* src/common/error.go *)
  | ErrCollectionNotFound | ErrUserNotFound | ErrExpiredToken | ErrInvalidToken
  | ErrQRRecordNotExist | ErrJwtIncorrect | ErrDeviceNotFound | ErrUnauthorized
  | ErrNotAdmin
  (* src/pkg/api/v2/graphql/resolver.go *)
  | ErrNoTeas | ErrNoTeaCandidates
  (* src/internal/consumption/pg_store.go *)
  | ErrNilDB
  (* src/internal/auth/auth.go *)
  | ErrAppleAuth | ErrEmptyBlockDecode | ErrAdminKeyNotECDSA
  | ErrAdminVerificationKeyAbsent | errUnexpectedSigningMethod
  (* src/pkg/api/v2/common/uuid.go *)
  | ErrNotString
  (* database/sql *)
  | SqlErrNoRows.

#[export] Instance Sentinel_eq_dec : EqDecision Sentinel.
Proof. solve_decision. Defined.

(** Errors the database reports for a statement it refuses. *)
Inductive SqlError : Type :=
  | UniqueViolation (constraint : string)
  | ForeignKeyViolation (constraint : string)
  | CheckViolation (constraint : string)
  | DriverError (msg : string).

#[export] Instance SqlError_eq_dec : EqDecision SqlError.
Proof. solve_decision. Defined.

(** The ["code"] extension of a GraphQL error: a name or a number. *)
Inductive GqlCode : Type :=
  | CodeName (name : string)
  | CodeNumber (n : Z).

#[export] Instance GqlCode_eq_dec : EqDecision GqlCode.
Proof. solve_decision. Defined.

(** An [error] value: a sentinel, an error of code outside the repository, or a
    wrapper made by [fmt.Errorf("prefix: %w", err)] or
    [fmt.Errorf("%w: suffix", err)]. [EGql] is the [*gqlerror.Error] that the
    GraphQL layer builds, with the ["code"] of its extensions. *)
Inductive GoError : Type :=
  | ESentinel (s : Sentinel)
  | ESql (e : SqlError)
  | EForeign (msg : string)
  | EWrap (prefix : string) (inner : GoError)
  | EWrapSuffix (inner : GoError) (suffix : string)
  | EGql (message : string) (code : option GqlCode).

#[export] Instance GoError_eq_dec : EqDecision GoError.
Proof. solve_decision. Defined.

(** [errors.Is(err, sentinel)] follows the chain of wrappers. *)
Fixpoint errors_Is (err : GoError) (target : Sentinel) : bool :=
  match err with
  | ESentinel s => bool_decide (s = target)
  | EWrap _ inner | EWrapSuffix inner _ => errors_Is inner target
  | ESql _ | EForeign _ | EGql _ _ => false
  end.

Definition Sentinel_Error (s : Sentinel) : string :=
  match s with
  | ErrCollectionNotFound => "collection not found"
  | ErrUserNotFound => "user not found"
  | ErrExpiredToken => "token already expired"
  | ErrInvalidToken => "token invalid"
  | ErrQRRecordNotExist => "qr record not exist"
  | ErrJwtIncorrect => "invalid jwt"
  | ErrDeviceNotFound => "device not found"
  | ErrUnauthorized => "unauthenticated"
  | ErrNotAdmin => "forbidden: admin required"
  | ErrNoTeas => "you should have more teas"
  | ErrNoTeaCandidates => "no tea candidates"
  | ErrNilDB => "pg consumption: nil db"
  | ErrAppleAuth => "apple authentication failed"
  | ErrEmptyBlockDecode => "empty block after decoding"
  | ErrAdminKeyNotECDSA => "admin public key is not ECDSA"
  | ErrAdminVerificationKeyAbsent => "admin verification key not loaded"
  | errUnexpectedSigningMethod => "unexpected signing method"
  | ErrNotString => "value is not a string"
  | SqlErrNoRows => "sql: no rows in result set"
  end.

Definition SqlError_Error (e : SqlError) : string :=
  match e with
  | UniqueViolation c => "duplicate key value violates unique constraint " +:+ c
  | ForeignKeyViolation c => "violates foreign key constraint " +:+ c
  | CheckViolation c => "violates check constraint " +:+ c
  | DriverError msg => msg
  end.

(** [err.Error()]; [gqlerror_text] is the [Error] method of [*gqlerror.Error]. *)
Fixpoint GoError_Error (gqlerror_text : string -> option GqlCode -> string) (err : GoError) : string :=
  match err with
  | ESentinel s => Sentinel_Error s
  | ESql e => SqlError_Error e
  | EForeign msg => msg
  | EWrap prefix inner => prefix +:+ ": " +:+ GoError_Error gqlerror_text inner
  | EWrapSuffix inner suffix => GoError_Error gqlerror_text inner +:+ ": " +:+ suffix
  | EGql message code => gqlerror_text message code
  end.

(** [fmt.Errorf("prefix: %w", err)] on the way out of a call. *)
Abbreviation wrapf prefix m := (map_err (EWrap prefix) m).

Lemma errors_Is_wrap prefix err s : errors_Is (EWrap prefix err) s = errors_Is err s.
Proof. reflexivity. Qed.
#[export] Hint Rewrite errors_Is_wrap : go.

(** ** Beverage labels *)

Lemma StringToBeverageType_range_spec entries str :
  NoDup entries.*2 ->
  (∀ b, (b, str) ∈ entries -> StringToBeverageType_range entries str = b) ∧
  (str ∉ entries.*2 -> StringToBeverageType_range entries str = OtherBeverageType).
Proof.
  induction entries as [|[b0 s0] entries IH]; simpl; intros Hnd.
  - split; [|done]. intros b Hb. set_solver.
  - apply NoDup_cons in Hnd as [Hs0 Hnd]. specialize (IH Hnd) as [IH1 IH2].
    destruct (String.eqb_spec s0 str) as [->|Hne]; split.
    + intros b [?|Hb]%elem_of_cons; [congruence|].
      destruct Hs0. apply list_elem_of_fmap. by exists (b, str).
    + set_solver.
    + intros b [?|Hb]%elem_of_cons; [congruence|]. by apply IH1.
    + intros Hn. apply IH2. set_solver.
Qed.

Lemma BeverageTypeStringMap_labels_NoDup : NoDup (map_to_list BeverageTypeStringMap).*2.
Proof. by apply (bool_decide_unpack _). Qed.

Lemma StringToBeverageType_label b str :
  BeverageTypeStringMap !! b = Some str -> StringToBeverageType str = b.
Proof.
  intros H%elem_of_map_to_list.
  by apply (StringToBeverageType_range_spec _ str BeverageTypeStringMap_labels_NoDup).
Qed.

(** The four declared beverage types. *)
Definition declared_BeverageType (b : BeverageType) : Prop := (0 <= b <= 3)%Z.

Lemma declared_BeverageType_lookup b :
  declared_BeverageType b <-> is_Some (BeverageTypeStringMap !! b).
Proof.
  unfold declared_BeverageType. split.
  - intros H. assert (b = 0 ∨ b = 1 ∨ b = 2 ∨ b = 3)%Z as [->|[->|[->| ->]]] by lia; by eexists.
  - intros [s Hs]. apply (elem_of_list_to_map_2 (M := gmap Z)) in Hs.
    unfold TeaBeverageType, HerbBeverageType, CoffeeBeverageType, OtherBeverageType in Hs.
    rewrite !elem_of_cons in Hs.
    destruct Hs as [?|[?|[?|[?|[]%not_elem_of_nil]]]]; simplify_eq; lia.
Qed.

Lemma BeverageType_String_roundtrip b :
  declared_BeverageType b -> StringToBeverageType (BeverageType_String b) = b.
Proof.
  intros [s Hs]%declared_BeverageType_lookup. unfold BeverageType_String.
  rewrite Hs. by apply StringToBeverageType_label.
Qed.

Lemma BeverageType_String_undeclared b :
  ¬ declared_BeverageType b -> BeverageType_String b = "other".
Proof.
  rewrite declared_BeverageType_lookup, <-eq_None_not_Some. unfold BeverageType_String.
  by intros ->.
Qed.

Lemma StringToBeverageType_declared str : declared_BeverageType (StringToBeverageType str).
Proof.
  destruct (decide (str ∈ (map_to_list BeverageTypeStringMap).*2)) as [Hin|Hn].
  - apply list_elem_of_fmap in Hin as [[b s] [-> Hb]]. simpl.
    rewrite elem_of_map_to_list in Hb. rewrite (StringToBeverageType_label b s Hb).
    apply declared_BeverageType_lookup. by eexists.
  - destruct (StringToBeverageType_range_spec _ str BeverageTypeStringMap_labels_NoDup) as [_ H].
    unfold StringToBeverageType. rewrite (H Hn). done.
Qed.

#[export] Hint Resolve StringToBeverageType_declared : go.

(** ** Properties *)

(** The labels and the beverage types convert back and forth. A declared
    beverage type survives the round trip through its label, an undeclared one
    is labelled "other", every label read back is a declared type, and the
    answer does not depend on the order in which Go iterates over the map. *)
Theorem beverage_labels_roundtrip :
  (∀ b, declared_BeverageType b -> StringToBeverageType (BeverageType_String b) = b) ∧
  (∀ b, ¬ declared_BeverageType b ->
     StringToBeverageType (BeverageType_String b) = OtherBeverageType) ∧
  (∀ str, declared_BeverageType (StringToBeverageType str)) ∧
  (∀ entries str, entries ≡ₚ map_to_list BeverageTypeStringMap ->
     StringToBeverageType_range entries str = StringToBeverageType str).
Proof.
  split; [exact BeverageType_String_roundtrip|]. split; [|split].
  - intros b Hb. by rewrite (BeverageType_String_undeclared b Hb).
  - exact StringToBeverageType_declared.
  - intros entries str HP. pose proof BeverageTypeStringMap_labels_NoDup as Hnd.
    assert (NoDup entries.*2) as Hnd' by (by rewrite HP).
    destruct (StringToBeverageType_range_spec _ str Hnd) as [H1 H2].
    destruct (StringToBeverageType_range_spec _ str Hnd') as [H1' H2'].
    destruct (decide (str ∈ (map_to_list BeverageTypeStringMap).*2)) as [Hin|Hn].
    + apply list_elem_of_fmap in Hin as [[b s] [-> Hb]]. simpl in *.
      rewrite (H1' b) by (by rewrite HP). symmetry. by apply H1.
    + rewrite H2' by (by rewrite HP). symmetry. by apply H2.
Qed.
