(* ===== verification/Scoring.v ===== *)
(** Tea-of-the-day scoring: src/internal/scoring/scoring.go.

    Scores are Go [int]s; every term is bounded, so they never leave the 64-bit
    range and are kept in [Z]. A Go map is a [gmap]; a missing key reads as the
    zero value. *)

From stdpp Require Import base gmap list strings.
From Stdlib Require Import ZArith Lia.
From S2P Require Import Prelude GoTime Common.

Local Open Scope Z_scope.

(** ** Constants *)
Definition aiScoreMin : Z := 0.
Definition aiScoreMax : Z := 15.
Definition recent24h : Duration := 24 * Hour.
Definition recent48h : Duration := 48 * Hour.
Definition penaltyWithin24h : Z := 5.
Definition penaltyWithin48h : Z := 3.
Definition expSoonThreshold : Duration := 7 * 24 * Hour.
Definition expUpcomingThreshold : Duration := 30 * 24 * Hour.
Definition bonusExpSoon : Z := 3.
Definition bonusExpUpcoming : Z := 1.
Definition initialBestScore : Z := - Z.shiftl 1 30.

Record Candidate : Type := mkCandidate {
  cand_ID : UUID;
  cand_Name : string;
  cand_Expiration : Time }.

#[export] Instance Candidate_eq_dec : EqDecision Candidate.
Proof. solve_decision. Defined.

(** [Candidate{}]. *)
Definition noCandidate : Candidate := mkCandidate uuid_Nil "" 0.

(** ** The three terms of a score *)
Definition clampedAIScore (aiScores : gmap UUID Z) (id : UUID) : Z :=
  match aiScores !! id with
  | None => 0
  | Some v =>
      if v <? aiScoreMin then aiScoreMin
      else if aiScoreMax <? v then aiScoreMax
      else v
  end.

Definition recentPenalty (lastByTea : gmap UUID Time) (id : UUID) (now : Time) : Z :=
  match lastByTea !! id with
  | None => 0
  | Some last =>
      let diff := Sub now last in
      if diff <=? recent24h then - penaltyWithin24h
      else if diff <=? recent48h then - penaltyWithin48h
      else 0
  end.

Definition expirationBonus (exp now : Time) : Z :=
  if IsZero exp then 0
  else
    let delta := Sub exp now in
    if delta <=? expSoonThreshold then bonusExpSoon
    else if delta <=? expUpcomingThreshold then bonusExpUpcoming
    else 0.

(** ** Selection *)
Fixpoint candidateName (cands : list Candidate) (id : UUID) : string :=
  match cands with
  | [] => ""
  | c :: cands' => if decide (cand_ID c = id) then cand_Name c else candidateName cands' id
  end.

Definition betterCandidate (curr : Candidate) (currScore : Z)
    (best : Candidate) (bestScore : Z) (candidates : list Candidate) : bool :=
  if bestScore <? currScore then true
  else if currScore <? bestScore then false
  else
    let byName := str_ltb (cand_Name curr) (candidateName candidates (cand_ID best)) in
    if negb (IsZero (cand_Expiration curr)) then
      if IsZero (cand_Expiration best) || Before (cand_Expiration curr) (cand_Expiration best)
      then true
      else if After (cand_Expiration curr) (cand_Expiration best) then false
      else byName
    else byName.

Section selection.
Context (aiScores : gmap UUID Z) (lastByTea : gmap UUID Time) (now : Time).

Definition totalScore (c : Candidate) : Z :=
  clampedAIScore aiScores (cand_ID c)
  + recentPenalty lastByTea (cand_ID c) now
  + expirationBonus (cand_Expiration c) now.

(** One iteration of the loop over the candidates. *)
Definition selectStep (candidates : list Candidate) (st : Candidate * Z) (c : Candidate)
    : Candidate * Z :=
  let '(best, bestScore) := st in
  let score := totalScore c in
  if bool_decide (cand_ID best = uuid_Nil)
     || betterCandidate c score best bestScore candidates
  then (c, score) else (best, bestScore).

Definition selectLoop (candidates : list Candidate) : Candidate * Z :=
  fold_left (selectStep candidates) candidates (noCandidate, initialBestScore).

Definition SelectBest (candidates : list Candidate) : UUID * Z :=
  let '(best, bestScore) := selectLoop candidates in (cand_ID best, bestScore).
End selection.

(** ** Selection with logging *)
Record LogEntry : Type := mkLogEntry {
  log_msg : string;
  log_name : string;
  log_id : UUID;
  log_aiRaw : Z;
  log_aiClamped : Z;
  log_recentPenalty : Z;
  log_expirationBonus : Z;
  log_total : Z;
  log_lastConsumption : string;
  log_expiration : string }.

Section logging.
(** [t.Format(time.RFC3339)]. *)
Context (FormatRFC3339 : Time → string).
Context (aiScores : gmap UUID Z) (lastByTea : gmap UUID Time) (now : Time).
(** Whether [logf] is non-nil. *)
Context (logf : bool).

Definition formatTimeRFC3339OrDash (t : Time) : string :=
  if IsZero t then "-" else FormatRFC3339 t.

Definition logEntryFor (msg : string) (c : Candidate) (total : Z) : LogEntry :=
  mkLogEntry msg (cand_Name c) (cand_ID c)
    (default 0 (aiScores !! cand_ID c))
    (clampedAIScore aiScores (cand_ID c))
    (recentPenalty lastByTea (cand_ID c) now)
    (expirationBonus (cand_Expiration c) now)
    total
    (formatTimeRFC3339OrDash (default 0 (lastByTea !! cand_ID c)))
    (formatTimeRFC3339OrDash (cand_Expiration c)).

Definition selectLogStep (candidates : list Candidate)
    (st : Candidate * Z * list LogEntry) (c : Candidate) : Candidate * Z * list LogEntry :=
  let '(best, bestScore, logs) := st in
  let aiClamped := clampedAIScore aiScores (cand_ID c) in
  let recent := recentPenalty lastByTea (cand_ID c) now in
  let expBonus := expirationBonus (cand_Expiration c) now in
  let total := aiClamped + recent + expBonus in
  let logs' := if logf then logs ++ [logEntryFor "tea_of_day candidate" c total] else logs in
  if bool_decide (cand_ID best = uuid_Nil)
     || betterCandidate c total best bestScore candidates
  then (c, total, logs') else (best, bestScore, logs').

Definition SelectBestWithLogging (candidates : list Candidate) : UUID * Z * list LogEntry :=
  let '(best, bestScore, logs) :=
    fold_left (selectLogStep candidates) candidates (noCandidate, initialBestScore, []) in
  let logs' :=
    if logf && negb (bool_decide (cand_ID best = uuid_Nil)) then
      let aiClamped := clampedAIScore aiScores (cand_ID best) in
      let recent := recentPenalty lastByTea (cand_ID best) now in
      let expBonus := expirationBonus (cand_Expiration best) now in
      logs ++ [logEntryFor "tea_of_day selected" best (aiClamped + recent + expBonus)]
    else logs in
  (cand_ID best, bestScore, logs').
End logging.

(** ** Bounds of the terms *)
Lemma clampedAIScore_bounds m id : aiScoreMin <= clampedAIScore m id <= aiScoreMax.
Proof.
  unfold clampedAIScore, aiScoreMin, aiScoreMax.
  destruct (m !! id) as [v|]; [|lia].
  destruct (Z.ltb_spec v 0); [lia|]. destruct (Z.ltb_spec 15 v); lia.
Qed.

Lemma recentPenalty_bounds m id now : - penaltyWithin24h <= recentPenalty m id now <= 0.
Proof.
  unfold recentPenalty, penaltyWithin24h, penaltyWithin48h.
  destruct (m !! id); [|lia]. repeat case_match; lia.
Qed.

Lemma expirationBonus_bounds e now : 0 <= expirationBonus e now <= bonusExpSoon.
Proof.
  unfold expirationBonus, bonusExpSoon, bonusExpUpcoming. repeat case_match; lia.
Qed.

Lemma totalScore_bounds ai lb now c : -5 <= totalScore ai lb now c <= 18.
Proof.
  unfold totalScore.
  pose proof (clampedAIScore_bounds ai (cand_ID c)).
  pose proof (recentPenalty_bounds lb (cand_ID c) now).
  pose proof (expirationBonus_bounds (cand_Expiration c) now).
  unfold aiScoreMin, aiScoreMax, penaltyWithin24h, bonusExpSoon in *. lia.
Qed.

(** ** The selection loop *)
Definition nonNilIDs (cands : list Candidate) : Prop :=
  ∀ c, c ∈ cands -> cand_ID c ≠ uuid_Nil.

Lemma betterCandidate_score c sc best sb cands :
  betterCandidate c sc best sb cands = true -> sb <= sc.
Proof.
  unfold betterCandidate. destruct (Z.ltb_spec sb sc); [lia|].
  destruct (Z.ltb_spec sc sb); [done|lia].
Qed.

Lemma betterCandidate_score_not c sc best sb cands :
  betterCandidate c sc best sb cands = false -> sc <= sb.
Proof. unfold betterCandidate. destruct (Z.ltb_spec sb sc); [done|lia]. Qed.

Section loop.
Context (aiScores : gmap UUID Z) (lastByTea : gmap UUID Time) (now : Time).
Abbreviation total := (totalScore aiScores lastByTea now).
Abbreviation step := (selectStep aiScores lastByTea now).

(** Induction over the loop: [P seen best] is kept by an iteration that takes
    the next candidate and by one that keeps the best so far. *)
Lemma selectLoop_ind (cands : list Candidate) (P : list Candidate → Candidate → Prop) :
  nonNilIDs cands ->
  (∀ c, c ∈ cands -> P [c] c) ->
  (∀ seen best c, best ∈ cands -> c ∈ cands -> best ∈ seen -> P seen best ->
     betterCandidate c (total c) best (total best) cands = true -> P (seen ++ [c]) c) ->
  (∀ seen best c, best ∈ cands -> c ∈ cands -> best ∈ seen -> P seen best ->
     betterCandidate c (total c) best (total best) cands = false -> P (seen ++ [c]) best) ->
  cands ≠ [] ->
  ∃ best, selectLoop aiScores lastByTea now cands = (best, total best)
          ∧ best ∈ cands ∧ P cands best.
Proof.
  intros Hnil Hone Htake Hkeep Hne.
  assert (∀ seen rest best, seen ++ rest = cands -> best ∈ seen -> P seen best ->
    ∃ best', fold_left (step cands) rest (best, total best) = (best', total best')
             ∧ best' ∈ cands ∧ P cands best') as Hgo.
  { intros seen rest. revert seen.
    induction rest as [|c rest IH]; intros seen best Heq Hin HP; simpl.
    { rewrite app_nil_r in Heq. subst. eauto. }
    assert (best ∈ cands) as Hb by (subst; set_solver).
    assert (c ∈ cands) as Hc by (subst; set_solver).
    rewrite bool_decide_eq_false_2 by (by apply Hnil). simpl.
    destruct (betterCandidate c (total c) best (total best) cands) eqn:E.
    - apply (IH (seen ++ [c])); [by rewrite <-app_assoc|set_solver|eauto].
    - apply (IH (seen ++ [c])); [by rewrite <-app_assoc|set_solver|eauto]. }
  assert (∃ c rest, cands = c :: rest) as (c & rest & Ec) by (destruct cands; eauto; done).
  unfold selectLoop.
  replace (fold_left (step cands) cands (noCandidate, initialBestScore))
    with (fold_left (step cands) rest (c, total c)).
  - apply (Hgo [c]); [by rewrite Ec|set_solver|apply Hone; rewrite Ec; set_solver].
  - transitivity (fold_left (step cands) (c :: rest) (noCandidate, initialBestScore)); [done|by rewrite <-Ec].
Qed.

Lemma SelectBest_max cands :
  nonNilIDs cands -> cands ≠ [] ->
  ∃ best, best ∈ cands ∧ SelectBest aiScores lastByTea now cands = (cand_ID best, total best)
          ∧ ∀ c, c ∈ cands -> total c <= total best.
Proof.
  intros Hnil Hne.
  destruct (selectLoop_ind cands (λ seen best, ∀ c, c ∈ seen -> total c <= total best))
    as (best & Hl & Hin & Hmax); try done.
  - intros c _ c' ->%list_elem_of_singleton. lia.
  - intros seen best c _ _ _ HP Hbet%betterCandidate_score c' [Hc'| ->%list_elem_of_singleton]%elem_of_app;
      [specialize (HP c' Hc')|]; lia.
  - intros seen best c _ _ _ HP Hbet%betterCandidate_score_not c' [Hc'| ->%list_elem_of_singleton]%elem_of_app;
      [specialize (HP c' Hc')|]; lia.
  - exists best. split; [done|]. split; [|done]. unfold SelectBest. by rewrite Hl.
Qed.
End loop.

(** ** The intended order of candidates

    Higher total first, then the earlier expiration, then the smaller name. *)
Section ranking.
Context (aiScores : gmap UUID Z) (lastByTea : gmap UUID Time) (now : Time).
Abbreviation total := (totalScore aiScores lastByTea now).

Definition outranks (c d : Candidate) : Prop :=
  total d < total c ∨
  (total c = total d ∧
    (cand_Expiration c < cand_Expiration d ∨
      (cand_Expiration c = cand_Expiration d ∧ str_ltb (cand_Name c) (cand_Name d) = true))).

(** Either every candidate has a known expiration or none has. *)
Definition uniformExpiry (cands : list Candidate) : Prop :=
  (∀ c, c ∈ cands -> IsZero (cand_Expiration c) = false) ∨
  (∀ c, c ∈ cands -> IsZero (cand_Expiration c) = true).

Lemma outranks_trans c d e : outranks c d -> outranks d e -> outranks c e.
Proof.
  unfold outranks. intros [?|[? [?|[? H1]]]] [?|[? [?|[? H2]]]]; try lia;
    try (right; split; [lia|]; left; lia).
  right. split; [lia|]. right. split; [lia|]. by eapply str_ltb_trans.
Qed.

Lemma outranks_asym c d : outranks c d -> ¬ outranks d c.
Proof.
  unfold outranks. intros [?|[? [?|[? H1]]]] [?|[? [?|[? H2]]]]; try lia.
  apply str_ltb_asym in H1. congruence.
Qed.

Lemma outranks_total c d :
  ¬ outranks c d -> ¬ outranks d c -> total c = total d ∧ cand_Name c = cand_Name d.
Proof.
  unfold outranks. intros H1 H2.
  assert (total c = total d) as Ht by lia.
  assert (cand_Expiration c = cand_Expiration d) as He by lia.
  split; [done|]. apply str_ltb_total; apply not_true_is_false; intros Hn;
    [apply H1|apply H2]; right; (split; [lia|]); right; (split; [lia|done]).
Qed.

Lemma candidateName_lookup cands c :
  NoDup (cand_ID <$> cands) -> c ∈ cands -> candidateName cands (cand_ID c) = cand_Name c.
Proof.
  induction cands as [|d cands IH]; [set_solver|]. simpl.
  intros [Hd Hnd]%NoDup_cons [->|Hc]%elem_of_cons; [by rewrite decide_True|].
  rewrite decide_False; [by apply IH|]. intros Heq. apply Hd. rewrite Heq.
  by apply list_elem_of_fmap_2.
Qed.

Lemma betterCandidate_outranks cands c d :
  NoDup (cand_ID <$> cands) -> uniformExpiry cands -> c ∈ cands -> d ∈ cands ->
  betterCandidate c (total c) d (total d) cands = true <-> outranks c d.
Proof.
  intros Hnd Hu Hc Hd. unfold betterCandidate, outranks.
  rewrite (candidateName_lookup _ _ Hnd Hd).
  destruct (Z.ltb_spec (total d) (total c)); [split; [by left|done]|].
  destruct (Z.ltb_spec (total c) (total d)); [split; [done|lia]|].
  destruct Hu as [Hu|Hu]; rewrite (Hu c Hc); simpl.
  - rewrite (Hu d Hd). simpl. unfold Before, After.
    destruct (Z.ltb_spec (cand_Expiration c) (cand_Expiration d)); [split; [lia|done]|].
    destruct (Z.ltb_spec (cand_Expiration d) (cand_Expiration c)); [split; [done|lia]|].
    split; [intros ?; right; split; [lia|right; split; [lia|done]]|].
    intros [?|[? [?|[? ?]]]]; try lia. done.
  - pose proof (Hu c Hc) as Ec. pose proof (Hu d Hd) as Ed.
    unfold IsZero in Ec, Ed. apply Z.eqb_eq in Ec, Ed.
    split; [intros ?; right; split; [lia|right; split; [lia|done]]|].
    intros [?|[? [?|[? ?]]]]; try lia. done.
Qed.

(** The winner is a candidate nobody outranks. *)
Lemma SelectBest_unbeaten cands :
  nonNilIDs cands -> NoDup (cand_ID <$> cands) -> uniformExpiry cands -> cands ≠ [] ->
  ∃ best, best ∈ cands ∧ SelectBest aiScores lastByTea now cands = (cand_ID best, total best)
          ∧ ∀ c, c ∈ cands -> ¬ outranks c best.
Proof.
  intros Hnil Hnd Hu Hne.
  destruct (selectLoop_ind aiScores lastByTea now cands
    (λ seen best, seen ⊆ cands -> ∀ c, c ∈ seen -> ¬ outranks c best))
    as (best & Hl & Hin & Hmax); try done.
  - intros c _ _ c' ->%list_elem_of_singleton Ho. by eapply outranks_asym.
  - intros seen best c Hb Hc Hs HP Hbet%betterCandidate_outranks Hsub c' Hc'; [|done..].
    intros Ho. apply elem_of_app in Hc' as [Hc'| ->%list_elem_of_singleton].
    + eapply HP; [set_solver|done|]. by eapply outranks_trans.
    + by eapply outranks_asym.
  - intros seen best c Hb Hc Hs HP Hbet Hsub c' Hc'.
    apply elem_of_app in Hc' as [Hc'| ->%list_elem_of_singleton].
    + apply HP; [set_solver|done].
    + rewrite <-(betterCandidate_outranks cands) by done. by rewrite Hbet.
  - exists best. split; [done|]. split; [|by apply Hmax].
    unfold SelectBest. by rewrite Hl.
Qed.
End ranking.

(** ** The logging variant runs the same loop *)
Lemma selectLogStep_fold fmt ai lb now logf cands l st logs :
  (fold_left (selectLogStep fmt ai lb now logf cands) l (st, logs)).1
  = fold_left (selectStep ai lb now cands) l st
  ∧ (fold_left (selectLogStep fmt ai lb now logf cands) l (st, logs)).2
  = if logf then
      logs ++ ((λ c, logEntryFor fmt ai lb now "tea_of_day candidate" c (totalScore ai lb now c)) <$> l)
    else logs.
Proof.
  revert st logs. induction l as [|c l IH]; intros [best bs] logs; simpl.
  { destruct logf; [by rewrite app_nil_r|done]. }
  fold (totalScore ai lb now c).
  destruct (_ || _); rewrite !(proj1 (IH _ _)), !(proj2 (IH _ _));
    (split; [done|]); destruct logf; try done; by rewrite <-app_assoc.
Qed.

(** ** Properties *)

(** Logging does not change the choice. *)
Lemma SelectBestWithLogging_choice fmt ai lb now logf cands :
  (SelectBestWithLogging fmt ai lb now logf cands).1 = SelectBest ai lb now cands.
Proof.
  unfold SelectBestWithLogging, SelectBest, selectLoop.
  destruct (selectLogStep_fold fmt ai lb now logf cands cands (noCandidate, initialBestScore) [])
    as [Hfold _].
  destruct (fold_left (selectLogStep _ _ _ _ _ _) _ _) as [[best score] logs]. simpl in Hfold.
  by rewrite <-Hfold.
Qed.

(** C16: on a non-empty list of candidates with proper IDs, [SelectBest] returns
    the ID and the total score of one of the candidates, no candidate has a
    higher total, and the total lies between -5 and 18, so the initial score of
    minus two to the thirtieth never survives the loop. *)
Theorem SelectBest_picks_a_maximum aiScores lastByTea now cands :
  nonNilIDs cands -> cands ≠ [] ->
  ∃ best, best ∈ cands
    ∧ SelectBest aiScores lastByTea now cands = (cand_ID best, totalScore aiScores lastByTea now best)
    ∧ (∀ c, c ∈ cands ->
         totalScore aiScores lastByTea now c <= totalScore aiScores lastByTea now best)
    ∧ -5 <= totalScore aiScores lastByTea now best <= 18.
Proof.
  intros Hnil Hne. destruct (SelectBest_max aiScores lastByTea now cands Hnil Hne) as (b & ? & ? & ?).
  exists b. auto using totalScore_bounds.
Qed.

(** C36: when the candidates have distinct IDs and distinct names and either all
    or none of them has an expiration date, the selected tea does not depend on
    the order in which the records were aggregated. *)
Theorem SelectBest_order_independent aiScores lastByTea now cands1 cands2 :
  cands1 ≡ₚ cands2 ->
  nonNilIDs cands1 -> NoDup (cand_ID <$> cands1) -> NoDup (cand_Name <$> cands1) ->
  uniformExpiry cands1 ->
  SelectBest aiScores lastByTea now cands1 = SelectBest aiScores lastByTea now cands2.
Proof.
  intros HP Hnil Hid Hname Hu.
  destruct (decide (cands1 = [])) as [->|Hne]; [by apply Permutation_nil_l in HP as ->|].
  assert (cands2 ≠ []) as Hne2 by (intros ->; by apply Permutation_nil_r in HP).
  destruct (SelectBest_unbeaten aiScores lastByTea now cands1) as (b1 & Hb1 & -> & Hu1); try done.
  destruct (SelectBest_unbeaten aiScores lastByTea now cands2) as (b2 & Hb2 & -> & Hu2); try done.
  { intros c Hc. apply Hnil. by rewrite HP. }
  { by rewrite <-HP. }
  { destruct Hu as [Hu|Hu]; [left|right]; intros c Hc; apply Hu; by rewrite HP. }
  destruct (outranks_total aiScores lastByTea now b1 b2) as [_ Hn].
  { apply Hu2. by rewrite <-HP. }
  { apply Hu1. by rewrite HP. }
  rewrite <-HP in Hb2.
  assert (b1 = b2) as ->; [|done].
  apply list_elem_of_lookup in Hb1 as [i Hi]. apply list_elem_of_lookup in Hb2 as [j Hj].
  assert (i = j) as ->; [|congruence].
  apply (NoDup_lookup _ i j (cand_Name b1) Hname); rewrite list_lookup_fmap, ?Hi, ?Hj; simpl; congruence.
Qed.

(** The logging variant returns exactly what [SelectBest] returns; it logs
    nothing without a logger, and with one it logs every candidate in order
    with its total score and then the selected tea, if there is one. *)
Theorem SelectBestWithLogging_equiv fmt aiScores lastByTea now logf cands :
  let '(id, score, logs) := SelectBestWithLogging fmt aiScores lastByTea now logf cands in
  (id, score) = SelectBest aiScores lastByTea now cands
  ∧ (logf = false -> logs = [])
  ∧ (logf = true ->
       ((λ e, (log_id e, log_total e)) <$> logs)
       = ((λ c, (cand_ID c, totalScore aiScores lastByTea now c)) <$> cands)
         ++ (if bool_decide (id = uuid_Nil) then []
             else [(id, totalScore aiScores lastByTea now
                          (selectLoop aiScores lastByTea now cands).1)])).
Proof.
  unfold SelectBestWithLogging, SelectBest, selectLoop.
  destruct (selectLogStep_fold fmt aiScores lastByTea now logf cands cands
              (noCandidate, initialBestScore) []) as [H1 H2].
  destruct (fold_left (selectLogStep _ _ _ _ _ _) _ _) as [[best sc] logs]; simpl in *.
  rewrite <-H1. simpl. split; [done|]. subst logs. split.
  - by intros ->.
  - intros ->. simpl. destruct (bool_decide (cand_ID best = uuid_Nil)); simpl.
    + by rewrite app_nil_r, <-list_fmap_compose.
    + by rewrite fmap_app, <-list_fmap_compose.
Qed.

(** The condition on expiration dates cannot be dropped. With equal scores
    and only one known expiration date, the tie is broken by the date in one
    iteration order and by the name in the other, so the selected tea depends
    on the order of the candidates. *)
Theorem SelectBest_mixed_expiry_order_dependent :
  ∃ aiScores lastByTea now cands1 cands2,
    cands1 ≡ₚ cands2 ∧ nonNilIDs cands1
    ∧ NoDup (cand_ID <$> cands1) ∧ NoDup (cand_Name <$> cands1)
    ∧ SelectBest aiScores lastByTea now cands1 ≠ SelectBest aiScores lastByTea now cands2.
Proof.
  set (a := mkCandidate 1%N "zen" (unixEpoch + 100 * 24 * Hour)).
  set (b := mkCandidate 2%N "assam" 0).
  exists ∅, ∅, unixEpoch, [a; b], [b; a].
  split; [apply perm_swap|]. split.
  { unfold nonNilIDs. rewrite <-Forall_forall. by apply (bool_decide_unpack _). }
  split; [by apply (bool_decide_unpack _)|]. split; [by apply (bool_decide_unpack _)|].
  vm_compute. discriminate.
Qed.

(** ** Witnesses *)
Definition witnessTeas : list Candidate :=
  [mkCandidate 1%N "sencha" (unixEpoch + 3 * 24 * Hour);
   mkCandidate 2%N "assam" (unixEpoch + 60 * 24 * Hour);
   mkCandidate 3%N "oolong" (unixEpoch + 20 * 24 * Hour)].

Lemma SelectBest_picks_a_maximum_witness :
  ∃ best, best ∈ witnessTeas
    ∧ SelectBest {[2%N := 12; 3%N := 40]} {[3%N := unixEpoch - Hour]} unixEpoch witnessTeas
      = (cand_ID best, totalScore {[2%N := 12; 3%N := 40]} {[3%N := unixEpoch - Hour]} unixEpoch best)
    ∧ (∀ c, c ∈ witnessTeas ->
         totalScore {[2%N := 12; 3%N := 40]} {[3%N := unixEpoch - Hour]} unixEpoch c
         <= totalScore {[2%N := 12; 3%N := 40]} {[3%N := unixEpoch - Hour]} unixEpoch best)
    ∧ -5 <= totalScore {[2%N := 12; 3%N := 40]} {[3%N := unixEpoch - Hour]} unixEpoch best <= 18.
Proof.
  apply (SelectBest_picks_a_maximum _ _ _ witnessTeas); [|discriminate].
  unfold nonNilIDs. rewrite <-Forall_forall. by apply (bool_decide_unpack _).
Defined.

Lemma SelectBest_order_independent_witness :
  SelectBest {[2%N := 12]} ∅ unixEpoch witnessTeas
  = SelectBest {[2%N := 12]} ∅ unixEpoch (reverse witnessTeas).
Proof.
  apply (SelectBest_order_independent _ _ _ witnessTeas).
  - by rewrite reverse_Permutation.
  - unfold nonNilIDs. rewrite <-Forall_forall. by apply (bool_decide_unpack _).
  - by apply (bool_decide_unpack _).
  - by apply (bool_decide_unpack _).
  - left. rewrite <-Forall_forall. by apply (bool_decide_unpack _).
Defined.
