(* ===== verification/Models.v ===== *)
(** The GraphQL models and their conversions: src/pkg/api/v2/models and
    src/pkg/api/v2/common.

    The list-valued fields [Tags], [Records] and [Collections] are filled by
    field resolvers and never by the code that builds these records, so the
    records leave them out. *)

From stdpp Require Import base gmap list strings.
From Stdlib Require Import ZArith Lia.
From S2P Require Import Prelude GoTime Common.

(** ** Enumerations (models_gen.go) *)
Definition gqlType : Type := string.
Definition TypeUnknown : gqlType := "unknown".
Definition TypeTea : gqlType := "tea".
Definition TypeCoffee : gqlType := "coffee".
Definition TypeHerb : gqlType := "herb".
Definition TypeOther : gqlType := "other".

Definition AllType : list gqlType := [TypeUnknown; TypeTea; TypeCoffee; TypeHerb; TypeOther].

Definition gqlType_IsValid (e : gqlType) : bool :=
  String.eqb e TypeUnknown || String.eqb e TypeTea || String.eqb e TypeCoffee
  || String.eqb e TypeHerb || String.eqb e TypeOther.

Definition gqlNotificationType : Type := string.
Definition gqlNotificationTypeUnknown : gqlNotificationType := "unknown".
Definition gqlNotificationTypeTeaExpiration : gqlNotificationType := "teaExpiration".
Definition gqlNotificationTypeTeaRecommendation : gqlNotificationType := "teaRecommendation".

Definition AllNotificationType : list gqlNotificationType :=
  [gqlNotificationTypeUnknown; gqlNotificationTypeTeaExpiration;
   gqlNotificationTypeTeaRecommendation].

Definition gqlNotificationType_IsValid (e : gqlNotificationType) : bool :=
  String.eqb e gqlNotificationTypeUnknown || String.eqb e gqlNotificationTypeTeaExpiration
  || String.eqb e gqlNotificationTypeTeaRecommendation.

(** A decoded GraphQL input value: a string or something else. *)
Inductive gqlValue : Type :=
  | VString (s : string)
  | VOther (type_name : string).

(** [UnmarshalGQL] overwrites the receiver before it validates it, so an invalid
    string is both stored and reported. The result pairs the receiver's new
    value with the error. *)
Definition enum_UnmarshalGQL (IsValid : string -> bool) (type_name : string)
    (e : string) (v : gqlValue) : string * option GoError :=
  match v with
  | VString str =>
      (str, if IsValid str then None
            else Some (EForeign (str +:+ " is not a valid " +:+ type_name)))
  | VOther _ => (e, Some (EForeign "enums must be strings"))
  end.

Definition gqlType_UnmarshalGQL := enum_UnmarshalGQL gqlType_IsValid "Type".
Definition gqlNotificationType_UnmarshalGQL :=
  enum_UnmarshalGQL gqlNotificationType_IsValid "NotificationType".

(** ** Conversions of beverage types (tea.go) *)
Definition FromBeverageType (bt : BeverageType) : gqlType :=
  if decide (bt = TeaBeverageType) then TypeTea
  else if decide (bt = HerbBeverageType) then TypeHerb
  else if decide (bt = CoffeeBeverageType) then TypeCoffee
  else if decide (bt = OtherBeverageType) then TypeOther
  else TypeOther.

Definition ToBeverageType (t : gqlType) : BeverageType :=
  if String.eqb t TypeTea then TeaBeverageType
  else if String.eqb t TypeHerb then HerbBeverageType
  else if String.eqb t TypeCoffee then CoffeeBeverageType
  else if String.eqb t TypeOther then OtherBeverageType
  else if String.eqb t TypeUnknown then OtherBeverageType
  else OtherBeverageType.

(** [NotificationType.FromCommon] (notification.go). *)
Definition NotificationType_FromCommon (data : NotificationType) : gqlNotificationType :=
  if Z.eqb data NotificationTypeTeaExpiration then gqlNotificationTypeTeaExpiration
  else if Z.eqb data NotificationTypeTeaRecommendation then gqlNotificationTypeTeaRecommendation
  else gqlNotificationTypeUnknown.

(** ** Records *)
Record gqlTea : Type := mkGqlTea {
  gt_ID : UUID; gt_Name : string; gt_Type : gqlType; gt_Description : string }.

Record gqlTeaData : Type := mkGqlTeaData {
  gtd_Name : string; gtd_Type : gqlType; gtd_Description : string }.

Record gqlQRRecord : Type := mkGqlQRRecord {
  gqr_ID : UUID; gqr_Tea : gqlTea; gqr_BowlingTemp : Z; gqr_ExpirationDate : Time }.

Record gqlQRRecordData : Type := mkGqlQRRecordData {
  gqd_Tea : UUID; gqd_BowlingTemp : Z; gqd_ExpirationDate : Time }.

Record gqlCollection : Type := mkGqlCollection {
  gcol_ID : UUID; gcol_Name : string; gcol_UserID : UUID }.

Record gqlTagCategory : Type := mkGqlTagCategory { gtc_ID : UUID; gtc_Name : string }.

Record gqlTag : Type := mkGqlTag {
  gtag_ID : UUID; gtag_Name : string; gtag_Color : string;
  gtag_Category : option gqlTagCategory }.

Record gqlSession : Type := mkGqlSession { gs_Token : string; gs_ExpiredAt : Time }.

Record gqlTeaOfTheDay : Type := mkGqlTeaOfTheDay { tod_Tea : gqlQRRecord; tod_Date : Time }.

#[export] Instance gqlTea_eq_dec : EqDecision gqlTea.
Proof. solve_decision. Defined.
#[export] Instance gqlQRRecord_eq_dec : EqDecision gqlQRRecord.
Proof. solve_decision. Defined.
#[export] Instance gqlTeaOfTheDay_eq_dec : EqDecision gqlTeaOfTheDay.
Proof. solve_decision. Defined.
#[export] Instance gqlTagCategory_eq_dec : EqDecision gqlTagCategory.
Proof. solve_decision. Defined.
#[export] Instance gqlTag_eq_dec : EqDecision gqlTag.
Proof. solve_decision. Defined.
#[export] Instance gqlCollection_eq_dec : EqDecision gqlCollection.
Proof. solve_decision. Defined.

(** ** Conversions of teas (tea.go) *)
Definition FromCommonTea (source : Tea) : gqlTea :=
  mkGqlTea (tea_ID source) (td_Name (tea_Data source))
    (FromBeverageType (td_Type (tea_Data source))) (td_Description (tea_Data source)).

Definition ToCommonTea (t : gqlTea) : Tea :=
  mkTea (gt_ID t) (mkTeaData (gt_Name t) (ToBeverageType (gt_Type t)) (gt_Description t)).

Definition ToCommonTeaData (t : gqlTeaData) : TeaData :=
  mkTeaData (gtd_Name t) (ToBeverageType (gtd_Type t)) (gtd_Description t).

(** ** The ID scalar (src/pkg/api/v2/common/uuid.go) *)
Section ID.
(** [uuid.UUID.String] and [uuid.Parse] of github.com/google/uuid. *)
Context (uuid_String : UUID → string) (uuid_Parse : string → GoError + UUID).

Definition ID_MarshalGQL (id : UUID) : string :=
  let quote := String (Ascii.ascii_of_nat 34) EmptyString in
  quote +:+ uuid_String id +:+ quote.

(** The receiver is only written on success. *)
Definition ID_UnmarshalGQL (id : UUID) (v : gqlValue) : UUID * option GoError :=
  match v with
  | VString s =>
      match uuid_Parse s with
      | inl err => (id, Some (EWrap "parse uuid" err))
      | inr u => (u, None)
      end
  | VOther type_name => (id, Some (EWrapSuffix (ESentinel ErrNotString) type_name))
  end.
End ID.

(** ** Lemmas *)
Lemma FromBeverageType_label bt : FromBeverageType bt = BeverageType_String bt.
Proof.
  destruct (decide (declared_BeverageType bt)) as [H|H].
  - unfold declared_BeverageType in H.
    assert (bt = 0 ∨ bt = 1 ∨ bt = 2 ∨ bt = 3)%Z as [->|[->|[->| ->]]] by lia; reflexivity.
  - rewrite (BeverageType_String_undeclared bt H). unfold FromBeverageType.
    unfold declared_BeverageType in H.
    unfold TeaBeverageType, HerbBeverageType, CoffeeBeverageType, OtherBeverageType.
    rewrite !decide_False by lia. done.
Qed.

Lemma ToBeverageType_label t : ToBeverageType t = StringToBeverageType t.
Proof.
  unfold ToBeverageType, TypeTea, TypeHerb, TypeCoffee, TypeOther, TypeUnknown.
  destruct (String.eqb_spec t "tea") as [->|H1]; [reflexivity|].
  destruct (String.eqb_spec t "herb") as [->|H2]; [reflexivity|].
  destruct (String.eqb_spec t "coffee") as [->|H3]; [reflexivity|].
  assert (StringToBeverageType t = OtherBeverageType) as ->.
  - destruct (String.eqb_spec t "other") as [->|H4]; [reflexivity|].
    apply (StringToBeverageType_range_spec _ t BeverageTypeStringMap_labels_NoDup).
    assert ((map_to_list BeverageTypeStringMap).*2 ⊆ ["tea"; "herb"; "coffee"; "other"]) as Hsub.
    { unfold subseteq, list_subseteq. rewrite <-Forall_forall. by apply (bool_decide_unpack _). }
    intros Hin%Hsub. set_solver.
  - by repeat case_match.
Qed.

Lemma ToBeverageType_declared t : declared_BeverageType (ToBeverageType t).
Proof. rewrite ToBeverageType_label. apply StringToBeverageType_declared. Qed.

Lemma ToCommonTea_FromCommonTea tea :
  declared_BeverageType (td_Type (tea_Data tea)) -> ToCommonTea (FromCommonTea tea) = tea.
Proof.
  destruct tea as [id [name ty descr]]. unfold ToCommonTea, FromCommonTea. simpl. intros H.
  by rewrite FromBeverageType_label, ToBeverageType_label, BeverageType_String_roundtrip.
Qed.

#[export] Hint Resolve ToBeverageType_declared : go.

(** ** Properties *)

(** The GraphQL type of a beverage is exactly the label the database stores
    for it, for every value of the Go type; it is a valid GraphQL type; a valid
    GraphQL type comes back from the domain as itself, except that "unknown"
    comes back as "other"; and a tea of a declared type survives the round
    trip through its GraphQL model. *)
Theorem gql_types_agree_with_labels :
  (∀ bt, FromBeverageType bt = BeverageType_String bt
         ∧ gqlType_IsValid (FromBeverageType bt) = true) ∧
  (∀ t, gqlType_IsValid t = true ->
     FromBeverageType (ToBeverageType t) = if String.eqb t TypeUnknown then TypeOther else t) ∧
  (∀ tea, declared_BeverageType (td_Type (tea_Data tea)) -> ToCommonTea (FromCommonTea tea) = tea).
Proof.
  split; [|split; [|exact ToCommonTea_FromCommonTea]].
  - intros bt. split; [apply FromBeverageType_label|].
    unfold FromBeverageType. by repeat case_decide.
  - intros t Ht. unfold gqlType_IsValid in Ht. rewrite !orb_true_iff, !String.eqb_eq in Ht.
    by destruct Ht as [[[[->| ->]| ->]| ->]| ->].
Qed.
