(* ===== verification/KeyBuilder.v ===== *)
(** The key layouts of the key-value store: src/common/key_value/key_builder.

    A key is a list of bytes, a byte is an integer between 0 and 255. The
    package-level index prefixes have no spare capacity, so [append] on them
    always copies and no two keys share memory. *)

From Stdlib Require Import ZArith Lia Ascii.
From stdpp Require Import base gmap list strings.
From S2P Require Import Prelude GoTime Common.

Local Open Scope Z_scope.

(** ** Bytes *)
Definition bytes : Type := list Z.

Definition byte_of (c : Ascii.ascii) : Z := Z.of_N (Ascii.N_of_ascii c).

(** [[]byte(s)]. *)
Fixpoint string_bytes (s : string) : bytes :=
  match s with
  | EmptyString => []
  | String c s' => byte_of c :: string_bytes s'
  end.

(** The [n] low bytes of [z], most significant first. *)
Fixpoint be_bytes (n : nat) (z : Z) : bytes :=
  match n with
  | O => []
  | S n' => (z / 256 ^ Z.of_nat n') mod 256 :: be_bytes n' z
  end.

Fixpoint be_to_Z (l : bytes) : Z :=
  match l with
  | [] => 0
  | b :: l' => b * 256 ^ Z.of_nat (length l') + be_to_Z l'
  end.

(** [id[:]] and the copy back into a [uuid.UUID]. *)
Definition uuid_bytes (u : UUID) : bytes := be_bytes 16 (Z.of_N u).
Definition uuid_of_bytes (l : bytes) : UUID := Z.to_N (be_to_Z l).

(** ** prefix.go *)
Definition kp_version : Z := byte_of "v"%char.
Definition kp_record : Z := byte_of "r"%char.
Definition kp_qr : Z := byte_of "q"%char.
Definition kp_tagCategory : Z := byte_of "c"%char.
Definition kp_tag : Z := byte_of "t"%char.
Definition kp_collection : Z := byte_of "l"%char.
Definition kp_user : Z := byte_of "u"%char.
Definition kp_notification : Z := byte_of "o"%char.
Definition kp_device : Z := byte_of "d"%char.
Definition kp_recordNameIndex : Z := byte_of "n"%char.

Definition tagCategoryIndexName : bytes := string_bytes "ic".
Definition tagIndexCategoryName : bytes := string_bytes "it".
Definition tagIndexName : bytes := string_bytes "in".
Definition tagIndexTea : bytes := string_bytes "ia".
Definition teaIndexTag : bytes := string_bytes "ib".
Definition collectionIndexTea : bytes := string_bytes "il".
Definition userIndexAppleID : bytes := string_bytes "ii".
Definition userIndexNotifications : bytes := string_bytes "iu".
Definition userIndexDevices : bytes := string_bytes "id".
Definition userIndexConsumption : bytes := string_bytes "ix".

(** ** builder.go *)
Definition appendPrefix (prefix : Z) (data : bytes) : bytes := prefix :: data.
Definition appendUUID (prefix : Z) (u : UUID) : bytes := appendPrefix prefix (uuid_bytes u).
Definition appendIndex (prefix data : bytes) : bytes := prefix ++ data.

Definition kb_Version : bytes := [kp_version].
Definition kb_Records : bytes := [kp_record].
Definition kb_Record (id : UUID) : bytes := appendUUID kp_record id.
Definition kb_RecordsByName (name : string) : bytes :=
  appendPrefix kp_recordNameIndex (string_bytes name).
Definition kb_QR (id : UUID) : bytes := appendUUID kp_qr id.
Definition kb_TagCategories : bytes := [kp_tagCategory].
Definition kb_TagCategory (id : UUID) : bytes := appendUUID kp_tagCategory id.
Definition kb_TagCategoryByName (name : string) : bytes :=
  appendIndex tagCategoryIndexName (string_bytes name).
Definition kb_Tags : bytes := [kp_tag].
Definition kb_Tag (id : UUID) : bytes := appendUUID kp_tag id.
Definition kb_TagsByName (name : string) : bytes := appendIndex tagIndexName (string_bytes name).
Definition kb_TagsByNameAndCategory (category : UUID) (name : string) : bytes :=
  appendIndex tagIndexCategoryName (uuid_bytes category ++ string_bytes name).
Definition kb_TagsByCategory (category : UUID) : bytes :=
  appendIndex tagIndexCategoryName (uuid_bytes category).
Definition kb_TagsByTea (tea : UUID) : bytes := appendIndex teaIndexTag (uuid_bytes tea).
Definition kb_TeasByTag (tag : UUID) : bytes := appendIndex tagIndexTea (uuid_bytes tag).
Definition kb_TagTeaPair (tag tea : UUID) : bytes :=
  appendIndex tagIndexTea (uuid_bytes tag ++ uuid_bytes tea).
Definition kb_TeaTagPair (tea tag : UUID) : bytes :=
  appendIndex teaIndexTag (uuid_bytes tea ++ uuid_bytes tag).
Definition kb_Collection (id userID : UUID) : bytes :=
  appendIndex (appendUUID kp_collection userID) (uuid_bytes id).
Definition kb_UserCollections (id : UUID) : bytes := appendUUID kp_collection id.
Definition kb_CollectionsTeas (id teaID : UUID) : bytes :=
  appendIndex collectionIndexTea (uuid_bytes id ++ uuid_bytes teaID).
Definition kb_RecordsByCollection (id : UUID) : bytes :=
  appendIndex collectionIndexTea (uuid_bytes id).
Definition kb_Users : bytes := [kp_user].
Definition kb_User (id : UUID) : bytes := appendUUID kp_user id.
Definition kb_UserByAppleID (id : string) : bytes :=
  appendIndex userIndexAppleID (string_bytes id).
Definition kb_Device (id : UUID) : bytes := appendUUID kp_device id.
Definition kb_DevicesByUserID (id : UUID) : bytes := appendIndex userIndexDevices (uuid_bytes id).
Definition kb_Notification (id : UUID) : bytes := appendUUID kp_notification id.
Definition kb_NotificationByUserID (id : UUID) : bytes :=
  appendIndex userIndexNotifications (uuid_bytes id).
Definition kb_ConsumptionByUserID (id : UUID) : bytes :=
  appendIndex userIndexConsumption (uuid_bytes id).

Definition uuidSize : nat := 16.
Definition timestampSize : nat := 8.

(** [uint64(ts.UnixNano())], big-endian, between the user's prefix and the tea. *)
Definition kb_ConsumptionKey (userID : UUID) (ts : Time) (teaID : UUID) : bytes :=
  kb_ConsumptionByUserID userID
  ++ be_bytes timestampSize (wrap_uint64 (UnixNano ts))
  ++ uuid_bytes teaID.

(** The byte-by-byte comparison with the prefix. *)
Fixpoint prefix_matches (prefix key : bytes) : bool :=
  match prefix, key with
  | [], _ => true
  | p :: prefix', k :: key' => if p =? k then prefix_matches prefix' key' else false
  | _ :: _, [] => false
  end.

Definition ParseConsumptionKey (prefix key : bytes) : option (Time * UUID) :=
  let need := (length prefix + timestampSize + uuidSize)%nat in
  if decide (length key < need)%nat then None
  else if negb (prefix_matches prefix key) then None
  else
    let u := be_to_Z (take timestampSize (drop (length prefix) key)) in
    let u := if int64_max <? u then int64_max else u in
    let ts := UnixNs u in
    let teaID := uuid_of_bytes (take uuidSize (drop (length prefix + timestampSize) key)) in
    Some (ts, teaID).

(** Bytewise lexicographic order, the order of keys in the store. *)
Fixpoint bytes_lt (a b : bytes) : Prop :=
  match a, b with
  | [], [] => False
  | [], _ :: _ => True
  | _ :: _, [] => False
  | x :: a', y :: b' => x < y ∨ (x = y ∧ bytes_lt a' b')
  end.

(** ** Every key the program reads or writes as a single entry *)
Inductive StorageKey : Type :=
  | SKVersion
  | SKRecord (id : UUID) | SKRecordByName (name : string)
  | SKQR (id : UUID)
  | SKTagCategory (id : UUID) | SKTagCategoryByName (name : string)
  | SKTag (id : UUID) | SKTagByName (name : string)
  | SKTagByNameAndCategory (category : UUID) (name : string)
  | SKTagTeaPair (tag tea : UUID) | SKTeaTagPair (tea tag : UUID)
  | SKCollection (id userID : UUID) | SKCollectionsTeas (id teaID : UUID)
  | SKUser (id : UUID) | SKUserByAppleID (id : string)
  | SKDevice (id : UUID) | SKDevicesByUserID (id : UUID)
  | SKNotification (id : UUID) | SKNotificationByUserID (id : UUID)
  | SKConsumption (userID : UUID) (ts : Time) (teaID : UUID).

Definition storage_key (k : StorageKey) : bytes :=
  match k with
  | SKVersion => kb_Version
  | SKRecord id => kb_Record id
  | SKRecordByName name => kb_RecordsByName name
  | SKQR id => kb_QR id
  | SKTagCategory id => kb_TagCategory id
  | SKTagCategoryByName name => kb_TagCategoryByName name
  | SKTag id => kb_Tag id
  | SKTagByName name => kb_TagsByName name
  | SKTagByNameAndCategory category name => kb_TagsByNameAndCategory category name
  | SKTagTeaPair tag tea => kb_TagTeaPair tag tea
  | SKTeaTagPair tea tag => kb_TeaTagPair tea tag
  | SKCollection id userID => kb_Collection id userID
  | SKCollectionsTeas id teaID => kb_CollectionsTeas id teaID
  | SKUser id => kb_User id
  | SKUserByAppleID id => kb_UserByAppleID id
  | SKDevice id => kb_Device id
  | SKDevicesByUserID id => kb_DevicesByUserID id
  | SKNotification id => kb_Notification id
  | SKNotificationByUserID id => kb_NotificationByUserID id
  | SKConsumption userID ts teaID => kb_ConsumptionKey userID ts teaID
  end.

(** The timestamps the program encodes: from the epoch to the year 2262. *)
Definition encodable (ts : Time) : Prop := 0 <= ts - unixEpoch <= int64_max.

(** The UUIDs of a key are sixteen bytes and its timestamp is encodable. *)
Definition storage_key_valid (k : StorageKey) : Prop :=
  match k with
  | SKVersion | SKRecordByName _ | SKTagCategoryByName _ | SKTagByName _
  | SKUserByAppleID _ => True
  | SKRecord id | SKQR id | SKTagCategory id | SKTag id | SKUser id | SKDevice id
  | SKDevicesByUserID id | SKNotification id | SKNotificationByUserID id => uuid_valid id
  | SKTagByNameAndCategory category _ => uuid_valid category
  | SKTagTeaPair a b | SKTeaTagPair a b | SKCollection a b | SKCollectionsTeas a b =>
      uuid_valid a ∧ uuid_valid b
  | SKConsumption u ts t => uuid_valid u ∧ encodable ts ∧ uuid_valid t
  end.

(** ** The prefixes the program scans, and the entries each scan is meant to
    return *)
Inductive ScanPrefix : Type :=
  | SPRecords | SPTagCategories | SPTags | SPUsers
  | SPTagsByCategory (category : UUID)
  | SPTagsByTea (tea : UUID) | SPTeasByTag (tag : UUID)
  | SPUserCollections (userID : UUID) | SPRecordsByCollection (id : UUID)
  | SPConsumptionByUserID (userID : UUID).

Definition scan_prefix (p : ScanPrefix) : bytes :=
  match p with
  | SPRecords => kb_Records
  | SPTagCategories => kb_TagCategories
  | SPTags => kb_Tags
  | SPUsers => kb_Users
  | SPTagsByCategory category => kb_TagsByCategory category
  | SPTagsByTea tea => kb_TagsByTea tea
  | SPTeasByTag tag => kb_TeasByTag tag
  | SPUserCollections userID => kb_UserCollections userID
  | SPRecordsByCollection id => kb_RecordsByCollection id
  | SPConsumptionByUserID userID => kb_ConsumptionByUserID userID
  end.

Definition scan_prefix_valid (p : ScanPrefix) : Prop :=
  match p with
  | SPRecords | SPTagCategories | SPTags | SPUsers => True
  | SPTagsByCategory u | SPTagsByTea u | SPTeasByTag u | SPUserCollections u
  | SPRecordsByCollection u | SPConsumptionByUserID u => uuid_valid u
  end.

Definition scan_wants (p : ScanPrefix) (k : StorageKey) : Prop :=
  match p, k with
  | SPRecords, SKRecord _ | SPTagCategories, SKTagCategory _
  | SPTags, SKTag _ | SPUsers, SKUser _ => True
  | SPTagsByCategory c, SKTagByNameAndCategory c' _ => c = c'
  | SPTagsByTea t, SKTeaTagPair t' _ => t = t'
  | SPTeasByTag t, SKTagTeaPair t' _ => t = t'
  | SPUserCollections u, SKCollection _ u' => u = u'
  | SPRecordsByCollection c, SKCollectionsTeas c' _ => c = c'
  | SPConsumptionByUserID u, SKConsumption u' _ _ => u = u'
  | _, _ => False
  end.

(** ** Lemmas on bytes *)
Lemma length_be_bytes n z : length (be_bytes n z) = n.
Proof. induction n; simpl; congruence. Qed.

Lemma length_uuid_bytes u : length (uuid_bytes u) = 16%nat.
Proof. apply length_be_bytes. Qed.

Lemma be_to_Z_be_bytes n z : be_to_Z (be_bytes n z) = z mod 256 ^ Z.of_nat n.
Proof.
  induction n as [|n IH]; [by rewrite Z.mod_1_r|].
  cbn [be_bytes be_to_Z]. rewrite length_be_bytes, IH.
  rewrite Nat2Z.inj_succ, Z.pow_succ_r by lia.
  rewrite (Z.mul_comm 256), Z.rem_mul_r by lia. lia.
Qed.

Lemma be_bytes_inj n z1 z2 :
  0 <= z1 < 256 ^ Z.of_nat n -> 0 <= z2 < 256 ^ Z.of_nat n ->
  be_bytes n z1 = be_bytes n z2 -> z1 = z2.
Proof.
  intros H1 H2 Heq%(f_equal be_to_Z). rewrite !be_to_Z_be_bytes, !Z.mod_small in Heq by done. done.
Qed.

Lemma be_bytes_lt n z1 z2 :
  0 <= z1 < 256 ^ Z.of_nat n -> 0 <= z2 < 256 ^ Z.of_nat n -> z1 < z2 ->
  ∀ l1 l2, bytes_lt (be_bytes n z1 ++ l1) (be_bytes n z2 ++ l2).
Proof.
  assert (∀ n z, be_bytes n z = be_bytes n (z mod 256 ^ Z.of_nat n)) as Hmod.
  { clear. intros n z. assert (∀ m, (n <= m)%nat ->
      be_bytes n z = be_bytes n (z mod 256 ^ Z.of_nat m)) as H; [|by apply H].
    induction n as [|n IH]; intros m Hm; [done|]. cbn [be_bytes]. f_equal; [|apply IH; lia].
    replace (Z.of_nat m) with (Z.of_nat n + (1 + Z.of_nat (m - S n))) by lia.
    rewrite Z.pow_add_r, Z.rem_mul_r by lia.
    rewrite (Z.mul_comm (256 ^ _)), Z.div_add by lia.
    rewrite (Z.div_small (_ mod _)) by (apply Z.mod_pos_bound; lia).
    rewrite Z.add_0_l, Z.pow_add_r, Z.pow_1_r, Z.rem_mul_r by lia.
    rewrite (Z.mul_comm 256), Z.mod_add by lia. by rewrite Z.mod_mod by lia. }
  revert z1 z2. induction n as [|n IH]; intros z1 z2 H1 H2 Hlt l1 l2; [simpl in *; lia|].
  cbn [be_bytes app bytes_lt].
  rewrite Nat2Z.inj_succ, Z.pow_succ_r in H1, H2 by lia.
  assert (0 < 256 ^ Z.of_nat n) as Hp by lia.
  pose proof (Z.div_le_mono z1 z2 (256 ^ Z.of_nat n) Hp) as Hle.
  rewrite !(Z.mod_small (_ / _)) by
    (split; [apply Z.div_pos; lia|apply Z.div_lt_upper_bound; lia]).
  destruct (decide (z1 / 256 ^ Z.of_nat n = z2 / 256 ^ Z.of_nat n)) as [Heq|Hne]; [|left; lia].
  right. split; [done|]. rewrite (Hmod n z1), (Hmod n z2).
  apply IH; [apply Z.mod_pos_bound; lia..|].
  pose proof (Z.div_mod z1 (256 ^ Z.of_nat n)). pose proof (Z.div_mod z2 (256 ^ Z.of_nat n)). nia.
Qed.

Lemma bytes_lt_app p a b : bytes_lt a b -> bytes_lt (p ++ a) (p ++ b).
Proof. intros H. induction p; simpl; auto. Qed.

Lemma uuid_bytes_inj u v : uuid_valid u -> uuid_valid v -> uuid_bytes u = uuid_bytes v -> u = v.
Proof.
  unfold uuid_valid, uuid_bytes. intros Hu Hv H%be_bytes_inj; [lia|..]; simpl Z.of_nat; lia.
Qed.

Lemma uuid_of_bytes_uuid_bytes u : uuid_valid u -> uuid_of_bytes (uuid_bytes u) = u.
Proof.
  unfold uuid_valid, uuid_of_bytes, uuid_bytes. intros H.
  rewrite be_to_Z_be_bytes, Z.mod_small by (simpl Z.of_nat; lia). lia.
Qed.

Lemma byte_of_inj c d : byte_of c = byte_of d -> c = d.
Proof. unfold byte_of. intros H. apply N_of_ascii_inj. lia. Qed.

Lemma string_bytes_inj s t : string_bytes s = string_bytes t -> s = t.
Proof.
  revert t. induction s as [|c s IH]; intros [|d t]; try done.
  cbn [string_bytes]. intros [= H1%byte_of_inj H2]. f_equal; auto.
Qed.

Lemma uuid_bytes_app_inj u v l k :
  uuid_valid u -> uuid_valid v -> uuid_bytes u ++ l = uuid_bytes v ++ k -> u = v ∧ l = k.
Proof.
  intros Hu Hv H. apply app_inj_1 in H as [H1 H2]; [|by rewrite !length_uuid_bytes].
  split; [by apply uuid_bytes_inj|done].
Qed.

Lemma prefix_matches_app p l : prefix_matches p (p ++ l) = true.
Proof. induction p as [|x p IH]; [done|]. simpl. by rewrite Z.eqb_refl. Qed.

Lemma prefix_matches_spec p l : prefix_matches p l = true <-> ∃ k, l = p ++ k.
Proof.
  split; [|intros [k ->]; apply prefix_matches_app].
  revert l. induction p as [|x p IH]; intros l; [by eexists|].
  destruct l as [|y l]; [done|]. simpl. destruct (Z.eqb_spec x y) as [->|]; [|done].
  intros [k ->]%IH. by exists k.
Qed.

Lemma encodable_UnixNano ts : encodable ts -> UnixNano ts = ts - unixEpoch.
Proof. unfold encodable, UnixNano. intros. apply wrap_int64_small. unfold int64_min in *. lia. Qed.

Lemma encodable_bytes ts :
  encodable ts -> wrap_uint64 (UnixNano ts) = ts - unixEpoch ∧ 0 <= ts - unixEpoch < 256 ^ Z.of_nat 8.
Proof.
  intros H. rewrite (encodable_UnixNano ts H). unfold encodable, int64_max in H.
  split; [apply wrap_uint64_small; lia|]. simpl Z.of_nat. lia.
Qed.

#[export] Hint Rewrite length_be_bytes length_uuid_bytes : go.

(** [split_keys H] reduces an equality of two keys to literal headers, refutes it
    when the headers differ, and otherwise cancels the header. *)
Ltac split_keys H :=
  cbv [storage_key scan_prefix kb_Version kb_Records kb_TagCategories kb_Tags kb_Users
       kb_Record kb_RecordsByName kb_QR kb_TagCategory
       kb_TagCategoryByName kb_Tag kb_TagsByName kb_TagsByNameAndCategory kb_TagTeaPair
       kb_TeaTagPair kb_Collection kb_CollectionsTeas kb_User kb_UserByAppleID kb_Device
       kb_DevicesByUserID kb_Notification kb_NotificationByUserID kb_ConsumptionKey
       kb_ConsumptionByUserID kb_UserCollections kb_TagsByTea kb_TeasByTag kb_TagsByCategory
       kb_RecordsByCollection appendIndex appendUUID appendPrefix
       kp_version kp_record kp_qr kp_tagCategory kp_tag kp_collection kp_user kp_notification
       kp_device kp_recordNameIndex tagCategoryIndexName tagIndexCategoryName tagIndexName
       tagIndexTea teaIndexTag collectionIndexTea userIndexAppleID userIndexNotifications
       userIndexDevices userIndexConsumption timestampSize] in H;
  cbn [string_bytes app] in H;
  repeat match type of H with
  | context [byte_of ?c] => let v := eval vm_compute in (byte_of c) in change (byte_of c) with v in H
  end;
  try discriminate H;
  repeat match type of H with _ :: _ = _ :: _ => apply (inj2 cons) in H as [_ H] end.

(** [cancel_parts H] reads the parts of two keys off an equality of payloads. *)
Ltac cancel_parts H :=
  repeat match type of H with
  | uuid_bytes _ ++ _ = uuid_bytes _ ++ _ =>
      apply uuid_bytes_app_inj in H as [-> H]; [|assumption..]
  | uuid_bytes _ = uuid_bytes _ => apply uuid_bytes_inj in H; [subst|assumption..]
  | string_bytes _ = string_bytes _ => apply string_bytes_inj in H; subst
  end.

Lemma timestamp_bytes_inj ts1 ts2 l1 l2 :
  encodable ts1 -> encodable ts2 ->
  be_bytes 8 (wrap_uint64 (UnixNano ts1)) ++ l1 = be_bytes 8 (wrap_uint64 (UnixNano ts2)) ++ l2 ->
  ts1 = ts2 ∧ l1 = l2.
Proof.
  intros H1 H2 H. apply encodable_bytes in H1 as [Hw1 Hb1], H2 as [Hw2 Hb2].
  apply app_inj_1 in H as [H ->]; [|by rewrite !length_be_bytes].
  rewrite Hw1, Hw2 in H. apply be_bytes_inj in H; [|done..]. split; [lia|done].
Qed.

Lemma storage_key_inj k1 k2 :
  storage_key_valid k1 -> storage_key_valid k2 -> storage_key k1 = storage_key k2 -> k1 = k2.
Proof.
  destruct k1, k2; intros V1 V2 H; split_keys H; try done;
    cbn [storage_key_valid] in V1, V2; destruct_and?; cancel_parts H; try done.
  apply timestamp_bytes_inj in H as [-> H]; [|done..]. by cancel_parts H.
Qed.

Lemma scan_prefix_wants p k :
  scan_prefix_valid p -> storage_key_valid k ->
  (scan_wants p k <-> ∃ rest, storage_key k = scan_prefix p ++ rest).
Proof.
  intros Vp Vk. split.
  - destruct p, k; cbn [scan_wants]; try done; intros; subst; eexists;
      unfold storage_key, scan_prefix, kb_Record, kb_TagCategory, kb_Tag, kb_User, kb_Collection,
        kb_TagsByNameAndCategory, kb_TeaTagPair, kb_TagTeaPair, kb_CollectionsTeas,
        kb_ConsumptionKey, appendUUID, appendPrefix, appendIndex;
      rewrite <-?app_assoc; try done.
    all: by rewrite <-app_assoc.
  - intros [rest H]. destruct p, k; split_keys H; try done;
      cbn [scan_prefix_valid storage_key_valid scan_wants] in *; destruct_and?.
    all: rewrite <-?app_assoc in H; apply uuid_bytes_app_inj in H as [? _]; [done..].
Qed.

(** ** Properties *)

(** A consumption key parses back to the timestamp and the tea it was built
    from, with the user's prefix. *)
Theorem ParseConsumptionKey_roundtrip userID ts teaID :
  encodable ts -> uuid_valid teaID ->
  ParseConsumptionKey (kb_ConsumptionByUserID userID) (kb_ConsumptionKey userID ts teaID)
  = Some (ts, teaID).
Proof.
  intros Hts Hid. destruct (encodable_bytes ts Hts) as [Hw Hb].
  unfold ParseConsumptionKey, kb_ConsumptionKey, timestampSize, uuidSize.
  rewrite decide_False by (rewrite !length_app, length_be_bytes, length_uuid_bytes; lia).
  rewrite prefix_matches_app. simpl negb. cbv iota.
  rewrite drop_app_length, take_app_length' by (by rewrite length_be_bytes).
  rewrite <-drop_drop, drop_app_length, drop_app_length' by (by rewrite length_be_bytes).
  rewrite take_ge by (by rewrite length_uuid_bytes).
  rewrite uuid_of_bytes_uuid_bytes, be_to_Z_be_bytes, Hw, Z.mod_small by done.
  unfold encodable in Hts. rewrite (proj2 (Z.ltb_ge _ _)) by lia.
  do 2 f_equal. unfold UnixNs. lia.
Qed.

(** Parsing rejects every key that is too short or lacks the prefix, and
    accepts every other key with a timestamp between the epoch and the end of
    the nanosecond range, so the conversion to [int64] never wraps. *)
Theorem ParseConsumptionKey_total prefix key :
  match ParseConsumptionKey prefix key with
  | None => (length key < length prefix + 24)%nat ∨ ¬ ∃ rest, key = prefix ++ rest
  | Some (ts, teaID) =>
      (∃ rest, key = prefix ++ rest ∧ (24 <= length rest)%nat)
      ∧ (Forall (λ b, 0 <= b < 256) key -> encodable ts)
  end.
Proof.
  unfold ParseConsumptionKey, timestampSize, uuidSize.
  destruct (decide _) as [Hl|Hl]; [left; lia|].
  destruct (prefix_matches prefix key) eqn:E; simpl.
  - apply prefix_matches_spec in E as [rest ->]. rewrite length_app in Hl.
    split; [exists rest; split; [done|lia]|]. intros HF.
    assert (∀ l, Forall (λ b, 0 <= b < 256) l -> 0 <= be_to_Z l) as Hpos.
    { induction 1; simpl; nia. }
    unfold encodable, UnixNs.
    assert (0 <= be_to_Z (take 8 (drop (length prefix) (prefix ++ rest)))) as H0.
    { apply Hpos. by apply Forall_take, Forall_drop. }
    destruct (Z.ltb_spec int64_max (be_to_Z (take 8 (drop (length prefix) (prefix ++ rest)))));
      unfold int64_max in *; lia.
  - right. rewrite <-prefix_matches_spec, E. done.
Qed.

(** The consumption keys of a user sort in the store by timestamp, whatever
    the teas are. *)
Theorem ConsumptionKey_sorted_by_time userID ts1 ts2 tea1 tea2 :
  encodable ts1 -> encodable ts2 -> ts1 < ts2 ->
  bytes_lt (kb_ConsumptionKey userID ts1 tea1) (kb_ConsumptionKey userID ts2 tea2).
Proof.
  intros H1 H2 Hlt. apply encodable_bytes in H1 as [Hw1 Hb1], H2 as [Hw2 Hb2].
  apply bytes_lt_app. rewrite Hw1, Hw2. apply be_bytes_lt; [done..|lia].
Qed.

(** No two entries of the store share a key, and scanning a prefix returns
    exactly the entries it is meant to return: the records of one table, the
    tags of one category or tea, the teas of one tag, the collections and the
    consumptions of one user, the records of one collection. *)
Theorem storage_keys_separated :
  (∀ k1 k2, storage_key_valid k1 -> storage_key_valid k2 ->
     storage_key k1 = storage_key k2 -> k1 = k2) ∧
  (∀ p k, scan_prefix_valid p -> storage_key_valid k ->
     (scan_wants p k <-> ∃ rest, storage_key k = scan_prefix p ++ rest)).
Proof. split; [exact storage_key_inj|exact scan_prefix_wants]. Qed.

(** ** Witnesses *)
Lemma ParseConsumptionKey_roundtrip_witness :
  ParseConsumptionKey (kb_ConsumptionByUserID 7%N)
    (kb_ConsumptionKey 7%N (unixEpoch + 1700000000123456789) 513%N)
  = Some (unixEpoch + 1700000000123456789, 513%N).
Proof.
  apply ParseConsumptionKey_roundtrip; [|done].
  split; by apply Z.leb_le.
Defined.

Lemma ConsumptionKey_sorted_by_time_witness :
  bytes_lt (kb_ConsumptionKey 7%N (unixEpoch + 255) 9%N)
    (kb_ConsumptionKey 7%N (unixEpoch + 256) 1%N).
Proof. apply ConsumptionKey_sorted_by_time; [split; by apply Z.leb_le..|done]. Defined.
