(* ===== verification/Subscribers.v ===== *)
(** Subscriber sets: src/common/subscribers/generic_subscriber.go and its
    copies for the message types of the managers, under
    src/internal/managers/tag/subscribers and src/internal/managers/tea/subscribers.

    A subscriber is a context and an unbuffered channel, both named by a
    number. What the environment decides is an argument: [done] tells whether a
    context is cancelled, [ready] whether a reader waits on a channel. A send on
    an unbuffered channel without a reader parks the goroutine, a send on or a
    second close of a closed channel panics. *)

From stdpp Require Import base gmap list sorting.
From Stdlib Require Import ZArith Lia.
From S2P Require Import Prelude Common Models.

Record Subscriber : Type := mkSubscriber { sub_ctx : nat; sub_ch : nat }.

#[export] Instance Subscriber_eq_dec : EqDecision Subscriber.
Proof. solve_decision. Defined.

Section subscribers.
Context {T : Type}.

(** The slice of the struct, the channels closed so far and the messages the
    readers received, oldest first. *)
Record Hub : Type := mkHub {
  h_subs : list Subscriber;
  h_closed : list nat;
  h_delivered : list (nat * T) }.

Definition NewSubscribers : Hub := mkHub [] [] [].

Definition set_subs (l : list Subscriber) (h : Hub) : Hub :=
  mkHub l (h_closed h) (h_delivered h).

Definition close_chan (ch : nat) : M Hub GoError unit := λ h,
  if bool_decide (ch ∈ h_closed h) then (Panic, h)
  else (Ok tt, mkHub (h_subs h) (h_closed h ++ [ch]) (h_delivered h)).

Definition send_chan (ready : nat → bool) (ch : nat) (message : T) : M Hub GoError unit := λ h,
  if bool_decide (ch ∈ h_closed h) then (Panic, h)
  else if ready ch then (Ok tt, mkHub (h_subs h) (h_closed h) (h_delivered h ++ [(ch, message)]))
  else (Blocked, h).

Definition Push (ctx ch : nat) : M Hub GoError unit :=
  modify (λ h, set_subs (h_subs h ++ [mkSubscriber ctx ch]) h).

Definition SendAll (ready : nat → bool) (message : T) : M Hub GoError unit :=
  let! h := get in
  for_range (λ el, send_chan ready (sub_ch el) message) (h_subs h).

(** The first loop of [CleanDone]: close the channels of the cancelled
    subscribers and collect their indices in [forRemove]. *)
Fixpoint cleanScan (done : nat → bool) (i : nat) (subs : list Subscriber)
    : M Hub GoError (list nat) :=
  match subs with
  | [] => ret []
  | sub :: rest =>
      if done (sub_ctx sub) then
        do! close_chan (sub_ch sub) in
        let! forRemove := cleanScan done (S i) rest in
        ret (i :: forRemove)
      else cleanScan done (S i) rest
  end.

(** The second loop, from [j = len(forRemove)-1] down to 0:
    [subs[forRemove[j]] = subs[len(subs)-len(forRemove)+j]]. An index out of
    range panics. *)
Fixpoint compact (forRemove : list nat) (j : nat) (subs : list Subscriber)
    : option (list Subscriber) :=
  match j with
  | O => Some subs
  | S j' =>
      match forRemove !! j', subs !! (length subs - length forRemove + j') with
      | Some i, Some x =>
          if decide (i < length subs) then compact forRemove j' (<[i := x]> subs) else None
      | _, _ => None
      end
  end.

Definition CleanDone (done : nat → bool) : M Hub GoError unit :=
  let! h := get in
  let! forRemove := cleanScan done 0 (h_subs h) in
  match compact forRemove (length forRemove) (h_subs h) with
  | Some subs => modify (set_subs (take (length subs - length forRemove) subs))
  | None => panic
  end.
End subscribers.

Arguments Hub T : clear implicits.

(** ** The copies for the managers' message types *)
Module TagManagerSubscribers.
Definition IDSubscribers_CleanDone := @CleanDone UUID.
Definition IDSubscribers_SendAll := @SendAll UUID.
Definition IDSubscribers_Push := @Push UUID.
Definition TagSubscribers_CleanDone := @CleanDone gqlTag.
Definition TagSubscribers_SendAll := @SendAll gqlTag.
Definition TagSubscribers_Push := @Push gqlTag.
Definition TagCategorySubscribers_CleanDone := @CleanDone gqlTagCategory.
Definition TagCategorySubscribers_SendAll := @SendAll gqlTagCategory.
Definition TagCategorySubscribers_Push := @Push gqlTagCategory.
Definition TeaSubscribers_CleanDone := @CleanDone gqlTea.
Definition TeaSubscribers_SendAll := @SendAll gqlTea.
Definition TeaSubscribers_Push := @Push gqlTea.
End TagManagerSubscribers.

Module TeaManagerSubscribers.
Definition IDs_CleanDone := @CleanDone UUID.
Definition IDs_SendAll := @SendAll UUID.
Definition IDs_Push := @Push UUID.
Definition Teas_CleanDone := @CleanDone gqlTea.
Definition Teas_SendAll := @SendAll gqlTea.
Definition Teas_Push := @Push gqlTea.
End TeaManagerSubscribers.

(** ** Compaction *)

(** Strictly increasing indices below [n], as the first loop produces them. *)
Definition removal_indices (forRemove : list nat) (n : nat) : Prop :=
  StronglySorted lt forRemove ∧ Forall (λ i, i < n) forRemove.

Lemma removal_indices_bound forRemove n j i :
  removal_indices forRemove n -> forRemove !! j = Some i -> i + (length forRemove - j) <= n.
Proof.
  intros [Hs Hn]. revert j i. induction Hs as [|x l Hs IH Hx]; intros j i; [done|].
  apply Forall_cons in Hn as [Hx' Hn]. specialize (IH Hn).
  destruct j as [|j]; simpl; [|intros Hj; specialize (IH j i Hj); lia].
  intros [= ->]. destruct l as [|y l]; [simpl; lia|].
  specialize (IH 0 y eq_refl). apply Forall_cons in Hx as [Hy _]. simpl in *. lia.
Qed.

Lemma removal_indices_length forRemove n : removal_indices forRemove n -> length forRemove <= n.
Proof.
  intros Hr. destruct forRemove as [|i l]; [simpl; lia|].
  pose proof (removal_indices_bound _ _ 0 i Hr eq_refl). simpl in *. lia.
Qed.

Lemma removal_indices_lt forRemove n j1 j2 i1 i2 :
  removal_indices forRemove n -> j1 < j2 ->
  forRemove !! j1 = Some i1 -> forRemove !! j2 = Some i2 -> i1 < i2.
Proof.
  intros [Hs _]. revert j1 j2. induction Hs as [|x l Hs IH Hx]; intros j1 j2 Hlt H1 H2; [done|].
  destruct j2 as [|j2]; [lia|]. destruct j1 as [|j1]; simpl in *.
  - simplify_eq. rewrite Forall_forall in Hx. apply Hx. by eapply list_elem_of_lookup_2.
  - apply (IH j1 j2); [lia|done..].
Qed.

(** Elements at the given indices, in the order of the indices. *)
Definition elements_at (forRemove : list nat) (subs : list Subscriber) : list Subscriber :=
  omap (λ i, subs !! i) forRemove.

Lemma compact_spec forRemove subs0 n :
  n = length subs0 -> removal_indices forRemove n ->
  ∀ j subs, j <= length forRemove -> length subs = n ->
    (∀ j' i, j' < j -> forRemove !! j' = Some i -> subs !! i = subs0 !! i) ->
    ∃ subs', compact forRemove j subs = Some subs' ∧ length subs' = n
      ∧ take (n - length forRemove) subs' ++ elements_at (take j forRemove) subs0
        ≡ₚ take (n - length forRemove + j) subs.
Proof.
  intros Hn0 Hr. induction j as [|j IH]; intros subs Hj Hlen Hkeep.
  { exists subs. split; [done|]. split; [done|]. simpl. by rewrite app_nil_r, Nat.add_0_r. }
  destruct (lookup_lt_is_Some_2 forRemove j) as [i Hi]; [lia|].
  pose proof (removal_indices_bound _ _ _ _ Hr Hi) as Hb.
  pose proof (removal_indices_length _ _ Hr) as Hk.
  destruct (lookup_lt_is_Some_2 subs (n - length forRemove + j)) as [x Hx]; [lia|].
  simpl. rewrite Hi, Hlen, Hx, decide_True by lia.
  destruct (IH (<[i:=x]> subs)) as (subs' & -> & Hl' & HP); [lia|by rewrite length_insert| |].
  { intros j' i' Hj' Hi'. pose proof (removal_indices_lt _ _ _ _ _ _ Hr Hj' Hi' Hi).
    rewrite list_lookup_insert_ne by lia. apply (Hkeep j'); [lia|done]. }
  exists subs'. split; [done|]. split; [done|].
  assert (subs !! i = subs0 !! i) as Hsi by (apply (Hkeep j); [lia|done]).
  destruct (lookup_lt_is_Some_2 subs i) as [y Hy]; [lia|].
  erewrite take_S_r by done. unfold elements_at in *. rewrite omap_app; simpl.
  rewrite <-Hsi, Hy. rewrite app_assoc, HP.
  set (m := n - length forRemove + j) in *.
  assert (take m (<[i:=x]> subs) = swap_remove i (take (S m) subs)) as ->.
  { unfold swap_remove. rewrite length_take, Hlen.
    replace (S m `min` n - 1) with m by lia.
    rewrite lookup_take_lt, Hx by lia.
    rewrite <-take_insert_lt by lia. rewrite take_take. f_equal. lia. }
  rewrite swap_remove_Permutation by (rewrite length_take; lia).
  replace (m + 1) with (S m) in * by lia. replace (n - length forRemove + S j) with (S m) by lia.
  rewrite Permutation_app_comm. simpl. symmetry. apply delete_Permutation.
  rewrite lookup_take_lt by lia. done.
Qed.

(** ** The first loop *)
Section clean.
Context {T : Type} (done : nat → bool).
Implicit Types (h : Hub T) (subs : list Subscriber).

Definition cancelled (s : Subscriber) : Prop := done (sub_ctx s) = true.
#[export] Instance cancelled_dec s : Decision (cancelled s).
Proof. unfold cancelled. apply _. Defined.

(** The channels of the subscribers are distinct and open. *)
Definition channels_open h : Prop :=
  NoDup (sub_ch <$> h_subs h) ∧ ∀ s, s ∈ h_subs h -> sub_ch s ∉ h_closed h.

Lemma cleanScan_spec subs0 pre subs h :
  subs0 = pre ++ subs -> NoDup (sub_ch <$> subs) ->
  (∀ s, s ∈ subs -> sub_ch s ∉ h_closed h) ->
  ∃ forRemove,
    cleanScan done (length pre) subs h
    = (Ok forRemove, mkHub (h_subs h) (h_closed h ++ (sub_ch <$> filter cancelled subs))
                           (h_delivered h))
    ∧ StronglySorted lt forRemove
    ∧ Forall (λ i, length pre <= i < length subs0) forRemove
    ∧ elements_at forRemove subs0 = filter cancelled subs.
Proof.
  revert pre h. induction subs as [|s subs IH]; intros pre h Hsub0 Hnd Hopen.
  { exists []. split; [|repeat constructor]. simpl. rewrite app_nil_r. by destruct h. }
  apply NoDup_cons in Hnd as [Hs Hnd]. simpl. rewrite filter_cons.
  assert (subs0 = (pre ++ [s]) ++ subs) as Hsub0' by (by rewrite <-app_assoc).
  assert (length (pre ++ [s]) = S (length pre)) as Hlen by (rewrite length_app; simpl; lia).
  assert (subs0 !! length pre = Some s) as Hat by (subst; by rewrite list_lookup_middle).
  destruct (decide (cancelled s)) as [Ed|Ed].
  - unfold cancelled in Ed. rewrite Ed. unfold bind at 1, close_chan at 1.
    rewrite bool_decide_eq_false_2 by (apply Hopen; set_solver).
    edestruct (IH (pre ++ [s]) (mkHub (h_subs h) (h_closed h ++ [sub_ch s]) (h_delivered h)))
      as (fr & Hrun & Hss & Hf & He); [done|done| |].
    { intros s' Hs'. simpl. rewrite not_elem_of_app. split; [apply Hopen; set_solver|].
      intros Heq%list_elem_of_singleton. apply Hs. rewrite <-Heq. by apply list_elem_of_fmap_2. }
    rewrite Hlen in Hrun, Hf. exists (length pre :: fr). unfold bind. rewrite Hrun. simpl.
    split; [by rewrite <-app_assoc|]. split.
    { constructor; [done|]. eapply Forall_impl; [exact Hf|]. simpl. lia. }
    split.
    { constructor; [subst; rewrite length_app; simpl; lia|].
      eapply Forall_impl; [exact Hf|]. simpl. lia. }
    unfold elements_at in *. simpl. by rewrite Hat, He.
  - apply not_true_is_false in Ed. rewrite Ed.
    destruct (IH (pre ++ [s]) h) as (fr & Hrun & Hss & Hf & He); [done|done|set_solver|].
    rewrite Hlen in Hrun, Hf. exists fr. split; [done|]. split; [done|]. split; [|done].
    eapply Forall_impl; [exact Hf|]. simpl. lia.
Qed.

Lemma CleanDone_spec h :
  channels_open h ->
  ∃ subs', CleanDone done h
    = (Ok tt, mkHub subs' (h_closed h ++ (sub_ch <$> filter cancelled (h_subs h)))
                    (h_delivered h))
    ∧ subs' ≡ₚ filter (λ s, ¬ cancelled s) (h_subs h).
Proof.
  intros [Hnd Hopen]. unfold CleanDone. unfold bind at 1, get.
  destruct (cleanScan_spec (h_subs h) [] (h_subs h) h) as (fr & Hrun & Hss & Hf & He); [done..|].
  simpl in Hrun. unfold bind. rewrite Hrun.
  assert (removal_indices fr (length (h_subs h))) as Hr.
  { split; [done|]. eapply Forall_impl; [exact Hf|]. simpl. lia. }
  destruct (compact_spec fr (h_subs h) _ eq_refl Hr (length fr) (h_subs h))
    as (subs' & Hc & Hl & HP); [done..|].
  rewrite Hc. eexists. split; [by unfold modify|].
  rewrite firstn_all in HP. rewrite He in HP.
  pose proof (removal_indices_length _ _ Hr) as Hle.
  rewrite (take_ge (h_subs h)) in HP by lia. rewrite Hl.
  apply (Permutation_app_inv_r (filter cancelled (h_subs h))). rewrite HP.
  rewrite Permutation_app_comm. symmetry. apply filter_partition_Permutation.
Qed.
End clean.

(** ** Broadcasting *)
Lemma SendAll_spec {T} (ready : nat → bool) (message : T) (h : Hub T) :
  channels_open h ->
  (Forall (λ s, ready (sub_ch s) = true) (h_subs h) ∧
     SendAll ready message h
     = (Ok tt, mkHub (h_subs h) (h_closed h)
                 (h_delivered h ++ ((λ s, (sub_ch s, message)) <$> h_subs h)))) ∨
  (∃ l1 s l2, h_subs h = l1 ++ s :: l2 ∧ ready (sub_ch s) = false ∧
     SendAll ready message h
     = (Blocked, mkHub (h_subs h) (h_closed h)
                   (h_delivered h ++ ((λ s, (sub_ch s, message)) <$> l1)))).
Proof.
  intros [_ Hopen]. unfold SendAll, bind at 1, get.
  set (subs := h_subs h) in *. set (h' := h).
  replace (h_closed h) with (h_closed h') in * by done.
  assert (h_subs h' = subs) as Hsub by done. clearbody h' subs. clear h.
  revert h' Hopen Hsub. cut (∀ rest h', (∀ s, s ∈ rest -> sub_ch s ∉ h_closed h') ->
    (Forall (λ s, ready (sub_ch s) = true) rest ∧
      for_range (λ el, send_chan ready (sub_ch el) message) rest h'
      = (Ok tt, mkHub (h_subs h') (h_closed h')
                  (h_delivered h' ++ ((λ s, (sub_ch s, message)) <$> rest)))) ∨
    (∃ l1 s l2, rest = l1 ++ s :: l2 ∧ ready (sub_ch s) = false ∧
      for_range (λ el, send_chan ready (sub_ch el) message) rest h'
      = (Blocked, mkHub (h_subs h') (h_closed h')
                    (h_delivered h' ++ ((λ s, (sub_ch s, message)) <$> l1))))).
  { intros Hgo h' Hopen <-. apply Hgo. exact Hopen. }
  induction rest as [|s rest IH]; intros h Hopen.
  { left. split; [constructor|]. simpl. rewrite app_nil_r. by destruct h. }
  simpl. unfold bind, send_chan at 1 3. rewrite bool_decide_eq_false_2 by (apply Hopen; set_solver).
  destruct (ready (sub_ch s)) eqn:Er.
  - destruct (IH (mkHub (h_subs h) (h_closed h) (h_delivered h ++ [(sub_ch s, message)])))
      as [[HF ->]|(l1 & s' & l2 & -> & Hs' & ->)]; [intros ? ?; apply Hopen; set_solver|left|right].
    + split; [by constructor|]. simpl. by rewrite <-app_assoc.
    + exists (s :: l1), s', l2. split; [done|]. split; [done|]. simpl. by rewrite <-app_assoc.
  - right. exists [], s, rest. split; [done|]. split; [done|]. simpl. rewrite app_nil_r.
    by destruct h.
Qed.

(** ** Histories of a subscriber set

    [SubscribeOn...] pushes the channel it has just made, so a pushed channel
    is new to the set. *)
Inductive hub_reach {T} : Hub T → Prop :=
  | hr_new : hub_reach NewSubscribers
  | hr_push h ctx ch :
      hub_reach h -> ch ∉ h_closed h -> ch ∉ sub_ch <$> h_subs h ->
      hub_reach (Push ctx ch h).2
  | hr_send h ready message : hub_reach h -> hub_reach (SendAll ready message h).2
  | hr_clean h done : hub_reach h -> hub_reach (CleanDone done h).2.

Lemma channels_open_Permutation {T} (h : Hub T) subs closed (delivered : list (nat * T)) :
  NoDup (sub_ch <$> h_subs h) -> (∀ s, s ∈ subs -> s ∈ h_subs h) ->
  (∃ gone, subs ++ gone ≡ₚ h_subs h ∧ closed = h_closed h ++ (sub_ch <$> gone)) ->
  (∀ s, s ∈ h_subs h -> sub_ch s ∉ h_closed h) ->
  channels_open (mkHub subs closed delivered).
Proof.
  intros Hnd Hsub (gone & HP & ->) Hopen. rewrite <-HP, fmap_app in Hnd.
  apply NoDup_app in Hnd as (Hnd & Hdisj & _). split; [done|].
  intros s Hs. simpl in *. rewrite not_elem_of_app. split; [by apply Hopen, Hsub|].
  intros Hg. eapply Hdisj; [|done]. by apply list_elem_of_fmap_2.
Qed.

(** [CleanDone] on a well-formed set, in full. *)
Lemma CleanDone_open {T} (done : nat → bool) (h : Hub T) :
  channels_open h ->
  ∃ h', CleanDone done h = (Ok tt, h') ∧ h_delivered h' = h_delivered h
    ∧ h_subs h' ≡ₚ filter (λ s, ¬ cancelled done s) (h_subs h)
    ∧ h_closed h' = h_closed h ++ (sub_ch <$> filter (cancelled done) (h_subs h)) ∧ channels_open h'.
Proof.
  intros Ho. pose proof Ho as [Hnd Hopen]. destruct (CleanDone_spec done h Ho) as (subs' & -> & HP).
  eexists. split_and!; [done..|].
  apply (channels_open_Permutation h); [done| | |done].
  - intros s. rewrite HP, list_elem_of_filter. tauto.
  - eexists. split; [|done]. rewrite HP, Permutation_app_comm. apply filter_partition_Permutation.
Qed.

Lemma hub_reach_open {T} (h : Hub T) : hub_reach h -> channels_open h.
Proof.
  induction 1 as [|h ctx ch _ [Hnd Hopen] Hc Hs|h ready m _ Ho|h done _ Ho].
  - split; [constructor|set_solver].
  - split; simpl.
    + rewrite fmap_app. apply NoDup_app. split; [done|]. split; [set_solver|].
      apply NoDup_singleton.
    + intros s [Hin| ->%list_elem_of_singleton]%elem_of_app; [by apply Hopen|done].
  - destruct (SendAll_spec ready m h Ho) as [[_ ->]|(? & ? & ? & _ & _ & ->)]; exact Ho.
  - by destruct (CleanDone_open done h Ho) as (h' & -> & _ & _ & _ & Ho').
Qed.

(** ** Properties *)

(** [CleanDone] keeps exactly the subscribers whose context is still live
    (in some order), closes exactly the channels of the others, each once, and
    neither delivers a message nor panics. *)
Theorem CleanDone_removes_exactly_the_done {T} (done : nat → bool) (h : Hub T) :
  channels_open h ->
  ∃ subs', CleanDone done h
      = (Ok tt, mkHub subs' (h_closed h ++ (sub_ch <$> filter (cancelled done) (h_subs h)))
                      (h_delivered h))
    ∧ subs' ≡ₚ filter (λ s, ¬ cancelled done s) (h_subs h)
    ∧ channels_open (CleanDone done h).2.
Proof.
  intros Ho. destruct (CleanDone_spec done h Ho) as (subs' & Heq & HP).
  destruct (CleanDone_open done h Ho) as (h' & Heq' & _ & _ & _ & Ho').
  exists subs'. by rewrite Heq' at 2.
Qed.

(** In every history of a subscriber set no operation ever panics: no
    channel is closed twice and no message is sent on a closed channel. *)
Theorem subscribers_never_panic {T} (h : Hub T) :
  hub_reach h ->
  (∀ done, (CleanDone done h).1 = Ok tt) ∧
  (∀ ready message, (SendAll ready message h).1 ≠ Panic) ∧
  (∀ ctx ch, (Push ctx ch h).1 = Ok tt).
Proof.
  intros Ho%hub_reach_open. split; [|split; [|done]].
  - intros done. by destruct (CleanDone_spec done h Ho) as (subs' & -> & _).
  - intros ready m. by destruct (SendAll_spec ready m h Ho) as [[_ ->]|(? & ? & ? & _ & _ & ->)].
Qed.

(** A broadcast reaches every subscriber once, in the order of the slice,
    when all readers wait; otherwise it parks at the first subscriber without a
    reader, after having served exactly those before it. *)
Theorem SendAll_serves_in_order {T} (ready : nat → bool) (message : T) (h : Hub T) :
  channels_open h ->
  (Forall (λ s, ready (sub_ch s) = true) (h_subs h) ∧
     SendAll ready message h
     = (Ok tt, mkHub (h_subs h) (h_closed h)
                 (h_delivered h ++ ((λ s, (sub_ch s, message)) <$> h_subs h)))) ∨
  (∃ l1 s l2, h_subs h = l1 ++ s :: l2 ∧ ready (sub_ch s) = false ∧
     SendAll ready message h
     = (Blocked, mkHub (h_subs h) (h_closed h)
                   (h_delivered h ++ ((λ s, (sub_ch s, message)) <$> l1)))).
Proof. apply SendAll_spec. Qed.

(** ** Witnesses *)
Definition witnessHub : Hub UUID :=
  mkHub [mkSubscriber 1 10; mkSubscriber 2 20; mkSubscriber 3 30; mkSubscriber 4 40] [5] [].

Lemma witnessHub_open : channels_open witnessHub.
Proof.
  split; [by apply (bool_decide_unpack _)|].
  intros s Hs. apply list_elem_of_lookup in Hs as [i Hi].
  do 4 (destruct i as [|i]; [simpl in Hi; simplify_eq; set_solver|]). done.
Qed.

Lemma CleanDone_removes_exactly_the_done_witness :
  ∃ subs', CleanDone (λ c, bool_decide (c = 1 ∨ c = 3)) witnessHub
      = (Ok tt, mkHub subs' ([5] ++ [10; 30]) [])
    ∧ subs' ≡ₚ [mkSubscriber 2 20; mkSubscriber 4 40]
    ∧ channels_open (CleanDone (λ c, bool_decide (c = 1 ∨ c = 3)) witnessHub).2.
Proof.
  exact (CleanDone_removes_exactly_the_done (λ c, bool_decide (c = 1 ∨ c = 3)) witnessHub
           witnessHub_open).
Defined.

Lemma subscribers_never_panic_witness :
  (∀ done, (CleanDone done (Push 1 10 (@NewSubscribers UUID)).2).1 = Ok tt) ∧
  (∀ ready message, (SendAll ready message (Push 1 10 (@NewSubscribers UUID)).2).1 ≠ Panic) ∧
  (∀ ctx ch, (Push ctx ch (Push 1 10 (@NewSubscribers UUID)).2).1 = Ok tt).
Proof.
  apply subscribers_never_panic. apply (hr_push NewSubscribers 1 10); [apply hr_new|set_solver..].
Defined.

Lemma SendAll_serves_in_order_witness :
  (Forall (λ s, Nat.ltb (sub_ch s) 30 = true) (h_subs witnessHub) ∧
     SendAll (λ c, Nat.ltb c 30) 7%N witnessHub
     = (Ok tt, mkHub (h_subs witnessHub) (h_closed witnessHub)
                 (h_delivered witnessHub ++ ((λ s, (sub_ch s, 7%N)) <$> h_subs witnessHub)))) ∨
  (∃ l1 s l2, h_subs witnessHub = l1 ++ s :: l2 ∧ Nat.ltb (sub_ch s) 30 = false ∧
     SendAll (λ c, Nat.ltb c 30) 7%N witnessHub
     = (Blocked, mkHub (h_subs witnessHub) (h_closed witnessHub)
                   (h_delivered witnessHub ++ ((λ s, (sub_ch s, 7%N)) <$> l1)))).
Proof. exact (SendAll_serves_in_order (λ c, Nat.ltb c 30) 7%N witnessHub witnessHub_open). Defined.
