(* ===== verification/Consumption.v ===== *)
(** Consumption history: src/internal/consumption/store.go.

    The file states what a consumption store promises ([Store] and its laws) and
    models the in-memory implementation; [PgConsumption] models the other one. *)

From stdpp Require Import base gmap list sorting.
From Stdlib Require Import ZArith Lia.
From S2P Require Import Prelude GoTime Common.

Local Open Scope Z_scope.

Record Consumption : Type := mkConsumption { cons_TeaID : UUID; cons_Time : Time }.

#[export] Instance Consumption_eq_dec : EqDecision Consumption.
Proof. solve_decision. Defined.

(** ** The interface *)
Class Store (S : Type) : Type := {
  store_Record : UUID → UUID → Time → M S GoError unit;
  store_Recent : UUID → Time → M S GoError (list Consumption) }.

(** What its clients rely on. [store_inv] is the invariant of the states the
    store can be in, [store_round] the precision it keeps timestamps with. *)
Class StoreLaws (S : Type) `{Store S} : Type := {
  store_inv : S → Prop;
  store_round : Time → Time;
  store_round_mono : ∀ t u, t <= u -> store_round t <= store_round u;
  store_Record_inv : ∀ user tea ts, preserves store_inv (store_Record user tea ts);
  store_Recent_inv : ∀ user since, preserves store_inv (store_Recent user since);
  store_Recent_sorted : ∀ s s' user since l,
    store_inv s -> store_Recent user since s = (Ok l, s') ->
    StronglySorted (ge_on cons_Time) l ∧ Forall (λ c, store_round since <= cons_Time c) l;
  store_Record_Recent : ∀ s s1 s2 user tea ts since l,
    store_inv s -> store_Record user tea ts s = (Ok tt, s1) ->
    store_Recent user since s1 = (Ok l, s2) ->
    since <= ts -> mkConsumption tea (store_round ts) ∈ l }.

#[export] Hint Resolve store_Record_inv store_Recent_inv : go_preserves.

(** ** The in-memory store *)
Record MemoryStore : Type := mkMemoryStore {
  ms_data : gmap UUID (list Consumption);
  ms_retention : Duration }.

Definition NewMemoryStore (retention : Duration) : MemoryStore :=
  mkMemoryStore ∅ (if retention <=? 0 then 30 * 24 * Hour else retention).

Definition ms_events (m : MemoryStore) (user : UUID) : list Consumption :=
  default [] (ms_data m !! user).

Definition MemoryStore_Record (userID teaID : UUID) (ts : Time) : M MemoryStore GoError unit :=
  modify (λ m,
    let events := ms_events m userID ++ [mkConsumption teaID ts] in
    let cutoff := Add ts (- ms_retention m) in
    let filtered := filter (λ e, After (cons_Time e) cutoff = true) events in
    mkMemoryStore (<[userID := filtered]> (ms_data m)) (ms_retention m)).

Definition MemoryStore_Recent (userID : UUID) (since : Time)
    : M MemoryStore GoError (list Consumption) :=
  let! m := get in
  let out := filter (λ e, negb (Before (cons_Time e) since) = true) (ms_events m userID) in
  ret (merge_sort (ge_on cons_Time) out).

#[export] Instance MemoryStore_Store : Store MemoryStore := {
  store_Record := MemoryStore_Record;
  store_Recent := MemoryStore_Recent }.

(** ** Lemmas *)
Lemma MemoryStore_Record_events m user tea ts user' :
  ms_events (MemoryStore_Record user tea ts m).2 user'
  = if decide (user' = user)
    then filter (λ e, After (cons_Time e) (Add ts (- ms_retention m)) = true)
           (ms_events m user ++ [mkConsumption tea ts])
    else ms_events m user'.
Proof.
  unfold ms_events, MemoryStore_Record, modify. simpl. rewrite lookup_insert.
  by repeat case_decide; subst.
Qed.

Lemma MemoryStore_Recent_run m user since :
  MemoryStore_Recent user since m
  = (Ok (merge_sort (ge_on cons_Time)
          (filter (λ e, negb (Before (cons_Time e) since) = true) (ms_events m user))), m).
Proof. reflexivity. Qed.

Lemma MemoryStore_Recent_elem m user since l m' c :
  MemoryStore_Recent user since m = (Ok l, m') ->
  c ∈ l <-> c ∈ ms_events m user ∧ since <= cons_Time c.
Proof.
  rewrite MemoryStore_Recent_run. intros [= <- <-].
  rewrite merge_sort_Permutation, list_elem_of_filter. unfold Before.
  rewrite negb_true_iff, Z.ltb_ge. tauto.
Qed.

(** A store in use keeps a positive retention window. *)
Definition retention_positive (m : MemoryStore) : Prop := 0 < ms_retention m.

Lemma NewMemoryStore_retention r : retention_positive (NewMemoryStore r).
Proof. unfold retention_positive, NewMemoryStore. simpl. destruct (Z.leb_spec r 0); [done|lia]. Qed.

Lemma MemoryStore_Record_retention m user tea ts :
  ms_retention (MemoryStore_Record user tea ts m).2 = ms_retention m.
Proof. reflexivity. Qed.

Lemma MemoryStore_Record_kept m user tea ts :
  retention_positive m ->
  mkConsumption tea ts ∈ ms_events (MemoryStore_Record user tea ts m).2 user.
Proof.
  unfold retention_positive. intros Hr. rewrite MemoryStore_Record_events, decide_True by done.
  apply list_elem_of_filter. split; [|set_solver].
  unfold After, Add. simpl. apply Z.ltb_lt. lia.
Qed.

#[export] Instance MemoryStore_laws : StoreLaws MemoryStore.
Proof.
  refine {| store_inv := retention_positive; store_round := λ t, t |}.
  - done.
  - intros user tea ts m Hr. exact Hr.
  - intros user since m Hr. exact Hr.
  - intros m m' user since l _ Hrun. split.
    + rewrite MemoryStore_Recent_run in Hrun. simplify_eq. apply StronglySorted_merge_sort; apply _.
    + apply Forall_forall. intros c Hc.
      by apply (MemoryStore_Recent_elem _ _ _ _ _ c Hrun) in Hc as [_ ?].
  - intros m m1 m2 user tea ts since l Hr Hrec Hrun Hle.
    apply (MemoryStore_Recent_elem _ _ _ _ _ _ Hrun). split; [|done].
    replace m1 with (MemoryStore_Record user tea ts m).2; [by apply MemoryStore_Record_kept|].
    change (store_Record user tea ts m) with (MemoryStore_Record user tea ts m) in Hrec.
    by rewrite Hrec.
Defined.

(** ** Histories of a store *)
Inductive memory_reach : MemoryStore → Prop :=
  | mr_new retention : memory_reach (NewMemoryStore retention)
  | mr_record m user tea ts : memory_reach m -> memory_reach (MemoryStore_Record user tea ts m).2
  | mr_recent m user since : memory_reach m -> memory_reach (MemoryStore_Recent user since m).2.

Lemma memory_reach_retention m : memory_reach m -> retention_positive m.
Proof. induction 1; auto using NewMemoryStore_retention. Qed.

(** ** Properties *)

(** Right after a consumption is recorded, the user's history is the old
    history and the new event without the events that are one retention window
    older than it or more; in particular the new event is there, nothing in the
    history is that old, and no other user's history changed. *)
Theorem MemoryStore_Record_retains_window m user tea ts :
  memory_reach m ->
  let m' := (MemoryStore_Record user tea ts m).2 in
  mkConsumption tea ts ∈ ms_events m' user
  ∧ (∀ c, c ∈ ms_events m' user <->
        (c ∈ ms_events m user ∨ c = mkConsumption tea ts)
        ∧ ts - ms_retention m < cons_Time c)
  ∧ (∀ other, other ≠ user -> ms_events m' other = ms_events m other)
  ∧ memory_reach m'.
Proof.
  intros Hr m'. split; [by apply MemoryStore_Record_kept, memory_reach_retention|].
  split; [|split; [|by constructor]].
  - intros c. unfold m'. rewrite MemoryStore_Record_events, decide_True by done.
    rewrite list_elem_of_filter, elem_of_app, list_elem_of_singleton.
    unfold After, Add. rewrite Z.ltb_lt. rewrite Z.add_opp_r. tauto.
  - intros other Ho. unfold m'. by rewrite MemoryStore_Record_events, decide_False by done.
Qed.

(** A query returns exactly the user's events at or after the given time,
    as often as they were recorded, the most recent first, and it changes
    nothing. *)
Theorem MemoryStore_Recent_exact m user since :
  ∃ l, MemoryStore_Recent user since m = (Ok l, m)
    ∧ StronglySorted (ge_on cons_Time) l
    ∧ l ≡ₚ filter (λ c, since <= cons_Time c) (ms_events m user).
Proof.
  eexists. split; [apply MemoryStore_Recent_run|].
  split; [apply StronglySorted_merge_sort; apply _|].
  rewrite merge_sort_Permutation. apply reflexive_eq, list_filter_iff. intros c.
  unfold Before. by rewrite negb_true_iff, Z.ltb_ge.
Qed.

(** ** Witness *)
Lemma MemoryStore_Record_retains_window_witness :
  let m := (MemoryStore_Record 1%N 5%N (unixEpoch + 10 * Hour) (NewMemoryStore (2 * Hour))).2 in
  let m' := (MemoryStore_Record 1%N 6%N (unixEpoch + 12 * Hour) m).2 in
  mkConsumption 6%N (unixEpoch + 12 * Hour) ∈ ms_events m' 1%N
  ∧ (∀ c, c ∈ ms_events m' 1%N <->
        (c ∈ ms_events m 1%N ∨ c = mkConsumption 6%N (unixEpoch + 12 * Hour))
        ∧ unixEpoch + 12 * Hour - ms_retention m < cons_Time c)
  ∧ (∀ other, other ≠ 1%N -> ms_events m' other = ms_events m other)
  ∧ memory_reach m'.
Proof. intros m. apply (MemoryStore_Record_retains_window m). repeat constructor. Defined.
