(* ===== verification/TodCache.v ===== *)
(** The per-user cache of the tea of the day:
    src/pkg/api/v2/graphql/teaoftheday_cache.go.

    [Get] takes the read lock for its lookup and the write lock for the lazy
    deletion; other goroutines may run between the two, so they are two atomic
    steps here, composed by [cache_Get] when nothing intervenes. *)

From stdpp Require Import base gmap list strings.
From Stdlib Require Import ZArith Lia.
From S2P Require Import Prelude GoTime Common Models.

Local Open Scope Z_scope.

Record cachedTeaOfTheDay : Type := mkCached { ce_val : gqlTeaOfTheDay; ce_expiresAt : Time }.

Abbreviation teaOfTheDayCache := (gmap UUID cachedTeaOfTheDay).

Definition newTeaOfTheDayCache : teaOfTheDayCache := ∅.

(** The next midnight in the location of [t]. *)
Definition nextMidnight (loc : Location) (t : Time) : Time :=
  Date_midnight loc (civil_day loc t + 1).

(** ** The critical sections *)
Definition cache_Set (loc : Location) (userID : UUID) (v : gqlTeaOfTheDay) (now : Time)
    (items : teaOfTheDayCache) : teaOfTheDayCache :=
  <[userID := mkCached v (nextMidnight loc now)]> items.

Definition cache_lookup (userID : UUID) (items : teaOfTheDayCache) : option cachedTeaOfTheDay :=
  items !! userID.

(** The recheck and the deletion under the write lock. *)
Definition cache_expire (userID : UUID) (now : Time) (items : teaOfTheDayCache)
    : teaOfTheDayCache :=
  match items !! userID with
  | Some entry2 => if negb (Before now (ce_expiresAt entry2)) then delete userID items else items
  | None => items
  end.

(** [Get] run without interference. *)
Definition cache_Get (userID : UUID) (now : Time) (items : teaOfTheDayCache)
    : option gqlTeaOfTheDay * teaOfTheDayCache :=
  match cache_lookup userID items with
  | None => (None, items)
  | Some entry =>
      if negb (Before now (ce_expiresAt entry)) then (None, cache_expire userID now items)
      else (Some (ce_val entry), items)
  end.

(** ** Interleavings

    An atomic step of some goroutine: a [Set], or the deletion step of a [Get]
    that has found an expired entry earlier. *)
Inductive cache_step : Type :=
  | CSet (userID : UUID) (v : gqlTeaOfTheDay) (now : Time)
  | CExpire (userID : UUID) (now : Time).

Definition cache_run_step (loc : Location) (st : cache_step) (items : teaOfTheDayCache)
    : teaOfTheDayCache :=
  match st with
  | CSet userID v now => cache_Set loc userID v now items
  | CExpire userID now => cache_expire userID now items
  end.

Definition cache_run (loc : Location) (steps : list cache_step) (items : teaOfTheDayCache)
    : teaOfTheDayCache :=
  fold_left (λ c st, cache_run_step loc st c) steps items.

(** A step that does not replace the entry of [userID] and whose clock reads
    before [limit]. *)
Definition quiet_step (userID : UUID) (limit : Time) (st : cache_step) : Prop :=
  match st with
  | CSet u _ _ => u ≠ userID
  | CExpire u now => u = userID -> now < limit
  end.

(** ** Lemmas *)
Lemma nextMidnight_steady loc t off :
  steady_offset loc t off ->
  nextMidnight loc t = UnixNs (((civil_day loc t + 1) * secondsPerDay - off) * Second).
Proof. intros H. unfold nextMidnight. apply (Date_midnight_steady loc t); [done|lia]. Qed.

Lemma Before_midnight t u : t < UnixNs (u * Second) <-> Unix t < u.
Proof.
  pose proof (Unix_bounds t). unfold UnixNs, Second, Nanosecond in *. split; nia.
Qed.

(** Before the next midnight means on the same day. *)
Lemma before_nextMidnight loc now1 now2 off :
  steady_offset loc now1 off -> steady_offset loc now2 off -> now1 <= now2 ->
  civil_day loc now1 <= civil_day loc now2 ∧
  (now2 < nextMidnight loc now1 <-> civil_day loc now2 = civil_day loc now1).
Proof.
  intros H1 H2 Hle.
  pose proof (civil_day_bounds _ _ _ H1) as B1. pose proof (civil_day_bounds _ _ _ H2) as B2.
  assert (Unix now1 <= Unix now2) as Hu.
  { pose proof (Unix_bounds now1). pose proof (Unix_bounds now2). unfold Second, Nanosecond in *. lia. }
  rewrite (nextMidnight_steady _ _ _ H1), Before_midnight. unfold secondsPerDay in *. lia.
Qed.

Lemma cache_expire_lookup userID now items u :
  cache_expire userID now items !! u
  = if decide (u = userID) then
      match items !! u with
      | Some e => if Before now (ce_expiresAt e) then Some e else None
      | None => None
      end
    else items !! u.
Proof.
  unfold cache_expire. destruct (decide (u = userID)) as [->|Hne].
  - destruct (items !! userID) as [e|] eqn:E; [|done].
    destruct (Before now (ce_expiresAt e)) eqn:B; simpl; [done|]. apply lookup_delete_eq.
  - destruct (items !! userID) as [e|]; [|done].
    destruct (Before now (ce_expiresAt e)); simpl; [done|]. by apply lookup_delete_ne.
Qed.

Lemma cache_run_quiet loc userID e steps items :
  items !! userID = Some e -> Forall (quiet_step userID (ce_expiresAt e)) steps ->
  cache_run loc steps items !! userID = Some e.
Proof.
  intros He HF. revert items He. induction HF as [|st steps Hst _ IH]; intros items He; [done|].
  apply IH. destruct st as [u v now|u now]; simpl in *.
  - unfold cache_Set. by rewrite lookup_insert_ne.
  - rewrite cache_expire_lookup. case_decide as Hu; [|done]. subst. rewrite He.
    unfold Before. by rewrite (proj2 (Z.ltb_lt _ _) (Hst eq_refl)).
Qed.

(** ** Properties *)

(** Where no offset change is near, the next midnight is the first instant
    after the given one at which the local clock starts a new civil day; it is
    at most 24 hours away. *)
Theorem nextMidnight_is_next_day_start loc t off :
  steady_offset loc t off ->
  t < nextMidnight loc t <= t + 24 * Hour
  ∧ (Unix (nextMidnight loc t) + off) mod secondsPerDay = 0
  ∧ (∀ u, t <= u < nextMidnight loc t -> (Unix u + off) / secondsPerDay = civil_day loc t).
Proof.
  intros Hst. rewrite (nextMidnight_steady _ _ _ Hst).
  pose proof (civil_day_bounds _ _ _ Hst) as Hb. pose proof (Unix_bounds t) as Ht.
  set (d := civil_day loc t) in *.
  split; [|split].
  - unfold UnixNs, secondsPerDay, Hour, Minute, Second, Nanosecond in *. lia.
  - rewrite Unix_UnixNs. replace (_ + off) with ((d + 1) * secondsPerDay) by lia.
    by apply Z.mod_mul.
  - intros u [Hu1 Hu2%Before_midnight]. pose proof (Unix_bounds u) as Hu.
    assert (Unix t <= Unix u) by (unfold Second, Nanosecond in *; lia).
    symmetry. apply (Z.div_unique_pos _ _ _ (Unix u + off - secondsPerDay * d)); lia.
Qed.

(** A value stored at one time is served at a later time exactly when both
    fall on the same local civil day, and it is dropped from the cache on the
    first lookup after that. *)
Theorem cache_serves_within_the_day loc off userID v now1 now2 items :
  steady_offset loc now1 off -> steady_offset loc now2 off -> now1 <= now2 ->
  let '(res, items') := cache_Get userID now2 (cache_Set loc userID v now1 items) in
  (res = Some v <-> civil_day loc now2 = civil_day loc now1)
  ∧ (res = None <-> civil_day loc now1 < civil_day loc now2)
  ∧ items' !! userID
    = (if decide (civil_day loc now2 = civil_day loc now1)
       then Some (mkCached v (nextMidnight loc now1)) else None).
Proof.
  intros H1 H2 Hle. unfold cache_Get, cache_lookup, cache_Set. rewrite lookup_insert_eq. simpl.
  destruct (before_nextMidnight _ _ _ _ H1 H2 Hle) as [Hdays Hiff].
  unfold Before. destruct (Z.ltb_spec now2 (nextMidnight loc now1)) as [Hlt|Hge]; simpl.
  - apply Hiff in Hlt. rewrite decide_True, lookup_insert_eq by done.
    split; [|split]; [done| |done]. split; [done|lia].
  - rewrite decide_False by (rewrite <-Hiff; lia).
    assert (civil_day loc now2 ≠ civil_day loc now1) by (rewrite <-Hiff; lia).
    split; [|split]; [split; [done|lia]|split; [lia|done]|].
    rewrite cache_expire_lookup, decide_True, lookup_insert_eq by done. simpl.
    unfold Before. by rewrite (proj2 (Z.ltb_ge _ _) Hge).
Qed.

(** The lazy deletion is safe under any interleaving. An entry that has just
    been stored is still there after any steps of other goroutines, including
    deletions begun before it was stored, as long as nobody stores another
    value for that user and their clocks read before the entry's expiry. *)
Theorem cache_interleaved_expiry_keeps_fresh loc userID v now steps items :
  Forall (quiet_step userID (nextMidnight loc now)) steps ->
  cache_run loc (CSet userID v now :: steps) items !! userID
  = Some (mkCached v (nextMidnight loc now)).
Proof.
  intros HF. unfold cache_run. simpl. fold (cache_run loc steps).
  apply (cache_run_quiet loc userID (mkCached v (nextMidnight loc now))); [|exact HF].
  unfold cache_Set. apply lookup_insert_eq.
Qed.

(** ** Witnesses *)
Definition witnessTod : gqlTeaOfTheDay :=
  mkGqlTeaOfTheDay (mkGqlQRRecord 9%N (mkGqlTea 5%N "sencha" TypeTea "") 80 unixEpoch) unixEpoch.

Lemma nextMidnight_is_next_day_start_witness :
  let t := unixEpoch + 1755770400 * Second in
  t < nextMidnight (FixedZone 10800) t <= t + 24 * Hour
  ∧ (Unix (nextMidnight (FixedZone 10800) t) + 10800) mod secondsPerDay = 0
  ∧ (∀ u, t <= u < nextMidnight (FixedZone 10800) t ->
       (Unix u + 10800) / secondsPerDay = civil_day (FixedZone 10800) t).
Proof.
  intros t. apply (nextMidnight_is_next_day_start (FixedZone 10800) t 10800).
  by apply FixedZone_steady.
Defined.

Lemma cache_serves_within_the_day_witness :
  let now1 := unixEpoch + 36000 * Second in
  let now2 := unixEpoch + 86400 * Second in
  let '(res, items') := cache_Get 1%N now2 (cache_Set UTC 1%N witnessTod now1 ∅) in
  (res = Some witnessTod <-> civil_day UTC now2 = civil_day UTC now1)
  ∧ (res = None <-> civil_day UTC now1 < civil_day UTC now2)
  ∧ items' !! 1%N
    = (if decide (civil_day UTC now2 = civil_day UTC now1)
       then Some (mkCached witnessTod (nextMidnight UTC now1)) else None).
Proof.
  intros now1 now2. apply (cache_serves_within_the_day UTC 0 1%N witnessTod now1 now2 ∅).
  - by apply FixedZone_steady.
  - by apply FixedZone_steady.
  - by apply Z.leb_le.
Defined.

Lemma cache_interleaved_expiry_keeps_fresh_witness :
  cache_run UTC [CSet 1%N witnessTod unixEpoch; CExpire 1%N (unixEpoch + Hour);
                 CExpire 2%N (unixEpoch + 48 * Hour)]
    {[1%N := mkCached witnessTod (unixEpoch - Hour)]} !! 1%N
  = Some (mkCached witnessTod (nextMidnight UTC unixEpoch)).
Proof.
  apply cache_interleaved_expiry_keeps_fresh.
  constructor; [|constructor; [|constructor]]; simpl; [|discriminate].
  intros _. by apply Z.ltb_lt.
Defined.
