(* ===== verification/Env.v ===== *)
(** What the program asks of its surroundings: clocks, random UUIDs and the
    PostgreSQL server.

    Each answer is a function of a tick, the number of questions asked so far,
    so that a run is determined by its environment and a theorem that holds in
    every environment holds for every behaviour of the surroundings. *)

From Stdlib Require Import Ascii.
From stdpp Require Import base list strings sorting.
From Stdlib Require Import ZArith Lia.
From S2P Require Import Prelude GoTime Common.

(** How a round trip to the database can fail: the statement was not executed,
    or it was executed and its answer was lost. *)
Inductive Fault : Type :=
  | NotExecuted (msg : string)
  | ResponseLost (msg : string).

Class Env : Type := {
  (** [uuid.New()] and [time.Now()] *)
  uuid_New : nat → UUID;
  time_Now : nat → Time;
  (** [u.String()] of github.com/google/uuid *)
  uuid_String : UUID → string;
  (** the network and the server *)
  pg_fault : nat → option Fault;
  (** [now()] of the transaction *)
  pg_now : nat → Time;
  (** the microsecond precision of [timestamptz] *)
  pg_ts : Time → Time;
  (** [lower(text)] under the locale of the database *)
  pg_lower : string → string;
  (** the collation of the database, as [a <= b] *)
  pg_collate : string → string → bool }.

(** Documented behaviour the theorems rely on. *)
Class EnvLaws `{Env} : Type := {
  pg_ts_mono : ∀ t u, (t <= u)%Z -> (pg_ts t <= pg_ts u)%Z;
  pg_ts_idem : ∀ t, pg_ts (pg_ts t) = pg_ts t;
  pg_collate_total : ∀ a b, pg_collate a b = true ∨ pg_collate b a = true;
  pg_collate_trans : ∀ a b c,
    pg_collate a b = true -> pg_collate b c = true -> pg_collate a c = true }.

(** [ORDER BY] a text column, ascending. *)
Definition text_le `{Env} {A} (key : A → string) (a b : A) : Prop :=
  pg_collate (key a) (key b) = true.

#[export] Instance text_le_dec `{Env} {A} (key : A → string) a b : Decision (text_le key a b).
Proof. unfold text_le. apply _. Defined.
#[export] Instance text_le_total `{EnvLaws} {A} (key : A → string) : Total (text_le key).
Proof. intros a b. apply pg_collate_total. Qed.
#[export] Instance text_le_trans `{EnvLaws} {A} (key : A → string) : Transitive (text_le key).
Proof. intros a b c. apply pg_collate_trans. Qed.

(** ** A concrete environment

    Counting UUIDs from 1000, written as bits, a clock that advances by one
    second a tick from 2023-11-14, microsecond timestamps, ASCII [lower] and the
    C collation; the database answers every statement. *)
Definition lower_ascii (c : Ascii.ascii) : Ascii.ascii :=
  let n := Ascii.nat_of_ascii c in
  if (65 <=? n)%nat && (n <=? 90)%nat then Ascii.ascii_of_nat (n + 32) else c.

Fixpoint lower_string (s : string) : string :=
  match s with
  | EmptyString => EmptyString
  | String c s' => String (lower_ascii c) (lower_string s')
  end.

(** Numbers as strings of bits, least significant first, without the leading
    one. *)
Fixpoint pos_bits (p : positive) : string :=
  match p with
  | xH => EmptyString
  | xO p' => String "0" (pos_bits p')
  | xI p' => String "1" (pos_bits p')
  end.

Fixpoint bits_pos (s : string) : option positive :=
  match s with
  | EmptyString => Some xH
  | String c s' =>
      p ← bits_pos s';
      if Ascii.eqb c "0" then Some (xO p)
      else if Ascii.eqb c "1" then Some (xI p) else None
  end.

Lemma bits_pos_bits p : bits_pos (pos_bits p) = Some p.
Proof. induction p as [p IH|p IH|]; simpl; rewrite ?IH; reflexivity. Qed.

Definition exampleClock (tick : nat) : Time :=
  (unixEpoch + (1700000000 + Z.of_nat tick) * Second)%Z.

Definition exampleEnv : Env := {|
  uuid_New tick := (1000 + N.of_nat tick)%N;
  time_Now := exampleClock;
  uuid_String u := pos_bits (N.succ_pos u);
  pg_fault _ := None;
  pg_now := exampleClock;
  pg_ts t := (t / 1000 * 1000)%Z;
  pg_lower := lower_string;
  pg_collate a b := negb (str_ltb b a) |}.

#[export] Instance exampleEnvLaws : @EnvLaws exampleEnv.
Proof.
  split; simpl.
  - intros t u Htu. pose proof (Z.div_le_mono t u 1000). lia.
  - intros t. by rewrite Z.div_mul.
  - intros a b. destruct (str_ltb b a) eqn:E; [|by left]. right. by rewrite (str_ltb_asym _ _ E).
  - intros a b c. rewrite !negb_true_iff. intros Hab Hbc.
    destruct (str_ltb c a) eqn:E; [|done].
    destruct (str_ltb b c) eqn:Ebc.
    + by rewrite (str_ltb_trans _ _ _ Ebc E) in Hab.
    + by rewrite (str_ltb_total b c Ebc Hbc) in Hab; congruence.
Qed.
