(* ===== verification/Schema.v ===== *)
(** The relational schema, src/db/schema.sql, and what its constraints demand
    of a database.

    A table with an [id] primary key is a finite map from ids to rows, a table
    whose primary key is all of its columns is a finite set of rows. Foreign
    keys with [ON DELETE CASCADE] are the cascades of the [delete_*] functions. *)

From stdpp Require Import base gmap sets list strings.
From Stdlib Require Import ZArith Lia.
From S2P Require Import Prelude GoTime Common Env.

(** ** Rows: a row is kept without its [id]. *)
Record UserRow : Type := mkUserRow { user_apple_id : string; user_created_at : Time }.

Record TeaRow : Type := mkTeaRow {
  tea_name : string;
  tea_type : string;
  tea_description : option string;
  tea_created_at : Time }.

Record TagRow : Type := mkTagRow { tag_name : string; tag_color : string; tag_category_id : UUID }.

Record QRRow : Type := mkQRRow {
  qrr_tea_id : UUID;
  qrr_boiling_temp : Z;
  qrr_expiration_date : Time;
  qrr_created_at : Time }.

Record CollectionRow : Type := mkCollectionRow {
  coll_user_id : UUID;
  coll_name : string;
  coll_created_at : Time }.

Record DeviceRow : Type := mkDeviceRow {
  dev_user_id : UUID;
  dev_token : string;
  dev_created_at : Time }.

Record NotificationRow : Type := mkNotificationRow {
  notif_user_id : UUID;
  notif_type : Z;
  notif_created_at : Time }.

#[export] Instance TeaRow_eq_dec : EqDecision TeaRow.
Proof. solve_decision. Defined.
#[export] Instance TagRow_eq_dec : EqDecision TagRow.
Proof. solve_decision. Defined.
#[export] Instance QRRow_eq_dec : EqDecision QRRow.
Proof. solve_decision. Defined.

(** ** The tables *)
Record Database : Type := mkDatabase {
  users : gmap UUID UserRow;
  teas : gmap UUID TeaRow;
  tag_categories : gmap UUID string;
  tags : gmap UUID TagRow;
  tea_tags : gset (UUID * UUID);
  qr_records : gmap UUID QRRow;
  collections : gmap UUID CollectionRow;
  collection_qr_items : gset (UUID * UUID);
  devices : gmap UUID DeviceRow;
  notifications : gmap UUID NotificationRow;
  consumptions : gset (UUID * Time * UUID) }.

Definition empty_db : Database := mkDatabase ∅ ∅ ∅ ∅ ∅ ∅ ∅ ∅ ∅ ∅ ∅.

Definition set_users x (d : Database) : Database :=
  mkDatabase x (teas d) (tag_categories d) (tags d) (tea_tags d) (qr_records d) (collections d)
    (collection_qr_items d) (devices d) (notifications d) (consumptions d).
Definition set_teas x (d : Database) : Database :=
  mkDatabase (users d) x (tag_categories d) (tags d) (tea_tags d) (qr_records d) (collections d)
    (collection_qr_items d) (devices d) (notifications d) (consumptions d).
Definition set_tag_categories x (d : Database) : Database :=
  mkDatabase (users d) (teas d) x (tags d) (tea_tags d) (qr_records d) (collections d)
    (collection_qr_items d) (devices d) (notifications d) (consumptions d).
Definition set_tags x (d : Database) : Database :=
  mkDatabase (users d) (teas d) (tag_categories d) x (tea_tags d) (qr_records d) (collections d)
    (collection_qr_items d) (devices d) (notifications d) (consumptions d).
Definition set_tea_tags x (d : Database) : Database :=
  mkDatabase (users d) (teas d) (tag_categories d) (tags d) x (qr_records d) (collections d)
    (collection_qr_items d) (devices d) (notifications d) (consumptions d).
Definition set_qr_records x (d : Database) : Database :=
  mkDatabase (users d) (teas d) (tag_categories d) (tags d) (tea_tags d) x (collections d)
    (collection_qr_items d) (devices d) (notifications d) (consumptions d).
Definition set_collections x (d : Database) : Database :=
  mkDatabase (users d) (teas d) (tag_categories d) (tags d) (tea_tags d) (qr_records d) x
    (collection_qr_items d) (devices d) (notifications d) (consumptions d).
Definition set_items x (d : Database) : Database :=
  mkDatabase (users d) (teas d) (tag_categories d) (tags d) (tea_tags d) (qr_records d)
    (collections d) x (devices d) (notifications d) (consumptions d).
Definition set_devices x (d : Database) : Database :=
  mkDatabase (users d) (teas d) (tag_categories d) (tags d) (tea_tags d) (qr_records d)
    (collections d) (collection_qr_items d) x (notifications d) (consumptions d).
Definition set_consumptions x (d : Database) : Database :=
  mkDatabase (users d) (teas d) (tag_categories d) (tags d) (tea_tags d) (qr_records d)
    (collections d) (collection_qr_items d) (devices d) (notifications d) x.

(** ** Deletions with their cascades *)
Definition remove_rows {A} (ids : gset UUID) (m : gmap UUID A) : gmap UUID A :=
  filter (λ kv, kv.1 ∉ ids) m.

Definition delete_tags (ids : gset UUID) (d : Database) : Database :=
  set_tea_tags (filter (λ p, p.2 ∉ ids) (tea_tags d)) (set_tags (remove_rows ids (tags d)) d).

Definition delete_qrs (ids : gset UUID) (d : Database) : Database :=
  set_items (filter (λ p, p.2 ∉ ids) (collection_qr_items d))
    (set_qr_records (remove_rows ids (qr_records d)) d).

(** The QR records of a set of teas. *)
Definition qrs_of_teas (ids : gset UUID) (d : Database) : gset UUID :=
  dom (filter (λ kv, qrr_tea_id kv.2 ∈ ids) (qr_records d)).

Definition delete_teas (ids : gset UUID) (d : Database) : Database :=
  let d1 := delete_qrs (qrs_of_teas ids d) d in
  let d2 := set_tea_tags (filter (λ p, p.1 ∉ ids) (tea_tags d1)) d1 in
  let d3 := set_consumptions (filter (λ c, c.2 ∉ ids) (consumptions d2)) d2 in
  set_teas (remove_rows ids (teas d3)) d3.

Definition delete_collections (ids : gset UUID) (d : Database) : Database :=
  set_items (filter (λ p, p.1 ∉ ids) (collection_qr_items d))
    (set_collections (remove_rows ids (collections d)) d).

(** ** Integrity *)
Definition tea_types : list string := ["tea"; "herb"; "coffee"; "other"].

(** A [UNIQUE] constraint: no two rows share a key. *)
Definition unique_on {A K} (key : A → K) (m : gmap UUID A) : Prop :=
  ∀ i j ri rj, m !! i = Some ri -> m !! j = Some rj -> key ri = key rj -> i = j.

(** A row of another id carries the key. *)
Definition taken {A K} `{EqDecision K} (key : A → K) (k : K) (except : option UUID)
    (m : gmap UUID A) : bool :=
  bool_decide (map_Exists (λ i r, Some i ≠ except ∧ key r = k) m).

(** A foreign key: every row of [m] points to a row of [target]. *)
Definition references {A B} (col : A → UUID) (m : gmap UUID A) (target : gmap UUID B) : Prop :=
  ∀ i r, m !! i = Some r -> is_Some (target !! col r).

(** The key of the unique index [tags_category_name_uq]. *)
Definition tag_key `{Env} (r : TagRow) : UUID * string :=
  (tag_category_id r, pg_lower (tag_name r)).

Definition is_int4 (z : Z) : bool := (int32_min <=? z)%Z && (z <=? int32_max)%Z.

(** What the constraints of the schema guarantee. *)
Record db_wf `{Env} (d : Database) : Prop := {
  wf_apple_id : unique_on user_apple_id (users d);
  wf_tea_type : ∀ i r, teas d !! i = Some r -> tea_type r ∈ tea_types;
  wf_category_name : unique_on id (tag_categories d);
  wf_tag_name : unique_on tag_key (tags d);
  wf_tag_category : references tag_category_id (tags d) (tag_categories d);
  wf_tea_tags : ∀ t g, (t, g) ∈ tea_tags d -> is_Some (teas d !! t) ∧ is_Some (tags d !! g);
  wf_qr_tea : references qrr_tea_id (qr_records d) (teas d);
  wf_qr_temp : ∀ i r, qr_records d !! i = Some r -> is_int4 (qrr_boiling_temp r) = true;
  wf_collection_user : references coll_user_id (collections d) (users d);
  wf_items : ∀ c q, (c, q) ∈ collection_qr_items d ->
    is_Some (collections d !! c) ∧ is_Some (qr_records d !! q);
  wf_device_user : references dev_user_id (devices d) (users d);
  wf_device_token : unique_on dev_token (devices d);
  wf_notification_user : references notif_user_id (notifications d) (users d);
  wf_consumptions : ∀ u t e, (u, t, e) ∈ consumptions d ->
    is_Some (users d !! u) ∧ is_Some (teas d !! e) }.

(** ** Lemmas on the pieces of the invariant *)
Lemma unique_on_empty {A K} (key : A → K) : unique_on key ∅.
Proof. intros i j ri rj Hi. by rewrite lookup_empty in Hi. Qed.

Lemma references_empty {A B} col (t : gmap UUID B) : references (A := A) col ∅ t.
Proof. intros i r Hi. by rewrite lookup_empty in Hi. Qed.

Lemma taken_false {A K} `{EqDecision K} (key : A → K) k except (m : gmap UUID A) :
  taken key k except m = false ->
  ∀ i r, m !! i = Some r -> Some i ≠ except -> key r ≠ k.
Proof.
  unfold taken. intros Ht%bool_decide_eq_false i r Hi Hne Hk. apply Ht.
  by exists i, r.
Qed.

Lemma unique_on_insert {A K} `{EqDecision K} (key : A → K) (m : gmap UUID A) i r :
  unique_on key m -> (∀ j rj, m !! j = Some rj -> j ≠ i -> key rj ≠ key r) ->
  unique_on key (<[i := r]> m).
Proof.
  intros Hu Hk j1 j2 r1 r2. rewrite !lookup_insert_Some.
  intros [[<- <-]|[Hn1 H1]] [[<- <-]|[Hn2 H2]] Hkey; [done| | |by eapply Hu].
  - exfalso. by eapply (Hk j2 r2); eauto.
  - exfalso. by eapply (Hk j1 r1); eauto.
Qed.

Lemma unique_on_insert_taken {A K} `{EqDecision K} (key : A → K) (m : gmap UUID A) i r except :
  unique_on key m -> taken key (key r) except m = false ->
  (∀ j, Some j = except -> j = i) -> unique_on key (<[i := r]> m).
Proof.
  intros Hu Ht He. apply unique_on_insert; [done..|]. intros j rj Hj Hne.
  eapply taken_false; [done..|]. intros Hs. apply Hne. by apply He.
Qed.

Lemma unique_on_subseteq {A K} (key : A → K) (m1 m2 : gmap UUID A) :
  m1 ⊆ m2 -> unique_on key m2 -> unique_on key m1.
Proof. intros Hm Hu i j ri rj Hi Hj. apply Hu; by eapply lookup_weaken. Qed.

Lemma references_insert {A B} (col : A → UUID) m (t : gmap UUID B) i r :
  references col m t -> is_Some (t !! col r) -> references col (<[i := r]> m) t.
Proof. intros Hr Hs j rj. rewrite lookup_insert_Some. intros [[_ <-]|[_ Hj]]; [done|by eapply Hr]. Qed.

Lemma references_subseteq {A B} (col : A → UUID) m1 m2 (t : gmap UUID B) :
  m1 ⊆ m2 -> references col m2 t -> references col m1 t.
Proof. intros Hm Hr i r Hi. eapply Hr. by eapply lookup_weaken. Qed.

Lemma insert_is_Some {A} (m : gmap UUID A) i r j : is_Some (m !! j) -> is_Some (<[i := r]> m !! j).
Proof. intros Hj. rewrite lookup_insert_is_Some'. by right. Qed.

Lemma references_target_insert {A B} (col : A → UUID) m (t : gmap UUID B) i r :
  references col m t -> references col m (<[i := r]> t).
Proof. intros Hr j rj Hj. apply insert_is_Some. by eapply Hr. Qed.

Lemma remove_rows_subseteq {A} ids (m : gmap UUID A) : remove_rows ids m ⊆ m.
Proof. apply map_filter_subseteq. Qed.

Lemma remove_rows_lookup {A} ids (m : gmap UUID A) i r :
  remove_rows ids m !! i = Some r <-> m !! i = Some r ∧ i ∉ ids.
Proof. apply map_lookup_filter_Some. Qed.

Lemma remove_rows_is_Some {A} ids (m : gmap UUID A) i :
  is_Some (m !! i) -> i ∉ ids -> is_Some (remove_rows ids m !! i).
Proof. intros [r Hr] Hi. exists r. by apply remove_rows_lookup. Qed.

Lemma qrs_of_teas_spec ids d q r :
  qr_records d !! q = Some r -> q ∈ qrs_of_teas ids d <-> qrr_tea_id r ∈ ids.
Proof.
  intros Hq. unfold qrs_of_teas. rewrite elem_of_dom. split.
  - intros [r' [Hr' Ht]%map_lookup_filter_Some]. simpl in *. congruence.
  - intros Ht. exists r. by apply map_lookup_filter_Some.
Qed.

#[export] Hint Resolve unique_on_subseteq references_subseteq references_insert
  references_target_insert insert_is_Some remove_rows_subseteq remove_rows_is_Some : go.
#[export] Hint Rewrite @remove_rows_lookup : go.

Section integrity.
Context `{Env}.

Lemma empty_db_wf : db_wf empty_db.
Proof.
  split; simpl; try apply unique_on_empty; try apply references_empty;
    try (intros i r Hi; by rewrite lookup_empty in Hi); set_solver.
Qed.

Lemma delete_tags_wf ids d : db_wf d -> db_wf (delete_tags ids d).
Proof.
  intros []. split; simpl; eauto with go.
  - intros t g. rewrite elem_of_filter. simpl. intros [Hn [??]%wf_tea_tags0]. eauto with go.
Qed.

Lemma delete_qrs_wf ids d : db_wf d -> db_wf (delete_qrs ids d).
Proof.
  intros []. split; simpl; eauto with go.
  - intros i r [Hi _]%remove_rows_lookup. eauto.
  - intros c q. rewrite elem_of_filter. simpl. intros [Hn [??]%wf_items0]. eauto with go.
Qed.

Lemma delete_teas_wf ids d : db_wf d -> db_wf (delete_teas ids d).
Proof.
  intros Hd. pose proof (delete_qrs_wf (qrs_of_teas ids d) d Hd) as [].
  unfold delete_teas. split; simpl in *; eauto with go.
  - intros i r [Hi _]%remove_rows_lookup. eauto.
  - intros t g. rewrite elem_of_filter. simpl. intros [Hn [??]%wf_tea_tags0]. eauto with go.
  - intros q r Hq. apply remove_rows_is_Some; [by eapply wf_qr_tea0|].
    apply remove_rows_lookup in Hq as [Hq Hn]. by rewrite <-(qrs_of_teas_spec _ _ _ _ Hq).
  - intros u t e. rewrite elem_of_filter. simpl. intros [Hn [??]%wf_consumptions0]. eauto with go.
Qed.

Lemma delete_collections_wf ids d : db_wf d -> db_wf (delete_collections ids d).
Proof.
  intros []. split; simpl; eauto with go.
  - intros c q. rewrite elem_of_filter. simpl. intros [Hn [??]%wf_items0]. eauto with go.
Qed.

End integrity.
