(* ===== verification/Sql.v ===== *)
(** The SQL statements of src/pkg/pgstore/queries.go, read against the schema.

    A statement takes the transaction's [now()] and the database, and either is
    refused, which changes nothing, or yields its rows and the new database.
    Rows are pairs of an id and the rest of the row. [ORDER BY] sorts; the order
    of rows that compare equal is the one of the model's tables, which no
    theorem relies on. Text comparison and [lower] come from the environment. *)

From Stdlib Require Import Ascii.
From stdpp Require Import base gmap sets list strings sorting.
From Stdlib Require Import ZArith Lia.
From S2P Require Import Prelude GoTime Common Env Schema.

Definition Stmt (A : Type) : Type := Time → Database → SqlError + (A * Database).

(** ** [LIKE] *)

(** The characters of a UTF-8 string: a byte with the continuation bytes after
    it. *)
Definition is_continuation (c : ascii) : bool :=
  let n := nat_of_ascii c in (128 <=? n)%nat && (n <? 192)%nat.

Fixpoint utf8_chars (s : string) : list string :=
  match s with
  | EmptyString => []
  | String c s' =>
      let l := utf8_chars s' in
      match s', l with
      | String c' _, x :: l' =>
          if is_continuation c' then String c x :: l' else String c "" :: l
      | _, _ => String c "" :: l
      end
  end.

(** [s LIKE p]: [%] matches any run of characters, [_] any character, a
    backslash takes the next character of the pattern literally. A pattern that
    ends in a backslash is an error, which a final [%] rules out. *)
Fixpoint like_chars (p : list string) : list string → bool :=
  match p with
  | [] => λ s, match s with [] => true | _ => false end
  | c :: p' =>
      if String.eqb c "%" then
        fix any (s : list string) : bool :=
          like_chars p' s || match s with [] => false | _ :: s' => any s' end
      else if String.eqb c "_" then
        λ s, match s with [] => false | _ :: s' => like_chars p' s' end
      else if String.eqb c "\" then
        λ s, match p', s with
             | e :: p'', x :: s' => String.eqb e x && like_chars p'' s'
             | _, _ => false
             end
      else
        λ s, match s with [] => false | x :: s' => String.eqb c x && like_chars p' s' end
  end.

Definition like (s p : string) : bool := like_chars (utf8_chars p) (utf8_chars s).

Section statements.
Context `{Env}.

(** [lower(name) LIKE lower($1) || '%'] *)
Definition name_like (prefix name : string) : bool :=
  like (pg_lower name) (pg_lower prefix +:+ "%").

(** [SELECT ... FROM m WHERE P ORDER BY le] *)
Definition select {A} (P : UUID * A → Prop) `{∀ x, Decision (P x)}
    (le : UUID * A → UUID * A → Prop) `{∀ x y, Decision (le x y)} (m : gmap UUID A)
    : list (UUID * A) :=
  merge_sort le (filter P (map_to_list m)).

Definition find_row {A} (P : A → Prop) `{∀ r, Decision (P r)} (m : gmap UUID A)
    : option (UUID * A) :=
  head (filter (λ p, P p.2) (map_to_list m)).

Definition limit_rows {A} (limit : Z) (l : list A) : list A :=
  if (Z.of_nat (length l) <=? limit)%Z then l else take (Z.to_nat limit) l.

Definition queried {A} (rows : A) (d : Database) : SqlError + (A * Database) := inr (rows, d).

(** *** users *)
Definition upsertUser (id : UUID) (apple_id : string) : Stmt (option (UUID * UserRow)) := λ now d,
  match find_row (λ r, user_apple_id r = apple_id) (users d) with
  | Some (i, r) =>
      let r' := mkUserRow apple_id (user_created_at r) in
      inr (Some (i, r'), set_users (<[i := r']> (users d)) d)
  | None =>
      match users d !! id with
      | Some _ => inl (UniqueViolation "users_pkey")
      | None =>
          let r := mkUserRow apple_id now in
          inr (Some (id, r), set_users (<[id := r]> (users d)) d)
      end
  end.

Definition listUsers : Stmt (list (UUID * UserRow)) := λ _ d,
  queried (select (λ _, True) (ge_on (λ p, user_created_at p.2)) (users d)) d.

(** *** teas *)
Definition insertTea (id : UUID) (name type_ : string) (description : option string)
    : Stmt (option (UUID * TeaRow)) := λ now d,
  if bool_decide (type_ ∉ tea_types) then inl (CheckViolation "teas_type_check")
  else match teas d !! id with
  | Some _ => inl (UniqueViolation "teas_pkey")
  | None =>
      let r := mkTeaRow name type_ description now in
      inr (Some (id, r), set_teas (<[id := r]> (teas d)) d)
  end.

Definition updateTea (id : UUID) (name type_ : string) (description : option string)
    : Stmt (option (UUID * TeaRow)) := λ _ d,
  match teas d !! id with
  | None => inr (None, d)
  | Some r0 =>
      if bool_decide (type_ ∉ tea_types) then inl (CheckViolation "teas_type_check")
      else
        let r := mkTeaRow name type_ description (tea_created_at r0) in
        inr (Some (id, r), set_teas (<[id := r]> (teas d)) d)
  end.

Definition deleteTea (id : UUID) : Stmt unit := λ _ d, inr (tt, delete_teas {[id]} d).

Definition getTea (id : UUID) : Stmt (option (UUID * TeaRow)) := λ _ d,
  queried (pair id <$> teas d !! id) d.

Definition listTeas : Stmt (list (UUID * TeaRow)) := λ _ d,
  queried (select (λ _, True) (ge_on (λ p, tea_created_at p.2)) (teas d)) d.

Definition searchTeasByPrefix (name : string) (limit : Z) : Stmt (list (UUID * TeaRow)) := λ _ d,
  if (limit <? 0)%Z then inl (DriverError "LIMIT must not be negative")
  else queried (limit_rows limit
    (select (λ p, name_like name (tea_name p.2) = true) (text_le (λ p, tea_name p.2)) (teas d))) d.

(** *** tag_categories *)
Definition insertTagCategory (id : UUID) (name : string) : Stmt (option (UUID * string)) := λ _ d,
  match tag_categories d !! id with
  | Some _ => inl (UniqueViolation "tag_categories_pkey")
  | None =>
      if taken Datatypes.id name None (tag_categories d)
      then inl (UniqueViolation "tag_categories_name_key")
      else inr (Some (id, name), set_tag_categories (<[id := name]> (tag_categories d)) d)
  end.

Definition updateTagCategory (id : UUID) (name : string) : Stmt (option (UUID * string)) := λ _ d,
  match tag_categories d !! id with
  | None => inr (None, d)
  | Some _ =>
      if taken Datatypes.id name (Some id) (tag_categories d)
      then inl (UniqueViolation "tag_categories_name_key")
      else inr (Some (id, name), set_tag_categories (<[id := name]> (tag_categories d)) d)
  end.

(** [ON DELETE RESTRICT]: refused while a tag refers to the category. *)
Definition deleteTagCategory (id : UUID) : Stmt unit := λ _ d,
  if bool_decide (map_Exists (λ _ r, tag_category_id r = id) (tags d)) then
    inl (ForeignKeyViolation "tags_category_id_fkey")
  else inr (tt, set_tag_categories (remove_rows {[id]} (tag_categories d)) d).

Definition listTagCategories : Stmt (list (UUID * string)) := λ _ d,
  queried (select (λ _, True) (text_le snd) (tag_categories d)) d.

Definition getTagCategory (id : UUID) : Stmt (option (UUID * string)) := λ _ d,
  queried (pair id <$> tag_categories d !! id) d.

Definition searchTagCategories (prefix : string) : Stmt (list (UUID * string)) := λ _ d,
  queried (select (λ p, name_like prefix p.2 = true) (text_le snd) (tag_categories d)) d.

(** *** tags *)
Definition listTagsByCategory (categoryID : UUID) : Stmt (list (UUID * TagRow)) := λ _ d,
  queried (select (λ p, tag_category_id p.2 = categoryID) (text_le (λ p, tag_name p.2)) (tags d)) d.

Definition deleteTagsByCategory (categoryID : UUID) : Stmt unit := λ _ d,
  inr (tt, delete_tags (dom (filter (λ kv, tag_category_id kv.2 = categoryID) (tags d))) d).

(** The checks of a new or changed tag row: the unique index, then the foreign
    key. *)
Definition check_tag (id : UUID) (r : TagRow) (d : Database) : option SqlError :=
  if taken tag_key (tag_key r) (Some id) (tags d) then Some (UniqueViolation "tags_category_name_uq")
  else match tag_categories d !! tag_category_id r with
  | None => Some (ForeignKeyViolation "tags_category_id_fkey")
  | Some _ => None
  end.

Definition store_tag (id : UUID) (r : TagRow) (d : Database)
    : SqlError + (option (UUID * TagRow) * Database) :=
  match check_tag id r d with
  | Some e => inl e
  | None => inr (Some (id, r), set_tags (<[id := r]> (tags d)) d)
  end.

Definition insertTag (id : UUID) (name color : string) (categoryID : UUID)
    : Stmt (option (UUID * TagRow)) := λ _ d,
  match tags d !! id with
  | Some _ => inl (UniqueViolation "tags_pkey")
  | None => store_tag id (mkTagRow name color categoryID) d
  end.

Definition updateTag (id : UUID) (name color : string) : Stmt (option (UUID * TagRow)) := λ _ d,
  match tags d !! id with
  | None => inr (None, d)
  | Some r => store_tag id (mkTagRow name color (tag_category_id r)) d
  end.

Definition changeTagCategory (id categoryID : UUID) : Stmt (option (UUID * TagRow)) := λ _ d,
  match tags d !! id with
  | None => inr (None, d)
  | Some r => store_tag id (mkTagRow (tag_name r) (tag_color r) categoryID) d
  end.

Definition deleteTag (id : UUID) : Stmt unit := λ _ d, inr (tt, delete_tags {[id]} d).

Definition getTag (id : UUID) : Stmt (option (UUID * TagRow)) := λ _ d,
  queried (pair id <$> tags d !! id) d.

Definition listTags : Stmt (list (UUID * TagRow)) := λ _ d,
  queried (select (λ _, True) (text_le (λ p, tag_name p.2)) (tags d)) d.

Definition listTagsByName (prefix : string) : Stmt (list (UUID * TagRow)) := λ _ d,
  queried (select (λ p, name_like prefix (tag_name p.2) = true)
    (text_le (λ p, tag_name p.2)) (tags d)) d.

Definition listTagsByCategoryFilter (categoryID : UUID) : Stmt (list (UUID * TagRow)) := λ _ d,
  queried (select (λ p, tag_category_id p.2 = categoryID) (text_le (λ p, tag_name p.2)) (tags d)) d.

Definition listTagsByNameCategory (prefix : string) (categoryID : UUID)
    : Stmt (list (UUID * TagRow)) := λ _ d,
  queried (select (λ p, name_like prefix (tag_name p.2) = true ∧ tag_category_id p.2 = categoryID)
    (text_le (λ p, tag_name p.2)) (tags d)) d.

(** *** tea_tags *)
Definition addTagToTea (teaID tagID : UUID) : Stmt unit := λ _ d,
  if bool_decide ((teaID, tagID) ∈ tea_tags d) then inr (tt, d)
  else match teas d !! teaID, tags d !! tagID with
  | None, _ => inl (ForeignKeyViolation "tea_tags_tea_id_fkey")
  | _, None => inl (ForeignKeyViolation "tea_tags_tag_id_fkey")
  | Some _, Some _ => inr (tt, set_tea_tags ({[(teaID, tagID)]} ∪ tea_tags d) d)
  end.

Definition deleteTagFromTea (teaID tagID : UUID) : Stmt unit := λ _ d,
  inr (tt, set_tea_tags (tea_tags d ∖ {[(teaID, tagID)]}) d).

Definition listTagsByTea (teaID : UUID) : Stmt (list (UUID * TagRow)) := λ _ d,
  let joined := omap (λ p, pair p.2 <$> tags d !! p.2)
                  (filter (λ p, p.1 = teaID) (elements (tea_tags d))) in
  queried (merge_sort (text_le (λ p, tag_name p.2)) joined) d.

(** *** qr_records *)
Definition upsertQR (id teaID : UUID) (boilingTemp : Z) (expirationDate : Time) : Stmt unit := λ now d,
  if negb (is_int4 boilingTemp) then inl (DriverError "integer out of range")
  else match teas d !! teaID with
  | None => inl (ForeignKeyViolation "qr_records_tea_id_fkey")
  | Some _ =>
      let created := match qr_records d !! id with Some r => qrr_created_at r | None => now end in
      let r := mkQRRow teaID boilingTemp (pg_ts expirationDate) created in
      inr (tt, set_qr_records (<[id := r]> (qr_records d)) d)
  end.

Definition getQR (id : UUID) : Stmt (option (UUID * QRRow)) := λ _ d,
  queried (pair id <$> qr_records d !! id) d.

(** *** collections *)
Definition insertCollection (id userID : UUID) (name : string)
    : Stmt (option (UUID * CollectionRow)) := λ now d,
  match collections d !! id, users d !! userID with
  | Some _, _ => inl (UniqueViolation "collections_pkey")
  | None, None => inl (ForeignKeyViolation "collections_user_id_fkey")
  | None, Some _ =>
      let r := mkCollectionRow userID name now in
      inr (Some (id, r), set_collections (<[id := r]> (collections d)) d)
  end.

Definition insertCollectionItem (collectionID qrID : UUID) : Stmt unit := λ _ d,
  if bool_decide ((collectionID, qrID) ∈ collection_qr_items d) then inr (tt, d)
  else match collections d !! collectionID, qr_records d !! qrID with
  | None, _ => inl (ForeignKeyViolation "collection_qr_items_collection_id_fkey")
  | _, None => inl (ForeignKeyViolation "collection_qr_items_qr_id_fkey")
  | Some _, Some _ => inr (tt, set_items ({[(collectionID, qrID)]} ∪ collection_qr_items d) d)
  end.

(** The join drops the ids that are not QR records; only rows that are really
    inserted are checked against [collections]. *)
Definition insertCollectionItems (collectionID : UUID) (qrIDs : list UUID) : Stmt unit := λ _ d,
  let joined := filter (λ x, is_Some (qr_records d !! x)) qrIDs in
  let fresh := filter (λ p, p ∉ collection_qr_items d) (pair collectionID <$> joined) in
  match fresh, collections d !! collectionID with
  | _ :: _, None => inl (ForeignKeyViolation "collection_qr_items_collection_id_fkey")
  | _, _ => inr (tt, set_items (list_to_set fresh ∪ collection_qr_items d) d)
  end.

Definition deleteCollectionItem (collectionID qrID : UUID) : Stmt unit := λ _ d,
  inr (tt, set_items (collection_qr_items d ∖ {[(collectionID, qrID)]}) d).

Definition deleteCollection (id userID : UUID) : Stmt unit := λ _ d,
  match collections d !! id with
  | Some r => if decide (coll_user_id r = userID) then inr (tt, delete_collections {[id]} d)
              else inr (tt, d)
  | None => inr (tt, d)
  end.

Definition listCollections (userID : UUID) : Stmt (list (UUID * CollectionRow)) := λ _ d,
  queried (select (λ p, coll_user_id p.2 = userID) (ge_on (λ p, coll_created_at p.2))
    (collections d)) d.

Definition getCollection (id userID : UUID) : Stmt (option (UUID * CollectionRow)) := λ _ d,
  queried (match collections d !! id with
           | Some r => if decide (coll_user_id r = userID) then Some (id, r) else None
           | None => None
           end) d.

Record ListCollectionRecordsRow : Type := mkLcrRow {
  lcr_QRID : UUID;
  lcr_TeaID : UUID;
  lcr_Name : string;
  lcr_Type : string;
  lcr_Description : option string;
  lcr_BoilingTemp : Z;
  lcr_ExpirationDate : Time }.

(** One row of the join, if both ends exist. *)
Definition join_record (d : Database) (qr_id : UUID) : option ListCollectionRecordsRow :=
  match qr_records d !! qr_id with
  | None => None
  | Some q =>
      match teas d !! qrr_tea_id q with
      | None => None
      | Some t => Some (mkLcrRow qr_id (qrr_tea_id q) (tea_name t) (tea_type t) (tea_description t)
                          (qrr_boiling_temp q) (qrr_expiration_date q))
      end
  end.

Definition listCollectionRecords (collectionID : UUID) : Stmt (list ListCollectionRecordsRow) := λ _ d,
  let joined := omap (λ p, join_record d p.2)
                  (filter (λ p, p.1 = collectionID) (elements (collection_qr_items d))) in
  queried (merge_sort (le_on lcr_ExpirationDate) joined) d.

(** *** devices *)
Definition insertDevice (id userID : UUID) (token : string) : Stmt unit := λ now d,
  match devices d !! id with
  | Some _ => inr (tt, d)
  | None =>
      if taken dev_token token None (devices d) then inl (UniqueViolation "devices_token_key")
      else match users d !! userID with
      | None => inl (ForeignKeyViolation "devices_user_id_fkey")
      | Some _ => inr (tt, set_devices (<[id := mkDeviceRow userID token now]> (devices d)) d)
      end
  end.

(** The number of rows affected. *)
Definition updateDeviceToken (id : UUID) (token : string) : Stmt Z := λ _ d,
  match devices d !! id with
  | None => inr (0%Z, d)
  | Some r =>
      if taken dev_token token (Some id) (devices d) then inl (UniqueViolation "devices_token_key")
      else inr (1%Z, set_devices (<[id := mkDeviceRow (dev_user_id r) token (dev_created_at r)]>
                       (devices d)) d)
  end.

Definition listDeviceTokens (userID : UUID) : Stmt (list string) := λ _ d,
  queried ((λ p, dev_token p.2) <$>
    select (λ p, dev_user_id p.2 = userID) (ge_on (λ p, dev_created_at p.2)) (devices d)) d.

(** *** notifications *)
Definition listNotifications (userID : UUID) : Stmt (list (UUID * NotificationRow)) := λ _ d,
  queried (select (λ p, notif_user_id p.2 = userID) (ge_on (λ p, notif_created_at p.2))
    (notifications d)) d.

(** *** consumptions *)
Definition insertConsumption (userID : UUID) (ts : Time) (teaID : UUID) : Stmt unit := λ _ d,
  if bool_decide ((userID, pg_ts ts, teaID) ∈ consumptions d) then inr (tt, d)
  else match users d !! userID, teas d !! teaID with
  | None, _ => inl (ForeignKeyViolation "consumptions_user_id_fkey")
  | _, None => inl (ForeignKeyViolation "consumptions_tea_id_fkey")
  | Some _, Some _ => inr (tt, set_consumptions ({[(userID, pg_ts ts, teaID)]} ∪ consumptions d) d)
  end.

Definition deleteConsumptionsBefore (userID : UUID) (cutoff : Time) : Stmt unit := λ _ d,
  inr (tt, set_consumptions
    (filter (λ c, ¬ (c.1.1 = userID ∧ (c.1.2 < pg_ts cutoff)%Z)) (consumptions d)) d).

Definition listConsumptionsSince (userID : UUID) (since : Time) : Stmt (list (Time * UUID)) := λ _ d,
  let rows := filter (λ c, c.1.1 = userID ∧ (pg_ts since <= c.1.2)%Z) (elements (consumptions d)) in
  queried (merge_sort (ge_on fst) ((λ c, (c.1.2, c.2)) <$> rows)) d.

End statements.

(** ** Lemmas *)

(** *** Selections *)
Section selections.
Context {A : Type}.
Context (P : UUID * A → Prop) `{HP : ∀ x, Decision (P x)}.
Context (le : UUID * A → UUID * A → Prop) `{Hle : ∀ x y, Decision (le x y)}.

Lemma select_elem i r m : (i, r) ∈ select P le m <-> m !! i = Some r ∧ P (i, r).
Proof.
  unfold select. rewrite merge_sort_Permutation, list_elem_of_filter, elem_of_map_to_list.
  tauto.
Qed.

Lemma select_NoDup m : NoDup (select P le m).*1.
Proof.
  unfold select. rewrite merge_sort_Permutation.
  pose proof (NoDup_fst_map_to_list m) as Hnd.
  induction (map_to_list m) as [|x l IH]; [constructor|].
  rewrite filter_cons. rewrite fmap_cons in Hnd. apply NoDup_cons in Hnd as [Hx Hnd].
  destruct (decide (P x)); [|by apply IH]. rewrite fmap_cons. apply NoDup_cons.
  split; [|by apply IH]. intros (y & Hxy & Hy)%list_elem_of_fmap. apply Hx. rewrite Hxy.
  apply list_elem_of_filter in Hy as [_ Hy]. apply list_elem_of_fmap. by exists y.
Qed.

Lemma select_sorted `{!Total le, !Transitive le} m : StronglySorted le (select P le m).
Proof. apply StronglySorted_merge_sort; apply _. Qed.
End selections.

Lemma find_row_Some {A} (P : A → Prop) `{∀ r, Decision (P r)} (m : gmap UUID A) i r :
  find_row P m = Some (i, r) -> m !! i = Some r ∧ P r.
Proof.
  unfold find_row. intros Hh%head_Some_elem_of.
  apply list_elem_of_filter in Hh as [HP Hm]. by rewrite elem_of_map_to_list in Hm.
Qed.

Lemma find_row_None {A} (P : A → Prop) `{∀ r, Decision (P r)} (m : gmap UUID A) i r :
  find_row P m = None -> m !! i = Some r -> ¬ P r.
Proof.
  unfold find_row. intros Hh%head_None Hi HP.
  apply (not_elem_of_nil (i, r)). rewrite <-Hh.
  apply list_elem_of_filter. by rewrite elem_of_map_to_list.
Qed.

(** *** Every statement keeps the integrity of the database *)
Section integrity.
Context `{Env}.

Definition stmt_wf {A} (s : Stmt A) : Prop :=
  ∀ now d a d', db_wf d -> s now d = inr (a, d') -> db_wf d'.

(** The components of [db_wf] that a change of one table leaves alone. *)
Ltac wf_split := split; simpl; eauto with go.

Lemma upsertUser_wf id apple_id : stmt_wf (upsertUser id apple_id).
Proof.
  intros now d a d' Hd Hs. unfold upsertUser in Hs. pose proof Hd as [].
  destruct (find_row _ _) as [[i r]|] eqn:Hf.
  - apply find_row_Some in Hf as [Hi Ha]. simplify_eq. wf_split.
    + apply unique_on_insert; [done|]. intros j rj Hj Hne Hk. simpl in Hk.
      apply Hne. eapply wf_apple_id; [done..|]. congruence.
    + intros u t e [??]%wf_consumptions. eauto with go.
  - destruct (users d !! id) eqn:Hid; simplify_eq. wf_split.
    + apply unique_on_insert; [done|]. intros j rj Hj Hne. by eapply find_row_None in Hf.
    + intros u t e [??]%wf_consumptions. eauto with go.
Qed.

Lemma store_tea_wf id name type_ description created d :
  db_wf d -> type_ ∈ tea_types ->
  db_wf (set_teas (<[id := mkTeaRow name type_ description created]> (teas d)) d).
Proof.
  intros [] Ht. wf_split.
  - intros i r. rewrite lookup_insert_Some. intros [[_ <-]|[_ ?]]; simpl; eauto.
  - intros t g [??]%wf_tea_tags. eauto with go.
  - intros u t e [??]%wf_consumptions. eauto with go.
Qed.

Lemma insertTea_wf id name type_ description : stmt_wf (insertTea id name type_ description).
Proof.
  intros now d a d' Hd Hs. unfold insertTea in Hs.
  case_bool_decide as Ht; [done|]. destruct (teas d !! id); simplify_eq.
  by apply store_tea_wf.
Qed.

Lemma updateTea_wf id name type_ description : stmt_wf (updateTea id name type_ description).
Proof.
  intros now d a d' Hd Hs. unfold updateTea in Hs.
  destruct (teas d !! id); [|by simplify_eq].
  case_bool_decide as Ht; [done|]. simplify_eq.
  by apply store_tea_wf.
Qed.

Lemma deleteTea_wf id : stmt_wf (deleteTea id).
Proof. intros now d a d' Hd [= <- <-]. by apply delete_teas_wf. Qed.

Lemma store_category_wf id name except d :
  db_wf d -> taken Datatypes.id name except (tag_categories d) = false ->
  (∀ j, Some j = except -> j = id) ->
  db_wf (set_tag_categories (<[id := name]> (tag_categories d)) d).
Proof. intros [] Ht He. wf_split. by eapply unique_on_insert_taken. Qed.

Lemma insertTagCategory_wf id name : stmt_wf (insertTagCategory id name).
Proof.
  intros now d a d' Hd Hs. unfold insertTagCategory in Hs.
  destruct (tag_categories d !! id); [done|].
  destruct (taken _ _ _ _) eqn:Ht; simplify_eq. by eapply store_category_wf.
Qed.

Lemma updateTagCategory_wf id name : stmt_wf (updateTagCategory id name).
Proof.
  intros now d a d' Hd Hs. unfold updateTagCategory in Hs.
  destruct (tag_categories d !! id); [|by simplify_eq].
  destruct (taken _ _ _ _) eqn:Ht; simplify_eq.
  eapply store_category_wf; [done..|]. congruence.
Qed.

Lemma deleteTagCategory_wf id : stmt_wf (deleteTagCategory id).
Proof.
  intros now d a d' Hd Hs. unfold deleteTagCategory in Hs.
  case_bool_decide as Hr; simplify_eq. pose proof Hd as []. wf_split.
  intros i r Hi. apply remove_rows_is_Some; [by eapply wf_tag_category|].
  intros Heq%elem_of_singleton. apply Hr. by exists i, r.
Qed.

Lemma deleteTagsByCategory_wf id : stmt_wf (deleteTagsByCategory id).
Proof. intros now d a d' Hd [= <- <-]. by apply delete_tags_wf. Qed.

Lemma deleteTag_wf id : stmt_wf (deleteTag id).
Proof. intros now d a d' Hd [= <- <-]. by apply delete_tags_wf. Qed.

Lemma store_tag_wf id r d a d' : db_wf d -> store_tag id r d = inr (a, d') -> db_wf d'.
Proof.
  intros Hd Hs. unfold store_tag, check_tag in Hs. pose proof Hd as [].
  destruct (taken _ _ _ _) eqn:Ht; [done|].
  destruct (tag_categories d !! tag_category_id r) eqn:Hc; simplify_eq. wf_split.
  - eapply unique_on_insert_taken; [done..|]. congruence.
  - intros t g [??]%wf_tea_tags. eauto with go.
Qed.

Lemma insertTag_wf id name color cat : stmt_wf (insertTag id name color cat).
Proof.
  intros now d a d' Hd Hs. unfold insertTag in Hs.
  destruct (tags d !! id); [done|]. by eapply store_tag_wf.
Qed.

Lemma updateTag_wf id name color : stmt_wf (updateTag id name color).
Proof.
  intros now d a d' Hd Hs. unfold updateTag in Hs.
  destruct (tags d !! id); [|by simplify_eq]. by eapply store_tag_wf.
Qed.

Lemma changeTagCategory_wf id cat : stmt_wf (changeTagCategory id cat).
Proof.
  intros now d a d' Hd Hs. unfold changeTagCategory in Hs.
  destruct (tags d !! id); [|by simplify_eq]. by eapply store_tag_wf.
Qed.

Lemma addTagToTea_wf tea tag : stmt_wf (addTagToTea tea tag).
Proof.
  intros now d a d' Hd Hs. unfold addTagToTea in Hs. pose proof Hd as [].
  case_bool_decide; [by simplify_eq|].
  destruct (teas d !! tea) eqn:Ht; [|done]. destruct (tags d !! tag) eqn:Hg; simplify_eq. wf_split.
  intros t1 g1 [Hin%elem_of_singleton|Hin]%elem_of_union; [|by apply wf_tea_tags].
  simplify_eq. by rewrite Ht, Hg.
Qed.

Lemma deleteTagFromTea_wf tea tag : stmt_wf (deleteTagFromTea tea tag).
Proof.
  intros now d a d' Hd [= <- <-]. pose proof Hd as []. wf_split.
  intros t g [Hin _]%elem_of_difference. by apply wf_tea_tags.
Qed.

Lemma upsertQR_wf id tea temp expiration : stmt_wf (upsertQR id tea temp expiration).
Proof.
  intros now d a d' Hd Hs. unfold upsertQR in Hs. pose proof Hd as [].
  destruct (is_int4 temp) eqn:Hi; simpl in Hs; [|done].
  destruct (teas d !! tea) eqn:Ht; simplify_eq. wf_split.
  - intros i r. rewrite lookup_insert_Some. intros [[_ <-]|[_ ?]]; simpl; eauto.
  - intros c q [??]%wf_items. eauto with go.
Qed.

Lemma insertCollection_wf id user name : stmt_wf (insertCollection id user name).
Proof.
  intros now d a d' Hd Hs. unfold insertCollection in Hs. pose proof Hd as [].
  destruct (collections d !! id); [done|].
  destruct (users d !! user) eqn:Hu; simplify_eq. wf_split.
  - intros c q [??]%wf_items. eauto with go.
Qed.

Lemma insertCollectionItem_wf cid qid : stmt_wf (insertCollectionItem cid qid).
Proof.
  intros now d a d' Hd Hs. unfold insertCollectionItem in Hs. pose proof Hd as [].
  case_bool_decide; [by simplify_eq|].
  destruct (collections d !! cid) eqn:Hc; [|done].
  destruct (qr_records d !! qid) eqn:Hq; simplify_eq. wf_split.
  intros c1 q1 [Hin%elem_of_singleton|Hin]%elem_of_union; [|by apply wf_items].
  simplify_eq. by rewrite Hc, Hq.
Qed.

(** What the batch insertion adds. *)
Lemma insertCollectionItems_spec cid qids now d d' :
  insertCollectionItems cid qids now d = inr (tt, d') ->
  ∃ new, d' = set_items (list_to_set new ∪ collection_qr_items d) d ∧
    (∀ p, p ∈ new <-> ∃ q, p = (cid, q) ∧ q ∈ qids ∧ is_Some (qr_records d !! q)
                        ∧ p ∉ collection_qr_items d) ∧
    (new = [] ∨ is_Some (collections d !! cid)).
Proof.
  unfold insertCollectionItems. intros Hs.
  set (new := filter _ (pair cid <$> _)) in *.
  exists new. split; [|split].
  - destruct new, (collections d !! cid); by simplify_eq.
  - intros p. unfold new. rewrite list_elem_of_filter, list_elem_of_fmap.
    setoid_rewrite list_elem_of_filter. naive_solver.
  - destruct new, (collections d !! cid) eqn:Hc; eauto; done.
Qed.

Lemma insertCollectionItems_wf cid qids : stmt_wf (insertCollectionItems cid qids).
Proof.
  intros now d [] d' Hd Hs. pose proof Hd as [].
  apply insertCollectionItems_spec in Hs as (new & -> & Hnew & Hcol). wf_split.
  intros c q [Hin%elem_of_list_to_set|Hin]%elem_of_union; [|by apply wf_items].
  pose proof Hin as (q' & ? & _ & Hq & _)%Hnew. simplify_eq.
  destruct Hcol as [->|Hc]; [by apply not_elem_of_nil in Hin|done].
Qed.

Lemma deleteCollectionItem_wf cid qid : stmt_wf (deleteCollectionItem cid qid).
Proof.
  intros now d a d' Hd [= <- <-]. pose proof Hd as []. wf_split.
  intros c q [Hin _]%elem_of_difference. by apply wf_items.
Qed.

Lemma deleteCollection_wf id user : stmt_wf (deleteCollection id user).
Proof.
  intros now d a d' Hd Hs. unfold deleteCollection in Hs.
  destruct (collections d !! id); [destruct (decide _)|]; simplify_eq; [|done..].
  by apply delete_collections_wf.
Qed.

Lemma insertDevice_wf id user token : stmt_wf (insertDevice id user token).
Proof.
  intros now d a d' Hd Hs. unfold insertDevice in Hs. pose proof Hd as [].
  destruct (devices d !! id) eqn:Hi; [by simplify_eq|].
  destruct (taken _ _ _ _) eqn:Ht; [done|].
  destruct (users d !! user) eqn:Hu; simplify_eq. wf_split.
  by eapply unique_on_insert_taken.
Qed.

Lemma updateDeviceToken_wf id token : stmt_wf (updateDeviceToken id token).
Proof.
  intros now d a d' Hd Hs. unfold updateDeviceToken in Hs. pose proof Hd as [].
  destruct (devices d !! id) eqn:Hi; [|by simplify_eq].
  destruct (taken _ _ _ _) eqn:Ht; [done|]. simplify_eq. wf_split.
  - apply references_insert; [done|]. simpl. by eapply wf_device_user.
  - eapply unique_on_insert_taken; [done..|]. congruence.
Qed.

Lemma insertConsumption_wf user ts tea : stmt_wf (insertConsumption user ts tea).
Proof.
  intros now d a d' Hd Hs. unfold insertConsumption in Hs. pose proof Hd as [].
  case_bool_decide; [by simplify_eq|].
  destruct (users d !! user) eqn:Hu; [|done]. destruct (teas d !! tea) eqn:Ht; simplify_eq. wf_split.
  intros u1 t1 e1 [Hin%elem_of_singleton|Hin]%elem_of_union; [|by eapply wf_consumptions].
  simplify_eq. by rewrite Hu, Ht.
Qed.

Lemma deleteConsumptionsBefore_wf user cutoff : stmt_wf (deleteConsumptionsBefore user cutoff).
Proof.
  intros now d a d' Hd [= <- <-]. pose proof Hd as []. wf_split.
  intros u t e [_ Hin]%elem_of_filter. by eapply wf_consumptions.
Qed.

(** A statement that only reads. *)
Definition read_only {A} (s : Stmt A) : Prop := ∀ now d a d', s now d = inr (a, d') -> d' = d.

Lemma read_only_wf {A} (s : Stmt A) : read_only s -> stmt_wf s.
Proof. intros Hr now d a d' Hd Hs. by rewrite (Hr _ _ _ _ Hs). Qed.

Lemma queried_read_only {A} (f : Database → A) : read_only (λ _ d, queried (f d) d).
Proof. by intros now d a d' [= _ <-]. Qed.

Lemma searchTeasByPrefix_read_only name limit : read_only (searchTeasByPrefix name limit).
Proof.
  intros now d a d' Hs. unfold searchTeasByPrefix in Hs.
  destruct (limit <? 0)%Z; [done|]. unfold queried in Hs. by simplify_eq.
Qed.
End integrity.

#[export] Hint Resolve upsertUser_wf insertTea_wf updateTea_wf deleteTea_wf insertTagCategory_wf
  updateTagCategory_wf deleteTagCategory_wf deleteTagsByCategory_wf deleteTag_wf insertTag_wf
  updateTag_wf changeTagCategory_wf addTagToTea_wf deleteTagFromTea_wf upsertQR_wf
  insertCollection_wf insertCollectionItem_wf insertCollectionItems_wf deleteCollectionItem_wf
  deleteCollection_wf insertDevice_wf updateDeviceToken_wf insertConsumption_wf
  deleteConsumptionsBefore_wf read_only_wf queried_read_only searchTeasByPrefix_read_only
  : go_preserves.
