(* ===== verification/SqlSyntax.v ===== *)
(** The SQL the program speaks: its lexical elements, the statements of
    src/pkg/pgstore/queries.go and src/db/pkg/pgstore, the definitions of
    src/db/schema.sql, and a parser of both.

    The grammar is the part of PostgreSQL's that these texts use. Anything else
    is not a statement of this grammar, and the parser says so. *)

From Stdlib Require Import Ascii.
From stdpp Require Import base list strings.
From S2P Require Import Prelude Env.

(** ** Lexical elements

    Key words and names are folded to lower case; a comment runs to the end of
    its line. *)
Inductive token : Type :=
  | TWord (word : string)
  | TParam (n : nat)
  | TText (text : string)
  | TSymbol (c : ascii).

#[export] Instance token_eq_dec : EqDecision token.
Proof. solve_decision. Defined.

(** What the scanner is in the middle of. *)
Inductive lex_mode : Type :=
  | LBlank
  | LWord (word : string)
  | LParam (n : nat)
  | LText (text : string)
  | LComment.

Definition is_letter (c : ascii) : bool :=
  let n := nat_of_ascii (lower_ascii c) in ((97 <=? n) && (n <=? 122))%nat || Ascii.eqb c "_".

Definition is_decimal (c : ascii) : bool :=
  let n := nat_of_ascii c in (48 <=? n)%nat && (n <=? 57)%nat.

Definition is_blank (c : ascii) : bool :=
  let n := nat_of_ascii c in (n =? 32)%nat || (n =? 10)%nat || (n =? 9)%nat || (n =? 13)%nat.

Definition is_newline (c : ascii) : bool := (nat_of_ascii c =? 10)%nat.
Definition is_quote (c : ascii) : bool := (nat_of_ascii c =? 39)%nat.

(** The element that ends where the mode does. *)
Definition flush (m : lex_mode) : list token :=
  match m with
  | LWord w => [TWord (lower_string w)]
  | LParam n => [TParam n]
  | LBlank | LText _ | LComment => []
  end.

(** The elements of a text; [None] when a quote is left open. *)
Fixpoint lex (m : lex_mode) (s : string) : option (list token) :=
  match s with
  | EmptyString => match m with LText _ => None | _ => Some (flush m) end
  | String c s' =>
      match m with
      | LComment => lex (if is_newline c then LBlank else LComment) s'
      | LText t => if is_quote c then cons (TText t) <$> lex LBlank s' else lex (LText (t +:+ String c "")) s'
      | _ =>
          match m, is_letter c, is_decimal c with
          | LWord w, true, _ | LWord w, _, true => lex (LWord (w +:+ String c "")) s'
          | LParam n, _, true => lex (LParam (10 * n + (nat_of_ascii c - 48))) s'
          | _, true, _ => app (flush m) <$> lex (LWord (String c "")) s'
          | _, _, _ =>
              app (flush m) <$>
              (if is_blank c then lex LBlank s'
               else if is_quote c then lex (LText "") s'
               else if Ascii.eqb c "$" then lex (LParam 0) s'
               else if Ascii.eqb c "-" then
                 match s' with
                 | String "-" s'' => lex LComment s''
                 | _ => cons (TSymbol c) <$> lex LBlank s'
                 end
               else cons (TSymbol c) <$> lex LBlank s')
          end
      end
  end.

(** ** Statements *)
Inductive expr : Type :=
  | EColumn (qualifier column : string)
  | EParam (n : nat)
  | EText (text : string)
  | ELower (e : expr)
  | EConcat (e1 e2 : expr).

Inductive comparison : Type := OpEq | OpLt | OpGe | OpLike.

Record condition : Type := mkCondition {
  cond_op : comparison;
  cond_left : expr;
  cond_right : expr }.

(** A table under an alias, or the elements of an array as a column. *)
Inductive source : Type :=
  | FromTable (table alias : string)
  | FromUnnest (param : nat) (alias column : string).

Record select_query : Type := mkSelect {
  sel_targets : list expr;
  sel_from : source;
  sel_joins : list (source * condition);
  sel_where : list condition;
  sel_order : option (expr * bool);
  sel_limit : option expr }.

(** What [ON CONFLICT] does. *)
Inductive conflict_action : Type :=
  | DoNothing
  | DoUpdate (sets : list (string * expr)).

Inductive statement : Type :=
  | Select (q : select_query)
  | Insert (table : string) (columns : list string) (rows : list expr + select_query)
      (conflict : option (list string * conflict_action)) (returning : list expr)
  | Update_ (table : string) (sets : list (string * expr)) (where_ : list condition) (returning : list expr)
  | Delete_ (table : string) (where_ : list condition).

(** ** Definitions *)
Inductive delete_action : Type := Cascade | Restrict.

Inductive column_constraint : Type :=
  | PrimaryKey
  | NotNull
  | Unique
  | DefaultNow
  | CheckIn (column : string) (texts : list string)
  | References_ (table column : string) (on_delete : delete_action).

Inductive table_item : Type :=
  | ColumnItem (name type_ : string) (constraints : list column_constraint)
  | PrimaryKeyItem (columns : list string)
  | UniqueItem (columns : list string).

Inductive definition_ : Type :=
  | CreateTable (name : string) (items : list table_item)
  | CreateIndex (unique : bool) (name table : string) (keys : list expr).

(** ** Parsers *)
Definition parser (A : Type) : Type := list token → option (A * list token).

Definition return_ {A} (a : A) : parser A := λ ts, Some (a, ts).
Definition reject {A} : parser A := λ _, None.
Definition sequence {A B} (p : parser A) (k : A → parser B) : parser B := λ ts,
  match p ts with Some (a, ts') => k a ts' | None => None end.
Definition orelse {A} (p q : parser A) : parser A := λ ts,
  match p ts with Some r => Some r | None => q ts end.

Notation "'parse!' x := p 'in' k" := (sequence p (λ x, k))
  (at level 200, x pattern, p at level 100, k at level 200) : go_scope.
Notation "'skip!' p 'in' k" := (sequence p (λ _, k)) (at level 200, p at level 100, k at level 200) : go_scope.

Definition expect_token (t : token) : parser unit := λ ts,
  match ts with t' :: ts' => if decide (t' = t) then Some (tt, ts') else None | [] => None end.
Definition keyword (w : string) : parser unit := expect_token (TWord w).
Definition symbol (c : ascii) : parser unit := expect_token (TSymbol c).

(** Several key words in a row. *)
Fixpoint keywords (ws : list string) : parser unit :=
  match ws with
  | [] => return_ tt
  | w :: ws' => skip! keyword w in keywords ws'
  end.

(** Words that cannot be the name of a column or an alias here. *)
Definition reserved : list string :=
  ["and"; "as"; "asc"; "check"; "create"; "default"; "delete"; "desc"; "do"; "from"; "in"; "insert"; "join"; "limit";
   "not"; "null"; "on"; "order"; "primary"; "references"; "returning"; "select"; "set"; "unique"; "update"; "values";
   "where"].

Definition name : parser string := λ ts,
  match ts with
  | TWord w :: ts' => if decide (w ∈ reserved) then None else Some (w, ts')
  | _ => None
  end.

Definition parameter : parser nat := λ ts,
  match ts with TParam n :: ts' => Some (n, ts') | _ => None end.
Definition text_literal : parser string := λ ts,
  match ts with TText s :: ts' => Some (s, ts') | _ => None end.

Definition optional {A} (p : parser A) : parser (option A) :=
  orelse (parse! a := p in return_ (Some a)) (return_ None).

(** [p] as often as it accepts, at most [fuel] times. *)
Fixpoint many_ {A} (fuel : nat) (p : parser A) : parser (list A) :=
  match fuel with
  | O => return_ []
  | S fuel' => orelse (parse! a := p in parse! l := many_ fuel' p in return_ (a :: l)) (return_ [])
  end.

(** More elements than any list of the texts has. *)
Definition list_fuel : nat := 50.

(** [p, ..., p] with the separator [sep]. *)
Definition separated {A} (sep : parser unit) (p : parser A) : parser (list A) :=
  parse! a := p in
  parse! l := many_ list_fuel (skip! sep in p) in
  return_ (a :: l).

Definition comma_separated {A} (p : parser A) : parser (list A) := separated (symbol ",") p.
Definition parenthesized {A} (p : parser A) : parser A :=
  skip! symbol "(" in parse! a := p in skip! symbol ")" in return_ a.

(** *** Expressions *)
Definition column_ref : parser expr :=
  parse! w := name in
  parse! c := optional (skip! symbol "." in name) in
  return_ (match c with Some c => EColumn w c | None => EColumn "" w end).

(** [lower] applies to a column or a parameter. *)
Definition atom : parser expr :=
  orelse (parse! n := parameter in return_ (EParam n))
    (orelse (parse! s := text_literal in return_ (EText s)) column_ref).

Definition primary : parser expr :=
  orelse (skip! keyword "lower" in parse! e := parenthesized atom in return_ (ELower e)) atom.

Definition expression : parser expr :=
  parse! e := primary in
  parse! r := optional (skip! symbol "|" in skip! symbol "|" in primary) in
  return_ (match r with Some e' => EConcat e e' | None => e end).

Definition operator : parser comparison :=
  orelse (skip! symbol "=" in return_ OpEq)
    (orelse (skip! symbol "<" in return_ OpLt)
       (orelse (skip! symbol ">" in skip! symbol "=" in return_ OpGe)
          (skip! keyword "like" in return_ OpLike))).

Definition comparison_ : parser condition :=
  parse! e := expression in
  parse! op := operator in
  parse! e' := expression in
  return_ (mkCondition op e e').

Definition where_clause : parser (list condition) :=
  orelse (skip! keyword "where" in separated (keyword "and") comparison_) (return_ []).

(** *** Queries *)
Definition target : parser expr :=
  parse! e := expression in
  skip! optional (skip! keyword "as" in name) in
  return_ e.

Definition unnest : parser source :=
  skip! keyword "unnest" in
  parse! n := parenthesized (parse! n := parameter in skip! symbol ":" in skip! symbol ":" in
                             skip! keyword "uuid" in skip! symbol "[" in skip! symbol "]" in return_ n) in
  skip! keyword "as" in
  parse! t := name in
  parse! x := parenthesized name in
  return_ (FromUnnest n t x).

Definition table_source : parser source :=
  parse! t := name in
  parse! a := optional name in
  return_ (FromTable t (default t a)).

Definition source_ : parser source := orelse unnest table_source.

Definition join : parser (source * condition) :=
  skip! keyword "join" in
  parse! s := source_ in
  skip! keyword "on" in
  parse! c := comparison_ in
  return_ (s, c).

Definition order_clause : parser (option (expr * bool)) :=
  optional (skip! keywords ["order"; "by"] in
            parse! e := expression in
            parse! asc := orelse (skip! keyword "asc" in return_ true) (skip! keyword "desc" in return_ false) in
            return_ (e, asc)).

Definition query : parser select_query :=
  skip! keyword "select" in
  parse! targets := comma_separated target in
  skip! keyword "from" in
  parse! from := source_ in
  parse! joins := many_ list_fuel join in
  parse! where_ := where_clause in
  parse! order := order_clause in
  parse! limit := optional (skip! keyword "limit" in expression) in
  return_ (mkSelect targets from joins where_ order limit).

(** *** Changes *)
Definition assignment : parser (string * expr) :=
  parse! c := name in
  skip! symbol "=" in
  parse! e := expression in
  return_ (c, e).

Definition set_clause : parser (list (string * expr)) :=
  skip! keyword "set" in comma_separated assignment.

Definition returning_clause : parser (list expr) :=
  orelse (skip! keyword "returning" in comma_separated target) (return_ []).

Definition conflict_clause : parser (option (list string * conflict_action)) :=
  optional (skip! keywords ["on"; "conflict"] in
            parse! columns := parenthesized (comma_separated name) in
            skip! keyword "do" in
            parse! action := orelse (skip! keyword "nothing" in return_ DoNothing)
                               (skip! keyword "update" in parse! sets := set_clause in return_ (DoUpdate sets)) in
            return_ (columns, action)).

Definition insert_ : parser statement :=
  skip! keywords ["insert"; "into"] in
  parse! t := name in
  parse! columns := parenthesized (comma_separated name) in
  parse! rows := orelse (skip! keyword "values" in parse! es := parenthesized (comma_separated expression) in return_ (inl es))
                   (parse! q := query in return_ (inr q)) in
  parse! conflict := conflict_clause in
  parse! returning := returning_clause in
  return_ (Insert t columns rows conflict returning).

Definition update_ : parser statement :=
  skip! keyword "update" in
  parse! t := name in
  parse! sets := set_clause in
  parse! where_ := where_clause in
  parse! returning := returning_clause in
  return_ (Update_ t sets where_ returning).

Definition delete_ : parser statement :=
  skip! keywords ["delete"; "from"] in
  parse! t := name in
  parse! where_ := where_clause in
  return_ (Delete_ t where_).

Definition statement_ : parser statement :=
  orelse (parse! q := query in return_ (Select q)) (orelse insert_ (orelse update_ delete_)).

(** A parser that has to accept a whole text. *)
Definition parse_all {A} (p : parser A) (text : string) : option A :=
  ts ← lex LBlank text;
  match p ts with
  | Some (a, []) => Some a
  | _ => None
  end.

Definition parse_statement : string → option statement := parse_all statement_.

(** *** Schemas *)
Definition constraint : parser column_constraint :=
  orelse (skip! keywords ["primary"; "key"] in return_ PrimaryKey)
    (orelse (skip! keywords ["not"; "null"] in return_ NotNull)
    (orelse (skip! keyword "unique" in return_ Unique)
    (orelse (skip! keywords ["default"; "now"] in skip! symbol "(" in skip! symbol ")" in return_ DefaultNow)
    (orelse (skip! keyword "check" in
             parenthesized (parse! c := name in
                            skip! keyword "in" in
                            parse! texts := parenthesized (comma_separated text_literal) in
                            return_ (CheckIn c texts)))
            (skip! keyword "references" in
             parse! t := name in
             parse! c := parenthesized name in
             skip! keywords ["on"; "delete"] in
             parse! action := orelse (skip! keyword "cascade" in return_ Cascade)
                                (skip! keyword "restrict" in return_ Restrict) in
             return_ (References_ t c action)))))).

Definition item : parser table_item :=
  orelse (skip! keywords ["primary"; "key"] in
          parse! cs := parenthesized (comma_separated name) in return_ (PrimaryKeyItem cs))
    (orelse (skip! keyword "unique" in
             parse! cs := parenthesized (comma_separated name) in return_ (UniqueItem cs))
            (parse! c := name in
             parse! t := name in
             parse! constraints := many_ list_fuel constraint in
             return_ (ColumnItem c t constraints))).

(** A key of an index; its operator class and direction do not matter. *)
Definition index_key : parser expr :=
  parse! e := primary in
  skip! optional (keyword "text_pattern_ops") in
  skip! optional (keyword "desc") in
  return_ e.

Definition definition_parser : parser definition_ :=
  parse! d := orelse
    (skip! keywords ["create"; "table"; "if"; "not"; "exists"] in
     parse! t := name in
     parse! items := parenthesized (comma_separated item) in
     return_ (CreateTable t items))
    (skip! keyword "create" in
     parse! unique := optional (keyword "unique") in
     skip! keywords ["index"; "if"; "not"; "exists"] in
     parse! i := name in
     skip! keyword "on" in
     parse! t := name in
     parse! keys := parenthesized (comma_separated index_key) in
     return_ (CreateIndex (match unique with Some _ => true | None => false end) i t keys)) in
  skip! symbol ";" in
  return_ d.

Definition parse_schema : string → option (list definition_) := parse_all (many_ list_fuel definition_parser).
