(* ===== verification/SqlTexts.v ===== *)
(** The SQL texts as they stand in the sources: src/pkg/pgstore/queries.go,
    src/db/pkg/pgstore and src/db/schema.sql. *)

From stdpp Require Import base strings.

(** ** The texts of the package the server uses, src/pkg/pgstore/queries.go *)
Module Texts.

Definition upsertUser : string := "-- name: UpsertUser :one
INSERT INTO users (id, apple_id)
VALUES ($1, $2)
ON CONFLICT (apple_id)
DO UPDATE SET apple_id = EXCLUDED.apple_id
RETURNING id, apple_id, created_at".

Definition listUsers : string := "-- name: ListUsers :many
SELECT id, apple_id, created_at
FROM users
ORDER BY created_at DESC".

Definition insertTea : string := "-- name: InsertTea :one
INSERT INTO teas (id, name, type, description)
VALUES ($1, $2, $3, $4)
RETURNING id, name, type, description, created_at".

Definition updateTea : string := "-- name: UpdateTea :one
UPDATE teas
SET name = $2,
    type = $3,
    description = $4
WHERE id = $1
RETURNING id, name, type, description, created_at".

Definition deleteTea : string := "-- name: DeleteTea :exec
DELETE FROM teas WHERE id = $1".

Definition getTea : string := "-- name: GetTea :one
SELECT id, name, type, description, created_at
FROM teas
WHERE id = $1".

Definition listTeas : string := "-- name: ListTeas :many
SELECT id, name, type, description, created_at
FROM teas
ORDER BY created_at DESC".

Definition searchTeasByPrefix : string := "-- name: SearchTeasByPrefix :many
SELECT id, name, type, description, created_at
FROM teas
WHERE lower(name) LIKE lower($1) || '%'
ORDER BY name ASC
LIMIT $2".

Definition insertTagCategory : string := "-- name: InsertTagCategory :one
INSERT INTO tag_categories (id, name)
VALUES ($1, $2)
RETURNING id, name".

Definition updateTagCategory : string := "-- name: UpdateTagCategory :one
UPDATE tag_categories
SET name = $2
WHERE id = $1
RETURNING id, name".

Definition deleteTagCategory : string := "-- name: DeleteTagCategory :exec
DELETE FROM tag_categories WHERE id = $1".

Definition listTagCategories : string := "-- name: ListTagCategories :many
SELECT id, name
FROM tag_categories
ORDER BY name ASC".

Definition getTagCategory : string := "-- name: GetTagCategory :one
SELECT id, name
FROM tag_categories
WHERE id = $1".

Definition searchTagCategories : string := "-- name: SearchTagCategories :many
SELECT id, name
FROM tag_categories
WHERE lower(name) LIKE lower($1) || '%'
ORDER BY name ASC".

Definition listTagsByCategory : string := "-- name: ListTagsByCategory :many
SELECT id, name, color, category_id
FROM tags
WHERE category_id = $1
ORDER BY name ASC".

Definition deleteTagsByCategory : string := "-- name: DeleteTagsByCategory :exec
DELETE FROM tags
WHERE category_id = $1".

Definition insertTag : string := "-- name: InsertTag :one
INSERT INTO tags (id, name, color, category_id)
VALUES ($1, $2, $3, $4)
RETURNING id, name, color, category_id".

Definition updateTag : string := "-- name: UpdateTag :one
UPDATE tags
SET name = $2,
    color = $3
WHERE id = $1
RETURNING id, name, color, category_id".

Definition changeTagCategory : string := "-- name: ChangeTagCategory :one
UPDATE tags
SET category_id = $2
WHERE id = $1
RETURNING id, name, color, category_id".

Definition deleteTag : string := "-- name: DeleteTag :exec
DELETE FROM tags WHERE id = $1".

Definition getTag : string := "-- name: GetTag :one
SELECT id, name, color, category_id
FROM tags
WHERE id = $1".

Definition listTags : string := "-- name: ListTags :many
SELECT id, name, color, category_id
FROM tags
ORDER BY name ASC".

Definition listTagsByName : string := "-- name: ListTagsByName :many
SELECT id, name, color, category_id
FROM tags
WHERE lower(name) LIKE lower($1) || '%'
ORDER BY name ASC".

Definition listTagsByCategoryFilter : string := "-- name: ListTagsByCategoryFilter :many
SELECT id, name, color, category_id
FROM tags
WHERE category_id = $1
ORDER BY name ASC".

Definition listTagsByNameCategory : string := "-- name: ListTagsByNameCategory :many
SELECT id, name, color, category_id
FROM tags
WHERE lower(name) LIKE lower($1) || '%'
  AND category_id = $2
ORDER BY name ASC".

Definition addTagToTea : string := "-- name: AddTagToTea :exec
INSERT INTO tea_tags (tea_id, tag_id)
VALUES ($1, $2)
ON CONFLICT (tea_id, tag_id) DO NOTHING".

Definition deleteTagFromTea : string := "-- name: DeleteTagFromTea :exec
DELETE FROM tea_tags WHERE tea_id = $1 AND tag_id = $2".

Definition listTagsByTea : string := "-- name: ListTagsByTea :many
SELECT t.id, t.name, t.color, t.category_id
FROM tea_tags tt
JOIN tags t ON t.id = tt.tag_id
WHERE tt.tea_id = $1
ORDER BY t.name ASC".

Definition upsertQR : string := "-- name: UpsertQR :exec
INSERT INTO qr_records (id, tea_id, boiling_temp, expiration_date)
VALUES ($1, $2, $3, $4)
ON CONFLICT (id) DO UPDATE
SET tea_id = EXCLUDED.tea_id,
    boiling_temp = EXCLUDED.boiling_temp,
    expiration_date = EXCLUDED.expiration_date".

Definition getQR : string := "-- name: GetQR :one
SELECT id, tea_id, boiling_temp, expiration_date, created_at
FROM qr_records
WHERE id = $1".

Definition insertCollection : string := "-- name: InsertCollection :one
INSERT INTO collections (id, user_id, name)
VALUES ($1, $2, $3)
RETURNING id, user_id, name, created_at".

Definition insertCollectionItem : string := "-- name: InsertCollectionItem :exec
INSERT INTO collection_qr_items (collection_id, qr_id)
VALUES ($1, $2)
ON CONFLICT (collection_id, qr_id) DO NOTHING".

Definition insertCollectionItems : string := "-- name: InsertCollectionItems :exec
INSERT INTO collection_qr_items (collection_id, qr_id)
SELECT $1, x
FROM unnest($2::uuid[]) AS t(x)
JOIN qr_records q ON q.id = x
ON CONFLICT (collection_id, qr_id) DO NOTHING".

Definition deleteCollectionItem : string := "-- name: DeleteCollectionItem :exec
DELETE FROM collection_qr_items
WHERE collection_id = $1 AND qr_id = $2".

Definition deleteCollection : string := "-- name: DeleteCollection :exec
DELETE FROM collections
WHERE id = $1 AND user_id = $2".

Definition listCollections : string := "-- name: ListCollections :many
SELECT id, user_id, name, created_at
FROM collections
WHERE user_id = $1
ORDER BY created_at DESC".

Definition getCollection : string := "-- name: GetCollection :one
SELECT id, user_id, name, created_at
FROM collections
WHERE id = $1 AND user_id = $2".

Definition listCollectionRecords : string := "-- name: ListCollectionRecords :many
SELECT
  q.id AS qr_id,
  t.id AS tea_id,
  t.name,
  t.type,
  t.description,
  q.boiling_temp,
  q.expiration_date
FROM collection_qr_items c
JOIN qr_records q ON q.id = c.qr_id
JOIN teas t ON t.id = q.tea_id
WHERE c.collection_id = $1
ORDER BY q.expiration_date ASC".

Definition insertDevice : string := "-- name: InsertDevice :exec
INSERT INTO devices (id, user_id, token)
VALUES ($1, $2, $3)
ON CONFLICT (id) DO NOTHING".

Definition updateDeviceToken : string := "-- name: UpdateDeviceToken :exec
UPDATE devices
SET token = $2
WHERE id = $1".

Definition listDeviceTokens : string := "-- name: ListDeviceTokens :many
SELECT token
FROM devices
WHERE user_id = $1
ORDER BY created_at DESC".

Definition listNotifications : string := "-- name: ListNotifications :many
SELECT id, user_id, type, created_at
FROM notifications
WHERE user_id = $1
ORDER BY created_at DESC".

Definition insertConsumption : string := "-- name: InsertConsumption :exec
INSERT INTO consumptions (user_id, ts, tea_id)
VALUES ($1, $2, $3)
ON CONFLICT (user_id, ts, tea_id) DO NOTHING".

Definition deleteConsumptionsBefore : string := "-- name: DeleteConsumptionsBefore :exec
DELETE FROM consumptions
WHERE user_id = $1 AND ts < $2".

Definition listConsumptionsSince : string := "-- name: ListConsumptionsSince :many
SELECT ts, tea_id
FROM consumptions
WHERE user_id = $1 AND ts >= $2
ORDER BY ts DESC".

End Texts.

(** ** The texts of the generated package, src/db/pkg/pgstore *)
Module GeneratedTexts.

Definition listUsers : string := "-- name: ListUsers :many
SELECT id, apple_id, created_at
FROM users
ORDER BY created_at DESC
".

Definition upsertUser : string := "-- name: UpsertUser :one
INSERT INTO users (id, apple_id)
VALUES ($1, $2)
ON CONFLICT (apple_id)
DO UPDATE SET apple_id = EXCLUDED.apple_id
RETURNING id, apple_id, created_at
".

Definition deleteTea : string := "-- name: DeleteTea :exec
DELETE FROM teas WHERE id = $1
".

Definition getTea : string := "-- name: GetTea :one
SELECT id, name, type, description, created_at
FROM teas
WHERE id = $1
".

Definition insertTea : string := "-- name: InsertTea :one
INSERT INTO teas (id, name, type, description)
VALUES ($1, $2, $3, $4)
RETURNING id, name, type, description, created_at
".

Definition listTeas : string := "-- name: ListTeas :many
SELECT id, name, type, description, created_at
FROM teas
ORDER BY created_at DESC
".

Definition searchTeasByPrefix : string := "-- name: SearchTeasByPrefix :many
SELECT id, name, type, description, created_at
FROM teas
WHERE lower(name) LIKE lower($1) || '%'
ORDER BY name ASC
LIMIT $2
".

Definition updateTea : string := "-- name: UpdateTea :one
UPDATE teas
SET name = $2,
    type = $3,
    description = $4
WHERE id = $1
RETURNING id, name, type, description, created_at
".

Definition addTagToTea : string := "-- name: AddTagToTea :exec
INSERT INTO tea_tags (tea_id, tag_id)
VALUES ($1, $2)
ON CONFLICT (tea_id, tag_id) DO NOTHING
".

Definition changeTagCategory : string := "-- name: ChangeTagCategory :one
UPDATE tags
SET category_id = $2
WHERE id = $1
RETURNING id, name, color, category_id
".

Definition deleteTag : string := "-- name: DeleteTag :exec
DELETE FROM tags WHERE id = $1
".

Definition deleteTagCategory : string := "-- name: DeleteTagCategory :exec
DELETE FROM tag_categories WHERE id = $1
".

Definition deleteTagFromTea : string := "-- name: DeleteTagFromTea :exec
DELETE FROM tea_tags WHERE tea_id = $1 AND tag_id = $2
".

Definition deleteTagsByCategory : string := "-- name: DeleteTagsByCategory :exec
DELETE FROM tags
WHERE category_id = $1
".

Definition getTag : string := "-- name: GetTag :one
SELECT id, name, color, category_id
FROM tags
WHERE id = $1
".

Definition getTagCategory : string := "-- name: GetTagCategory :one
SELECT id, name
FROM tag_categories
WHERE id = $1
".

Definition insertTag : string := "-- name: InsertTag :one
INSERT INTO tags (id, name, color, category_id)
VALUES ($1, $2, $3, $4)
RETURNING id, name, color, category_id
".

Definition insertTagCategory : string := "-- name: InsertTagCategory :one
INSERT INTO tag_categories (id, name)
VALUES ($1, $2)
RETURNING id, name
".

Definition listTagCategories : string := "-- name: ListTagCategories :many
SELECT id, name
FROM tag_categories
ORDER BY name ASC
".

Definition listTags : string := "-- name: ListTags :many
SELECT id, name, color, category_id
FROM tags
ORDER BY name ASC
".

Definition listTagsByCategory : string := "-- name: ListTagsByCategory :many
SELECT id, name, color, category_id
FROM tags
WHERE category_id = $1
ORDER BY name ASC
".

Definition listTagsByCategoryFilter : string := "-- name: ListTagsByCategoryFilter :many
SELECT id, name, color, category_id
FROM tags
WHERE category_id = $1
ORDER BY name ASC
".

Definition listTagsByName : string := "-- name: ListTagsByName :many
SELECT id, name, color, category_id
FROM tags
WHERE lower(name) LIKE lower($1) || '%'
ORDER BY name ASC
".

Definition listTagsByNameCategory : string := "-- name: ListTagsByNameCategory :many
SELECT id, name, color, category_id
FROM tags
WHERE lower(name) LIKE lower($1) || '%'
  AND category_id = $2
ORDER BY name ASC
".

Definition listTagsByTea : string := "-- name: ListTagsByTea :many
SELECT t.id, t.name, t.color, t.category_id
FROM tea_tags tt
JOIN tags t ON t.id = tt.tag_id
WHERE tt.tea_id = $1
ORDER BY t.name ASC
".

Definition searchTagCategories : string := "-- name: SearchTagCategories :many
SELECT id, name
FROM tag_categories
WHERE lower(name) LIKE lower($1) || '%'
ORDER BY name ASC
".

Definition updateTag : string := "-- name: UpdateTag :one
UPDATE tags
SET name = $2,
    color = $3
WHERE id = $1
RETURNING id, name, color, category_id
".

Definition updateTagCategory : string := "-- name: UpdateTagCategory :one
UPDATE tag_categories
SET name = $2
WHERE id = $1
RETURNING id, name
".

Definition getQR : string := "-- name: GetQR :one
SELECT id, tea_id, boiling_temp, expiration_date, created_at
FROM qr_records
WHERE id = $1
".

Definition upsertQR : string := "-- name: UpsertQR :exec
INSERT INTO qr_records (id, tea_id, boiling_temp, expiration_date)
VALUES ($1, $2, $3, $4)
ON CONFLICT (id) DO UPDATE
SET tea_id = EXCLUDED.tea_id,
    boiling_temp = EXCLUDED.boiling_temp,
    expiration_date = EXCLUDED.expiration_date
".

Definition deleteCollection : string := "-- name: DeleteCollection :exec
DELETE FROM collections
WHERE id = $1 AND user_id = $2
".

Definition deleteCollectionItem : string := "-- name: DeleteCollectionItem :exec
DELETE FROM collection_qr_items
WHERE collection_id = $1 AND qr_id = $2
".

Definition getCollection : string := "-- name: GetCollection :one
SELECT id, user_id, name, created_at
FROM collections
WHERE id = $1 AND user_id = $2
".

Definition insertCollection : string := "-- name: InsertCollection :one
INSERT INTO collections (id, user_id, name)
VALUES ($1, $2, $3)
RETURNING id, user_id, name, created_at
".

Definition insertCollectionItem : string := "-- name: InsertCollectionItem :exec
INSERT INTO collection_qr_items (collection_id, qr_id)
VALUES ($1, $2)
ON CONFLICT (collection_id, qr_id) DO NOTHING
".

Definition listCollectionRecords : string := "-- name: ListCollectionRecords :many
SELECT
  q.id AS qr_id,
  t.id AS tea_id,
  t.name,
  t.type,
  t.description,
  q.boiling_temp,
  q.expiration_date
FROM collection_qr_items c
JOIN qr_records q ON q.id = c.qr_id
JOIN teas t ON t.id = q.tea_id
WHERE c.collection_id = $1
ORDER BY q.expiration_date ASC
".

Definition listCollections : string := "-- name: ListCollections :many
SELECT id, user_id, name, created_at
FROM collections
WHERE user_id = $1
ORDER BY created_at DESC
".

Definition insertDevice : string := "-- name: InsertDevice :exec
INSERT INTO devices (id, user_id, token)
VALUES ($1, $2, $3)
ON CONFLICT (id) DO NOTHING
".

Definition listDeviceTokens : string := "-- name: ListDeviceTokens :many
SELECT token
FROM devices
WHERE user_id = $1
ORDER BY created_at DESC
".

Definition updateDeviceToken : string := "-- name: UpdateDeviceToken :exec
UPDATE devices
SET token = $2
WHERE id = $1
".

Definition listNotifications : string := "-- name: ListNotifications :many
SELECT id, user_id, type, created_at
FROM notifications
WHERE user_id = $1
ORDER BY created_at DESC
".

Definition deleteConsumptionsBefore : string := "-- name: DeleteConsumptionsBefore :exec
DELETE FROM consumptions
WHERE user_id = $1 AND ts < $2
".

Definition insertConsumption : string := "-- name: InsertConsumption :exec
INSERT INTO consumptions (user_id, ts, tea_id)
VALUES ($1, $2, $3)
ON CONFLICT (user_id, ts, tea_id) DO NOTHING
".

Definition listConsumptionsSince : string := "-- name: ListConsumptionsSince :many
SELECT ts, tea_id
FROM consumptions
WHERE user_id = $1 AND ts >= $2
ORDER BY ts DESC
".

End GeneratedTexts.

(** ** The schema, src/db/schema.sql *)
Definition schema_sql : string := "-- PostgreSQL schema aligned with docs/FDB_TO_POSTGRES_MIGRATION_PLAN.md
-- This file is used by sqlc for type generation and can also be used as a base migration.

CREATE TABLE IF NOT EXISTS users (
  id uuid PRIMARY KEY,
  apple_id text NOT NULL UNIQUE,
  created_at timestamptz NOT NULL DEFAULT now()
);

CREATE TABLE IF NOT EXISTS teas (
  id uuid PRIMARY KEY,
  name text NOT NULL,
  type text NOT NULL CHECK (type IN ('tea','herb','coffee','other')),
  description text,
  created_at timestamptz NOT NULL DEFAULT now()
);
CREATE INDEX IF NOT EXISTS teas_name_prefix_idx ON teas (lower(name) text_pattern_ops);

CREATE TABLE IF NOT EXISTS tag_categories (
  id uuid PRIMARY KEY,
  name text NOT NULL UNIQUE
);

CREATE TABLE IF NOT EXISTS tags (
  id uuid PRIMARY KEY,
  name text NOT NULL,
  color text NOT NULL,
  category_id uuid NOT NULL REFERENCES tag_categories(id) ON DELETE RESTRICT
);
CREATE UNIQUE INDEX IF NOT EXISTS tags_category_name_uq ON tags (category_id, lower(name));
CREATE INDEX IF NOT EXISTS tags_category_idx ON tags (category_id);

CREATE TABLE IF NOT EXISTS tea_tags (
  tea_id uuid NOT NULL REFERENCES teas(id) ON DELETE CASCADE,
  tag_id uuid NOT NULL REFERENCES tags(id) ON DELETE CASCADE,
  PRIMARY KEY (tea_id, tag_id)
);
CREATE INDEX IF NOT EXISTS tea_tags_tag_idx ON tea_tags (tag_id);

CREATE TABLE IF NOT EXISTS qr_records (
  id uuid PRIMARY KEY,
  tea_id uuid NOT NULL REFERENCES teas(id) ON DELETE CASCADE,
  boiling_temp int NOT NULL,
  expiration_date timestamptz NOT NULL,
  created_at timestamptz NOT NULL DEFAULT now()
);
CREATE INDEX IF NOT EXISTS qr_records_tea_idx ON qr_records (tea_id);
CREATE INDEX IF NOT EXISTS qr_records_exp_idx ON qr_records (expiration_date);
-- Likely filter criterion during brewing suggestions/search
CREATE INDEX IF NOT EXISTS qr_records_boiling_temp_idx ON qr_records (boiling_temp);

CREATE TABLE IF NOT EXISTS collections (
  id uuid PRIMARY KEY,
  user_id uuid NOT NULL REFERENCES users(id) ON DELETE CASCADE,
  name text NOT NULL,
  created_at timestamptz NOT NULL DEFAULT now()
);
CREATE INDEX IF NOT EXISTS collections_user_idx ON collections (user_id);

CREATE TABLE IF NOT EXISTS collection_qr_items (
  collection_id uuid NOT NULL REFERENCES collections(id) ON DELETE CASCADE,
  qr_id uuid NOT NULL REFERENCES qr_records(id) ON DELETE CASCADE,
  PRIMARY KEY (collection_id, qr_id)
);
CREATE INDEX IF NOT EXISTS collection_qr_items_qr_idx ON collection_qr_items (qr_id);

CREATE TABLE IF NOT EXISTS devices (
  id uuid PRIMARY KEY,
  user_id uuid NOT NULL REFERENCES users(id) ON DELETE CASCADE,
  token text NOT NULL,
  created_at timestamptz NOT NULL DEFAULT now(),
  UNIQUE (token)
);
CREATE INDEX IF NOT EXISTS devices_user_idx ON devices (user_id);

CREATE TABLE IF NOT EXISTS notifications (
  id uuid PRIMARY KEY,
  user_id uuid NOT NULL REFERENCES users(id) ON DELETE CASCADE,
  type smallint NOT NULL,
  created_at timestamptz NOT NULL DEFAULT now()
);
CREATE INDEX IF NOT EXISTS notifications_user_created_idx ON notifications (user_id, created_at DESC);

CREATE TABLE IF NOT EXISTS consumptions (
  user_id uuid NOT NULL REFERENCES users(id) ON DELETE CASCADE,
  ts timestamptz NOT NULL,
  tea_id uuid NOT NULL REFERENCES teas(id) ON DELETE CASCADE,
  PRIMARY KEY (user_id, ts, tea_id)
);
CREATE INDEX IF NOT EXISTS consumptions_user_ts_desc_idx ON consumptions (user_id, ts DESC);
".
