(* ===== verification/Engine.v ===== *)
(** What a database does with a text: the schema is compiled from its
    definitions, and a statement is run over the tables of [Schema.Database] by
    an evaluator that knows no statement of the program in particular.

    It checks, in the order of the server: names, arguments and their types; the
    range, the nulls and the [CHECK] of a new row; the arbiter of [ON CONFLICT];
    the unique indexes in the order of their creation; the foreign keys. A
    statement that is refused changes nothing. *)

From Stdlib Require Import Ascii.
From stdpp Require Import base gmap sets list strings sorting.
From Stdlib Require Import ZArith Lia.
From S2P Require Import Prelude GoTime Common Env Schema Sql SqlSyntax SqlTexts.

(** ** Values *)
Inductive Value : Type :=
  | VNull
  | VUuid (u : UUID)
  | VText (s : string)
  | VInt (z : Z)
  | VTime (t : Time)
  | VUuids (us : list UUID).

#[export] Instance Value_eq_dec : EqDecision Value.
Proof. solve_decision. Defined.

Inductive kind : Type := KUuid | KText | KInt4 | KInt2 | KTime | KUuids.

#[export] Instance kind_eq_dec : EqDecision kind.
Proof. solve_decision. Defined.

Definition kind_of (v : Value) : option kind :=
  match v with
  | VNull => None
  | VUuid _ => Some KUuid
  | VText _ => Some KText
  | VInt _ => Some KInt4
  | VTime _ => Some KTime
  | VUuids _ => Some KUuids
  end.

(** A null fits everywhere, an integer in a column of either width. *)
Definition kinds_agree (k1 k2 : option kind) : bool :=
  match k1, k2 with
  | None, _ | _, None => true
  | Some KInt4, Some KInt2 | Some KInt2, Some KInt4 => true
  | Some k1, Some k2 => bool_decide (k1 = k2)
  end.

(** A row, in the order of the columns of its table. *)
Abbreviation row := (list Value).

(** ** The schema *)
Record column : Type := mkColumn {
  col_name : string;
  col_kind : kind;
  col_required : bool;
  col_default_now : bool }.

Record foreign_key : Type := mkForeignKey {
  fk_name : string;
  fk_column : string;
  fk_table : string;
  fk_target : string;
  fk_action : delete_action }.

(** The first of the unique indexes is that of the primary key. *)
Record relation_ : Type := mkRelation {
  rel_name : string;
  rel_columns : list column;
  rel_checks : list (string * (string * list string));
  rel_uniques : list (string * list expr);
  rel_foreign_keys : list foreign_key }.

Definition kind_named (t : string) : option kind :=
  if String.eqb t "uuid" then Some KUuid
  else if String.eqb t "text" then Some KText
  else if String.eqb t "int" then Some KInt4
  else if String.eqb t "smallint" then Some KInt2
  else if String.eqb t "timestamptz" then Some KTime
  else None.

Definition is_constraint (c c' : column_constraint) : bool :=
  match c, c' with
  | PrimaryKey, PrimaryKey | NotNull, NotNull | Unique, Unique | DefaultNow, DefaultNow => true
  | _, _ => false
  end.

Definition primary_key (items : list table_item) : list string :=
  items ≫= λ i, match i with
                | ColumnItem c _ cs => if existsb (is_constraint PrimaryKey) cs then [c] else []
                | PrimaryKeyItem cs => cs
                | UniqueItem _ => []
                end.

(** The constraints are named as PostgreSQL names them. *)
Definition compile_table (table : string) (items : list table_item) : option relation_ :=
  columns ← mapM (λ '(c, t, cs),
      k ← kind_named t;
      Some (mkColumn c k (existsb (is_constraint NotNull) cs || bool_decide (c ∈ primary_key items))
              (existsb (is_constraint DefaultNow) cs)))
    (items ≫= λ i, match i with ColumnItem c t cs => [(c, t, cs)] | _ => [] end);
  let checks := items ≫= λ i,
    match i with
    | ColumnItem c _ cs => cs ≫= λ k, match k with
        | CheckIn col texts => [(table +:+ "_" +:+ c +:+ "_check", (col, texts))]
        | _ => [] end
    | _ => []
    end in
  let uniques := items ≫= λ i,
    match i with
    | ColumnItem c _ cs => if existsb (is_constraint Unique) cs then [[c]] else []
    | UniqueItem cs => [cs]
    | PrimaryKeyItem _ => []
    end in
  let fkeys := items ≫= λ i,
    match i with
    | ColumnItem c _ cs => cs ≫= λ k, match k with
        | References_ t tc action => [mkForeignKey (table +:+ "_" +:+ c +:+ "_fkey") c t tc action]
        | _ => [] end
    | _ => []
    end in
  Some (mkRelation table columns checks
    ((table +:+ "_pkey", EColumn "" <$> primary_key items) ::
     ((λ cs, (table +:+ "_" +:+ foldr (λ c r, c +:+ "_" +:+ r) "key" cs, EColumn "" <$> cs)) <$> uniques)) fkeys).

(** An index that is not unique says nothing about the rows. *)
Definition add_index (index table : string) (keys : list expr) (r : relation_) : relation_ :=
  if String.eqb (rel_name r) table
  then mkRelation (rel_name r) (rel_columns r) (rel_checks r) (rel_uniques r ++ [(index, keys)]) (rel_foreign_keys r)
  else r.

Definition add_definition (rs : option (list relation_)) (d : definition_) : option (list relation_) :=
  rs ← rs;
  match d with
  | CreateTable t items => r ← compile_table t items; Some (rs ++ [r])
  | CreateIndex true index t keys => Some (add_index index t keys <$> rs)
  | CreateIndex false _ _ _ => Some rs
  end.

Definition compile_schema (text : string) : option (list relation_) :=
  defs ← parse_schema text; foldl add_definition (Some []) defs.

(** The relations of src/db/schema.sql. *)
Definition schema : list relation_ := Eval vm_compute in default [] (compile_schema schema_sql).

Lemma schema_compiled : compile_schema schema_sql = Some schema.
Proof. vm_compute. reflexivity. Qed.

Definition relation_named (t : string) : option relation_ := find (λ r, String.eqb (rel_name r) t) schema.

Definition column_names (r : relation_) : list string := col_name <$> rel_columns r.

(** ** The tables as rows *)
Definition user_row (p : UUID * UserRow) : row :=
  [VUuid p.1; VText (user_apple_id p.2); VTime (user_created_at p.2)].
Definition null_text (o : option string) : Value := match o with Some s => VText s | None => VNull end.
Definition tea_row (p : UUID * TeaRow) : row :=
  [VUuid p.1; VText (tea_name p.2); VText (tea_type p.2); null_text (tea_description p.2); VTime (tea_created_at p.2)].
Definition category_row (p : UUID * string) : row := [VUuid p.1; VText p.2].
Definition tag_row (p : UUID * TagRow) : row :=
  [VUuid p.1; VText (tag_name p.2); VText (tag_color p.2); VUuid (tag_category_id p.2)].
Definition pair_row (p : UUID * UUID) : row := [VUuid p.1; VUuid p.2].
Definition qr_row (p : UUID * QRRow) : row :=
  [VUuid p.1; VUuid (qrr_tea_id p.2); VInt (qrr_boiling_temp p.2); VTime (qrr_expiration_date p.2);
   VTime (qrr_created_at p.2)].
Definition collection_row (p : UUID * CollectionRow) : row :=
  [VUuid p.1; VUuid (coll_user_id p.2); VText (coll_name p.2); VTime (coll_created_at p.2)].
Definition device_row (p : UUID * DeviceRow) : row :=
  [VUuid p.1; VUuid (dev_user_id p.2); VText (dev_token p.2); VTime (dev_created_at p.2)].
Definition notification_row (p : UUID * NotificationRow) : row :=
  [VUuid p.1; VUuid (notif_user_id p.2); VInt (notif_type p.2); VTime (notif_created_at p.2)].
Definition consumption_row (c : UUID * Time * UUID) : row := [VUuid c.1.1; VTime c.1.2; VUuid c.2].

Definition rows_of (t : string) (d : Database) : list row :=
  match t with
  | "users" => user_row <$> map_to_list (users d)
  | "teas" => tea_row <$> map_to_list (teas d)
  | "tag_categories" => category_row <$> map_to_list (tag_categories d)
  | "tags" => tag_row <$> map_to_list (tags d)
  | "tea_tags" => pair_row <$> elements (tea_tags d)
  | "qr_records" => qr_row <$> map_to_list (qr_records d)
  | "collections" => collection_row <$> map_to_list (collections d)
  | "collection_qr_items" => pair_row <$> elements (collection_qr_items d)
  | "devices" => device_row <$> map_to_list (devices d)
  | "notifications" => notification_row <$> map_to_list (notifications d)
  | "consumptions" => consumption_row <$> elements (consumptions d)
  | _ => []
  end.

Definition text_of_value (v : Value) : option string := match v with VText s => Some s | _ => None end.

(** Writes a row under its primary key. *)
Definition put_row (t : string) (r : row) (d : Database) : Database :=
  match t, r with
  | "users", [VUuid i; VText a; VTime c] => set_users (<[i := mkUserRow a c]> (users d)) d
  | "teas", [VUuid i; VText n; VText ty; de; VTime c] =>
      set_teas (<[i := mkTeaRow n ty (text_of_value de) c]> (teas d)) d
  | "tag_categories", [VUuid i; VText n] => set_tag_categories (<[i := n]> (tag_categories d)) d
  | "tags", [VUuid i; VText n; VText c; VUuid k] => set_tags (<[i := mkTagRow n c k]> (tags d)) d
  | "tea_tags", [VUuid a; VUuid b] => set_tea_tags ({[(a, b)]} ∪ tea_tags d) d
  | "qr_records", [VUuid i; VUuid t; VInt b; VTime e; VTime c] =>
      set_qr_records (<[i := mkQRRow t b e c]> (qr_records d)) d
  | "collections", [VUuid i; VUuid u; VText n; VTime c] =>
      set_collections (<[i := mkCollectionRow u n c]> (collections d)) d
  | "collection_qr_items", [VUuid a; VUuid b] => set_items ({[(a, b)]} ∪ collection_qr_items d) d
  | "devices", [VUuid i; VUuid u; VText k; VTime c] => set_devices (<[i := mkDeviceRow u k c]> (devices d)) d
  | "consumptions", [VUuid u; VTime t; VUuid e] => set_consumptions ({[(u, t, e)]} ∪ consumptions d) d
  | _, _ => d
  end.

(** Takes the rows away that [P] picks. *)
Definition remove_where (t : string) (P : row → bool) (d : Database) : Database :=
  match t with
  | "users" => set_users (filter (λ kv, P (user_row kv) = false) (users d)) d
  | "teas" => set_teas (filter (λ kv, P (tea_row kv) = false) (teas d)) d
  | "tag_categories" => set_tag_categories (filter (λ kv, P (category_row kv) = false) (tag_categories d)) d
  | "tags" => set_tags (filter (λ kv, P (tag_row kv) = false) (tags d)) d
  | "tea_tags" => set_tea_tags (filter (λ p, P (pair_row p) = false) (tea_tags d)) d
  | "qr_records" => set_qr_records (filter (λ kv, P (qr_row kv) = false) (qr_records d)) d
  | "collections" => set_collections (filter (λ kv, P (collection_row kv) = false) (collections d)) d
  | "collection_qr_items" => set_items (filter (λ p, P (pair_row p) = false) (collection_qr_items d)) d
  | "devices" => set_devices (filter (λ kv, P (device_row kv) = false) (devices d)) d
  | "consumptions" => set_consumptions (filter (λ p, P (consumption_row p) = false) (consumptions d)) d
  | _ => d
  end.

(** ** Names and types *)
Definition scope_of {A} (alias : string) (columns : list string) (r : list A) : list (string * (string * A)) :=
  pair alias <$> zip columns r.

Fixpoint in_scope {A} (qualifier column : string) (s : list (string * (string * A))) : option A :=
  match s with
  | [] => None
  | (a, (c, x)) :: s' =>
      if (String.eqb qualifier "" || String.eqb qualifier a) && String.eqb column c then Some x
      else in_scope qualifier column s'
  end.

Abbreviation types := (list (string * (string * kind))).
Abbreviation scope := (list (string * (string * Value))).

(** [$1] is the first argument. *)
Definition argument (args : list Value) (n : nat) : option Value :=
  match n with O => None | S n' => args !! n' end.

(** [None] for an expression without a type; the type of a null is open. *)
Fixpoint type_of (args : list Value) (ts : types) (e : expr) : option (option kind) :=
  match e with
  | EColumn q c => Some <$> in_scope q c ts
  | EParam n => kind_of <$> argument args n
  | EText _ => Some (Some KText)
  | ELower e => k ← type_of args ts e; if kinds_agree k (Some KText) then Some (Some KText) else None
  | EConcat e1 e2 =>
      k1 ← type_of args ts e1; k2 ← type_of args ts e2;
      if kinds_agree k1 (Some KText) && kinds_agree k2 (Some KText) then Some (Some KText) else None
  end.

Definition has_type (args : list Value) (ts : types) (k : option kind) (e : expr) : bool :=
  match type_of args ts e with Some k' => kinds_agree k k' | None => false end.

Definition condition_typed (args : list Value) (ts : types) (c : condition) : bool :=
  match type_of args ts (cond_left c), type_of args ts (cond_right c) with
  | Some k1, Some k2 =>
      match cond_op c with
      | OpEq => kinds_agree k1 k2
      | OpLt | OpGe => kinds_agree k1 (Some KTime) && kinds_agree k2 (Some KTime)
      | OpLike => kinds_agree k1 (Some KText) && kinds_agree k2 (Some KText)
      end
  | _, _ => false
  end.

Definition relation_types (alias : string) (r : relation_) : types :=
  scope_of alias (column_names r) (col_kind <$> rel_columns r).

Definition source_types (args : list Value) (src : source) : option types :=
  match src with
  | FromTable t a => relation_types a <$> relation_named t
  | FromUnnest n a x =>
      match argument args n with Some (VUuids _) => Some [(a, (x, KUuid))] | _ => None end
  end.

(** Each join sees the sources before it and its own. *)
Fixpoint join_types (args : list Value) (ts : types) (joins : list (source * condition)) : option types :=
  match joins with
  | [] => Some ts
  | (src, c) :: joins' =>
      ts' ← source_types args src;
      if condition_typed args (ts ++ ts') c then join_types args (ts ++ ts') joins' else None
  end.

Definition sortable (k : option kind) : bool :=
  match k with Some KText | Some KTime => true | _ => false end.

(** The types of the columns of an answer. *)
Definition query_types (args : list Value) (q : select_query) : option (list (option kind)) :=
  ts0 ← source_types args (sel_from q);
  ts ← join_types args ts0 (sel_joins q);
  if forallb (condition_typed args ts) (sel_where q)
     && match sel_order q with
        | None => true
        | Some (e, _) => match type_of args ts e with Some k => sortable k | None => false end
        end
     && match sel_limit q with None => true | Some e => has_type args [] (Some KInt4) e end
  then mapM (type_of args ts) (sel_targets q)
  else None.

Definition column_kind (r : relation_) (c : string) : option kind := in_scope "" c (relation_types "" r).

(** An expression in the scope [ts] stored into a column. *)
Definition stores (args : list Value) (ts : types) (r : relation_) (c : string) (e : expr) : bool :=
  match column_kind r c with Some k => has_type args ts (Some k) e | None => false end.

(** No statement here changes the key of a row. *)
Definition sets_typed (args : list Value) (ts : types) (r : relation_) (sets : list (string * expr)) : bool :=
  forallb (λ s, stores args ts r s.1 s.2 &&
    match rel_uniques r with
    | (_, keys) :: _ => forallb (λ e, match e with EColumn _ c => negb (String.eqb c s.1) | _ => true end) keys
    | [] => false
    end) sets.

Definition returning_typed (args : list Value) (r : relation_) (es : list expr) : bool :=
  forallb (λ e, match type_of args (relation_types (rel_name r) r) e with Some _ => true | None => false end) es.

Definition statement_typed (args : list Value) (st : statement) : bool :=
  match st with
  | Select q => match query_types args q with Some _ => true | None => false end
  | Insert t columns rows conflict returning =>
      match relation_named t with
      | None => false
      | Some r =>
          match rows with
          | inl es => (length columns =? length es)%nat && forallb (λ p, stores args [] r p.1 p.2) (zip columns es)
          | inr q =>
              match query_types args q with
              | Some ks => (length columns =? length ks)%nat &&
                  forallb (λ p, match column_kind r p.1 with Some k => kinds_agree (Some k) p.2 | None => false end)
                    (zip columns ks)
              | None => false
              end
          end
          && match conflict with
             | None => true
             | Some (target, action) =>
                 existsb (λ u, bool_decide (list_to_set (C := gset string)
                     (u.2 ≫= λ e, match e with EColumn _ c => [c] | _ => [] end) = list_to_set target)
                   && (length u.2 =? length target)%nat) (rel_uniques r)
                 && match action with
                    | DoNothing => true
                    | DoUpdate sets => sets_typed args (relation_types t r ++ relation_types "excluded" r) r sets
                    end
             end
          && returning_typed args r returning
      end
  | Update_ t sets where_ returning =>
      match relation_named t with
      | None => false
      | Some r => sets_typed args (relation_types t r) r sets
          && forallb (condition_typed args (relation_types t r)) where_ && returning_typed args r returning
      end
  | Delete_ t where_ =>
      match relation_named t with
      | None => false
      | Some r => forallb (condition_typed args (relation_types t r)) where_
      end
  end.

(** *** The parameters of a statement *)
Fixpoint expr_params (e : expr) : list nat :=
  match e with
  | EParam n => [n]
  | ELower e => expr_params e
  | EConcat e1 e2 => expr_params e1 ++ expr_params e2
  | EColumn _ _ | EText _ => []
  end.

Definition condition_params (c : condition) : list nat := expr_params (cond_left c) ++ expr_params (cond_right c).
Definition source_params (s : source) : list nat := match s with FromUnnest n _ _ => [n] | FromTable _ _ => [] end.

Definition query_params (q : select_query) : list nat :=
  (sel_targets q ≫= expr_params) ++ source_params (sel_from q)
  ++ (sel_joins q ≫= λ j, source_params j.1 ++ condition_params j.2)
  ++ (sel_where q ≫= condition_params)
  ++ match sel_order q with Some (e, _) => expr_params e | None => [] end
  ++ match sel_limit q with Some e => expr_params e | None => [] end.

Definition sets_params (sets : list (string * expr)) : list nat := sets ≫= λ s, expr_params s.2.

Definition statement_params (st : statement) : list nat :=
  match st with
  | Select q => query_params q
  | Insert _ _ rows conflict returning =>
      match rows with inl es => es ≫= expr_params | inr q => query_params q end
      ++ match conflict with Some (_, DoUpdate sets) => sets_params sets | _ => [] end
      ++ (returning ≫= expr_params)
  | Update_ _ sets where_ returning =>
      sets_params sets ++ (where_ ≫= condition_params) ++ (returning ≫= expr_params)
  | Delete_ _ where_ => where_ ≫= condition_params
  end.

(** As many arguments as the highest parameter says. *)
Definition arity (st : statement) : nat := foldr max 0 (statement_params st).

(** ** Evaluation *)
Section evaluation.
Context `{Env}.

(** Timestamps travel at the precision of the database. *)
Definition bind_argument (v : Value) : Value := match v with VTime t => VTime (pg_ts t) | _ => v end.

Fixpoint eval (args : list Value) (s : scope) (e : expr) : Value :=
  match e with
  | EColumn q c => default VNull (in_scope q c s)
  | EParam n => default VNull (argument args n)
  | EText t => VText t
  | ELower e => match eval args s e with VText t => VText (pg_lower t) | _ => VNull end
  | EConcat e1 e2 =>
      match eval args s e1, eval args s e2 with VText a, VText b => VText (a +:+ b) | _, _ => VNull end
  end.

(** A comparison with a null is not true. *)
Definition compare_values (op : comparison) (v w : Value) : bool :=
  match op, v, w with
  | OpEq, VUuid a, VUuid b => bool_decide (a = b)
  | OpEq, VText a, VText b => bool_decide (a = b)
  | OpEq, VInt a, VInt b => (a =? b)%Z
  | OpEq, VTime a, VTime b => (a =? b)%Z
  | OpLt, VTime a, VTime b => (a <? b)%Z
  | OpGe, VTime a, VTime b => (b <=? a)%Z
  | OpLike, VText a, VText b => like a b
  | _, _, _ => false
  end.

Definition holds (args : list Value) (s : scope) (c : condition) : bool :=
  compare_values (cond_op c) (eval args s (cond_left c)) (eval args s (cond_right c)).

Definition all_hold (args : list Value) (cs : list condition) (s : scope) : bool := forallb (holds args s) cs.

(** *** Queries *)
Definition table_scopes (t alias : string) (d : Database) : list scope :=
  match relation_named t with
  | Some r => scope_of alias (column_names r) <$> rows_of t d
  | None => []
  end.

Definition source_scopes (args : list Value) (d : Database) (src : source) : list scope :=
  match src with
  | FromTable t a => table_scopes t a d
  | FromUnnest n a x =>
      match argument args n with
      | Some (VUuids us) => (λ u, [(a, (x, VUuid u))]) <$> us
      | _ => []
      end
  end.

Definition join_scopes (args : list Value) (d : Database) (ss : list scope) (j : source * condition) : list scope :=
  ss ≫= λ s, filter (λ s', holds args s' j.2 = true) (app s <$> source_scopes args d j.1).

Definition value_le (v w : Value) : bool :=
  match v, w with
  | VText a, VText b => pg_collate a b
  | VTime a, VTime b => (a <=? b)%Z
  | _, _ => true
  end.

Definition order_le (args : list Value) (e : expr) (asc : bool) (s s' : scope) : Prop :=
  (if asc then value_le (eval args s e) (eval args s' e) else value_le (eval args s' e) (eval args s e)) = true.

#[export] Instance order_le_dec args e asc s s' : Decision (order_le args e asc s s').
Proof. unfold order_le. apply _. Defined.

Definition joined_scopes (args : list Value) (d : Database) (from : source) (joins : list (source * condition)) : list scope :=
  foldl (join_scopes args d) (source_scopes args d from) joins.

Definition query_scopes (args : list Value) (d : Database) (q : select_query) : list scope :=
  let found := filter (λ s, all_hold args (sel_where q) s = true) (joined_scopes args d (sel_from q) (sel_joins q)) in
  match sel_order q with
  | None => found
  | Some (e, asc) => merge_sort (order_le args e asc) found
  end.

Definition run_query (args : list Value) (d : Database) (q : select_query) : SqlError + list row :=
  let scopes := query_scopes args d q in
  let project (s : scope) : row := eval args s <$> sel_targets q in
  match sel_limit q with
  | None => inr (project <$> scopes)
  | Some e =>
      match eval args [] e with
      | VInt n => if (n <? 0)%Z then inl (DriverError "LIMIT must not be negative")
                  else inr (project <$> limit_rows n scopes)
      | _ => inr (project <$> scopes)
      end
  end.

(** *** New rows *)
Definition row_scope (r : relation_) (x : row) : scope := scope_of (rel_name r) (column_names r) x.
Definition field_of (r : relation_) (x : row) (c : string) : Value := default VNull (in_scope "" c (row_scope r x)).

(** A column that is not given has its default. *)
Definition new_row (now : Time) (r : relation_) (given : list (string * Value)) : row :=
  (λ c, match find (λ g, String.eqb g.1 (col_name c)) given with
        | Some g => g.2
        | None => if col_default_now c then VTime now else VNull
        end) <$> rel_columns r.

Definition in_width (k : kind) (v : Value) : bool :=
  match k, v with
  | KInt4, VInt z => is_int4 z
  | KInt2, VInt z => (-32768 <=? z)%Z && (z <=? 32767)%Z
  | _, _ => true
  end.

Definition check_row (r : relation_) (x : row) : option SqlError :=
  if negb (forallb (λ p, in_width (col_kind p.1) p.2) (zip (rel_columns r) x)) then Some (DriverError "integer out of range")
  else match find (λ p, col_required p.1 && bool_decide (p.2 = VNull)) (zip (rel_columns r) x) with
  | Some (c, _) => Some (DriverError ("null value in column " +:+ col_name c))
  | None =>
      match find (λ k, match field_of r x k.2.1 with VText t => bool_decide (t ∉ k.2.2) | _ => false end) (rel_checks r) with
      | Some (n, _) => Some (CheckViolation n)
      | None => None
      end
  end.

(** The entry of a row in an index; rows with a null in it never clash. *)
Definition entry (r : relation_) (keys : list expr) (x : row) : list Value := eval [] (row_scope r x) <$> keys.

Definition clash (r : relation_) (keys : list expr) (x y : row) : bool :=
  bool_decide (VNull ∉ entry r keys x) && bool_decide (entry r keys y = entry r keys x).

Definition primary_keys (r : relation_) : list expr := match rel_uniques r with (_, keys) :: _ => keys | [] => [] end.

(** Another row, not the one being changed, stands in the way. *)
Definition unique_violation (r : relation_) (changed : option row) (x : row) (d : Database) : option SqlError :=
  let others := match changed with
                | None => rows_of (rel_name r) d
                | Some old => filter (λ y, clash r (primary_keys r) old y = false) (rows_of (rel_name r) d)
                end in
  match find (λ u, existsb (clash r u.2 x) others) (rel_uniques r) with
  | Some (n, _) => Some (UniqueViolation n)
  | None => None
  end.

Definition refers (d : Database) (k : foreign_key) (v : Value) : bool :=
  bool_decide (v = VNull) ||
  match relation_named (fk_table k) with
  | Some target => existsb (λ y, bool_decide (field_of target y (fk_target k) = v)) (rows_of (fk_table k) d)
  | None => false
  end.

(** Of a changed row only the keys that have changed are checked. *)
Definition foreign_key_violation (r : relation_) (changed : option row) (x : row) (d : Database) : option SqlError :=
  let due k := match changed with
               | None => true
               | Some old => negb (bool_decide (field_of r old (fk_column k) = field_of r x (fk_column k)))
               end in
  match find (λ k, due k && negb (refers d k (field_of r x (fk_column k)))) (rel_foreign_keys r) with
  | Some k => Some (ForeignKeyViolation (fk_name k))
  | None => None
  end.

Definition first_error (es : list (option SqlError)) : option SqlError := head (omap id es).

Definition store_row (r : relation_) (changed : option row) (x : row) (d : Database) : SqlError + Database :=
  match first_error [check_row r x; unique_violation r changed x d; foreign_key_violation r changed x d] with
  | Some e => inl e
  | None => inr (put_row (rel_name r) x d)
  end.

(** [SET c = e, ...] in a scope. *)
Definition set_fields (args : list Value) (s : scope) (r : relation_) (sets : list (string * expr)) (x : row) : row :=
  (λ p, match find (λ c, String.eqb c.1 (col_name p.1)) sets with
        | Some c => eval args s c.2
        | None => p.2
        end) <$> zip (rel_columns r) x.

(** The index whose columns [ON CONFLICT] names. *)
Definition arbiter (target : list string) : list expr := EColumn "" <$> target.

(** One row of an [INSERT]: the row that was inserted or changed, if any. *)
Definition insert_row (args : list Value) (r : relation_) (conflict : option (list string * conflict_action))
    (x : row) (d : Database) : SqlError + (option row * Database) :=
  let insert := match store_row r None x d with inl e => inl e | inr d' => inr (Some x, d') end in
  match conflict with
  | None => insert
  | Some (target, action) =>
      match check_row r x with
      | Some e => inl e
      | None =>
          match find (clash r (arbiter target) x) (rows_of (rel_name r) d), action with
          | None, _ => insert
          | Some old, DoNothing => inr (None, d)
          | Some old, DoUpdate sets =>
              let s := row_scope r old ++ scope_of "excluded" (column_names r) x in
              let x' := set_fields args s r sets old in
              match store_row r (Some old) x' d with inl e => inl e | inr d' => inr (Some x', d') end
          end
      end
  end.

(** Rows one after the other, with what has been done so far. *)
Fixpoint each_row (f : row → Database → SqlError + (option row * Database)) (xs : list row) (d : Database)
    : SqlError + (list row * Database) :=
  match xs with
  | [] => inr ([], d)
  | x :: xs' =>
      match f x d with
      | inl e => inl e
      | inr (o, d1) =>
          match each_row f xs' d1 with
          | inl e => inl e
          | inr (l, d2) => inr (option_list o ++ l, d2)
          end
      end
  end.

(** *** Deletions *)

(** The foreign keys that point to a table, with their tables. *)
Definition references_to (t : string) : list (relation_ * foreign_key) :=
  schema ≫= λ r, pair r <$> List.filter (λ k, String.eqb (fk_table k) t) (rel_foreign_keys r).

(** Rows that point to a deleted row follow it or forbid it; [fuel] bounds the
    length of a chain of cascades. *)
Fixpoint delete_where (fuel : nat) (r : relation_) (P : row → bool) (d : Database) : SqlError + Database :=
  match fuel with
  | O => inl (DriverError "stack depth limit exceeded")
  | S fuel' =>
      let doomed := List.filter P (rows_of (rel_name r) d) in
      let follow (acc : SqlError + Database) (rk : relation_ * foreign_key) :=
        match acc with
        | inl e => inl e
        | inr d' =>
            let hit y := bool_decide (field_of rk.1 y (fk_column rk.2) ∈ (λ x, field_of r x (fk_target rk.2)) <$> doomed) in
            match fk_action rk.2 with
            | Cascade => delete_where fuel' rk.1 hit d'
            | Restrict => if existsb hit (rows_of (rel_name rk.1) d') then inl (ForeignKeyViolation (fk_name rk.2)) else inr d'
            end
        end in
      match foldl follow (inr d) (references_to (rel_name r)) with
      | inl e => inl e
      | inr d' => inr (remove_where (rel_name r) P d')
      end
  end.

(** No chain visits a table twice. *)
Definition cascade_fuel : nat := length schema.

(** *** Statements *)
Record Answer : Type := mkAnswer { ans_rows : list row; ans_affected : Z }.

Definition returned (args : list Value) (r : relation_) (returning : list expr) (xs : list row) : Answer :=
  mkAnswer (match returning with
            | [] => []
            | _ => (λ x, eval args (row_scope r x) <$> returning) <$> xs
            end) (Z.of_nat (length xs)).

Definition run_statement (args : list Value) (st : statement) (now : Time) (d : Database) : SqlError + (Answer * Database) :=
  match st with
  | Select q =>
      match run_query args d q with
      | inl e => inl e
      | inr rows => inr (mkAnswer rows (Z.of_nat (length rows)), d)
      end
  | Insert t columns rows conflict returning =>
      match relation_named t, match rows with inl es => inr [eval args [] <$> es] | inr q => run_query args d q end with
      | None, _ => inl (DriverError "relation does not exist")
      | _, inl e => inl e
      | Some r, inr given =>
          match each_row (insert_row args r conflict) ((λ vs, new_row now r (zip columns vs)) <$> given) d with
          | inl e => inl e
          | inr (xs, d') => inr (returned args r returning xs, d')
          end
      end
  | Update_ t sets where_ returning =>
      match relation_named t with
      | None => inl (DriverError "relation does not exist")
      | Some r =>
          let change x d :=
            let x' := set_fields args (row_scope r x) r sets x in
            match store_row r (Some x) x' d with inl e => inl e | inr d' => inr (Some x', d') end in
          match each_row change (List.filter (λ x, all_hold args where_ (row_scope r x)) (rows_of t d)) d with
          | inl e => inl e
          | inr (xs, d') => inr (returned args r returning xs, d')
          end
      end
  | Delete_ t where_ =>
      match relation_named t with
      | None => inl (DriverError "relation does not exist")
      | Some r =>
          let P x := all_hold args where_ (row_scope r x) in
          match delete_where cascade_fuel r P d with
          | inl e => inl e
          | inr d' => inr (mkAnswer [] (Z.of_nat (length (List.filter P (rows_of t d)))), d')
          end
      end
  end.

(** A text with its arguments. *)
Definition sql (text : string) (args : list Value) : Stmt Answer := λ now d,
  match parse_statement text with
  | None => inl (DriverError "syntax error")
  | Some st =>
      if negb (length args =? arity st)%nat then inl (DriverError "wrong number of parameters")
      else if negb (statement_typed args st) then inl (DriverError "type mismatch")
      else run_statement (bind_argument <$> args) st now d
  end.
End evaluation.
