(* ===== verification/EngineLemmas.v ===== *)
(** The evaluator of [Engine] on the tables of [Schema.Database]: how lists of
    rows are selected, joined and sorted, what a search by key finds, and what
    the checks of a new row amount to. *)

From Stdlib Require Import Ascii.
From stdpp Require Import base gmap sets list strings sorting.
From Stdlib Require Import ZArith Lia.
From S2P Require Import Prelude GoTime Common Env Schema Sql SqlSyntax SqlTexts Engine.

Create HintDb means.

(** ** Lists *)
Lemma filter_fmap {A B} (f : A → B) (P : B → Prop) `{∀ x, Decision (P x)} (Q : A → Prop) `{∀ x, Decision (Q x)} (l : list A) :
  (∀ x, P (f x) <-> Q x) -> filter P (f <$> l) = f <$> filter Q l.
Proof.
  intros Hiff. induction l as [|x l IH]; [done|]. rewrite fmap_cons, !filter_cons, IH.
  destruct (decide (P (f x))) as [Hp|Hp], (decide (Q x)) as [Hq|Hq]; [done| | |done]; exfalso; naive_solver.
Qed.

Lemma filter_true {A} (l : list A) : filter (λ _, True) l = l.
Proof. induction l as [|x l IH]; [done|]. rewrite filter_cons_True by done. by rewrite IH. Qed.

Lemma filter_omap {A B} (h : A → option B) (P : B → Prop) `{∀ x, Decision (P x)} (Q : A → Prop) `{∀ x, Decision (Q x)} (l : list A) :
  (∀ x y, h x = Some y -> P y <-> Q x) -> filter P (omap h l) = omap h (filter Q l).
Proof.
  intros Hiff. induction l as [|x l IH]; [done|]. rewrite filter_cons. specialize (Hiff x). cbn [omap list_omap].
  destruct (h x) as [y|] eqn:E; [rewrite filter_cons; specialize (Hiff y eq_refl)|]; rewrite IH.
  - destruct (decide (P y)) as [Hp|Hp], (decide (Q x)) as [Hq|Hq]; [by simpl; rewrite E|naive_solver|naive_solver|done].
  - destruct (decide (Q x)); [by simpl; rewrite E|done].
Qed.

Lemma omap_fmap {A B C} (f : B → C) (h : A → option B) (l : list A) : omap (λ x, f <$> h x) l = f <$> omap h l.
Proof. induction l as [|x l IH]; [done|]. csimpl. rewrite IH. by destruct (h x). Qed.

Lemma omap_same {A B} (f g : A → option B) (l : list A) : (∀ x, f x = g x) -> omap f l = omap g l.
Proof. intros Hfg. induction l as [|x l IH]; [done|]. csimpl. by rewrite Hfg, IH. Qed.

Lemma bind_options {A B} (g : A → list B) (h : A → option B) (l : list A) :
  (∀ x, g x = option_list (h x)) -> l ≫= g = omap h l.
Proof. intros Hg. induction l as [|x l IH]; [done|]. csimpl. rewrite Hg, IH. by destruct (h x). Qed.

Lemma bool_decide_true (b : bool) : bool_decide (b = true) = b.
Proof. by destruct b. Qed.

Lemma bool_decide_le a b : bool_decide (a <= b)%Z = (a <=? b)%Z.
Proof. destruct (Z.leb_spec a b); [by apply bool_decide_eq_true|apply bool_decide_eq_false; lia]. Qed.

(** Sorting the images is sorting the originals. *)
Section sorting.
Context {A B} (f : A → B) (R : relation A) `{∀ x y, Decision (R x y)} (R' : relation B) `{∀ x y, Decision (R' x y)}.
Context (HR : ∀ x y, R' (f x) (f y) <-> R x y).

Lemma list_merge_fmap (l1 l2 : list A) : list_merge R' (f <$> l1) (f <$> l2) = f <$> list_merge R l1 l2.
Proof.
  revert l2. induction l1 as [|x1 l1 IH1]; intros l2; induction l2 as [|x2 l2 IH2]; [done..|]. simpl.
  destruct (decide (R' (f x1) (f x2))) as [Hp|Hp], (decide (R x1 x2)) as [Hq|Hq]; [| | |].
  - rewrite fmap_cons. f_equal. exact (IH1 (x2 :: l2)).
  - naive_solver.
  - naive_solver.
  - rewrite fmap_cons. f_equal. exact IH2.
Qed.

(** The stack of the sort, mapped. *)
Definition map_stack (st : list (option (list A))) : list (option (list B)) :=
  (option_map (map f)) <$> st.

Lemma merge_list_to_stack_fmap st l :
  merge_list_to_stack R' (map_stack st) (f <$> l) = map_stack (merge_list_to_stack R st l).
Proof.
  revert l. induction st as [|[l'|] st IH]; intros l; [done| |done].
  cbn. f_equal. rewrite list_merge_fmap. apply IH.
Qed.

Lemma merge_stack_fmap st : merge_stack R' (map_stack st) = f <$> merge_stack R st.
Proof.
  induction st as [|[l|] st IH]; [done| |exact IH]. cbn [map_stack fmap list_fmap merge_stack option_fmap option_map].
  rewrite <-list_merge_fmap. f_equal. exact IH.
Qed.

Lemma merge_sort_fmap (l : list A) : merge_sort R' (f <$> l) = f <$> merge_sort R l.
Proof.
  unfold merge_sort. change (@nil (option (list B))) with (map_stack []).
  generalize (@nil (option (list A))). induction l as [|x l IH]; intros st; [apply merge_stack_fmap|].
  cbn. change [f x] with (f <$> [x]). rewrite merge_list_to_stack_fmap. apply IH.
Qed.
End sorting.

(** ** Tables *)

(** A search by key. *)
Lemma filter_key {A} (m : gmap UUID A) i : filter (λ p, p.1 = i) (map_to_list m) = option_list (pair i <$> m !! i).
Proof.
  destruct (m !! i) as [x|] eqn:E; simpl.
  - apply Permutation_singleton_r, NoDup_Permutation; [|apply NoDup_singleton|].
    + apply NoDup_filter, NoDup_map_to_list.
    + intros [j y]. rewrite list_elem_of_filter, elem_of_map_to_list, list_elem_of_singleton. naive_solver.
  - apply Permutation_nil_r, NoDup_Permutation; [apply NoDup_filter, NoDup_map_to_list|apply NoDup_nil_2|].
    intros [j y]. rewrite list_elem_of_filter, elem_of_map_to_list, elem_of_nil. naive_solver.
Qed.

Lemma existsb_map {A} (g : row → bool) (enc : UUID * A → row) (P : UUID → A → Prop) `{∀ i x, Decision (P i x)} m :
  (∀ p, g (enc p) = bool_decide (P p.1 p.2)) -> existsb g (enc <$> map_to_list m) = bool_decide (map_Exists P m).
Proof.
  intros Hg. apply eq_bool_prop_intro. rewrite bool_decide_spec, map_Exists_to_list, existb_True, Exists_fmap, !Exists_exists.
  split; intros (p & Hp & HP); exists p; (split; [done|]); simpl in *; rewrite Hg, bool_decide_spec in *; by destruct p.
Qed.

Lemma map_Exists_key {A} (m : gmap UUID A) i : map_Exists (λ j _, j = i) m <-> is_Some (m !! i).
Proof.
  split.
  - intros (j & x & Hj & ->)%map_Exists_lookup. eauto.
  - intros [x Hx]. by apply map_Exists_lookup_2 with i x.
Qed.

Lemma existsb_key {A} (g : row → bool) (enc : UUID * A → row) m i :
  (∀ p, g (enc p) = bool_decide (p.1 = i)) ->
  existsb g (enc <$> map_to_list m) = match m !! i with Some _ => true | None => false end.
Proof.
  intros Hg. rewrite (@existsb_map A g enc (λ j _, j = i) (λ j _, decide (j = i))) by exact Hg.
  destruct (m !! i) eqn:E; [apply bool_decide_eq_true|apply bool_decide_eq_false]; rewrite map_Exists_key, E; naive_solver.
Qed.

Lemma find_fmap {A} (g : row → bool) (enc : A → row) (P : A → Prop) `{∀ x, Decision (P x)} l :
  (∀ x, g (enc x) = bool_decide (P x)) -> find g (enc <$> l) = enc <$> head (filter P l).
Proof.
  intros Hg. induction l as [|x l IH]; [done|]. rewrite fmap_cons, filter_cons. simpl. rewrite Hg.
  by destruct (decide (P x)) as [Hp|Hp]; [rewrite bool_decide_eq_true_2|rewrite bool_decide_eq_false_2].
Qed.

Lemma find_key {A} (g : row → bool) (enc : UUID * A → row) m i :
  (∀ p, g (enc p) = bool_decide (p.1 = i)) -> find g (enc <$> map_to_list m) = enc <$> (pair i <$> m !! i).
Proof.
  intros Hg. rewrite (find_fmap g enc (λ p, p.1 = i)) by done. rewrite filter_key. by destruct (m !! i).
Qed.

Lemma filterb_fmap {A} (g : row → bool) (enc : A → row) (P : A → Prop) `{∀ x, Decision (P x)} l :
  (∀ x, g (enc x) = bool_decide (P x)) -> List.filter g (enc <$> l) = enc <$> filter P l.
Proof.
  intros Hg. induction l as [|x l IH]; [done|]. rewrite fmap_cons, filter_cons. simpl. rewrite Hg, IH.
  by destruct (decide (P x)) as [Hp|Hp]; [rewrite bool_decide_eq_true_2|rewrite bool_decide_eq_false_2].
Qed.

Lemma filterb_key {A} (g : row → bool) (enc : UUID * A → row) m i :
  (∀ p, g (enc p) = bool_decide (p.1 = i)) -> List.filter g (enc <$> map_to_list m) = option_list (enc <$> (pair i <$> m !! i)).
Proof.
  intros Hg. rewrite (filterb_fmap g enc (λ p, p.1 = i)) by done. rewrite filter_key. by destruct (m !! i).
Qed.

(** ** What a text means *)
Section meaning.
Context `{Env}.

(** The text [text] with the arguments [args] is the statement [st] on every
    consistent database: the same refusals, the same new database, and an
    answer that [R] relates to the statement's. *)
Definition means {A} (text : string) (args : list Value) (R : A → Answer → Prop) (st : Stmt A) : Prop :=
  ∀ now d, db_wf d ->
  match sql text args now d, st now d with
  | inl e, inl e' => e = e'
  | inr (ans, d1), inr (a, d2) => R a ans ∧ d1 = d2
  | _, _ => False
  end.

(** The answers: several rows, at most one, none, and how many were changed. *)
Definition many {A} (enc : A → row) (l : list A) (ans : Answer) : Prop := ans_rows ans = enc <$> l.
Definition one {A} (enc : A → row) (o : option A) (ans : Answer) : Prop := ans_rows ans = option_list (enc <$> o).
Definition no_rows (u : unit) (ans : Answer) : Prop := ans_rows ans = [].
Definition affected (n : Z) (ans : Answer) : Prop := ans_affected ans = n.

(** *** Where the rows of a query come from *)
Definition scope_at {X} (enc : X → row) (r : relation_) (alias : string) (x : X) : scope :=
  scope_of alias (column_names r) (enc x).

(** One table. *)
Lemma source_table {X} (enc : X → row) (table : Database → list X) {t alias r args} :
  relation_named t = Some r -> (∀ d, rows_of t d = enc <$> table d) ->
  ∀ d, joined_scopes args d (FromTable t alias) [] = scope_at enc r alias <$> table d.
Proof.
  intros Hr Hrows d. unfold joined_scopes. simpl. unfold table_scopes.
  by rewrite Hr, Hrows, <-list_fmap_compose.
Qed.

(** The rows of a join by key: a row, and the one its key leads to. *)
Definition joined_rows {X A} (key : X → UUID) (m : gmap UUID A) (l : list X) : list (X * (UUID * A)) :=
  omap (λ x, (λ v, (x, (key x, v))) <$> m !! key x) l.

Lemma joined_rows_filter {X A} (key : X → UUID) (m : gmap UUID A) (Q : X * (UUID * A) → Prop) `{∀ y, Decision (Q y)}
    (P : X → Prop) `{∀ x, Decision (P x)} l :
  (∀ y, Q y <-> P y.1) -> filter Q (joined_rows key m l) = joined_rows key m (filter P l).
Proof. intros HQ. apply filter_omap. intros x y. destruct (m !! key x); [|done]. intros [= <-]. apply HQ. Qed.

(** One more table, joined by its key. *)
Lemma source_join {X A} (at_ : X → scope) (table : Database → list X) (enc : UUID * A → row)
    (m : Database → gmap UUID A) (key : X → UUID) {args from joins t alias r c} :
  (∀ d, joined_scopes args d from joins = at_ <$> table d) ->
  relation_named t = Some r -> (∀ d, rows_of t d = enc <$> map_to_list (m d)) ->
  (∀ x p, holds args (at_ x ++ scope_at enc r alias p) c = bool_decide (p.1 = key x)) ->
  ∀ d, joined_scopes args d from (joins ++ [(FromTable t alias, c)])
    = (λ y, at_ y.1 ++ scope_at enc r alias y.2) <$> joined_rows key (m d) (table d).
Proof.
  intros Hat Hr Hrows Hc d. unfold joined_scopes in *. rewrite foldl_snoc, Hat. unfold joined_rows.
  unfold join_scopes. cbn [fst snd source_scopes]. unfold table_scopes. rewrite Hr, Hrows.
  rewrite <-omap_fmap, list_fmap_bind. apply bind_options. intros x. cbn [compose]. rewrite <-!list_fmap_compose.
  change (app (at_ x) ∘ (scope_of alias (column_names r) ∘ enc)) with (λ p, at_ x ++ scope_at enc r alias p).
  rewrite (filter_fmap (λ p, at_ x ++ scope_at enc r alias p) _ (λ p, p.1 = key x)).
  - rewrite filter_key. by destruct (m d !! key x).
  - intros p. by rewrite Hc, bool_decide_eq_true.
Qed.

(** A text that is a statement, and arguments that fit it. *)
Definition accepted (text : string) (args : list Value) (st : statement) : Prop :=
  parse_statement text = Some st ∧ length args = arity st ∧ statement_typed args st = true.

Lemma sql_accepted text args st now d :
  accepted text args st -> sql text args now d = run_statement (bind_argument <$> args) st now d.
Proof. intros (Hp & Ha & Ht). unfold sql. by rewrite Hp, Ha, Nat.eqb_refl, Ht. Qed.

Lemma limit_rows_fmap {A B} (f : A → B) limit (l : list A) : limit_rows limit (f <$> l) = f <$> limit_rows limit l.
Proof. unfold limit_rows. rewrite length_fmap. destruct (_ <=? _)%Z; [done|]. symmetry. apply fmap_take. Qed.

(** *** The meaning of a query

    The rows of its sources are [at_ <$> table d]. *)
Section select.
Context {X : Type} (at_ : X → scope) (table : Database → list X) (out : X → row).
Context (P : X → Prop) `{∀ x, Decision (P x)}.
Context {text : string} {args : list Value} {from : source} {joins : list (source * condition)}.
Context {targets : list expr} {conds : list condition}.
Context (Hsource : ∀ d, joined_scopes (bind_argument <$> args) d from joins = at_ <$> table d).
Context (HP : ∀ x, all_hold (bind_argument <$> args) conds (at_ x) = bool_decide (P x)).
Context (Hout : ∀ x, eval (bind_argument <$> args) (at_ x) <$> targets = out x).

Lemma found_scopes d limit :
  query_scopes (bind_argument <$> args) d (mkSelect targets from joins conds None limit) = at_ <$> filter P (table d).
Proof.
  unfold query_scopes. cbn [sel_where sel_from sel_joins sel_order]. rewrite Hsource.
  apply filter_fmap. intros x. by rewrite HP, bool_decide_eq_true.
Qed.

Lemma projected (l : list X) : (λ s, eval (bind_argument <$> args) s <$> targets) <$> (at_ <$> l) = out <$> l.
Proof. rewrite <-list_fmap_compose. apply list_fmap_ext. intros _ x _. apply Hout. Qed.

Lemma means_found (f : Database → option X) :
  accepted text args (Select (mkSelect targets from joins conds None None)) ->
  (∀ d, option_list (f d) = filter P (table d)) -> means text args (one out) (λ _ d, queried (f d) d).
Proof.
  intros Hacc Hf now d _. rewrite (sql_accepted _ _ _ _ _ Hacc). cbn [run_statement]. unfold run_query.
  rewrite found_scopes, <-Hf. cbn [sel_limit sel_targets]. rewrite projected. split; [|done]. by destruct (f d).
Qed.

Context (le : relation X) `{∀ x y, Decision (le x y)} {e : expr} {asc : bool}.
Context (Hle : ∀ x y, order_le (bind_argument <$> args) e asc (at_ x) (at_ y) <-> le x y).

Lemma sorted_scopes d limit :
  query_scopes (bind_argument <$> args) d (mkSelect targets from joins conds (Some (e, asc)) limit)
  = at_ <$> merge_sort le (filter P (table d)).
Proof.
  rewrite <-(merge_sort_fmap at_ le (order_le (bind_argument <$> args) e asc)) by done.
  by rewrite <-(found_scopes d limit).
Qed.

Lemma means_sorted :
  accepted text args (Select (mkSelect targets from joins conds (Some (e, asc)) None)) ->
  means text args (many out) (λ _ d, queried (merge_sort le (filter P (table d))) d).
Proof.
  intros Hacc now d _. rewrite (sql_accepted _ _ _ _ _ Hacc). cbn [run_statement]. unfold run_query.
  rewrite sorted_scopes. cbn [sel_limit sel_targets]. by rewrite projected.
Qed.

Lemma means_limited (limit : Z) (n : nat) :
  accepted text args (Select (mkSelect targets from joins conds (Some (e, asc)) (Some (EParam n)))) ->
  argument (bind_argument <$> args) n = Some (VInt limit) ->
  means text args (many out) (λ _ d, if (limit <? 0)%Z then inl (DriverError "LIMIT must not be negative")
                                     else queried (limit_rows limit (merge_sort le (filter P (table d)))) d).
Proof.
  intros Hacc Hn now d _. rewrite (sql_accepted _ _ _ _ _ Hacc). cbn [run_statement]. unfold run_query.
  rewrite sorted_scopes. cbn [sel_limit sel_targets eval]. rewrite Hn. cbn [from_option id].
  destruct (limit <? 0)%Z; [done|]. split; [|done]. unfold many. cbn [ans_rows]. rewrite limit_rows_fmap. apply projected.
Qed.
End select.

(** An answer whose rows are read off larger ones. *)
Lemma means_image {A B} {text args} {out : B → row} (g : A → B) (f : Database → list A) (f' : Database → list B) :
  means text args (many (λ a, out (g a))) (λ _ d, queried (f d) d) -> (∀ d, f' d = g <$> f d) ->
  means text args (many out) (λ _ d, queried (f' d) d).
Proof.
  intros Hm Hf now d Hd. specialize (Hm now d Hd). unfold queried in *. rewrite Hf.
  destruct (sql _ _ _ _) as [e|[ans d']]; [done|]. destruct Hm as [Ha ->]. split; [|done].
  unfold many in *. by rewrite Ha, <-list_fmap_compose.
Qed.
End meaning.

(** Checks that a text with its arguments is accepted. *)
Ltac accept := split_and!; vm_compute; reflexivity.
