(* ===== verification/QueryMeaning.v ===== *)
(** What the queries of src/pkg/pgstore/queries.go mean: each text, parsed and
    run by [Engine], is the statement of [Sql] that the adapter calls. *)

From Stdlib Require Import Ascii.
From stdpp Require Import base gmap sets list strings sorting.
From Stdlib Require Import ZArith Lia.
From S2P Require Import Prelude GoTime Common Env Schema Sql SqlSyntax SqlTexts Engine EngineLemmas.

(** Reduces a condition on rows to one on their fields. *)
Ltac fields :=
  intros; unfold all_hold, order_le, text_le, le_on, ge_on; cbn;
  rewrite ?andb_true_r, ?Z.leb_le, ?bool_decide_and, ?bool_decide_true, ?bool_decide_le; try done.

(** The text is accepted, and its rows are those of the source [S], of which [L]
    says the rest. *)
Tactic Notation "by_query" uconstr(L) "from" uconstr(S) :=
  eapply L; revgoals; [accept|..]; revgoals; [eapply S; reflexivity|..]; fields.

Section queries.
Context `{Env}.

Abbreviation table_of m := (λ d, map_to_list (m d)).

Lemma listUsers_means : means Texts.listUsers [] (many user_row) listUsers.
Proof. by_query (means_sorted _ (table_of users) user_row (λ _, True)) from (source_table user_row). Qed.

Lemma listTeas_means : means Texts.listTeas [] (many tea_row) listTeas.
Proof. by_query (means_sorted _ (table_of teas) tea_row (λ _, True)) from (source_table tea_row). Qed.

Lemma listTagCategories_means : means Texts.listTagCategories [] (many category_row) listTagCategories.
Proof. by_query (means_sorted _ (table_of tag_categories) category_row (λ _, True)) from (source_table category_row). Qed.

Lemma searchTagCategories_means prefix : means Texts.searchTagCategories [VText prefix] (many category_row) (searchTagCategories prefix).
Proof. by_query (means_sorted _ (table_of tag_categories) category_row (λ p, name_like prefix p.2 = true)) from (source_table category_row). Qed.

Lemma listTagsByCategory_means c : means Texts.listTagsByCategory [VUuid c] (many tag_row) (listTagsByCategory c).
Proof. by_query (means_sorted _ (table_of tags) tag_row (λ p, tag_category_id p.2 = c)) from (source_table tag_row). Qed.

Lemma listTagsByCategoryFilter_means c : means Texts.listTagsByCategoryFilter [VUuid c] (many tag_row) (listTagsByCategoryFilter c).
Proof. by_query (means_sorted _ (table_of tags) tag_row (λ p, tag_category_id p.2 = c)) from (source_table tag_row). Qed.

Lemma listTags_means : means Texts.listTags [] (many tag_row) listTags.
Proof. by_query (means_sorted _ (table_of tags) tag_row (λ _, True)) from (source_table tag_row). Qed.

Lemma listTagsByName_means prefix : means Texts.listTagsByName [VText prefix] (many tag_row) (listTagsByName prefix).
Proof. by_query (means_sorted _ (table_of tags) tag_row (λ p, name_like prefix (tag_name p.2) = true)) from (source_table tag_row). Qed.

Lemma listTagsByNameCategory_means prefix c : means Texts.listTagsByNameCategory [VText prefix; VUuid c] (many tag_row) (listTagsByNameCategory prefix c).
Proof. by_query (means_sorted _ (table_of tags) tag_row (λ p, name_like prefix (tag_name p.2) = true ∧ tag_category_id p.2 = c)) from (source_table tag_row). Qed.

Lemma listCollections_means user : means Texts.listCollections [VUuid user] (many collection_row) (listCollections user).
Proof. by_query (means_sorted _ (table_of collections) collection_row (λ p, coll_user_id p.2 = user)) from (source_table collection_row). Qed.

Lemma listNotifications_means user : means Texts.listNotifications [VUuid user] (many notification_row) (listNotifications user).
Proof. by_query (means_sorted _ (table_of notifications) notification_row (λ p, notif_user_id p.2 = user)) from (source_table notification_row). Qed.

(** A query by primary key. *)
Tactic Notation "by_lookup" uconstr(L) "from" uconstr(S) :=
  eapply L; revgoals; [intros d; symmetry; apply filter_key|accept|..]; revgoals; [eapply S; reflexivity|..]; fields.

Lemma getTea_means id : means Texts.getTea [VUuid id] (one tea_row) (getTea id).
Proof. by_lookup (means_found _ (table_of teas) tea_row (λ p, p.1 = id)) from (source_table tea_row). Qed.

Lemma getTagCategory_means id : means Texts.getTagCategory [VUuid id] (one category_row) (getTagCategory id).
Proof. by_lookup (means_found _ (table_of tag_categories) category_row (λ p, p.1 = id)) from (source_table category_row). Qed.

Lemma getTag_means id : means Texts.getTag [VUuid id] (one tag_row) (getTag id).
Proof. by_lookup (means_found _ (table_of tags) tag_row (λ p, p.1 = id)) from (source_table tag_row). Qed.

Lemma getQR_means id : means Texts.getQR [VUuid id] (one qr_row) (getQR id).
Proof. by_lookup (means_found _ (table_of qr_records) qr_row (λ p, p.1 = id)) from (source_table qr_row). Qed.

Lemma getCollection_means id user :
  means Texts.getCollection [VUuid id; VUuid user] (one collection_row) (getCollection id user).
Proof.
  eapply (means_found _ (table_of collections) collection_row (λ p, p.1 = id ∧ coll_user_id p.2 = user));
    revgoals; [|accept|..]; revgoals;
    [by eapply (source_table collection_row)|fields|fields|]. intros d.
  rewrite (list_filter_iff _ (λ p, coll_user_id p.2 = user ∧ p.1 = id)) by tauto.
  rewrite <-list_filter_filter, filter_key. destruct (collections d !! id) as [r|]; [|done].
  simpl. rewrite filter_cons, filter_nil. simpl. by case_decide.
Qed.

Lemma searchTeasByPrefix_means prefix limit :
  means Texts.searchTeasByPrefix [VText prefix; VInt limit] (many tea_row) (searchTeasByPrefix prefix limit).
Proof.
  eapply (means_limited _ (table_of teas) tea_row (λ p, name_like prefix (tea_name p.2) = true));
    revgoals; [|accept|..]; [reflexivity|..]; revgoals; [by eapply (source_table tea_row)|fields..].
Qed.

Lemma listDeviceTokens_means user :
  means Texts.listDeviceTokens [VUuid user] (many (λ token, [VText token])) (listDeviceTokens user).
Proof.
  eapply (means_image (λ p : UUID * DeviceRow, dev_token p.2)); [|intros d; reflexivity].
  by_query (means_sorted _ (table_of devices) (λ p, [VText (dev_token p.2)]) (λ p, dev_user_id p.2 = user))
    from (source_table device_row).
Qed.

Lemma listConsumptionsSince_means user since :
  means Texts.listConsumptionsSince [VUuid user; VTime since] (many (λ c : Time * UUID, [VTime c.1; VUuid c.2]))
    (listConsumptionsSince user since).
Proof.
  eapply (means_image (λ c : UUID * Time * UUID, (c.1.2, c.2)) (λ d, merge_sort (ge_on (λ c, c.1.2))
    (filter (λ c, c.1.1 = user ∧ (pg_ts since <= c.1.2)%Z) (elements (consumptions d))))).
  - by_query (means_sorted _ (λ d, elements (consumptions d)) (λ c, [VTime c.1.2; VUuid c.2])
      (λ c, c.1.1 = user ∧ (pg_ts since <= c.1.2)%Z)) from (source_table consumption_row).
  - intros d. by apply merge_sort_fmap.
Qed.

(** *** Joins *)

(** The links of a tea with the tags they lead to. *)
Definition linked_tags (d : Database) : list ((UUID * UUID) * (UUID * TagRow)) :=
  joined_rows snd (tags d) (elements (tea_tags d)).

Lemma listTagsByTea_means tea : means Texts.listTagsByTea [VUuid tea] (many tag_row) (listTagsByTea tea).
Proof.
  eapply (means_image snd (λ d, merge_sort (text_le (λ y, tag_name y.2.2)) (filter (λ y, y.1.1 = tea) (linked_tags d)))).
  - eapply (means_sorted _ linked_tags (λ y, tag_row y.2) (λ y, y.1.1 = tea)); revgoals; [accept|..]; revgoals.
    { by eapply (source_join _ _ tag_row tags snd (joins := [])); [by eapply (source_table pair_row)|..|fields]. }
    all: fields.
  - intros d. unfold linked_tags. rewrite (joined_rows_filter _ _ _ (λ p, p.1 = tea)) by done.
    rewrite <-(merge_sort_fmap snd (text_le (λ y : (UUID * UUID) * (UUID * TagRow), tag_name y.2.2))
      (text_le (λ p : UUID * TagRow, tag_name p.2))) by done.
    f_equal. unfold joined_rows. rewrite <-omap_fmap.
    apply omap_same. intros p. by destruct (tags d !! p.2).
Qed.

(** The items of a collection with their QR records and the teas of those. *)
Definition shelved (d : Database) : list (((UUID * UUID) * (UUID * QRRow)) * (UUID * TeaRow)) :=
  joined_rows (λ y, qrr_tea_id y.2.2) (teas d) (joined_rows snd (qr_records d) (elements (collection_qr_items d))).

Lemma shelved_filter c d :
  filter (λ y, y.1.1.1 = c) (shelved d) = joined_rows (λ y, qrr_tea_id y.2.2) (teas d)
    (joined_rows snd (qr_records d) (filter (λ p, p.1 = c) (elements (collection_qr_items d)))).
Proof.
  unfold shelved. rewrite (joined_rows_filter _ _ _ (λ y, y.1.1 = c)) by done. f_equal.
  by apply (joined_rows_filter _ _ _ (λ p, p.1 = c)).
Qed.

(** A record as the adapter reads it. *)
Definition record_of (y : ((UUID * UUID) * (UUID * QRRow)) * (UUID * TeaRow)) : ListCollectionRecordsRow :=
  let '(q, t) := (y.1.2, y.2) in
  mkLcrRow q.1 t.1 (tea_name t.2) (tea_type t.2) (tea_description t.2) (qrr_boiling_temp q.2) (qrr_expiration_date q.2).

Definition record_row (x : ListCollectionRecordsRow) : row :=
  [VUuid (lcr_QRID x); VUuid (lcr_TeaID x); VText (lcr_Name x); VText (lcr_Type x); null_text (lcr_Description x);
   VInt (lcr_BoilingTemp x); VTime (lcr_ExpirationDate x)].

Lemma listCollectionRecords_means c :
  means Texts.listCollectionRecords [VUuid c] (many record_row) (listCollectionRecords c).
Proof.
  eapply (means_image record_of (λ d, merge_sort (le_on (λ y, qrr_expiration_date y.1.2.2))
    (filter (λ y, y.1.1.1 = c) (shelved d)))).
  - eapply (means_sorted _ shelved (λ y, record_row (record_of y)) (λ y, y.1.1.1 = c)); revgoals; [accept|..]; revgoals.
    { eapply (source_join _ _ tea_row teas (λ y, qrr_tea_id y.2.2) (joins := [_])); [|done|done|].
      - by eapply (source_join _ _ qr_row qr_records snd (joins := [])); [by eapply (source_table pair_row)|..|fields].
      - fields. }
    all: fields.
  - intros d. rewrite shelved_filter.
    rewrite <-(merge_sort_fmap record_of (le_on (λ y, qrr_expiration_date y.1.2.2)) (le_on lcr_ExpirationDate)) by done.
    f_equal. unfold joined_rows. generalize (filter (λ p : UUID * UUID, p.1 = c) (elements (collection_qr_items d))).
    unfold join_record. intros l. induction l as [|p l IH]; [done|]. csimpl.
    destruct (qr_records d !! p.2) as [q|]; [|exact IH]. csimpl.
    destruct (teas d !! qrr_tea_id q); csimpl; by rewrite IH.
Qed.
End queries.

#[export] Hint Resolve
  listUsers_means listTeas_means listTagCategories_means searchTagCategories_means
  listTagsByCategory_means listTagsByCategoryFilter_means listTags_means listTagsByName_means
  listTagsByNameCategory_means listCollections_means listNotifications_means getTea_means
  getTagCategory_means getTag_means getQR_means getCollection_means searchTeasByPrefix_means
  listDeviceTokens_means listConsumptionsSince_means listTagsByTea_means listCollectionRecords_means : means.

(** ** Properties *)

(** C28: the queries mean what the statements say. Every text of queries.go that
    reads, parsed and run with its arguments over the tables of a consistent
    database, is the statement of [Sql] of the same name: it is refused exactly
    when the statement is, with the same error, it answers the rows the statement
    answers, in the order of the statement, column by column as the text lists
    them, and it changes nothing. *)
Theorem queries_mean_their_statements `{Env} id user c tea prefix limit since :
  means Texts.listUsers [] (many user_row) listUsers ∧
  means Texts.listTeas [] (many tea_row) listTeas ∧
  means Texts.listTagCategories [] (many category_row) listTagCategories ∧
  means Texts.searchTagCategories [VText prefix] (many category_row) (searchTagCategories prefix) ∧
  means Texts.listTagsByCategory [VUuid c] (many tag_row) (listTagsByCategory c) ∧
  means Texts.listTagsByCategoryFilter [VUuid c] (many tag_row) (listTagsByCategoryFilter c) ∧
  means Texts.listTags [] (many tag_row) listTags ∧
  means Texts.listTagsByName [VText prefix] (many tag_row) (listTagsByName prefix) ∧
  means Texts.listTagsByNameCategory [VText prefix; VUuid c] (many tag_row) (listTagsByNameCategory prefix c) ∧
  means Texts.listCollections [VUuid user] (many collection_row) (listCollections user) ∧
  means Texts.listNotifications [VUuid user] (many notification_row) (listNotifications user) ∧
  means Texts.getTea [VUuid id] (one tea_row) (getTea id) ∧
  means Texts.getTagCategory [VUuid id] (one category_row) (getTagCategory id) ∧
  means Texts.getTag [VUuid id] (one tag_row) (getTag id) ∧
  means Texts.getQR [VUuid id] (one qr_row) (getQR id) ∧
  means Texts.getCollection [VUuid id; VUuid user] (one collection_row) (getCollection id user) ∧
  means Texts.searchTeasByPrefix [VText prefix; VInt limit] (many tea_row) (searchTeasByPrefix prefix limit) ∧
  means Texts.listDeviceTokens [VUuid user] (many (λ token, [VText token])) (listDeviceTokens user) ∧
  means Texts.listConsumptionsSince [VUuid user; VTime since] (many (λ c : Time * UUID, [VTime c.1; VUuid c.2])) (listConsumptionsSince user since) ∧
  means Texts.listTagsByTea [VUuid tea] (many tag_row) (listTagsByTea tea) ∧
  means Texts.listCollectionRecords [VUuid c] (many record_row) (listCollectionRecords c).
Proof.
  split_and!; auto 1 with means.
Qed.
