(* ===== verification/ChangeMeaning.v ===== *)
(** What the changes of src/pkg/pgstore/queries.go mean: each text that inserts,
    updates or deletes, parsed and run by [Engine], is the statement of [Sql]. *)

From Stdlib Require Import Ascii.
From stdpp Require Import base gmap sets list strings sorting.
From Stdlib Require Import ZArith Lia.
From S2P Require Import Prelude GoTime Common Env Schema Sql SqlSyntax SqlTexts Engine EngineLemmas.

(** Compares the entries of two rows in an index. *)
Ltac entries :=
  intros; unfold clash, entry, field_of; cbn; apply eq_bool_prop_intro;
  rewrite ?andb_True, ?bool_decide_spec; split;
  [by intros; destruct_and?; congruence|];
  intros; split_and?; [repeat (apply not_elem_of_cons; split; [done|]); apply not_elem_of_nil|..]; congruence.

Section checks.
Context `{Env}.

Lemma taken_fresh {A K} `{EqDecision K} (key : A → K) k i (m : gmap UUID A) :
  m !! i = None -> taken key k (Some i) m = taken key k None m.
Proof.
  intros Hi. unfold taken. apply bool_decide_ext. rewrite !map_Exists_lookup. split; intros (j & x & Hj & _ & Hk).
  - by exists j, x.
  - exists j, x. split_and!; [done|congruence|done].
Qed.

Lemma store_row_eq r changed x d :
  store_row r changed x d =
  match check_row r x with
  | Some e => inl e
  | None => match unique_violation r changed x d with
            | Some e => inl e
            | None => match foreign_key_violation r changed x d with
                      | Some e => inl e
                      | None => inr (put_row (rel_name r) x d)
                      end
            end
  end.
Proof.
  unfold store_row, first_error. cbn. by destruct (check_row r x), (unique_violation r changed x d), (foreign_key_violation r changed x d).
Qed.

(** A reference to a row by its id. *)
Lemma refers_key {A} (enc : UUID * A → row) (m : gmap UUID A) {d k r u} :
  relation_named (fk_table k) = Some r -> rows_of (fk_table k) d = enc <$> map_to_list m ->
  (∀ p, field_of r (enc p) (fk_target k) = VUuid p.1) ->
  refers d k (VUuid u) = match m !! u with Some _ => true | None => false end.
Proof.
  intros Hr Hrows Hf. unfold refers. rewrite Hr, Hrows. cbn.
  rewrite (existsb_key _ enc m u); [done|]. intros p. rewrite Hf. apply bool_decide_ext. naive_solver.
Qed.

(** Another row has the key. *)
Lemma existsb_taken {A K} `{EqDecision K} (g : row → bool) (enc : UUID * A → row) (key : A → K) k (m : gmap UUID A) :
  (∀ p, g (enc p) = bool_decide (key p.2 = k)) -> existsb g (enc <$> map_to_list m) = taken key k None m.
Proof.
  intros Hg. unfold taken. apply eq_bool_prop_intro.
  rewrite bool_decide_spec, map_Exists_to_list, existb_True, Exists_fmap, !Exists_exists.
  split; intros ([i x] & Hp & HP); exists (i, x); (split; [done|]); simpl in *; rewrite Hg, bool_decide_spec in *; naive_solver.
Qed.

(** A row other than the one that is changed has the key. *)
Lemma existsb_taken_others {A K} `{EqDecision K} (g old : row → bool) (enc : UUID * A → row) (key : A → K) k
    (m : gmap UUID A) id :
  (∀ p, old (enc p) = bool_decide (p.1 = id)) -> (∀ p, g (enc p) = bool_decide (key p.2 = k)) ->
  existsb g (filter (λ y, old y = false) (enc <$> map_to_list m)) = taken key k (Some id) m.
Proof.
  intros Hold Hg. rewrite (filter_fmap enc _ (λ p, p.1 ≠ id)) by (intros p; by rewrite Hold, bool_decide_eq_false).
  unfold taken. apply eq_bool_prop_intro.
  rewrite bool_decide_spec, map_Exists_to_list, existb_True, Exists_fmap, !Exists_exists. split.
  - intros ([i x] & [Hi Hp]%list_elem_of_filter & Hx). exists (i, x). split; [done|]. simpl in *.
    rewrite Hg, bool_decide_spec in Hx. split; [congruence|done].
  - intros ([i x] & Hp & Hi & Hx). exists (i, x). simpl in *. rewrite list_elem_of_filter, Hg, bool_decide_spec.
    split; [|done]. split; [|done]. simpl. congruence.
Qed.

(** No other row has the id of the row that is changed. *)
Lemma existsb_others_key {A} (g old : row → bool) (enc : UUID * A → row) (m : gmap UUID A) id :
  (∀ p, old (enc p) = bool_decide (p.1 = id)) -> (∀ p, g (enc p) = bool_decide (p.1 = id)) ->
  existsb g (filter (λ y, old y = false) (enc <$> map_to_list m)) = false.
Proof.
  intros Hold Hg. apply not_true_is_false. intros (y & Hin & Hx)%existsb_exists.
  apply list_elem_of_In, list_elem_of_filter in Hin as [Hy (p & -> & Hp)%list_elem_of_fmap].
  rewrite Hold, bool_decide_eq_false in Hy. by rewrite Hg, bool_decide_eq_true in Hx.
Qed.

Lemma existsb_elem {A} `{EqDecision A} (g : row → bool) (enc : A → row) (l : list A) x :
  (∀ y, g (enc y) = bool_decide (y = x)) -> existsb g (enc <$> l) = bool_decide (x ∈ l).
Proof.
  intros Hg. apply eq_bool_prop_intro. rewrite bool_decide_spec, existb_True, Exists_fmap, Exists_exists. split.
  - intros (y & Hy & Hx). simpl in Hx. rewrite Hg, bool_decide_spec in Hx. by subst.
  - intros Hx. exists x. simpl. by rewrite Hg, bool_decide_spec.
Qed.

(** Unfolds the checks of a row of a table whose relation is known. *)
Ltac row_checks :=
  intros [= <-]; rewrite ?store_row_eq;
  try match goal with |- context [check_row ?r ?x] =>
    replace (check_row r x) with (@None SqlError) by (vm_compute; reflexivity) end;
  cbv iota; unfold unique_violation, foreign_key_violation;
  cbn [rel_name rows_of rel_uniques rel_foreign_keys find fst snd primary_keys fk_column];
  repeat match goal with |- context [field_of ?r ?x ?c] =>
    let v := eval cbn in (field_of r x c) in change (field_of r x c) with v end;
  cbn [andb].

(** An update of the row with an id: no row, or the one it finds. *)
Lemma run_update {A} (enc : UUID * A → row) (m : gmap UUID A) id {args t sets where_ returning r now d} :
  relation_named t = Some r -> rows_of t d = enc <$> map_to_list m ->
  (∀ p, all_hold args where_ (row_scope r (enc p)) = bool_decide (p.1 = id)) ->
  run_statement args (Update_ t sets where_ returning) now d =
  match m !! id with
  | None => inr (returned args r returning [], d)
  | Some o =>
      let x := set_fields args (row_scope r (enc (id, o))) r sets (enc (id, o)) in
      match store_row r (Some (enc (id, o))) x d with
      | inl e => inl e
      | inr d' => inr (returned args r returning [x], d')
      end
  end.
Proof.
  intros Hr Hrows Hw. cbn [run_statement]. rewrite Hr, Hrows, (filterb_key _ enc m id) by apply Hw.
  destruct (m !! id) as [o|]; [|done]. cbn. by destruct (store_row _ _ _ _).
Qed.

(** *** Tags *)
Lemma clash_tag_name r i n c k :
  relation_named "tags" = Some r ->
  ∀ p, clash r [EColumn "" "category_id"; ELower (EColumn "" "name")] [VUuid i; VText n; VText c; VUuid k] (tag_row p)
    = bool_decide (tag_key p.2 = tag_key (mkTagRow n c k)).
Proof. intros [= <-]. unfold tag_key. entries. Qed.

Lemma refers_category d k u : fk_table k = "tag_categories" -> fk_target k = "id" ->
  refers d k (VUuid u) = match tag_categories d !! u with Some _ => true | None => false end.
Proof. intros Ht Hc. by eapply (refers_key category_row); rewrite ?Ht, ?Hc. Qed.

Lemma store_new_tag id n c k d r :
  relation_named "tags" = Some r ->
  store_row r None [VUuid id; VText n; VText c; VUuid k] d =
  match tags d !! id with
  | Some _ => inl (UniqueViolation "tags_pkey")
  | None => match check_tag id (mkTagRow n c k) d with
            | Some e => inl e
            | None => inr (set_tags (<[id := mkTagRow n c k]> (tags d)) d)
            end
  end.
Proof.
  row_checks. erewrite (existsb_key _ tag_row (tags d) id) by entries.
  rewrite (existsb_taken _ tag_row tag_key (tag_key (mkTagRow n c k))) by by apply clash_tag_name.
  unfold check_tag. destruct (tags d !! id) eqn:Hid; [done|]. rewrite taken_fresh by done.
  destruct (taken _ _ _ _); [done|]. rewrite refers_category by done. simpl.
  by destruct (tag_categories d !! k).
Qed.

Lemma store_changed_tag id o n c k d r :
  db_wf d -> tags d !! id = Some o -> relation_named "tags" = Some r ->
  store_row r (Some (tag_row (id, o))) [VUuid id; VText n; VText c; VUuid k] d =
  match check_tag id (mkTagRow n c k) d with
  | Some e => inl e
  | None => inr (set_tags (<[id := mkTagRow n c k]> (tags d)) d)
  end.
Proof.
  intros Hd Ho. row_checks.
  rewrite (existsb_others_key _ _ tag_row (tags d) id) by entries.
  rewrite (existsb_taken_others _ _ tag_row tag_key (tag_key (mkTagRow n c k)) (tags d) id) by (entries || by apply clash_tag_name).
  unfold check_tag. destruct (taken _ _ _ _); [done|]. rewrite refers_category by done. simpl.
  case_bool_decide as He; simpl; [|by destruct (tag_categories d !! k)]. simplify_eq.
  destruct (wf_tag_category d Hd id o Ho) as [name ->]. done.
Qed.

Lemma insertTag_means id name color c :
  means Texts.insertTag [VUuid id; VText name; VText color; VUuid c] (one tag_row) (insertTag id name color c).
Proof.
  intros now d Hd. erewrite sql_accepted by accept. cbn. erewrite store_new_tag by reflexivity.
  unfold insertTag, store_tag. destruct (tags d !! id); [done|]. by destruct (check_tag _ _ _).
Qed.

Ltac conditions := intros; unfold all_hold; cbn; rewrite ?andb_true_r; done.

Lemma updateTag_means id name color :
  means Texts.updateTag [VUuid id; VText name; VText color] (one tag_row) (updateTag id name color).
Proof.
  intros now d Hd. erewrite sql_accepted by accept.
  erewrite (run_update tag_row (tags d) id) by (reflexivity || conditions).
  unfold updateTag, store_tag. destruct (tags d !! id) as [o|] eqn:Ho; [|done]. cbn.
  erewrite (store_changed_tag id o) by done. by destruct (check_tag _ _ _).
Qed.

Lemma changeTagCategory_means id c :
  means Texts.changeTagCategory [VUuid id; VUuid c] (one tag_row) (changeTagCategory id c).
Proof.
  intros now d Hd. erewrite sql_accepted by accept.
  erewrite (run_update tag_row (tags d) id) by (reflexivity || conditions).
  unfold changeTagCategory, store_tag. destruct (tags d !! id) as [o|] eqn:Ho; [|done]. cbn.
  erewrite (store_changed_tag id o) by done. by destruct (check_tag _ _ _).
Qed.

(** *** Teas *)
Lemma check_tea id n ty de c r :
  relation_named "teas" = Some r ->
  check_row r [VUuid id; VText n; VText ty; null_text de; VTime c] =
  if bool_decide (ty ∉ tea_types) then Some (CheckViolation "teas_type_check") else None.
Proof. intros [= <-]. cbn. do 4 (case_bool_decide; [discriminate|]). unfold tea_types. by case_bool_decide. Qed.

Lemma text_of_null_text o : text_of_value (null_text o) = o.
Proof. by destruct o. Qed.

Lemma bind_null_text o : bind_argument (null_text o) = null_text o.
Proof. by destruct o. Qed.

Lemma store_new_tea id n ty de c d r :
  relation_named "teas" = Some r ->
  store_row r None [VUuid id; VText n; VText ty; null_text de; VTime c] d =
  if bool_decide (ty ∉ tea_types) then inl (CheckViolation "teas_type_check")
  else match teas d !! id with
       | Some _ => inl (UniqueViolation "teas_pkey")
       | None => inr (set_teas (<[id := mkTeaRow n ty de c]> (teas d)) d)
       end.
Proof.
  intros Hr. rewrite store_row_eq, (check_tea _ _ _ _ _ _ Hr). case_bool_decide; [done|]. revert Hr. row_checks.
  erewrite (existsb_key _ tea_row (teas d) id) by entries. destruct (teas d !! id); [done|].
  cbn. by rewrite text_of_null_text.
Qed.

Lemma store_changed_tea id o n ty de c d r :
  relation_named "teas" = Some r ->
  store_row r (Some (tea_row (id, o))) [VUuid id; VText n; VText ty; null_text de; VTime c] d =
  if bool_decide (ty ∉ tea_types) then inl (CheckViolation "teas_type_check")
  else inr (set_teas (<[id := mkTeaRow n ty de c]> (teas d)) d).
Proof.
  intros Hr. rewrite store_row_eq, (check_tea _ _ _ _ _ _ Hr). case_bool_decide; [done|]. revert Hr. row_checks.
  rewrite (existsb_others_key _ _ tea_row (teas d) id) by entries. cbn. by rewrite text_of_null_text.
Qed.

Lemma insertTea_means id name type_ description :
  means Texts.insertTea [VUuid id; VText name; VText type_; null_text description] (one tea_row)
    (insertTea id name type_ description).
Proof.
  intros now d Hd. erewrite sql_accepted by (destruct description; accept). cbn.
  rewrite bind_null_text. erewrite store_new_tea by reflexivity.
  unfold insertTea. case_bool_decide; [done|]. by destruct (teas d !! id).
Qed.

Lemma updateTea_means id name type_ description :
  means Texts.updateTea [VUuid id; VText name; VText type_; null_text description] (one tea_row)
    (updateTea id name type_ description).
Proof.
  intros now d Hd. erewrite sql_accepted by (destruct description; accept).
  erewrite (run_update tea_row (teas d) id) by (reflexivity || conditions).
  unfold updateTea. destruct (teas d !! id) as [o|]; [|done]. cbn. rewrite bind_null_text.
  erewrite store_changed_tea by reflexivity. by case_bool_decide.
Qed.

(** *** Categories *)
Lemma store_new_category id n d r :
  relation_named "tag_categories" = Some r ->
  store_row r None [VUuid id; VText n] d =
  match tag_categories d !! id with
  | Some _ => inl (UniqueViolation "tag_categories_pkey")
  | None => if taken Datatypes.id n None (tag_categories d) then inl (UniqueViolation "tag_categories_name_key")
            else inr (set_tag_categories (<[id := n]> (tag_categories d)) d)
  end.
Proof.
  row_checks. erewrite (existsb_key _ category_row (tag_categories d) id) by entries.
  destruct (tag_categories d !! id); [done|].
  rewrite (existsb_taken _ category_row Datatypes.id n) by entries. by destruct (taken _ _ _ _).
Qed.

Lemma store_changed_category id o n d r :
  relation_named "tag_categories" = Some r ->
  store_row r (Some (category_row (id, o))) [VUuid id; VText n] d =
  if taken Datatypes.id n (Some id) (tag_categories d) then inl (UniqueViolation "tag_categories_name_key")
  else inr (set_tag_categories (<[id := n]> (tag_categories d)) d).
Proof.
  row_checks. rewrite (existsb_others_key _ _ category_row (tag_categories d) id) by entries.
  rewrite (existsb_taken_others _ _ category_row Datatypes.id n (tag_categories d) id) by entries.
  by destruct (taken _ _ _ _).
Qed.

Lemma insertTagCategory_means id name :
  means Texts.insertTagCategory [VUuid id; VText name] (one category_row) (insertTagCategory id name).
Proof.
  intros now d Hd. erewrite sql_accepted by accept. cbn. erewrite store_new_category by reflexivity.
  unfold insertTagCategory. destruct (tag_categories d !! id); [done|]. by destruct (taken _ _ _ _).
Qed.

Lemma updateTagCategory_means id name :
  means Texts.updateTagCategory [VUuid id; VText name] (one category_row) (updateTagCategory id name).
Proof.
  intros now d Hd. erewrite sql_accepted by accept.
  erewrite (run_update category_row (tag_categories d) id) by (reflexivity || conditions).
  unfold updateTagCategory. destruct (tag_categories d !! id) as [o|]; [|done]. cbn.
  erewrite store_changed_category by reflexivity. by destruct (taken _ _ _ _).
Qed.

(** *** Devices *)
Lemma refers_user d k u : fk_table k = "users" -> fk_target k = "id" ->
  refers d k (VUuid u) = match users d !! u with Some _ => true | None => false end.
Proof. intros Ht Hc. by eapply (refers_key user_row); rewrite ?Ht, ?Hc. Qed.

Lemma store_new_device id u t c d r :
  relation_named "devices" = Some r -> devices d !! id = None ->
  store_row r None [VUuid id; VUuid u; VText t; VTime c] d =
  if taken dev_token t None (devices d) then inl (UniqueViolation "devices_token_key")
  else match users d !! u with
       | None => inl (ForeignKeyViolation "devices_user_id_fkey")
       | Some _ => inr (set_devices (<[id := mkDeviceRow u t c]> (devices d)) d)
       end.
Proof.
  intros Hr Hid. revert Hr. row_checks. erewrite (existsb_key _ device_row (devices d) id) by entries. rewrite Hid.
  rewrite (existsb_taken _ device_row dev_token t) by entries. destruct (taken _ _ _ _); [done|].
  rewrite refers_user by done. simpl. by destruct (users d !! u).
Qed.

Lemma store_changed_device id o t d r :
  relation_named "devices" = Some r ->
  store_row r (Some (device_row (id, o))) [VUuid id; VUuid (dev_user_id o); VText t; VTime (dev_created_at o)] d =
  if taken dev_token t (Some id) (devices d) then inl (UniqueViolation "devices_token_key")
  else inr (set_devices (<[id := mkDeviceRow (dev_user_id o) t (dev_created_at o)]> (devices d)) d).
Proof.
  row_checks. rewrite (existsb_others_key _ _ device_row (devices d) id) by entries.
  rewrite (existsb_taken_others _ _ device_row dev_token t (devices d) id) by entries.
  destruct (taken _ _ _ _); [done|]. by rewrite bool_decide_eq_true_2.
Qed.

Lemma updateDeviceToken_means id token :
  means Texts.updateDeviceToken [VUuid id; VText token] affected (updateDeviceToken id token).
Proof.
  intros now d Hd. erewrite sql_accepted by accept.
  erewrite (run_update device_row (devices d) id) by (reflexivity || conditions).
  unfold updateDeviceToken. destruct (devices d !! id) as [o|]; [|done]. cbn.
  erewrite store_changed_device by reflexivity. by destruct (taken _ _ _ _).
Qed.

(** *** Rows under [ON CONFLICT] *)
Lemma insert_or_nothing args r target x d :
  check_row r x = None ->
  insert_row args r (Some (target, DoNothing)) x d =
  match find (clash r (arbiter target) x) (rows_of (rel_name r) d) with
  | Some _ => inr (None, d)
  | None => match store_row r None x d with inl e => inl e | inr d' => inr (Some x, d') end
  end.
Proof. intros Hc. unfold insert_row. rewrite Hc. by destruct (find _ _). Qed.

Lemma insert_or_update args r target sets x d :
  check_row r x = None ->
  insert_row args r (Some (target, DoUpdate sets)) x d =
  match find (clash r (arbiter target) x) (rows_of (rel_name r) d) with
  | Some old =>
      let x' := set_fields args (row_scope r old ++ scope_of "excluded" (column_names r) x) r sets old in
      match store_row r (Some old) x' d with inl e => inl e | inr d' => inr (Some x', d') end
  | None => match store_row r None x d with inl e => inl e | inr d' => inr (Some x, d') end
  end.
Proof. intros Hc. unfold insert_row. rewrite Hc. by destruct (find _ _). Qed.

Lemma find_elem {A} `{EqDecision A} (g : row → bool) (enc : A → row) (l : list A) x :
  (∀ y, g (enc y) = bool_decide (y = x)) -> find g (enc <$> l) = if bool_decide (x ∈ l) then Some (enc x) else None.
Proof.
  intros Hg. induction l as [|y l IH]; [done|]. rewrite fmap_cons. simpl. rewrite Hg. destruct (decide (y = x)) as [->|Hy].
  - rewrite !bool_decide_eq_true_2; [done|apply list_elem_of_here|done].
  - rewrite IH, (bool_decide_eq_false_2 (y = x)) by done. erewrite bool_decide_ext; [done|]. rewrite elem_of_cons. naive_solver.
Qed.

Lemma insertDevice_means id user token :
  means Texts.insertDevice [VUuid id; VUuid user; VText token] no_rows (insertDevice id user token).
Proof.
  intros now d Hd. erewrite sql_accepted by accept. cbn -[insert_row].
  rewrite insert_or_nothing by reflexivity. cbn [rel_name rows_of].
  erewrite (find_key _ device_row (devices d) id) by entries.
  unfold insertDevice. destruct (devices d !! id) as [o|] eqn:Hid; [done|]. cbn -[store_row].
  erewrite store_new_device by done. destruct (taken _ _ _ _); [done|]. by destruct (users d !! user).
Qed.

(** *** Links, items and consumptions *)
Lemma refers_tea d k u : fk_table k = "teas" -> fk_target k = "id" ->
  refers d k (VUuid u) = match teas d !! u with Some _ => true | None => false end.
Proof. intros Ht Hc. by eapply (refers_key tea_row); rewrite ?Ht, ?Hc. Qed.

Lemma refers_tag d k u : fk_table k = "tags" -> fk_target k = "id" ->
  refers d k (VUuid u) = match tags d !! u with Some _ => true | None => false end.
Proof. intros Ht Hc. by eapply (refers_key tag_row); rewrite ?Ht, ?Hc. Qed.

Lemma refers_qr d k u : fk_table k = "qr_records" -> fk_target k = "id" ->
  refers d k (VUuid u) = match qr_records d !! u with Some _ => true | None => false end.
Proof. intros Ht Hc. by eapply (refers_key qr_row); rewrite ?Ht, ?Hc. Qed.

Lemma refers_collection d k u : fk_table k = "collections" -> fk_target k = "id" ->
  refers d k (VUuid u) = match collections d !! u with Some _ => true | None => false end.
Proof. intros Ht Hc. by eapply (refers_key collection_row); rewrite ?Ht, ?Hc. Qed.

Ltac pair_entries := intros []; entries.

Lemma store_new_link tea tag d r :
  relation_named "tea_tags" = Some r -> (tea, tag) ∉ tea_tags d ->
  store_row r None [VUuid tea; VUuid tag] d =
  match teas d !! tea, tags d !! tag with
  | None, _ => inl (ForeignKeyViolation "tea_tags_tea_id_fkey")
  | _, None => inl (ForeignKeyViolation "tea_tags_tag_id_fkey")
  | Some _, Some _ => inr (set_tea_tags ({[(tea, tag)]} ∪ tea_tags d) d)
  end.
Proof.
  intros Hr Hin. revert Hr. row_checks.
  rewrite (existsb_elem _ pair_row (elements (tea_tags d)) (tea, tag)) by pair_entries.
  rewrite bool_decide_eq_false_2 by (by rewrite elem_of_elements).
  rewrite refers_tea, refers_tag by done. by destruct (teas d !! tea), (tags d !! tag).
Qed.

Lemma addTagToTea_means tea tag :
  means Texts.addTagToTea [VUuid tea; VUuid tag] no_rows (addTagToTea tea tag).
Proof.
  intros now d Hd. erewrite sql_accepted by accept. cbn -[insert_row].
  rewrite insert_or_nothing by reflexivity. cbn [rel_name rows_of].
  rewrite (find_elem _ pair_row (elements (tea_tags d)) (tea, tag)) by pair_entries.
  unfold addTagToTea. rewrite (bool_decide_ext _ ((tea, tag) ∈ tea_tags d)) by apply elem_of_elements.
  case_bool_decide as Hin; [done|]. cbn -[store_row]. erewrite store_new_link by done.
  by destruct (teas d !! tea), (tags d !! tag).
Qed.

Lemma store_new_item c q d r :
  relation_named "collection_qr_items" = Some r -> (c, q) ∉ collection_qr_items d ->
  store_row r None [VUuid c; VUuid q] d =
  match collections d !! c, qr_records d !! q with
  | None, _ => inl (ForeignKeyViolation "collection_qr_items_collection_id_fkey")
  | _, None => inl (ForeignKeyViolation "collection_qr_items_qr_id_fkey")
  | Some _, Some _ => inr (set_items ({[(c, q)]} ∪ collection_qr_items d) d)
  end.
Proof.
  intros Hr Hin. revert Hr. row_checks.
  rewrite (existsb_elem _ pair_row (elements (collection_qr_items d)) (c, q)) by pair_entries.
  rewrite bool_decide_eq_false_2 by (by rewrite elem_of_elements).
  rewrite refers_collection, refers_qr by done. by destruct (collections d !! c), (qr_records d !! q).
Qed.

(** One item of a collection, alone or in a batch. *)
Lemma insert_item args c q d r :
  relation_named "collection_qr_items" = Some r ->
  insert_row args r (Some (["collection_id"; "qr_id"], DoNothing)) [VUuid c; VUuid q] d =
  if bool_decide ((c, q) ∈ collection_qr_items d) then inr (None, d)
  else match collections d !! c, qr_records d !! q with
       | None, _ => inl (ForeignKeyViolation "collection_qr_items_collection_id_fkey")
       | _, None => inl (ForeignKeyViolation "collection_qr_items_qr_id_fkey")
       | Some _, Some _ => inr (Some [VUuid c; VUuid q], set_items ({[(c, q)]} ∪ collection_qr_items d) d)
       end.
Proof.
  intros Hr. pose proof Hr as Hr'. revert Hr. intros [= <-]. rewrite insert_or_nothing by reflexivity. cbn [rel_name rows_of].
  rewrite (find_elem _ pair_row (elements (collection_qr_items d)) (c, q)) by pair_entries.
  rewrite (bool_decide_ext _ ((c, q) ∈ collection_qr_items d)) by apply elem_of_elements.
  case_bool_decide as Hin; [done|]. rewrite store_new_item by done.
  by destruct (collections d !! c), (qr_records d !! q).
Qed.

Lemma insertCollectionItem_means c q :
  means Texts.insertCollectionItem [VUuid c; VUuid q] no_rows (insertCollectionItem c q).
Proof.
  intros now d Hd. erewrite sql_accepted by accept. cbn -[insert_row]. rewrite insert_item by reflexivity.
  unfold insertCollectionItem. case_bool_decide; [done|]. by destruct (collections d !! c), (qr_records d !! q).
Qed.

Lemma store_new_consumption user ts tea d r :
  relation_named "consumptions" = Some r -> (user, ts, tea) ∉ consumptions d ->
  store_row r None [VUuid user; VTime ts; VUuid tea] d =
  match users d !! user, teas d !! tea with
  | None, _ => inl (ForeignKeyViolation "consumptions_user_id_fkey")
  | _, None => inl (ForeignKeyViolation "consumptions_tea_id_fkey")
  | Some _, Some _ => inr (set_consumptions ({[(user, ts, tea)]} ∪ consumptions d) d)
  end.
Proof.
  intros Hr Hin. revert Hr. row_checks.
  rewrite (existsb_elem _ consumption_row (elements (consumptions d)) (user, ts, tea)) by (intros [[]]; entries).
  rewrite bool_decide_eq_false_2 by (by rewrite elem_of_elements).
  rewrite refers_user, refers_tea by done. by destruct (users d !! user), (teas d !! tea).
Qed.

Lemma insertConsumption_means user ts tea :
  means Texts.insertConsumption [VUuid user; VTime ts; VUuid tea] no_rows (insertConsumption user ts tea).
Proof.
  intros now d Hd. erewrite sql_accepted by accept. cbn -[insert_row].
  rewrite insert_or_nothing by reflexivity. cbn [rel_name rows_of].
  rewrite (find_elem _ consumption_row (elements (consumptions d)) (user, pg_ts ts, tea)) by (intros [[]]; entries).
  unfold insertConsumption. rewrite (bool_decide_ext _ ((user, pg_ts ts, tea) ∈ consumptions d)) by apply elem_of_elements.
  case_bool_decide as Hin; [done|]. cbn -[store_row]. erewrite store_new_consumption by done.
  by destruct (users d !! user), (teas d !! tea).
Qed.

(** *** Collections *)
Lemma store_new_collection id u n c d r :
  relation_named "collections" = Some r ->
  store_row r None [VUuid id; VUuid u; VText n; VTime c] d =
  match collections d !! id, users d !! u with
  | Some _, _ => inl (UniqueViolation "collections_pkey")
  | None, None => inl (ForeignKeyViolation "collections_user_id_fkey")
  | None, Some _ => inr (set_collections (<[id := mkCollectionRow u n c]> (collections d)) d)
  end.
Proof.
  row_checks. erewrite (existsb_key _ collection_row (collections d) id) by entries.
  destruct (collections d !! id); [done|]. rewrite refers_user by done. by destruct (users d !! u).
Qed.

Lemma insertCollection_means id user name :
  means Texts.insertCollection [VUuid id; VUuid user; VText name] (one collection_row) (insertCollection id user name).
Proof.
  intros now d Hd. erewrite sql_accepted by accept. cbn. erewrite store_new_collection by reflexivity.
  unfold insertCollection. destruct (collections d !! id); [done|]. by destruct (users d !! user).
Qed.

(** *** QR records *)
Lemma check_qr id t b e c r :
  relation_named "qr_records" = Some r ->
  check_row r [VUuid id; VUuid t; VInt b; VTime e; VTime c] =
  if is_int4 b then None else Some (DriverError "integer out of range").
Proof. intros [= <-]. unfold check_row. cbn -[is_int4]. by destruct (is_int4 b). Qed.

Lemma store_new_qr id t b e c d r :
  relation_named "qr_records" = Some r -> is_int4 b = true -> qr_records d !! id = None ->
  store_row r None [VUuid id; VUuid t; VInt b; VTime e; VTime c] d =
  match teas d !! t with
  | None => inl (ForeignKeyViolation "qr_records_tea_id_fkey")
  | Some _ => inr (set_qr_records (<[id := mkQRRow t b e c]> (qr_records d)) d)
  end.
Proof.
  intros Hr Hb Hid. rewrite store_row_eq, (check_qr _ _ _ _ _ _ Hr), Hb. revert Hr. row_checks.
  erewrite (existsb_key _ qr_row (qr_records d) id) by entries. rewrite Hid, refers_tea by done.
  by destruct (teas d !! t).
Qed.

Lemma store_changed_qr id o t b e d r :
  relation_named "qr_records" = Some r -> db_wf d -> is_int4 b = true -> qr_records d !! id = Some o ->
  store_row r (Some (qr_row (id, o))) [VUuid id; VUuid t; VInt b; VTime e; VTime (qrr_created_at o)] d =
  match teas d !! t with
  | None => inl (ForeignKeyViolation "qr_records_tea_id_fkey")
  | Some _ => inr (set_qr_records (<[id := mkQRRow t b e (qrr_created_at o)]> (qr_records d)) d)
  end.
Proof.
  intros Hr Hd Hb Ho. rewrite store_row_eq, (check_qr _ _ _ _ _ _ Hr), Hb. revert Hr. row_checks.
  rewrite (existsb_others_key _ _ qr_row (qr_records d) id) by entries. rewrite refers_tea by done. simpl.
  case_bool_decide as He; simpl; [|by destruct (teas d !! t)]. simplify_eq.
  by destruct (wf_qr_tea d Hd id o Ho) as [x ->].
Qed.

Lemma upsertQR_means id tea temp expiration :
  means Texts.upsertQR [VUuid id; VUuid tea; VInt temp; VTime expiration] no_rows (upsertQR id tea temp expiration).
Proof.
  intros now d Hd. erewrite sql_accepted by accept. cbn -[insert_row]. unfold upsertQR.
  destruct (is_int4 temp) eqn:Hi; cbn [negb].
  - rewrite insert_or_update by (erewrite check_qr by reflexivity; by rewrite Hi). cbn [rel_name rows_of].
    erewrite (find_key _ qr_row (qr_records d) id) by entries.
    destruct (qr_records d !! id) as [o|] eqn:Ho; cbn -[store_row].
    + erewrite store_changed_qr by done. by destruct (teas d !! tea).
    + erewrite store_new_qr by done. by destruct (teas d !! tea).
  - unfold insert_row. erewrite check_qr by reflexivity. by rewrite Hi.
Qed.

(** *** Users *)
Lemma store_new_user id a c d r :
  relation_named "users" = Some r -> taken user_apple_id a None (users d) = false ->
  store_row r None [VUuid id; VText a; VTime c] d =
  match users d !! id with
  | Some _ => inl (UniqueViolation "users_pkey")
  | None => inr (set_users (<[id := mkUserRow a c]> (users d)) d)
  end.
Proof.
  intros Hr Ha. revert Hr. row_checks. erewrite (existsb_key _ user_row (users d) id) by entries.
  destruct (users d !! id); [done|]. rewrite (existsb_taken _ user_row user_apple_id a) by entries. by rewrite Ha.
Qed.

Lemma store_changed_user id o a d r :
  relation_named "users" = Some r -> db_wf d -> users d !! id = Some o -> user_apple_id o = a ->
  store_row r (Some (user_row (id, o))) [VUuid id; VText a; VTime (user_created_at o)] d
  = inr (set_users (<[id := mkUserRow a (user_created_at o)]> (users d)) d).
Proof.
  intros Hr Hd Ho Ha. revert Hr. row_checks. rewrite (existsb_others_key _ _ user_row (users d) id) by entries.
  rewrite (existsb_taken_others _ _ user_row user_apple_id a (users d) id) by entries.
  unfold taken. rewrite bool_decide_eq_false_2; [done|]. intros (j & x & Hj & Hne & Hx)%map_Exists_lookup.
  apply Hne. f_equal. apply (wf_apple_id d Hd j id x o); congruence.
Qed.

Lemma upsertUser_means id apple :
  means Texts.upsertUser [VUuid id; VText apple] (one user_row) (upsertUser id apple).
Proof.
  intros now d Hd. erewrite sql_accepted by accept. cbn -[insert_row].
  rewrite insert_or_update by reflexivity. cbn [rel_name rows_of].
  rewrite (find_fmap _ user_row (λ p, user_apple_id p.2 = apple)) by entries.
  unfold upsertUser. change (head (filter (λ p : UUID * UserRow, user_apple_id p.2 = apple) (map_to_list (users d))))
    with (find_row (λ x, user_apple_id x = apple) (users d)).
  destruct (find_row _ _) as [[i o]|] eqn:Hf; cbn -[store_row].
  - apply find_row_Some in Hf as [Hi Ha]. by erewrite store_changed_user.
  - erewrite store_new_user; [by destruct (users d !! id)|done|].
    unfold taken. apply bool_decide_eq_false. intros (j & x & Hj & _ & Hx)%map_Exists_lookup.
    by eapply find_row_None in Hf.
Qed.

(** *** Several items at once *)
Lemma each_item args c d l r :
  relation_named "collection_qr_items" = Some r -> (∀ q, q ∈ l -> is_Some (qr_records d !! q)) ->
  let fresh := filter (λ p, p ∉ collection_qr_items d) (pair c <$> l) in
  match each_row (insert_row args r (Some (["collection_id"; "qr_id"], DoNothing))) ((λ q, [VUuid c; VUuid q]) <$> l) d with
  | inl e => fresh ≠ [] ∧ collections d !! c = None ∧ e = ForeignKeyViolation "collection_qr_items_collection_id_fkey"
  | inr (_, d') => (fresh = [] ∨ is_Some (collections d !! c)) ∧ d' = set_items (list_to_set fresh ∪ collection_qr_items d) d
  end.
Proof.
  intros Hr. revert d. induction l as [|q l IH]; intros d Hq; cbv zeta.
  { split; [by left|]. destruct d. unfold set_items. simpl. f_equal. set_solver. }
  rewrite !fmap_cons, filter_cons. cbn [each_row]. rewrite insert_item by done.
  case_bool_decide as Hin.
  - rewrite decide_False by (intros Hn; by apply Hn). specialize (IH d). cbv zeta in IH.
    destruct (each_row _ _ _) as [e|[xs d']]; apply IH; intros; apply Hq; by right.
  - rewrite decide_True by done. destruct (Hq q) as [x Hx]; [by left|]. rewrite Hx.
    destruct (collections d !! c) as [o|] eqn:Hc; [|done].
    specialize (IH (set_items ({[(c, q)]} ∪ collection_qr_items d) d)). cbv zeta in IH.
    destruct (each_row _ _ _) as [e|[xs d']].
    + destruct IH as (_ & Hn & _); [intros; apply Hq; by right|]. simpl in Hn. congruence.
    + destruct IH as [_ ->]; [intros; apply Hq; by right|]. split; [right; eauto|].
      match goal with |- set_items ?x (set_items _ d) = _ => change (set_items x d = set_items (list_to_set ((c, q) ::
        filter (λ p, p ∉ collection_qr_items d) (pair c <$> l)) ∪ collection_qr_items d) d) end.
      f_equal. apply set_eq. intros p. cbn [collection_qr_items set_items list_to_set].
      rewrite !elem_of_union, !elem_of_list_to_set, !list_elem_of_filter, not_elem_of_union, !elem_of_singleton.
      destruct (decide (p = (c, q))), (decide (p ∈ collection_qr_items d)); tauto.
Qed.

(** The ids that are QR records, each with its record. *)
Lemma joined_known (m : gmap UUID QRRow) l :
  fst <$> joined_rows Datatypes.id m l = filter (λ x, is_Some (m !! x)) l.
Proof.
  unfold joined_rows. induction l as [|x l IH]; [done|]. csimpl. unfold Datatypes.id in *.
  destruct (m !! x) eqn:E; csimpl.
  - rewrite filter_cons_True by eauto. by rewrite <-IH.
  - rewrite filter_cons_False by (rewrite E; by intros [??]). exact IH.
Qed.

Lemma run_known c qrs d q r :
  relation_named "qr_records" = Some r -> q = mkSelect [EParam 1; EColumn "" "x"] (FromUnnest 2 "t" "x")
        [(FromTable "qr_records" "q", mkCondition OpEq (EColumn "q" "id") (EColumn "" "x"))] [] None None ->
  run_query [VUuid c; VUuids qrs] d q
  = inr ((λ x, [VUuid c; VUuid x]) <$> filter (λ x, is_Some (qr_records d !! x)) qrs).
Proof.
  intros Hr ->. unfold run_query. cbn [sel_limit sel_targets].
  rewrite (found_scopes (args := [VUuid c; VUuids qrs])
    (λ y : UUID * (UUID * QRRow), [("t", ("x", VUuid y.1))] ++ scope_at qr_row r "q" y.2)
    (λ d, joined_rows Datatypes.id (qr_records d) qrs) (λ _, True)).
  - rewrite <-joined_known, <-!list_fmap_compose. f_equal.
    by rewrite filter_true.
  - apply (source_join (λ x, [("t", ("x", VUuid x))]) (λ _, qrs) qr_row qr_records Datatypes.id (joins := [])); [done..|].
    revert Hr. by intros [= <-].
  - done.
Qed.

Lemma new_item now c (l : list UUID) r :
  relation_named "collection_qr_items" = Some r ->
  (λ vs, new_row now r (zip ["collection_id"; "qr_id"] vs)) <$> ((λ x, [VUuid c; VUuid x]) <$> l)
  = (λ x, [VUuid c; VUuid x]) <$> l.
Proof. intros [= <-]. by rewrite <-list_fmap_compose. Qed.

Lemma insertCollectionItems_means c qrs :
  means Texts.insertCollectionItems [VUuid c; VUuids qrs] no_rows (insertCollectionItems c qrs).
Proof.
  intros now d Hd. erewrite sql_accepted by accept. cbn [run_statement bind_argument fmap list_fmap].
  erewrite run_known by reflexivity. destruct (relation_named "collection_qr_items") as [r|] eqn:Hr; [|done].
  rewrite new_item by done. unfold insertCollectionItems.
  pose proof (each_item [VUuid c; VUuids qrs] c d (filter (λ x, is_Some (qr_records d !! x)) qrs) r Hr) as Heach.
  cbv zeta in Heach. destruct (each_row _ _ _) as [e|[xs d']].
  - destruct Heach as (Hfresh & -> & ->); [by intros q [??]%list_elem_of_filter|].
    by destruct (filter _ (pair c <$> _)).
  - destruct Heach as [Hfresh ->]; [by intros q [??]%list_elem_of_filter|].
    destruct (filter _ (pair c <$> _)), (collections d !! c); try done. by destruct Hfresh as [?|[??]].
Qed.

(** *** Deletions *)
(** The ids of the rows that [P] picks. *)
Definition picked {A} (enc : UUID * A → row) (P : row → bool) (m : gmap UUID A) : gset UUID :=
  dom (filter (λ kv, P (enc kv) = true) m).

Lemma elem_of_picked {A} (enc : UUID * A → row) P (m : gmap UUID A) i x :
  m !! i = Some x -> i ∈ picked enc P m <-> P (enc (i, x)) = true.
Proof.
  intros Hi. unfold picked. rewrite elem_of_dom. split.
  - intros [y [Hy HP]%map_lookup_filter_Some]. simpl in *. by simplify_eq.
  - intros HP. exists x. by apply map_lookup_filter_Some.
Qed.

Lemma doomed_ids {A} (enc : UUID * A → row) P (m : gmap UUID A) (f : row → Value) u :
  (∀ p, f (enc p) = VUuid p.1) ->
  VUuid u ∈ f <$> List.filter P (enc <$> map_to_list m) <-> u ∈ picked enc P m.
Proof.
  intros Hf. unfold picked. rewrite list_elem_of_fmap, elem_of_dom. split.
  - intros (y & Hy & [Hin HP]%list_elem_of_In%filter_In). apply list_elem_of_In, list_elem_of_fmap in Hin as ([i x] & -> & Hin).
    rewrite Hf in Hy. injection Hy as ->. exists x. rewrite elem_of_map_to_list in Hin. by apply map_lookup_filter_Some.
  - intros [x [Hx HP]%map_lookup_filter_Some]. exists (enc (u, x)). rewrite Hf. split; [done|].
    apply list_elem_of_In, filter_In. split; [|done]. apply list_elem_of_In, list_elem_of_fmap.
    exists (u, x). by rewrite elem_of_map_to_list.
Qed.

Lemma keep_rows {A} (enc : UUID * A → row) P (m : gmap UUID A) :
  filter (λ kv, P (enc kv) = false) m = remove_rows (picked enc P m) m.
Proof.
  apply map_filter_ext. intros i x Hi. simpl. rewrite (elem_of_picked enc P m i x Hi). by destruct (P _).
Qed.

(** Rows that point to none of the deleted ones stay. *)
Lemma keep_pointing {A X} `{Countable X} (g : X → UUID) (enc : UUID * A → row) P (m : gmap UUID A) (f : row → Value) (s : gset X) :
  (∀ p, f (enc p) = VUuid p.1) ->
  filter (λ x, bool_decide (VUuid (g x) ∈ f <$> List.filter P (enc <$> map_to_list m)) = false) s
  = filter (λ x, g x ∉ picked enc P m) s.
Proof.
  intros Hf. apply set_eq. intros x. rewrite !elem_of_filter, bool_decide_eq_false.
  by rewrite (doomed_ids enc P m f (g x) Hf).
Qed.

(** Two databases agree when their tables do. *)
Ltac same_tables := f_equal; unfold delete_qrs, delete_tags, delete_teas, delete_collections; cbn;
  unfold set_qr_records, set_items, set_tags, set_tea_tags, set_teas, set_consumptions, set_collections; cbn; f_equal;
  try apply keep_rows; try by apply keep_pointing.

Lemma delete_qr_rows n r P d :
  relation_named "qr_records" = Some r ->
  delete_where (S (S n)) r P d = inr (delete_qrs (picked qr_row P (qr_records d)) d).
Proof. intros [= <-]. cbn. same_tables. Qed.

Lemma delete_tag_rows n r P d :
  relation_named "tags" = Some r ->
  delete_where (S (S n)) r P d = inr (delete_tags (picked tag_row P (tags d)) d).
Proof. intros [= <-]. cbn. same_tables. Qed.

Lemma delete_collection_rows n r P d :
  relation_named "collections" = Some r ->
  delete_where (S (S n)) r P d = inr (delete_collections (picked collection_row P (collections d)) d).
Proof. intros [= <-]. cbn. same_tables. Qed.

(** The QR records of deleted teas. *)
Lemma qrs_followed P d (f g : row → Value) :
  (∀ p, f (qr_row p) = VUuid (qrr_tea_id p.2)) -> (∀ p, g (tea_row p) = VUuid p.1) ->
  picked qr_row (λ y, bool_decide (f y ∈ g <$> List.filter P (tea_row <$> map_to_list (teas d)))) (qr_records d)
  = qrs_of_teas (picked tea_row P (teas d)) d.
Proof.
  intros Hf Hg. unfold picked at 1, qrs_of_teas. f_equal. apply map_filter_ext. intros i x _. cbn.
  rewrite bool_decide_eq_true, Hf. by apply doomed_ids.
Qed.

Lemma delete_tea_rows n r P d :
  relation_named "teas" = Some r ->
  delete_where (S (S (S n))) r P d = inr (delete_teas (picked tea_row P (teas d)) d).
Proof.
  intros [= <-]. cbn. same_tables.
  - unfold remove_rows. apply map_filter_ext. intros i x Hi. cbn. rewrite bool_decide_eq_false.
    rewrite (qrs_of_teas_spec _ _ _ _ Hi). f_equiv. by apply doomed_ids.
  - etransitivity; [by apply (keep_pointing snd qr_row)|]. by rewrite qrs_followed.
Qed.

(** Deleting what is not there changes nothing. *)
Lemma remove_absent {A} (ids : gset UUID) (m : gmap UUID A) :
  (∀ i, i ∈ ids -> m !! i = None) -> remove_rows ids m = m.
Proof. intros Hids. apply map_filter_id. intros i x Hi Hin. apply Hids in Hin. simpl in Hin. congruence. Qed.

Lemma filter_all {X} `{Countable X} (P : X → Prop) `{∀ x, Decision (P x)} (s : gset X) :
  (∀ x, x ∈ s -> P x) -> filter P s = s.
Proof. intros HP. apply set_eq. intros x. rewrite elem_of_filter. naive_solver. Qed.

Lemma delete_tags_absent ids d : db_wf d -> (∀ i, i ∈ ids -> tags d !! i = None) -> delete_tags ids d = d.
Proof.
  intros Hd Hids. unfold delete_tags. rewrite remove_absent, filter_all; [by destruct d| |done].
  intros [t g] [_ [x Hx]]%(wf_tea_tags d Hd) Hin. apply Hids in Hin. simpl in Hin. congruence.
Qed.

Lemma delete_collections_absent ids d :
  db_wf d -> (∀ i, i ∈ ids -> collections d !! i = None) -> delete_collections ids d = d.
Proof.
  intros Hd Hids. unfold delete_collections. rewrite remove_absent, filter_all; [by destruct d| |done].
  intros [c q] [[x Hx] _]%(wf_items d Hd) Hin. apply Hids in Hin. simpl in Hin. congruence.
Qed.

Lemma delete_teas_absent ids d : db_wf d -> (∀ i, i ∈ ids -> teas d !! i = None) -> delete_teas ids d = d.
Proof.
  intros Hd Hids. assert (qrs_of_teas ids d = ∅) as Hq.
  { apply elem_of_equiv_empty_L. unfold qrs_of_teas. intros i [x [Hi Hin]%map_lookup_filter_Some]%elem_of_dom. apply Hids in Hin.
    simpl in Hin. destruct (wf_qr_tea d Hd i x Hi). congruence. }
  unfold delete_teas, delete_qrs. rewrite Hq. cbn [tea_tags consumptions teas set_items set_qr_records set_tea_tags set_consumptions].
  rewrite !remove_absent, !filter_all; [by destruct d|set_solver|..|done|set_solver].
  - intros [t g] [[x Hx] _]%(wf_tea_tags d Hd) Hin. apply Hids in Hin. simpl in Hin. congruence.
  - intros [[u t] e] [_ [x Hx]]%(wf_consumptions d Hd) Hin. apply Hids in Hin. simpl in Hin. congruence.
Qed.

Lemma picked_key {A} (enc : UUID * A → row) P (m : gmap UUID A) id :
  (∀ p, P (enc p) = bool_decide (p.1 = id)) ->
  picked enc P m = match m !! id with Some _ => {[id]} | None => ∅ end.
Proof.
  intros HP. unfold picked. apply set_eq. intros i. rewrite elem_of_dom. split.
  - intros [x [Hi Hx]%map_lookup_filter_Some]. rewrite HP, bool_decide_eq_true in Hx. simpl in Hx. subst i. rewrite Hi. set_solver.
  - destruct (m !! id) as [x|] eqn:E; [|set_solver]. intros ->%elem_of_singleton. exists x.
    apply map_lookup_filter_Some. by rewrite HP, bool_decide_eq_true.
Qed.

Lemma means_delete {text args t where_ r} (st : Stmt unit) :
  accepted text args (Delete_ t where_) -> relation_named t = Some r ->
  (∀ now d, db_wf d ->
     match delete_where cascade_fuel r (λ x, all_hold (bind_argument <$> args) where_ (row_scope r x)) d with
     | inl e => st now d = inl e
     | inr d' => st now d = inr (tt, d')
     end) -> means text args no_rows st.
Proof.
  intros Hacc Hr Hst now d Hd. rewrite (sql_accepted _ _ _ _ _ Hacc). cbn [run_statement]. rewrite Hr.
  specialize (Hst now d Hd). destruct (delete_where _ _ _ _); by rewrite Hst.
Qed.

(** The statement deletes from the table whose deletion [L] describes. *)
Ltac by_delete L := eapply means_delete; [accept|reflexivity|]; intros now d Hd;
  change cascade_fuel with (S (S (S 8))); erewrite L by reflexivity.

Lemma deleteTea_means id : means Texts.deleteTea [VUuid id] no_rows (deleteTea id).
Proof.
  by_delete delete_tea_rows. rewrite (picked_key tea_row _ (teas d) id) by conditions. unfold deleteTea.
  destruct (teas d !! id) eqn:Hid; [done|]. rewrite !delete_teas_absent; set_solver.
Qed.

Lemma deleteTag_means id : means Texts.deleteTag [VUuid id] no_rows (deleteTag id).
Proof.
  by_delete delete_tag_rows. rewrite (picked_key tag_row _ (tags d) id) by conditions. unfold deleteTag.
  destruct (tags d !! id) eqn:Hid; [done|]. rewrite !delete_tags_absent; set_solver.
Qed.

Lemma deleteTagsByCategory_means c : means Texts.deleteTagsByCategory [VUuid c] no_rows (deleteTagsByCategory c).
Proof.
  by_delete delete_tag_rows. unfold deleteTagsByCategory, picked. do 4 f_equal.
  apply map_filter_ext. intros i x _. unfold all_hold. cbn. by rewrite andb_true_r, bool_decide_eq_true.
Qed.

(** The picked rows of a key and one more condition. *)
Lemma picked_pair {A} (enc : UUID * A → row) P (Q : A → Prop) `{∀ x, Decision (Q x)} (m : gmap UUID A) id x :
  (∀ p, P (enc p) = bool_decide (p.1 = id) && bool_decide (Q p.2)) -> m !! id = Some x ->
  picked enc P m = if decide (Q x) then {[id]} else ∅.
Proof.
  intros HP Hx. unfold picked. apply set_eq. intros i. rewrite elem_of_dom. split.
  - intros [y [Hi Hy]%map_lookup_filter_Some]. rewrite HP, andb_true_iff, !bool_decide_eq_true in Hy. simpl in Hy.
    destruct Hy as [-> Hy]. simplify_eq. rewrite decide_True by done. set_solver.
  - destruct (decide (Q x)) as [Hq|]; [|set_solver]. intros ->%elem_of_singleton. exists x.
    apply map_lookup_filter_Some. by rewrite HP, !bool_decide_eq_true_2.
Qed.

Lemma picked_elem {A} (enc : UUID * A → row) P (m : gmap UUID A) i :
  i ∈ picked enc P m -> ∃ x, m !! i = Some x ∧ P (enc (i, x)) = true.
Proof. unfold picked. intros [x [Hi HP]%map_lookup_filter_Some]%elem_of_dom. eauto. Qed.

Lemma deleteCollection_means id user :
  means Texts.deleteCollection [VUuid id; VUuid user] no_rows (deleteCollection id user).
Proof.
  by_delete delete_collection_rows. unfold deleteCollection. destruct (collections d !! id) as [o|] eqn:Hid.
  - rewrite (picked_pair collection_row _ (λ c, coll_user_id c = user) (collections d) id o) by (done || conditions).
    destruct (decide _); [done|]. by rewrite delete_collections_absent by set_solver.
  - rewrite delete_collections_absent; [done|done|]. intros i (x & Hi & HP)%picked_elem. exfalso. revert HP.
    unfold all_hold. cbn. case_bool_decide; [congruence|done].
Qed.

Lemma delete_category_rows n r P d :
  relation_named "tag_categories" = Some r ->
  delete_where (S (S n)) r P d =
  if bool_decide (map_Exists (λ _ x, tag_category_id x ∈ picked category_row P (tag_categories d)) (tags d))
  then inl (ForeignKeyViolation "tags_category_id_fkey")
  else inr (set_tag_categories (remove_rows (picked category_row P (tag_categories d)) (tag_categories d)) d).
Proof.
  intros [= <-]. cbn. match goal with |- context [existsb ?h ?l] =>
    replace (existsb h l) with (bool_decide (map_Exists (λ _ x, tag_category_id x ∈ picked category_row P (tag_categories d)) (tags d))) end.
  - case_bool_decide; [done|]. cbn. do 2 f_equal. apply keep_rows.
  - apply eq_bool_prop_intro. rewrite bool_decide_spec, map_Exists_to_list, existb_True, Exists_fmap, !Exists_exists.
    by split; intros ([i x] & Hp & HP); exists (i, x); (split; [done|]); simpl in *;
      rewrite bool_decide_spec, (doomed_ids category_row P) in *.
Qed.

Lemma deleteTagCategory_means id : means Texts.deleteTagCategory [VUuid id] no_rows (deleteTagCategory id).
Proof.
  by_delete delete_category_rows. rewrite (picked_key category_row _ (tag_categories d) id) by conditions.
  unfold deleteTagCategory. destruct (tag_categories d !! id) as [name|] eqn:Hid.
  - rewrite (bool_decide_ext _ (map_Exists (λ _ r, tag_category_id r = id) (tags d))); [by case_bool_decide|].
    rewrite !map_Exists_lookup. set_solver.
  - rewrite !bool_decide_eq_false_2.
    + rewrite !remove_absent; set_solver.
    + intros (i & x & Hi & Hx)%map_Exists_lookup. destruct (wf_tag_category d Hd i x Hi). congruence.
    + intros (i & x & Hi & Hx)%map_Exists_lookup. by apply elem_of_empty in Hx.
Qed.

(** Links that are taken away one at a time. *)
Lemma remove_link {X} `{Countable X} (P : X → bool) (s : gset X) x :
  (∀ y, P y = bool_decide (y = x)) -> filter (λ y, P y = false) s = s ∖ {[x]}.
Proof.
  intros HP. apply set_eq. intros y. rewrite elem_of_filter, elem_of_difference, elem_of_singleton, HP, bool_decide_eq_false.
  tauto.
Qed.

Ltac same_link := intros [? ?]; cbn; apply eq_bool_prop_intro; rewrite ?andb_True, ?bool_decide_spec; naive_solver.

Lemma deleteTagFromTea_means tea tag :
  means Texts.deleteTagFromTea [VUuid tea; VUuid tag] no_rows (deleteTagFromTea tea tag).
Proof.
  eapply means_delete; [accept|reflexivity|]; intros now d Hd. cbn.
  by rewrite (remove_link _ (tea_tags d) (tea, tag)) by same_link.
Qed.

Lemma deleteCollectionItem_means c q :
  means Texts.deleteCollectionItem [VUuid c; VUuid q] no_rows (deleteCollectionItem c q).
Proof.
  eapply means_delete; [accept|reflexivity|]; intros now d Hd. cbn.
  by rewrite (remove_link _ (collection_qr_items d) (c, q)) by same_link.
Qed.

Lemma deleteConsumptionsBefore_means user cutoff :
  means Texts.deleteConsumptionsBefore [VUuid user; VTime cutoff] no_rows (deleteConsumptionsBefore user cutoff).
Proof.
  eapply means_delete; [accept|reflexivity|]; intros now d Hd. cbn. unfold deleteConsumptionsBefore. do 3 f_equal.
  apply set_eq. intros [[u t] e]. rewrite !elem_of_filter. cbn.
  rewrite andb_true_r, andb_false_iff, bool_decide_eq_false, Z.ltb_ge. split; intros [Hn Hin]; (split; [|done]).
  - destruct (decide (u = user)) as [->|]; [right; apply Z.nlt_ge; intros Ht; by apply Hn|by left].
  - intros [-> Ht]. destruct Hn as [Hn|Hn]; [done|lia].
Qed.


End checks.

#[export] Hint Resolve
  insertTag_means updateTag_means changeTagCategory_means insertTea_means updateTea_means
  insertTagCategory_means updateTagCategory_means updateDeviceToken_means insertDevice_means
  addTagToTea_means insertCollectionItem_means insertConsumption_means insertCollection_means
  upsertQR_means upsertUser_means insertCollectionItems_means deleteTea_means deleteTag_means
  deleteTagsByCategory_means deleteCollection_means deleteTagCategory_means deleteTagFromTea_means
  deleteCollectionItem_means deleteConsumptionsBefore_means : means.

(** ** Properties *)

(** C27: the changes mean what the statements say. Every text of queries.go that
    inserts, updates or deletes, parsed and run with its arguments over the
    tables of a consistent database, is the statement of [Sql] of the same name:
    the checks, the unique indexes, the foreign keys and the cascades that the
    schema file declares refuse it exactly when the statement is refused, with the
    same error; otherwise it leaves the tables as the statement does and returns
    the row the statement returns. *)
Theorem changes_mean_their_statements `{Env} id user c tea tag name kind description color token temp time ids :
  means Texts.insertTagCategory [VUuid id; VText name] (one category_row) (insertTagCategory id name) ∧
  means Texts.updateTagCategory [VUuid id; VText name] (one category_row) (updateTagCategory id name) ∧
  means Texts.deleteTagCategory [VUuid id] no_rows (deleteTagCategory id) ∧
  means Texts.insertTag [VUuid id; VText name; VText color; VUuid c] (one tag_row) (insertTag id name color c) ∧
  means Texts.updateTag [VUuid id; VText name; VText color] (one tag_row) (updateTag id name color) ∧
  means Texts.changeTagCategory [VUuid id; VUuid c] (one tag_row) (changeTagCategory id c) ∧
  means Texts.deleteTag [VUuid id] no_rows (deleteTag id) ∧
  means Texts.deleteTagsByCategory [VUuid c] no_rows (deleteTagsByCategory c) ∧
  means Texts.insertTea [VUuid id; VText name; VText kind; null_text description] (one tea_row) (insertTea id name kind description) ∧
  means Texts.updateTea [VUuid id; VText name; VText kind; null_text description] (one tea_row) (updateTea id name kind description) ∧
  means Texts.deleteTea [VUuid id] no_rows (deleteTea id) ∧
  means Texts.addTagToTea [VUuid tea; VUuid tag] no_rows (addTagToTea tea tag) ∧
  means Texts.deleteTagFromTea [VUuid tea; VUuid tag] no_rows (deleteTagFromTea tea tag) ∧
  means Texts.upsertQR [VUuid id; VUuid tea; VInt temp; VTime time] no_rows (upsertQR id tea temp time) ∧
  means Texts.insertCollection [VUuid id; VUuid user; VText name] (one collection_row) (insertCollection id user name) ∧
  means Texts.deleteCollection [VUuid id; VUuid user] no_rows (deleteCollection id user) ∧
  means Texts.insertCollectionItem [VUuid c; VUuid id] no_rows (insertCollectionItem c id) ∧
  means Texts.insertCollectionItems [VUuid c; VUuids ids] no_rows (insertCollectionItems c ids) ∧
  means Texts.deleteCollectionItem [VUuid c; VUuid id] no_rows (deleteCollectionItem c id) ∧
  means Texts.insertDevice [VUuid id; VUuid user; VText token] no_rows (insertDevice id user token) ∧
  means Texts.updateDeviceToken [VUuid id; VText token] affected (updateDeviceToken id token) ∧
  means Texts.upsertUser [VUuid id; VText name] (one user_row) (upsertUser id name) ∧
  means Texts.insertConsumption [VUuid user; VTime time; VUuid tea] no_rows (insertConsumption user time tea) ∧
  means Texts.deleteConsumptionsBefore [VUuid user; VTime time] no_rows (deleteConsumptionsBefore user time).
Proof. split_and!; auto with means. Qed.
