(* ===== verification/SchemaMeaning.v ===== *)
(** What src/db/schema.sql says of the rows: the schema compiled from the file by
    [Engine], read as a predicate on the tables, is the invariant [db_wf]. *)

From Stdlib Require Import Ascii.
From stdpp Require Import base gmap sets list strings sorting.
From Stdlib Require Import ZArith Lia.
From S2P Require Import Prelude GoTime Common Env Schema Sql SqlSyntax SqlTexts Engine EngineLemmas ChangeMeaning.

Section schema_meaning.
Context `{Env}.

(** ** The constraints of a relation

    Every row passes the checks of its columns and points to rows that are there;
    no two rows share an entry of a unique index. *)
Definition row_holds (r : relation_) (d : Database) (x : row) : Prop :=
  check_row r x = None ∧
  Forall (λ k, refers d k (field_of r x (fk_column k)) = true) (rel_foreign_keys r).

Definition index_holds (r : relation_) (rows : list row) (u : string * list expr) : Prop :=
  ∀ i j x y, rows !! i = Some x -> rows !! j = Some y -> clash r u.2 x y = true -> i = j.

Definition relation_holds (d : Database) (r : relation_) : Prop :=
  Forall (row_holds r d) (rows_of (rel_name r) d) ∧
  Forall (index_holds r (rows_of (rel_name r) d)) (rel_uniques r).

Definition schema_holds (d : Database) : Prop := Forall (relation_holds d) schema.

(** ** Lemmas *)
Lemma rows_hold {A} (enc : UUID * A → row) (m : gmap UUID A) (P : row → Prop) :
  Forall P (enc <$> map_to_list m) <-> ∀ i x, m !! i = Some x -> P (enc (i, x)).
Proof.
  rewrite Forall_fmap, Forall_forall. split.
  - intros HP i x Hi. by apply (HP (i, x)), elem_of_map_to_list.
  - intros HP [i x] Hi%elem_of_map_to_list. by apply HP.
Qed.

Lemma links_hold {X} `{Countable X} (enc : X → row) (s : gset X) (P : row → Prop) :
  Forall P (enc <$> elements s) <-> ∀ x, x ∈ s -> P (enc x).
Proof. rewrite Forall_fmap, Forall_forall. by setoid_rewrite elem_of_elements. Qed.

(** An index over the rows of a list without duplicates. *)
Lemma index_rows {A} r u (enc : A → row) (l : list A) (Q : A → A → Prop) :
  NoDup l -> (∀ p q, clash r u.2 (enc p) (enc q) = true <-> Q p q) ->
  index_holds r (enc <$> l) u <-> ∀ p q, p ∈ l -> q ∈ l -> Q p q -> p = q.
Proof.
  intros Hl HQ. unfold index_holds. split.
  - intros Hi p q [i Hp]%list_elem_of_lookup [j Hq]%list_elem_of_lookup HPQ.
    assert (i = j) as <-; [|congruence]. apply (Hi i j (enc p) (enc q)); [by rewrite list_lookup_fmap, Hp..
      |by rewrite list_lookup_fmap, Hq|by apply HQ].
  - intros Hl' i j x y. rewrite !list_lookup_fmap. intros (p & Hp & ->)%fmap_Some (q & Hq & ->)%fmap_Some Hc%HQ.
    apply (NoDup_lookup l i j p Hl Hp). rewrite Hq. f_equal. symmetry. apply Hl'; [by eapply list_elem_of_lookup_2..|done].
Qed.

Lemma index_key {A} r u (enc : UUID * A → row) (m : gmap UUID A) :
  (∀ p q, clash r u.2 (enc p) (enc q) = true <-> p.1 = q.1) -> index_holds r (enc <$> map_to_list m) u.
Proof.
  intros Hk. apply (index_rows _ _ _ _ _ (NoDup_map_to_list m) Hk). intros [i x] [j y] Hx%elem_of_map_to_list Hy%elem_of_map_to_list Hij.
  simpl in *. congruence.
Qed.

Lemma index_unique {A K} r u (enc : UUID * A → row) (key : A → K) (m : gmap UUID A) :
  (∀ p q, clash r u.2 (enc p) (enc q) = true <-> key p.2 = key q.2) ->
  index_holds r (enc <$> map_to_list m) u <-> unique_on key m.
Proof.
  intros Hk. rewrite (index_rows _ _ _ _ _ (NoDup_map_to_list m) Hk). unfold unique_on. split.
  - intros Hu i j ri rj Hi Hj Hij.
    assert ((i, ri) = (j, rj)); [|congruence]. apply Hu; [by apply elem_of_map_to_list..|done].
  - intros Hu [i x] [j y] Hx%elem_of_map_to_list Hy%elem_of_map_to_list Hij.
    assert (i = j) as <- by by eapply Hu. congruence.
Qed.

Lemma index_links {X} `{Countable X} r u (enc : X → row) (s : gset X) :
  (∀ p q, clash r u.2 (enc p) (enc q) = true <-> p = q) -> index_holds r (enc <$> elements s) u.
Proof. intros Hk. by apply (index_rows _ _ _ _ _ (NoDup_elements s) Hk). Qed.

(** A table of rows under an id, and a table of links: the primary key holds by
    itself. *)
Lemma keyed_table {A} (enc : UUID * A → row) (m : gmap UUID A) r d pk us :
  rows_of (rel_name r) d = enc <$> map_to_list m -> rel_uniques r = pk :: us ->
  (∀ p q, clash r pk.2 (enc p) (enc q) = true <-> p.1 = q.1) ->
  relation_holds d r <->
  (∀ i x, m !! i = Some x -> row_holds r d (enc (i, x))) ∧ Forall (index_holds r (enc <$> map_to_list m)) us.
Proof.
  intros Hrows Hus Hpk. unfold relation_holds. rewrite Hrows, Hus, rows_hold, Forall_cons.
  pose proof (index_key r pk enc m Hpk). tauto.
Qed.

Lemma link_table {X} `{Countable X} (enc : X → row) (s : gset X) r d pk :
  rows_of (rel_name r) d = enc <$> elements s -> rel_uniques r = [pk] ->
  (∀ p q, clash r pk.2 (enc p) (enc q) = true <-> p = q) ->
  relation_holds d r <-> ∀ x, x ∈ s -> row_holds r d (enc x).
Proof.
  intros Hrows Hus Hpk. unfold relation_holds. rewrite Hrows, Hus, links_hold, Forall_singleton.
  pose proof (index_links r pk enc s Hpk). tauto.
Qed.

Lemma found_true {A} (o : option A) : match o with Some _ => true | None => false end = true <-> is_Some o.
Proof. destruct o; naive_solver. Qed.
End schema_meaning.

(** Compares the entries of two rows in an index. *)
Ltac clashes :=
  intros; unfold clash, entry, field_of; cbn; rewrite ?andb_true_iff, ?bool_decide_eq_true; split;
  [by intros; destruct_and?; simplify_eq; simpl in *; try congruence|];
  intros; split_and?; [repeat (apply not_elem_of_cons; split; [done|]); apply not_elem_of_nil|..]; try congruence.


(** What is left of a row: its foreign keys. *)
Ltac row_of_table :=
  unfold row_holds; cbn [rel_foreign_keys];
  try match goal with |- context [check_row ?r ?x] =>
    replace (check_row r x) with (@None SqlError) by (vm_compute; reflexivity) end;
  rewrite ?Forall_cons, ?Forall_nil;
  repeat match goal with |- context [field_of ?r ?x ?c] =>
    let v := eval cbn in (field_of r x c) in change (field_of r x c) with v end;
  repeat first [rewrite refers_user by done|rewrite refers_tea by done|rewrite refers_tag by done|rewrite refers_qr by done
    |rewrite refers_collection by done|rewrite refers_category by done];
  rewrite ?found_true.

Ltac keyed enc m := erewrite (keyed_table enc m); [|reflexivity|reflexivity|clashes].
Ltac linked enc s := erewrite (link_table enc s); [|reflexivity|reflexivity|intros [] []; clashes].

Section tables.
Context `{Env} (d : Database).

Lemma users_hold r : relation_named "users" = Some r -> relation_holds d r <-> unique_on user_apple_id (users d).
Proof.
  intros [= <-]. keyed user_row (users d).
  rewrite Forall_singleton, (index_unique _ _ user_row user_apple_id) by clashes.
  split; [naive_solver|]. intros Hu. split; [|done].
  intros i x _. row_of_table. done.
Qed.

Lemma teas_hold r :
  relation_named "teas" = Some r -> relation_holds d r <-> ∀ i x, teas d !! i = Some x -> tea_type x ∈ tea_types.
Proof.
  intros Hr. pose proof Hr as Hr'. injection Hr' as <-.
  keyed tea_row (teas d). rewrite Forall_nil.
  split; [intros [Hx _]|intros Hx; split; [|done]]; intros i x Hi; specialize (Hx i x Hi).
  - destruct Hx as [Hc _]. unfold tea_row in Hc. rewrite (check_tea _ _ _ _ _ _ Hr) in Hc. case_bool_decide as Hn; [done|]. exact Hn.
  - split; [|constructor]. unfold tea_row. rewrite (check_tea _ _ _ _ _ _ Hr). case_bool_decide as Hn; [by destruct (Hn Hx)|done].
Qed.

Lemma categories_hold r :
  relation_named "tag_categories" = Some r -> relation_holds d r <-> unique_on id (tag_categories d).
Proof.
  intros [= <-]. keyed category_row (tag_categories d).
  rewrite Forall_singleton, (index_unique _ _ category_row id) by clashes.
  split; [naive_solver|]. intros Hu. split; [|done]. intros i x _. row_of_table. done.
Qed.

Lemma tags_hold r :
  relation_named "tags" = Some r ->
  relation_holds d r <-> references tag_category_id (tags d) (tag_categories d) ∧ unique_on tag_key (tags d).
Proof.
  intros [= <-]. keyed tag_row (tags d).
  rewrite Forall_singleton, (index_unique _ _ tag_row tag_key) by (unfold tag_key; clashes).
  apply and_iff_compat_r. unfold references. split; intros Hx i x Hi; specialize (Hx i x Hi); revert Hx; row_of_table; intuition auto.
Qed.

Lemma tea_tags_hold r :
  relation_named "tea_tags" = Some r ->
  relation_holds d r <-> ∀ t g, (t, g) ∈ tea_tags d -> is_Some (teas d !! t) ∧ is_Some (tags d !! g).
Proof.
  intros [= <-]. linked pair_row (tea_tags d).
  split; [intros Hx t g Hi; specialize (Hx (t, g) Hi)|intros Hx [t g] Hi; specialize (Hx t g Hi)]; revert Hx; row_of_table; intuition auto.
Qed.

Lemma qr_row_holds r i x :
  relation_named "qr_records" = Some r ->
  row_holds r d (qr_row (i, x)) <-> is_Some (teas d !! qrr_tea_id x) ∧ is_int4 (qrr_boiling_temp x) = true.
Proof.
  intros Hr. unfold row_holds, qr_row. rewrite (check_qr _ _ _ _ _ _ Hr). revert Hr. intros [= <-]. cbn [fst snd].
  row_of_table. destruct (is_int4 _); naive_solver.
Qed.

Lemma qr_records_hold r :
  relation_named "qr_records" = Some r ->
  relation_holds d r <-> references qrr_tea_id (qr_records d) (teas d) ∧
    ∀ i x, qr_records d !! i = Some x -> is_int4 (qrr_boiling_temp x) = true.
Proof.
  intros Hr. pose proof (λ i x, qr_row_holds r i x Hr) as Hx. injection Hr as <-. keyed qr_row (qr_records d).
  rewrite Forall_nil. setoid_rewrite Hx. unfold references. naive_solver.
Qed.

Lemma collections_hold r :
  relation_named "collections" = Some r -> relation_holds d r <-> references coll_user_id (collections d) (users d).
Proof.
  intros [= <-]. keyed collection_row (collections d). rewrite Forall_nil.
  unfold references. split; [intros [Hx _]|intros Hx; split; [|done]]; intros i x Hi; specialize (Hx i x Hi); revert Hx;
    row_of_table; intuition auto.
Qed.

Lemma items_hold r :
  relation_named "collection_qr_items" = Some r ->
  relation_holds d r <-> ∀ c q, (c, q) ∈ collection_qr_items d -> is_Some (collections d !! c) ∧ is_Some (qr_records d !! q).
Proof.
  intros [= <-]. linked pair_row (collection_qr_items d).
  split; [intros Hx c q Hi; specialize (Hx (c, q) Hi)|intros Hx [c q] Hi; specialize (Hx c q Hi)]; revert Hx;
    row_of_table; intuition auto.
Qed.

Lemma devices_hold r :
  relation_named "devices" = Some r ->
  relation_holds d r <-> references dev_user_id (devices d) (users d) ∧ unique_on dev_token (devices d).
Proof.
  intros [= <-]. keyed device_row (devices d).
  rewrite Forall_singleton, (index_unique _ _ device_row dev_token) by clashes.
  apply and_iff_compat_r. unfold references. split; intros Hx i x Hi; specialize (Hx i x Hi); revert Hx;
    row_of_table; intuition auto.
Qed.

(** The type of a notification is a [smallint]. *)
Definition is_int2 (z : Z) : bool := (-32768 <=? z)%Z && (z <=? 32767)%Z.

Lemma notification_row_holds r i x :
  relation_named "notifications" = Some r ->
  row_holds r d (notification_row (i, x)) <-> is_Some (users d !! notif_user_id x) ∧ is_int2 (notif_type x) = true.
Proof.
  intros [= <-]. unfold row_holds, check_row. cbn -[is_int2 refers field_of].
  change ((-32768 <=? notif_type x)%Z && (notif_type x <=? 32767)%Z) with (is_int2 (notif_type x)).
  row_of_table. destruct (is_int2 _); naive_solver.
Qed.

Lemma notifications_hold r :
  relation_named "notifications" = Some r ->
  relation_holds d r <-> references notif_user_id (notifications d) (users d) ∧
    ∀ i x, notifications d !! i = Some x -> is_int2 (notif_type x) = true.
Proof.
  intros Hr. pose proof (λ i x, notification_row_holds r i x Hr) as Hx. injection Hr as <-.
  keyed notification_row (notifications d). rewrite Forall_nil. setoid_rewrite Hx. unfold references. naive_solver.
Qed.

Lemma consumptions_hold r :
  relation_named "consumptions" = Some r ->
  relation_holds d r <-> ∀ u t e, (u, t, e) ∈ consumptions d -> is_Some (users d !! u) ∧ is_Some (teas d !! e).
Proof.
  intros [= <-]. erewrite (link_table consumption_row (consumptions d)); [|reflexivity|reflexivity|intros [[]] [[]]; clashes].
  split; [intros Hx u t e Hi; specialize (Hx (u, t, e) Hi)|intros Hx [[u t] e] Hi; specialize (Hx u t e Hi)]; revert Hx;
    row_of_table; intuition auto.
Qed.
End tables.

(** ** Properties *)

(** C2: the invariant is the schema. A database satisfies the relations compiled
    from the text of src/db/schema.sql, every column check, unique index and
    foreign key of them, exactly when it satisfies [db_wf], the invariant of all
    theorems here, and the types of the notifications, which nothing writes, fit
    their column. *)
Theorem schema_file_is_the_invariant `{Env} d :
  schema_holds d <-> db_wf d ∧ ∀ i x, notifications d !! i = Some x -> is_int2 (notif_type x) = true.
Proof.
  unfold schema_holds, schema. rewrite !Forall_cons, Forall_nil.
  rewrite users_hold, teas_hold, categories_hold, tags_hold, tea_tags_hold, qr_records_hold, collections_hold,
    items_hold, devices_hold, notifications_hold, consumptions_hold by reflexivity.
  split; [intros; destruct_and?; split; [by split|done]|intros [[] ?]; tauto].
Qed.
