(* ===== verification/World.v ===== *)
(** The state the server runs on: the database, the channels between the
    managers and their event loops, the cache of the tea of the day, the push
    notifications sent and the cache of descriptions, with the operations that
    reach it.

    Every question to the environment consumes a tick. *)

From stdpp Require Import base gmap sets list strings.
From Stdlib Require Import ZArith Lia.
From S2P Require Import Prelude GoTime Common TodCache Env Schema Sql.

(** ** Events

    The managers announce changes on buffered channels: three of the tea
    manager (src/internal/managers/tea/manager.go) and eight of the tag manager
    (src/internal/managers/tag/manager.go). *)
Inductive Event : Type :=
  | EvTeaCreate (tea : Tea)
  | EvTeaUpdate (tea : Tea)
  | EvTeaDelete (id : UUID)
  | EvTagCreate (tag : Tag)
  | EvTagUpdate (tag : Tag)
  | EvTagDelete (id : UUID)
  | EvCategoryCreate (category : TagCategory)
  | EvCategoryUpdate (category : TagCategory)
  | EvCategoryDelete (id : UUID)
  | EvAddTagToTea (tea : UUID)
  | EvDeleteTagFromTea (tea : UUID).

#[export] Instance Event_eq_dec : EqDecision Event.
Proof. solve_decision. Defined.

Inductive Chan : Type :=
  | ch_tea_create | ch_tea_update | ch_tea_delete
  | ch_tag_create | ch_tag_update | ch_tag_delete
  | ch_createCategory | ch_updateCategory | ch_deleteCategory
  | ch_addTagToTea | ch_deleteTagFromTea.

#[export] Instance Chan_eq_dec : EqDecision Chan.
Proof. solve_decision. Defined.

Definition event_chan (e : Event) : Chan :=
  match e with
  | EvTeaCreate _ => ch_tea_create
  | EvTeaUpdate _ => ch_tea_update
  | EvTeaDelete _ => ch_tea_delete
  | EvTagCreate _ => ch_tag_create
  | EvTagUpdate _ => ch_tag_update
  | EvTagDelete _ => ch_tag_delete
  | EvCategoryCreate _ => ch_createCategory
  | EvCategoryUpdate _ => ch_updateCategory
  | EvCategoryDelete _ => ch_deleteCategory
  | EvAddTagToTea _ => ch_addTagToTea
  | EvDeleteTagFromTea _ => ch_deleteTagFromTea
  end.

(** [make(chan ..., 100)] *)
Definition defaultChanSize : nat := 100.

(** The buffer of a channel: its events among the pending ones, oldest first. *)
Definition buffered (c : Chan) (events : list Event) : list Event :=
  filter (λ e, event_chan e = c) events.

(** ** The state *)

(** A push notification handed to APNS. *)
Record ApnsPush : Type := mkApnsPush {
  push_DeviceToken : string;
  push_Topic : string;
  push_Expiration : Time;
  push_AlertTitle : string;
  push_AlertBody : string;
  push_Badge : Z;
  push_Category : string;
  push_ThreadID : string }.

Record World : Type := mkWorld {
  w_db : Database;
  w_tick : nat;
  w_events : list Event;
  w_cache : teaOfTheDayCache;
  w_pushes : list ApnsPush;
  w_descriptions : gmap string string }.

Definition initial_world (d : Database) : World := mkWorld d 0 [] ∅ [] ∅.

Definition set_db (d : Database) (w : World) : World :=
  mkWorld d (w_tick w) (w_events w) (w_cache w) (w_pushes w) (w_descriptions w).
Definition advance (w : World) : World :=
  mkWorld (w_db w) (S (w_tick w)) (w_events w) (w_cache w) (w_pushes w) (w_descriptions w).
Definition set_events (l : list Event) (w : World) : World :=
  mkWorld (w_db w) (w_tick w) l (w_cache w) (w_pushes w) (w_descriptions w).
Definition set_cache (c : teaOfTheDayCache) (w : World) : World :=
  mkWorld (w_db w) (w_tick w) (w_events w) c (w_pushes w) (w_descriptions w).
Definition add_push (p : ApnsPush) (w : World) : World :=
  mkWorld (w_db w) (w_tick w) (w_events w) (w_cache w) (w_pushes w ++ [p]) (w_descriptions w).
(** [gocache]'s [Set]. *)
Definition set_description (name v : string) (w : World) : World :=
  mkWorld (w_db w) (w_tick w) (w_events w) (w_cache w) (w_pushes w) (<[name := v]> (w_descriptions w)).

(** ** The interface of a state with event channels

    The managers send through it; a client need not know what else the state
    holds. *)
Class EventBus (S : Type) : Type := {
  bus_events : S → list Event;
  bus_put : list Event → S → S }.

Class EventBusLaws (S : Type) `{EventBus S} : Type := {
  bus_events_put : ∀ l s, bus_events (bus_put l s) = l;
  bus_put_events : ∀ s, bus_put (bus_events s) s = s;
  bus_put_put : ∀ l l' s, bus_put l (bus_put l' s) = bus_put l s }.

(** [ch <- e]: parks the goroutine while the buffer is full. *)
Definition send_event {S} `{EventBus S} (e : Event) : M S GoError unit := λ s,
  if decide (length (buffered (event_chan e) (bus_events s)) < defaultChanSize)
  then (Ok tt, bus_put (bus_events s ++ [e]) s)
  else (Blocked, s).

#[export] Instance World_EventBus : EventBus World := {
  bus_events := w_events;
  bus_put := set_events }.

#[export] Instance World_EventBusLaws : EventBusLaws World.
Proof. split; [done|by intros []|done]. Defined.

(** Several sends in a row: all of them, or those before a full buffer. *)
Lemma send_events_spec {S} `{EventBusLaws S} (l : list Event) s r s' :
  for_range send_event l s = (r, s') ->
  (r = Ok tt ∧ s' = bus_put (bus_events s ++ l) s) ∨
  (r = Blocked ∧ ∃ sent e rest, l = sent ++ e :: rest ∧ s' = bus_put (bus_events s ++ sent) s
     ∧ defaultChanSize <= length (buffered (event_chan e) (bus_events s'))).
Proof.
  revert s. induction l as [|e l IH]; intros s; simpl.
  { intros [= <- <-]. left. by rewrite app_nil_r, bus_put_events. }
  unfold bind, send_event at 1. destruct (decide _) as [Hlt|Hge]; simpl.
  - intros [[-> ->]|(-> & sent & e' & rest & -> & -> & Hfull)]%IH.
    + left. by rewrite bus_events_put, bus_put_put, <-app_assoc.
    + right. split; [done|]. exists (e :: sent), e', rest. split; [done|].
      rewrite !bus_events_put, <-app_assoc in Hfull. simpl in Hfull.
      rewrite !bus_events_put, bus_put_put, <-app_assoc. done.
  - intros [= <- <-]. right. split; [done|]. exists [], e, l.
    rewrite app_nil_r, bus_put_events. split_and!; [done..|]. lia.
Qed.

(** ** The database client

    What the storage adapter needs of a state: a round trip of a statement, and
    [uuid.New]. *)
Class PgClient (S : Type) : Type := {
  exec : ∀ {A}, Stmt A → M S GoError A;
  new_uuid : M S GoError UUID }.

Arguments exec {S _ A} s : simpl never.

(** [QueryRowContext(...).Scan(...)]: no row is [sql.ErrNoRows]. *)
Definition query_row {S A} `{PgClient S} (s : Stmt (option A)) : M S GoError A :=
  let! r := exec s in
  match r with Some a => ret a | None => throw (ESentinel SqlErrNoRows) end.

Section operations.
Context `{Env}.

(** ** Questions to the environment *)
Definition clock_now : M World GoError Time := λ w, (Ok (time_Now (w_tick w)), advance w).

(** A call to a service outside the program that only returns a value or an
    error. *)
Definition ask {A} (service : nat → GoError + A) : M World GoError A := λ w,
  match service (w_tick w) with
  | inl e => (Err e, advance w)
  | inr a => (Ok a, advance w)
  end.

(** A round trip to the database. *)
Definition World_exec {A} (s : Stmt A) : M World GoError A := λ w,
  let tick := w_tick w in
  match pg_fault tick with
  | Some (NotExecuted msg) => (Err (EForeign msg), advance w)
  | Some (ResponseLost msg) =>
      match s (pg_now tick) (w_db w) with
      | inl e => (Err (EForeign msg), advance w)
      | inr (_, d) => (Err (EForeign msg), set_db d (advance w))
      end
  | None =>
      match s (pg_now tick) (w_db w) with
      | inl e => (Err (ESql e), advance w)
      | inr (a, d) => (Ok a, set_db d (advance w))
      end
  end.

#[export] Instance World_PgClient : PgClient World := {
  exec A s := World_exec s;
  new_uuid w := (Ok (uuid_New (w_tick w)), advance w) }.

(** ** Lemmas *)

(** The integrity of the database, of a world. *)
Definition world_wf (w : World) : Prop := db_wf (w_db w).

Lemma new_uuid_run w : new_uuid w = (Ok (uuid_New (w_tick w)), advance w).
Proof. done. Qed.

Lemma new_uuid_wf : preserves world_wf (new_uuid).
Proof. by intros w Hw. Qed.

Lemma clock_now_wf : preserves world_wf clock_now.
Proof. by intros w Hw. Qed.

Lemma ask_wf {A} (service : nat → GoError + A) : preserves world_wf (ask service).
Proof. intros w Hw. unfold ask. by destruct (service (w_tick w)). Qed.

Lemma send_event_wf e : preserves world_wf (send_event e).
Proof. intros w Hw. unfold send_event. by case_decide. Qed.

Lemma exec_wf {A} (s : Stmt A) : stmt_wf s -> preserves world_wf (exec s).
Proof.
  intros Hs w Hw. unfold exec, World_PgClient, World_exec, world_wf.
  destruct (pg_fault (w_tick w)) as [[?|?]|]; [done| |];
    destruct (s _ (w_db w)) as [e|[a d]] eqn:E; simpl; [done| |done|]; by eapply Hs.
Qed.

Lemma query_row_wf {A} (s : Stmt (option A)) : stmt_wf s -> preserves world_wf (query_row s).
Proof.
  intros Hs. unfold query_row. apply preserves_bind; [by apply exec_wf|].
  intros [a|]; auto with go_preserves.
Qed.

(** An answer: the statement ran on the database as it was. *)
Lemma exec_Ok_inv {A} (s : Stmt A) w a w' :
  exec s w = (Ok a, w') ->
  ∃ d, s (pg_now (w_tick w)) (w_db w) = inr (a, d) ∧ w' = set_db d (advance w)
     ∧ pg_fault (w_tick w) = None.
Proof.
  unfold exec, World_PgClient, World_exec. destruct (pg_fault (w_tick w)) as [[?|?]|]; [done| |];
    destruct (s _ (w_db w)) as [e|[a' d]]; try done.
  intros [= -> <-]. by exists d.
Qed.

Lemma exec_Ok {A} (s : Stmt A) w a d :
  pg_fault (w_tick w) = None -> s (pg_now (w_tick w)) (w_db w) = inr (a, d) ->
  exec s w = (Ok a, set_db d (advance w)).
Proof. unfold exec, World_PgClient, World_exec. by intros -> ->. Qed.

(** No answer: the statement ran or it did not, and nothing else happened. *)
Lemma exec_Err_inv {A} (s : Stmt A) w e w' :
  exec s w = (Err e, w') ->
  w' = advance w ∨ ∃ a d, s (pg_now (w_tick w)) (w_db w) = inr (a, d) ∧ w' = set_db d (advance w).
Proof.
  unfold exec, World_PgClient, World_exec. destruct (pg_fault (w_tick w)) as [[?|?]|];
    [|destruct (s _ (w_db w)) as [?|[a d]]..]; intros [= <- <-]; eauto.
Qed.

(** A round trip always returns. *)
Lemma exec_returns {A} (s : Stmt A) w :
  (∃ a w', exec s w = (Ok a, w')) ∨ (∃ e w', exec s w = (Err e, w')).
Proof.
  unfold exec, World_PgClient, World_exec. destruct (pg_fault (w_tick w)) as [[?|?]|];
    [|destruct (s _ (w_db w)) as [?|[a d]]..]; eauto.
Qed.

Lemma query_row_Ok_inv {A} (s : Stmt (option A)) w a w' :
  query_row s w = (Ok a, w') ->
  ∃ d, s (pg_now (w_tick w)) (w_db w) = inr (Some a, d) ∧ w' = set_db d (advance w)
     ∧ pg_fault (w_tick w) = None.
Proof.
  unfold query_row. intros (r & w1 & He & Hr)%bind_Ok_inv.
  destruct r; [|done]. unfold ret in Hr. simplify_eq Hr. intros <- <-. by apply exec_Ok_inv.
Qed.

Lemma query_row_Ok {A} (s : Stmt (option A)) w a d :
  pg_fault (w_tick w) = None -> s (pg_now (w_tick w)) (w_db w) = inr (Some a, d) ->
  query_row s w = (Ok a, set_db d (advance w)).
Proof. intros Hf Hs. unfold query_row. by erewrite bind_Ok by (by apply exec_Ok). Qed.

Lemma query_row_no_rows {A} (s : Stmt (option A)) w d :
  pg_fault (w_tick w) = None -> s (pg_now (w_tick w)) (w_db w) = inr (None, d) ->
  query_row s w = (Err (ESentinel SqlErrNoRows), set_db d (advance w)).
Proof. intros Hf Hs. unfold query_row. by erewrite bind_Ok by (by apply exec_Ok). Qed.

Lemma query_row_Err_inv {A} (s : Stmt (option A)) w e w' :
  query_row s w = (Err e, w') ->
  w' = advance w ∨ ∃ a d, s (pg_now (w_tick w)) (w_db w) = inr (a, d) ∧ w' = set_db d (advance w).
Proof.
  unfold query_row, bind. destruct (exec s w) as [[r|e'| |] w1] eqn:E; try done.
  - apply exec_Ok_inv in E as (d & Hs & -> & _).
    destruct r; [done|]. intros [= <- <-]. eauto.
  - intros [= <- <-]. by eapply exec_Err_inv.
Qed.

Lemma query_row_returns {A} (s : Stmt (option A)) w :
  (∃ a w', query_row s w = (Ok a, w')) ∨ (∃ e w', query_row s w = (Err e, w')).
Proof.
  unfold query_row. destruct (exec_returns s w) as [(r & w' & E)|(e & w' & E)].
  - rewrite (bind_Ok _ _ _ _ _ E). destruct r; [left|right]; by repeat eexists.
  - rewrite (bind_Err _ _ _ _ _ E). eauto.
Qed.
End operations.

#[export] Hint Resolve new_uuid_wf clock_now_wf ask_wf send_event_wf exec_wf query_row_wf : go_preserves.
