(* ===== verification/Queries.v ===== *)
(** The methods of [pgstore.Queries], src/pkg/pgstore/queries.go: one round trip
    each, [QueryRowContext] for a [:one] query, [QueryContext] or [ExecContext]
    otherwise. *)

From stdpp Require Import base gmap list strings.
From Stdlib Require Import ZArith.
From S2P Require Import Prelude GoTime Common Env Schema Sql World.

Section queries.
Context {S : Type} `{Env, PgClient S}.

Definition Queries_UpsertUser (id : UUID) (apple_id : string) := query_row (upsertUser id apple_id).
Definition Queries_ListUsers := exec listUsers.

Definition Queries_InsertTea (id : UUID) (name type_ : string) (description : option string) :=
  query_row (insertTea id name type_ description).
Definition Queries_UpdateTea (id : UUID) (name type_ : string) (description : option string) :=
  query_row (updateTea id name type_ description).
Definition Queries_DeleteTea (id : UUID) := exec (deleteTea id).
Definition Queries_GetTea (id : UUID) := query_row (getTea id).
Definition Queries_ListTeas := exec listTeas.
Definition Queries_SearchTeasByPrefix (name : string) (limit : Z) :=
  exec (searchTeasByPrefix name limit).

Definition Queries_InsertTagCategory (id : UUID) (name : string) :=
  query_row (insertTagCategory id name).
Definition Queries_UpdateTagCategory (id : UUID) (name : string) :=
  query_row (updateTagCategory id name).
Definition Queries_DeleteTagCategory (id : UUID) := exec (deleteTagCategory id).
Definition Queries_ListTagCategories := exec listTagCategories.
Definition Queries_GetTagCategory (id : UUID) := query_row (getTagCategory id).
Definition Queries_SearchTagCategories (prefix : string) := exec (searchTagCategories prefix).

Definition Queries_ListTagsByCategory (categoryID : UUID) := exec (listTagsByCategory categoryID).
Definition Queries_DeleteTagsByCategory (categoryID : UUID) :=
  exec (deleteTagsByCategory categoryID).
Definition Queries_InsertTag (id : UUID) (name color : string) (categoryID : UUID) :=
  query_row (insertTag id name color categoryID).
Definition Queries_UpdateTag (id : UUID) (name color : string) :=
  query_row (updateTag id name color).
Definition Queries_ChangeTagCategory (id categoryID : UUID) :=
  query_row (changeTagCategory id categoryID).
Definition Queries_DeleteTag (id : UUID) := exec (deleteTag id).
Definition Queries_GetTag (id : UUID) := query_row (getTag id).
Definition Queries_ListTags := exec listTags.
Definition Queries_ListTagsByName (prefix : string) := exec (listTagsByName prefix).
Definition Queries_ListTagsByCategoryFilter (categoryID : UUID) :=
  exec (listTagsByCategoryFilter categoryID).
Definition Queries_ListTagsByNameCategory (prefix : string) (categoryID : UUID) :=
  exec (listTagsByNameCategory prefix categoryID).

Definition Queries_AddTagToTea (teaID tagID : UUID) := exec (addTagToTea teaID tagID).
Definition Queries_DeleteTagFromTea (teaID tagID : UUID) := exec (deleteTagFromTea teaID tagID).
Definition Queries_ListTagsByTea (teaID : UUID) := exec (listTagsByTea teaID).

Definition Queries_UpsertQR (id teaID : UUID) (boilingTemp : Z) (expirationDate : Time) :=
  exec (upsertQR id teaID boilingTemp expirationDate).
Definition Queries_GetQR (id : UUID) := query_row (getQR id).

Definition Queries_InsertCollection (id userID : UUID) (name : string) :=
  query_row (insertCollection id userID name).
Definition Queries_InsertCollectionItem (collectionID qrID : UUID) :=
  exec (insertCollectionItem collectionID qrID).
Definition Queries_InsertCollectionItems (collectionID : UUID) (qrIDs : list UUID) :=
  exec (insertCollectionItems collectionID qrIDs).
Definition Queries_DeleteCollectionItem (collectionID qrID : UUID) :=
  exec (deleteCollectionItem collectionID qrID).
Definition Queries_DeleteCollection (id userID : UUID) := exec (deleteCollection id userID).
Definition Queries_ListCollections (userID : UUID) := exec (listCollections userID).
Definition Queries_GetCollection (id userID : UUID) := query_row (getCollection id userID).
Definition Queries_ListCollectionRecords (collectionID : UUID) :=
  exec (listCollectionRecords collectionID).

Definition Queries_InsertDevice (id userID : UUID) (token : string) :=
  exec (insertDevice id userID token).
Definition Queries_UpdateDeviceToken (id : UUID) (token : string) :=
  exec (updateDeviceToken id token).
Definition Queries_ListDeviceTokens (userID : UUID) := exec (listDeviceTokens userID).

Definition Queries_ListNotifications (userID : UUID) := exec (listNotifications userID).

Definition Queries_InsertConsumption (userID : UUID) (ts : Time) (teaID : UUID) :=
  exec (insertConsumption userID ts teaID).
Definition Queries_DeleteConsumptionsBefore (userID : UUID) (cutoff : Time) :=
  exec (deleteConsumptionsBefore userID cutoff).
Definition Queries_ListConsumptionsSince (userID : UUID) (since : Time) :=
  exec (listConsumptionsSince userID since).

End queries.

#[export] Hint Unfold Queries_UpsertUser Queries_ListUsers Queries_InsertTea Queries_UpdateTea
  Queries_DeleteTea Queries_GetTea Queries_ListTeas Queries_SearchTeasByPrefix
  Queries_InsertTagCategory Queries_UpdateTagCategory Queries_DeleteTagCategory
  Queries_ListTagCategories Queries_GetTagCategory Queries_SearchTagCategories
  Queries_ListTagsByCategory Queries_DeleteTagsByCategory Queries_InsertTag Queries_UpdateTag
  Queries_ChangeTagCategory Queries_DeleteTag Queries_GetTag Queries_ListTags
  Queries_ListTagsByName Queries_ListTagsByCategoryFilter Queries_ListTagsByNameCategory
  Queries_AddTagToTea Queries_DeleteTagFromTea Queries_ListTagsByTea Queries_UpsertQR
  Queries_GetQR Queries_InsertCollection Queries_InsertCollectionItem
  Queries_InsertCollectionItems Queries_DeleteCollectionItem Queries_DeleteCollection
  Queries_ListCollections Queries_GetCollection Queries_ListCollectionRecords
  Queries_InsertDevice Queries_UpdateDeviceToken Queries_ListDeviceTokens
  Queries_ListNotifications Queries_InsertConsumption Queries_DeleteConsumptionsBefore
  Queries_ListConsumptionsSince : go_preserves.
