(* ===== verification/Sqlc.v ===== *)
(** The package sqlc generates from the texts of src/db/queries, src/db/pkg/pgstore:
    its records and its methods over pgx, and that it is interchangeable with the
    package the server uses, src/pkg/pgstore/queries.go. *)

From stdpp Require Import base gmap sets list strings.
From Stdlib Require Import ZArith.
From S2P Require Import Prelude GoTime Common Env Schema Sql World Queries SqlSyntax SqlTexts Engine EngineLemmas.
From S2P Require Import QueryMeaning ChangeMeaning.

(** ** db.go

    [Text] is pgtype.Text; [Rows] is what a query delivers, the rows and then an
    error that ended them; a [Row] is one row or the error its [Scan] reports. *)
Record Text : Type := mkText { Text_String : string; Text_Valid : bool }.

Record Rows : Type := mkRows { rows_left : list row; rows_Err : option GoError }.

Record DBTX : Type := mkDBTX {
  db_Exec : string → list Value → M World GoError Z;
  db_Query : string → list Value → M World GoError Rows;
  db_QueryRow : string → list Value → M World GoError (GoError + row) }.

Record Queries : Type := mkQueries { db : DBTX }.

Definition New (db : DBTX) : Queries := mkQueries db.

Definition WithTx (q : Queries) (tx : DBTX) : Queries := mkQueries tx.

(** *** Scanning

    [Scan] takes the columns of a row from left to right; it fails on a column
    its destination cannot hold and when their numbers differ. *)
Definition scan_into {A B} (d : Value → option A) (k : A → row → option B) : row → option B := λ r,
  match r with
  | [] => None
  | v :: r' => match d v with Some a => k a r' | None => None end
  end.

Definition filled {A} (a : A) : row → option A := λ r, match r with [] => Some a | _ => None end.

Notation "'scan!' x ':=' d 'in' k" := (scan_into d (λ x, k))
  (at level 10, x binder, d at level 100, k at level 200) : go_scope.

Definition to_uuid (v : Value) : option UUID := match v with VUuid u => Some u | _ => None end.
Definition to_text (v : Value) : option string := match v with VText s => Some s | _ => None end.
Definition to_time (v : Value) : option Time := match v with VTime t => Some t | _ => None end.
Definition to_int (v : Value) : option Z := match v with VInt z => Some z | _ => None end.
Definition to_pgtext (v : Value) : option Text :=
  match v with VText s => Some (mkText s true) | VNull => Some (mkText "" false) | _ => None end.

(** A pgtype.Text as an argument. *)
Definition text_value (t : Text) : Value := if Text_Valid t then VText (Text_String t) else VNull.

Definition cannot_scan : GoError := EForeign "can't scan into dest".

(** [var i T; err := row.Scan(...); return i, err] *)
Definition Row_Scan {A} (r : GoError + row) (scan : row → option A) : M World GoError A :=
  match r with
  | inl e => throw e
  | inr x => match scan x with Some i => ret i | None => throw cannot_scan end
  end.

(** [for rows.Next() { var i T; if err := rows.Scan(...); err != nil { return nil, err };
    items = append(items, i) }] *)
Fixpoint scan_rows {A} (scan : row → option A) (rows : list row) (items : list A) : GoError + list A :=
  match rows with
  | [] => inr items
  | r :: rows' =>
      match scan r with
      | None => inl cannot_scan
      | Some i => scan_rows scan rows' (items ++ [i])
      end
  end.

(** The loop, then [if err := rows.Err(); err != nil { return nil, err }; return items, nil]. *)
Definition collect {A} (rows : Rows) (scan : row → option A) : M World GoError (list A) :=
  match scan_rows scan (rows_left rows) [] with
  | inl e => throw e
  | inr items => match rows_Err rows with Some e => throw e | None => ret items end
  end.

(** ** models.go *)
Record Collection : Type := mkCollection {
  Collection_ID : UUID;
  Collection_UserID : UUID;
  Collection_Name : string;
  Collection_CreatedAt : Time }.

Record CollectionQrItem : Type := mkCollectionQrItem {
  CollectionQrItem_CollectionID : UUID;
  CollectionQrItem_QrID : UUID }.

Record Consumption : Type := mkConsumption {
  Consumption_UserID : UUID;
  Consumption_Ts : Time;
  Consumption_TeaID : UUID }.

Record Device : Type := mkDevice {
  Device_ID : UUID;
  Device_UserID : UUID;
  Device_Token : string;
  Device_CreatedAt : Time }.

Record Notification : Type := mkNotification {
  Notification_ID : UUID;
  Notification_UserID : UUID;
  Notification_Type : Z;
  Notification_CreatedAt : Time }.

Record QrRecord : Type := mkQrRecord {
  QrRecord_ID : UUID;
  QrRecord_TeaID : UUID;
  QrRecord_BoilingTemp : Z;
  QrRecord_ExpirationDate : Time;
  QrRecord_CreatedAt : Time }.

Record Tag : Type := mkTag {
  Tag_ID : UUID;
  Tag_Name : string;
  Tag_Color : string;
  Tag_CategoryID : UUID }.

Record TagCategory : Type := mkTagCategory {
  TagCategory_ID : UUID;
  TagCategory_Name : string }.

Record Tea : Type := mkTea {
  Tea_ID : UUID;
  Tea_Name : string;
  Tea_Type : string;
  Tea_Description : Text;
  Tea_CreatedAt : Time }.

Record TeaTag : Type := mkTeaTag {
  TeaTag_TeaID : UUID;
  TeaTag_TagID : UUID }.

Record User : Type := mkUser {
  User_ID : UUID;
  User_AppleID : string;
  User_CreatedAt : Time }.

(** ** users.sql.go *)
Definition ListUsers (q : Queries) : M World GoError (list User) :=
  let! rows := db_Query (db q) GeneratedTexts.listUsers [] in
  collect rows (scan! id_ := to_uuid in scan! appleid_ := to_text in scan! createdat_ := to_time in
    filled (mkUser id_ appleid_ createdat_)).

Record UpsertUserParams : Type := mkUpsertUserParams {
  UpsertUserParams_ID : UUID;
  UpsertUserParams_AppleID : string }.

Definition UpsertUser (q : Queries) (arg : UpsertUserParams) : M World GoError User :=
  let! row := db_QueryRow (db q) GeneratedTexts.upsertUser [VUuid (UpsertUserParams_ID arg);
    VText (UpsertUserParams_AppleID arg)] in
  Row_Scan row (scan! id_ := to_uuid in scan! appleid_ := to_text in scan! createdat_ := to_time in
    filled (mkUser id_ appleid_ createdat_)).

(** ** teas.sql.go *)
Definition DeleteTea (q : Queries) (id : UUID) : M World GoError unit :=
  do! db_Exec (db q) GeneratedTexts.deleteTea [VUuid id] in
  ret tt.

Definition GetTea (q : Queries) (id : UUID) : M World GoError Tea :=
  let! row := db_QueryRow (db q) GeneratedTexts.getTea [VUuid id] in
  Row_Scan row (scan! id_ := to_uuid in scan! name_ := to_text in scan! type_ := to_text in
    scan! description_ := to_pgtext in scan! createdat_ := to_time in
    filled (mkTea id_ name_ type_ description_ createdat_)).

Record InsertTeaParams : Type := mkInsertTeaParams {
  InsertTeaParams_ID : UUID;
  InsertTeaParams_Name : string;
  InsertTeaParams_Type : string;
  InsertTeaParams_Description : Text }.

Definition InsertTea (q : Queries) (arg : InsertTeaParams) : M World GoError Tea :=
  let! row := db_QueryRow (db q) GeneratedTexts.insertTea [VUuid (InsertTeaParams_ID arg);
    VText (InsertTeaParams_Name arg); VText (InsertTeaParams_Type arg);
    text_value (InsertTeaParams_Description arg)] in
  Row_Scan row (scan! id_ := to_uuid in scan! name_ := to_text in scan! type_ := to_text in
    scan! description_ := to_pgtext in scan! createdat_ := to_time in
    filled (mkTea id_ name_ type_ description_ createdat_)).

Definition ListTeas (q : Queries) : M World GoError (list Tea) :=
  let! rows := db_Query (db q) GeneratedTexts.listTeas [] in
  collect rows (scan! id_ := to_uuid in scan! name_ := to_text in scan! type_ := to_text in
    scan! description_ := to_pgtext in scan! createdat_ := to_time in
    filled (mkTea id_ name_ type_ description_ createdat_)).

Record SearchTeasByPrefixParams : Type := mkSearchTeasByPrefixParams {
  SearchTeasByPrefixParams_Lower : string;
  SearchTeasByPrefixParams_Limit : Z }.

Definition SearchTeasByPrefix (q : Queries) (arg : SearchTeasByPrefixParams) : M World GoError (list Tea) :=
  let! rows := db_Query (db q) GeneratedTexts.searchTeasByPrefix [VText (SearchTeasByPrefixParams_Lower arg);
    VInt (SearchTeasByPrefixParams_Limit arg)] in
  collect rows (scan! id_ := to_uuid in scan! name_ := to_text in scan! type_ := to_text in
    scan! description_ := to_pgtext in scan! createdat_ := to_time in
    filled (mkTea id_ name_ type_ description_ createdat_)).

Record UpdateTeaParams : Type := mkUpdateTeaParams {
  UpdateTeaParams_ID : UUID;
  UpdateTeaParams_Name : string;
  UpdateTeaParams_Type : string;
  UpdateTeaParams_Description : Text }.

Definition UpdateTea (q : Queries) (arg : UpdateTeaParams) : M World GoError Tea :=
  let! row := db_QueryRow (db q) GeneratedTexts.updateTea [VUuid (UpdateTeaParams_ID arg);
    VText (UpdateTeaParams_Name arg); VText (UpdateTeaParams_Type arg);
    text_value (UpdateTeaParams_Description arg)] in
  Row_Scan row (scan! id_ := to_uuid in scan! name_ := to_text in scan! type_ := to_text in
    scan! description_ := to_pgtext in scan! createdat_ := to_time in
    filled (mkTea id_ name_ type_ description_ createdat_)).

(** ** tags.sql.go *)
Record AddTagToTeaParams : Type := mkAddTagToTeaParams {
  AddTagToTeaParams_TeaID : UUID;
  AddTagToTeaParams_TagID : UUID }.

Definition AddTagToTea (q : Queries) (arg : AddTagToTeaParams) : M World GoError unit :=
  do! db_Exec (db q) GeneratedTexts.addTagToTea [VUuid (AddTagToTeaParams_TeaID arg);
    VUuid (AddTagToTeaParams_TagID arg)] in
  ret tt.

Record ChangeTagCategoryParams : Type := mkChangeTagCategoryParams {
  ChangeTagCategoryParams_ID : UUID;
  ChangeTagCategoryParams_CategoryID : UUID }.

Definition ChangeTagCategory (q : Queries) (arg : ChangeTagCategoryParams) : M World GoError Tag :=
  let! row := db_QueryRow (db q) GeneratedTexts.changeTagCategory [VUuid (ChangeTagCategoryParams_ID arg);
    VUuid (ChangeTagCategoryParams_CategoryID arg)] in
  Row_Scan row (scan! id_ := to_uuid in scan! name_ := to_text in scan! color_ := to_text in
    scan! categoryid_ := to_uuid in filled (mkTag id_ name_ color_ categoryid_)).

Definition DeleteTag (q : Queries) (id : UUID) : M World GoError unit :=
  do! db_Exec (db q) GeneratedTexts.deleteTag [VUuid id] in
  ret tt.

Definition DeleteTagCategory (q : Queries) (id : UUID) : M World GoError unit :=
  do! db_Exec (db q) GeneratedTexts.deleteTagCategory [VUuid id] in
  ret tt.

Record DeleteTagFromTeaParams : Type := mkDeleteTagFromTeaParams {
  DeleteTagFromTeaParams_TeaID : UUID;
  DeleteTagFromTeaParams_TagID : UUID }.

Definition DeleteTagFromTea (q : Queries) (arg : DeleteTagFromTeaParams) : M World GoError unit :=
  do! db_Exec (db q) GeneratedTexts.deleteTagFromTea [VUuid (DeleteTagFromTeaParams_TeaID arg);
    VUuid (DeleteTagFromTeaParams_TagID arg)] in
  ret tt.

Definition DeleteTagsByCategory (q : Queries) (categoryID : UUID) : M World GoError unit :=
  do! db_Exec (db q) GeneratedTexts.deleteTagsByCategory [VUuid categoryID] in
  ret tt.

Definition GetTag (q : Queries) (id : UUID) : M World GoError Tag :=
  let! row := db_QueryRow (db q) GeneratedTexts.getTag [VUuid id] in
  Row_Scan row (scan! id_ := to_uuid in scan! name_ := to_text in scan! color_ := to_text in
    scan! categoryid_ := to_uuid in filled (mkTag id_ name_ color_ categoryid_)).

Definition GetTagCategory (q : Queries) (id : UUID) : M World GoError TagCategory :=
  let! row := db_QueryRow (db q) GeneratedTexts.getTagCategory [VUuid id] in
  Row_Scan row (scan! id_ := to_uuid in scan! name_ := to_text in filled (mkTagCategory id_ name_)).

Record InsertTagParams : Type := mkInsertTagParams {
  InsertTagParams_ID : UUID;
  InsertTagParams_Name : string;
  InsertTagParams_Color : string;
  InsertTagParams_CategoryID : UUID }.

Definition InsertTag (q : Queries) (arg : InsertTagParams) : M World GoError Tag :=
  let! row := db_QueryRow (db q) GeneratedTexts.insertTag [VUuid (InsertTagParams_ID arg);
    VText (InsertTagParams_Name arg); VText (InsertTagParams_Color arg);
    VUuid (InsertTagParams_CategoryID arg)] in
  Row_Scan row (scan! id_ := to_uuid in scan! name_ := to_text in scan! color_ := to_text in
    scan! categoryid_ := to_uuid in filled (mkTag id_ name_ color_ categoryid_)).

Record InsertTagCategoryParams : Type := mkInsertTagCategoryParams {
  InsertTagCategoryParams_ID : UUID;
  InsertTagCategoryParams_Name : string }.

Definition InsertTagCategory (q : Queries) (arg : InsertTagCategoryParams) : M World GoError TagCategory :=
  let! row := db_QueryRow (db q) GeneratedTexts.insertTagCategory [VUuid (InsertTagCategoryParams_ID arg);
    VText (InsertTagCategoryParams_Name arg)] in
  Row_Scan row (scan! id_ := to_uuid in scan! name_ := to_text in filled (mkTagCategory id_ name_)).

Definition ListTagCategories (q : Queries) : M World GoError (list TagCategory) :=
  let! rows := db_Query (db q) GeneratedTexts.listTagCategories [] in
  collect rows (scan! id_ := to_uuid in scan! name_ := to_text in filled (mkTagCategory id_ name_)).

Definition ListTags (q : Queries) : M World GoError (list Tag) :=
  let! rows := db_Query (db q) GeneratedTexts.listTags [] in
  collect rows (scan! id_ := to_uuid in scan! name_ := to_text in scan! color_ := to_text in
    scan! categoryid_ := to_uuid in filled (mkTag id_ name_ color_ categoryid_)).

Definition ListTagsByCategory (q : Queries) (categoryID : UUID) : M World GoError (list Tag) :=
  let! rows := db_Query (db q) GeneratedTexts.listTagsByCategory [VUuid categoryID] in
  collect rows (scan! id_ := to_uuid in scan! name_ := to_text in scan! color_ := to_text in
    scan! categoryid_ := to_uuid in filled (mkTag id_ name_ color_ categoryid_)).

Definition ListTagsByCategoryFilter (q : Queries) (categoryID : UUID) : M World GoError (list Tag) :=
  let! rows := db_Query (db q) GeneratedTexts.listTagsByCategoryFilter [VUuid categoryID] in
  collect rows (scan! id_ := to_uuid in scan! name_ := to_text in scan! color_ := to_text in
    scan! categoryid_ := to_uuid in filled (mkTag id_ name_ color_ categoryid_)).

Definition ListTagsByName (q : Queries) (lower : string) : M World GoError (list Tag) :=
  let! rows := db_Query (db q) GeneratedTexts.listTagsByName [VText lower] in
  collect rows (scan! id_ := to_uuid in scan! name_ := to_text in scan! color_ := to_text in
    scan! categoryid_ := to_uuid in filled (mkTag id_ name_ color_ categoryid_)).

Record ListTagsByNameCategoryParams : Type := mkListTagsByNameCategoryParams {
  ListTagsByNameCategoryParams_Lower : string;
  ListTagsByNameCategoryParams_CategoryID : UUID }.

Definition ListTagsByNameCategory (q : Queries) (arg : ListTagsByNameCategoryParams) : M World GoError (list Tag) :=
  let! rows := db_Query (db q) GeneratedTexts.listTagsByNameCategory [VText (ListTagsByNameCategoryParams_Lower arg);
    VUuid (ListTagsByNameCategoryParams_CategoryID arg)] in
  collect rows (scan! id_ := to_uuid in scan! name_ := to_text in scan! color_ := to_text in
    scan! categoryid_ := to_uuid in filled (mkTag id_ name_ color_ categoryid_)).

Definition ListTagsByTea (q : Queries) (teaID : UUID) : M World GoError (list Tag) :=
  let! rows := db_Query (db q) GeneratedTexts.listTagsByTea [VUuid teaID] in
  collect rows (scan! id_ := to_uuid in scan! name_ := to_text in scan! color_ := to_text in
    scan! categoryid_ := to_uuid in filled (mkTag id_ name_ color_ categoryid_)).

Definition SearchTagCategories (q : Queries) (lower : string) : M World GoError (list TagCategory) :=
  let! rows := db_Query (db q) GeneratedTexts.searchTagCategories [VText lower] in
  collect rows (scan! id_ := to_uuid in scan! name_ := to_text in filled (mkTagCategory id_ name_)).

Record UpdateTagParams : Type := mkUpdateTagParams {
  UpdateTagParams_ID : UUID;
  UpdateTagParams_Name : string;
  UpdateTagParams_Color : string }.

Definition UpdateTag (q : Queries) (arg : UpdateTagParams) : M World GoError Tag :=
  let! row := db_QueryRow (db q) GeneratedTexts.updateTag [VUuid (UpdateTagParams_ID arg);
    VText (UpdateTagParams_Name arg); VText (UpdateTagParams_Color arg)] in
  Row_Scan row (scan! id_ := to_uuid in scan! name_ := to_text in scan! color_ := to_text in
    scan! categoryid_ := to_uuid in filled (mkTag id_ name_ color_ categoryid_)).

Record UpdateTagCategoryParams : Type := mkUpdateTagCategoryParams {
  UpdateTagCategoryParams_ID : UUID;
  UpdateTagCategoryParams_Name : string }.

Definition UpdateTagCategory (q : Queries) (arg : UpdateTagCategoryParams) : M World GoError TagCategory :=
  let! row := db_QueryRow (db q) GeneratedTexts.updateTagCategory [VUuid (UpdateTagCategoryParams_ID arg);
    VText (UpdateTagCategoryParams_Name arg)] in
  Row_Scan row (scan! id_ := to_uuid in scan! name_ := to_text in filled (mkTagCategory id_ name_)).

(** ** qr.sql.go *)
Definition GetQR (q : Queries) (id : UUID) : M World GoError QrRecord :=
  let! row := db_QueryRow (db q) GeneratedTexts.getQR [VUuid id] in
  Row_Scan row (scan! id_ := to_uuid in scan! teaid_ := to_uuid in scan! boilingtemp_ := to_int in
    scan! expirationdate_ := to_time in scan! createdat_ := to_time in
    filled (mkQrRecord id_ teaid_ boilingtemp_ expirationdate_ createdat_)).

Record UpsertQRParams : Type := mkUpsertQRParams {
  UpsertQRParams_ID : UUID;
  UpsertQRParams_TeaID : UUID;
  UpsertQRParams_BoilingTemp : Z;
  UpsertQRParams_ExpirationDate : Time }.

Definition UpsertQR (q : Queries) (arg : UpsertQRParams) : M World GoError unit :=
  do! db_Exec (db q) GeneratedTexts.upsertQR [VUuid (UpsertQRParams_ID arg);
    VUuid (UpsertQRParams_TeaID arg); VInt (UpsertQRParams_BoilingTemp arg);
    VTime (UpsertQRParams_ExpirationDate arg)] in
  ret tt.

(** ** collections.sql.go *)
Record DeleteCollectionParams : Type := mkDeleteCollectionParams {
  DeleteCollectionParams_ID : UUID;
  DeleteCollectionParams_UserID : UUID }.

Definition DeleteCollection (q : Queries) (arg : DeleteCollectionParams) : M World GoError unit :=
  do! db_Exec (db q) GeneratedTexts.deleteCollection [VUuid (DeleteCollectionParams_ID arg);
    VUuid (DeleteCollectionParams_UserID arg)] in
  ret tt.

Record DeleteCollectionItemParams : Type := mkDeleteCollectionItemParams {
  DeleteCollectionItemParams_CollectionID : UUID;
  DeleteCollectionItemParams_QrID : UUID }.

Definition DeleteCollectionItem (q : Queries) (arg : DeleteCollectionItemParams) : M World GoError unit :=
  do! db_Exec (db q) GeneratedTexts.deleteCollectionItem [VUuid (DeleteCollectionItemParams_CollectionID arg);
    VUuid (DeleteCollectionItemParams_QrID arg)] in
  ret tt.

Record GetCollectionParams : Type := mkGetCollectionParams {
  GetCollectionParams_ID : UUID;
  GetCollectionParams_UserID : UUID }.

Definition GetCollection (q : Queries) (arg : GetCollectionParams) : M World GoError Collection :=
  let! row := db_QueryRow (db q) GeneratedTexts.getCollection [VUuid (GetCollectionParams_ID arg);
    VUuid (GetCollectionParams_UserID arg)] in
  Row_Scan row (scan! id_ := to_uuid in scan! userid_ := to_uuid in scan! name_ := to_text in
    scan! createdat_ := to_time in filled (mkCollection id_ userid_ name_ createdat_)).

Record InsertCollectionParams : Type := mkInsertCollectionParams {
  InsertCollectionParams_ID : UUID;
  InsertCollectionParams_UserID : UUID;
  InsertCollectionParams_Name : string }.

Definition InsertCollection (q : Queries) (arg : InsertCollectionParams) : M World GoError Collection :=
  let! row := db_QueryRow (db q) GeneratedTexts.insertCollection [VUuid (InsertCollectionParams_ID arg);
    VUuid (InsertCollectionParams_UserID arg); VText (InsertCollectionParams_Name arg)] in
  Row_Scan row (scan! id_ := to_uuid in scan! userid_ := to_uuid in scan! name_ := to_text in
    scan! createdat_ := to_time in filled (mkCollection id_ userid_ name_ createdat_)).

Record InsertCollectionItemParams : Type := mkInsertCollectionItemParams {
  InsertCollectionItemParams_CollectionID : UUID;
  InsertCollectionItemParams_QrID : UUID }.

Definition InsertCollectionItem (q : Queries) (arg : InsertCollectionItemParams) : M World GoError unit :=
  do! db_Exec (db q) GeneratedTexts.insertCollectionItem [VUuid (InsertCollectionItemParams_CollectionID arg);
    VUuid (InsertCollectionItemParams_QrID arg)] in
  ret tt.

Record ListCollectionRecordsRow : Type := mkListCollectionRecordsRow {
  ListCollectionRecordsRow_QrID : UUID;
  ListCollectionRecordsRow_TeaID : UUID;
  ListCollectionRecordsRow_Name : string;
  ListCollectionRecordsRow_Type : string;
  ListCollectionRecordsRow_Description : Text;
  ListCollectionRecordsRow_BoilingTemp : Z;
  ListCollectionRecordsRow_ExpirationDate : Time }.

Definition ListCollectionRecords (q : Queries) (collectionID : UUID) : M World GoError (list ListCollectionRecordsRow) :=
  let! rows := db_Query (db q) GeneratedTexts.listCollectionRecords [VUuid collectionID] in
  collect rows (scan! qrid_ := to_uuid in scan! teaid_ := to_uuid in scan! name_ := to_text in
    scan! type_ := to_text in scan! description_ := to_pgtext in scan! boilingtemp_ := to_int in
    scan! expirationdate_ := to_time in
    filled (mkListCollectionRecordsRow qrid_ teaid_ name_ type_ description_ boilingtemp_ expirationdate_)).

Definition ListCollections (q : Queries) (userID : UUID) : M World GoError (list Collection) :=
  let! rows := db_Query (db q) GeneratedTexts.listCollections [VUuid userID] in
  collect rows (scan! id_ := to_uuid in scan! userid_ := to_uuid in scan! name_ := to_text in
    scan! createdat_ := to_time in filled (mkCollection id_ userid_ name_ createdat_)).

(** ** devices.sql.go *)
Record InsertDeviceParams : Type := mkInsertDeviceParams {
  InsertDeviceParams_ID : UUID;
  InsertDeviceParams_UserID : UUID;
  InsertDeviceParams_Token : string }.

Definition InsertDevice (q : Queries) (arg : InsertDeviceParams) : M World GoError unit :=
  do! db_Exec (db q) GeneratedTexts.insertDevice [VUuid (InsertDeviceParams_ID arg);
    VUuid (InsertDeviceParams_UserID arg); VText (InsertDeviceParams_Token arg)] in
  ret tt.

Definition ListDeviceTokens (q : Queries) (userID : UUID) : M World GoError (list string) :=
  let! rows := db_Query (db q) GeneratedTexts.listDeviceTokens [VUuid userID] in
  collect rows (scan! token := to_text in filled token).

Record UpdateDeviceTokenParams : Type := mkUpdateDeviceTokenParams {
  UpdateDeviceTokenParams_ID : UUID;
  UpdateDeviceTokenParams_Token : string }.

Definition UpdateDeviceToken (q : Queries) (arg : UpdateDeviceTokenParams) : M World GoError unit :=
  do! db_Exec (db q) GeneratedTexts.updateDeviceToken [VUuid (UpdateDeviceTokenParams_ID arg);
    VText (UpdateDeviceTokenParams_Token arg)] in
  ret tt.

(** ** notifications.sql.go *)
Definition ListNotifications (q : Queries) (userID : UUID) : M World GoError (list Notification) :=
  let! rows := db_Query (db q) GeneratedTexts.listNotifications [VUuid userID] in
  collect rows (scan! id_ := to_uuid in scan! userid_ := to_uuid in scan! type_ := to_int in
    scan! createdat_ := to_time in filled (mkNotification id_ userid_ type_ createdat_)).

(** ** consumptions.sql.go *)
Record DeleteConsumptionsBeforeParams : Type := mkDeleteConsumptionsBeforeParams {
  DeleteConsumptionsBeforeParams_UserID : UUID;
  DeleteConsumptionsBeforeParams_Ts : Time }.

Definition DeleteConsumptionsBefore (q : Queries) (arg : DeleteConsumptionsBeforeParams) : M World GoError unit :=
  do! db_Exec (db q) GeneratedTexts.deleteConsumptionsBefore [VUuid (DeleteConsumptionsBeforeParams_UserID arg);
    VTime (DeleteConsumptionsBeforeParams_Ts arg)] in
  ret tt.

Record InsertConsumptionParams : Type := mkInsertConsumptionParams {
  InsertConsumptionParams_UserID : UUID;
  InsertConsumptionParams_Ts : Time;
  InsertConsumptionParams_TeaID : UUID }.

Definition InsertConsumption (q : Queries) (arg : InsertConsumptionParams) : M World GoError unit :=
  do! db_Exec (db q) GeneratedTexts.insertConsumption [VUuid (InsertConsumptionParams_UserID arg);
    VTime (InsertConsumptionParams_Ts arg); VUuid (InsertConsumptionParams_TeaID arg)] in
  ret tt.

Record ListConsumptionsSinceParams : Type := mkListConsumptionsSinceParams {
  ListConsumptionsSinceParams_UserID : UUID;
  ListConsumptionsSinceParams_Ts : Time }.

Record ListConsumptionsSinceRow : Type := mkListConsumptionsSinceRow {
  ListConsumptionsSinceRow_Ts : Time;
  ListConsumptionsSinceRow_TeaID : UUID }.

Definition ListConsumptionsSince (q : Queries) (arg : ListConsumptionsSinceParams) : M World GoError (list ListConsumptionsSinceRow) :=
  let! rows := db_Query (db q) GeneratedTexts.listConsumptionsSince [VUuid (ListConsumptionsSinceParams_UserID arg);
    VTime (ListConsumptionsSinceParams_Ts arg)] in
  collect rows (scan! ts_ := to_time in scan! teaid_ := to_uuid in
    filled (mkListConsumptionsSinceRow ts_ teaid_)).

(** ** A connection of pgx

    What the documentation of pgx promises of a connection (and of a transaction)
    over the server of [Engine]: a statement is one round trip; a refusal may be
    reported by [Query] or, before any row, by [Rows.Err]; the [Scan] of a row
    that is not there reports [pgx.ErrNoRows]. *)
Section pgx.
Context `{Env} (pgx_ErrNoRows : GoError).

Record pgx_laws (db : DBTX) : Prop := {
  pgx_Exec : ∀ text args w,
    db_Exec db text args w = (let! a := exec (sql text args) in ret (ans_affected a)) w;
  pgx_Query : ∀ text args w,
    (let! rows := db_Query db text args in
     match rows_Err rows with Some e => throw e | None => ret (rows_left rows) end) w
    = (let! a := exec (sql text args) in ret (ans_rows a)) w;
  pgx_Query_Err : ∀ text args w rows w',
    db_Query db text args w = (Ok rows, w') -> rows_Err rows = None ∨ rows_left rows = [];
  pgx_QueryRow : ∀ text args w,
    db_QueryRow db text args w =
    (let! r := try (exec (sql text args)) in
     ret (match r with
          | inl e => inl e
          | inr a => match ans_rows a with [] => inl pgx_ErrNoRows | x :: _ => inr x end
          end)) w }.

(** A connection that reports the refusals of the server late and the failures of
    the network at once. *)
Definition pgx_Conn : DBTX := {|
  db_Exec text args := let! a := exec (sql text args) in ret (ans_affected a);
  db_Query text args :=
    let! r := try (exec (sql text args)) in
    match r with
    | inl (ESql e) => ret (mkRows [] (Some (ESql e)))
    | inl e => throw e
    | inr a => ret (mkRows (ans_rows a) None)
    end;
  db_QueryRow text args :=
    let! r := try (exec (sql text args)) in
    ret (match r with
         | inl e => inl e
         | inr a => match ans_rows a with [] => inl pgx_ErrNoRows | x :: _ => inr x end
         end) |}.

(** ** Agreement of the two packages

    The same state after a call, the same answer up to the type of its records,
    the same error, but for a row that is not there. *)
Definition agrees {A B} (f : A → B) (m : M World GoError B) (m' : M World GoError A) : Prop :=
  ∀ w, world_wf w ->
  match m' w with
  | (Ok a, w') => m w = (Ok (f a), w')
  | (Err e, w') => m w = (Err (if decide (e = ESentinel SqlErrNoRows) then pgx_ErrNoRows else e), w')
  | (Panic, _) | (Blocked, _) => False
  end.

(** The records of one package as those of the other. *)
Definition of_text (o : option string) : Text :=
  match o with Some s => mkText s true | None => mkText "" false end.
Definition text_of (t : Text) : option string := if Text_Valid t then Some (Text_String t) else None.
Definition of_user (p : UUID * UserRow) : User := mkUser p.1 (user_apple_id p.2) (user_created_at p.2).
Definition of_tea (p : UUID * TeaRow) : Tea :=
  mkTea p.1 (tea_name p.2) (tea_type p.2) (of_text (tea_description p.2)) (tea_created_at p.2).
Definition of_tag (p : UUID * TagRow) : Tag := mkTag p.1 (tag_name p.2) (tag_color p.2) (tag_category_id p.2).
Definition of_category (p : UUID * string) : TagCategory := mkTagCategory p.1 p.2.
Definition of_qr (p : UUID * QRRow) : QrRecord :=
  mkQrRecord p.1 (qrr_tea_id p.2) (qrr_boiling_temp p.2) (qrr_expiration_date p.2) (qrr_created_at p.2).
Definition of_collection (p : UUID * CollectionRow) : Collection :=
  mkCollection p.1 (coll_user_id p.2) (coll_name p.2) (coll_created_at p.2).
Definition of_notification (p : UUID * NotificationRow) : Notification :=
  mkNotification p.1 (notif_user_id p.2) (notif_type p.2) (notif_created_at p.2).
Definition of_consumption (p : Time * UUID) : ListConsumptionsSinceRow := mkListConsumptionsSinceRow p.1 p.2.
Definition of_record (r : Sql.ListCollectionRecordsRow) : ListCollectionRecordsRow :=
  mkListCollectionRecordsRow (lcr_QRID r) (lcr_TeaID r) (lcr_Name r) (lcr_Type r) (of_text (lcr_Description r))
    (lcr_BoilingTemp r) (lcr_ExpirationDate r).

(** ** Lemmas *)
Lemma pgx_Conn_laws : pgx_laws pgx_Conn.
Proof.
  split; try done; intros text args w; simpl; unfold bind, try.
  - destruct (exec_returns (sql text args) w) as [(a & w' & ->)|(e & w' & ->)]; [done|]. by destruct e.
  - intros rows w'. destruct (exec_returns (sql text args) w) as [(a & w1 & ->)|(e & w1 & ->)].
    + intros [= <- <-]. by left.
    + destruct e; intros [= <- <-]; by right.
Qed.

(** A text that parses like another means the same. *)
Lemma means_as {A} text text' args R (st : Stmt A) :
  parse_statement text' = parse_statement text -> means text args R st -> means text' args R st.
Proof.
  intros Hp Hm now d Hd. specialize (Hm now d Hd). unfold sql in *. by rewrite Hp.
Qed.

(** A round trip of a text and of the statement it means. *)
Lemma exec_means {A} text args R (st : Stmt A) w :
  means text args R st -> world_wf w ->
  (∃ a ans w', exec st w = (Ok a, w') ∧ exec (sql text args) w = (Ok ans, w') ∧ R a ans) ∨
  (∃ e w', exec st w = (Err e, w') ∧ exec (sql text args) w = (Err e, w') ∧ e ≠ ESentinel SqlErrNoRows).
Proof.
  intros Hm Hw. specialize (Hm (pg_now (w_tick w)) (w_db w) Hw).
  unfold exec, World_PgClient, World_exec. destruct (pg_fault (w_tick w)) as [[msg|msg]|].
  - right. by eexists _, _.
  - right. destruct (sql _ _ _ _) as [e|[ans d1]], (st _ _) as [e'|[a d2]]; try done; [by eexists _, _|].
    destruct Hm as [_ ->]. by eexists _, _.
  - destruct (sql _ _ _ _) as [e|[ans d1]], (st _ _) as [e'|[a d2]]; try done.
    + subst. right. by eexists _, _.
    + destruct Hm as [HR ->]. left. by eexists _, _, _.
Qed.

Lemma scan_rows_all {A B} (enc : A → row) (f : A → B) (scan : row → option B) l items :
  (∀ a, scan (enc a) = Some (f a)) -> scan_rows scan (enc <$> l) items = inr (items ++ (f <$> l)).
Proof.
  intros Hs. revert items. induction l as [|a l IH]; intros items; csimpl; [by rewrite app_nil_r|].
  by rewrite Hs, IH, <-app_assoc.
Qed.

Context (db : DBTX) (Hdb : pgx_laws db).

Lemma agrees_exec {A} text text' args R (st : Stmt A) :
  means text args R st -> parse_statement text' = parse_statement text ->
  agrees (λ _, tt) (do! db_Exec db text' args in ret tt) (exec st).
Proof.
  intros Hm Hp w Hw. destruct (exec_means text' args R st w) as [(a & ans & w' & -> & Hs & _)|(e & w' & -> & Hs & Hne)];
    [by eapply means_as|done|..]; unfold bind at 1; rewrite (pgx_Exec db Hdb); unfold bind; rewrite Hs; [done|].
  by rewrite decide_False.
Qed.

Lemma agrees_one {A B} text text' args (enc : A → row) (st : Stmt (option A)) (f : A → B) scan :
  means text args (one enc) st -> parse_statement text' = parse_statement text ->
  (∀ a, scan (enc a) = Some (f a)) ->
  agrees f (let! r := db_QueryRow db text' args in Row_Scan r scan) (query_row st).
Proof.
  intros Hm Hp Hscan w Hw. unfold query_row.
  destruct (exec_means text' args (one enc) st w) as [(o & ans & w' & Hst & Hs & HR)|(e & w' & Hst & Hs & Hne)];
    [by eapply means_as|done|..]; unfold bind; rewrite (pgx_QueryRow db Hdb), Hst; unfold bind, try; rewrite Hs.
  - unfold one in HR. rewrite HR. destruct o as [a|]; simpl; [by rewrite Hscan|]. done.
  - simpl. by rewrite decide_False.
Qed.

Lemma agrees_many {A B} text text' args (enc : A → row) (st : Stmt (list A)) (f : A → B) scan :
  means text args (many enc) st -> parse_statement text' = parse_statement text ->
  (∀ a, scan (enc a) = Some (f a)) ->
  agrees (fmap f) (let! rows := db_Query db text' args in collect rows scan) (exec st).
Proof.
  intros Hm Hp Hscan w Hw. pose proof (pgx_Query db Hdb text' args w) as HQ. unfold bind in HQ |- *.
  destruct (exec_means text' args (many enc) st w) as [(l & ans & w' & -> & Hs & HR)|(e & w' & -> & Hs & Hne)];
    [by eapply means_as|done|..]; rewrite Hs in HQ; simpl in HQ.
  - destruct (db_Query db text' args w) as [[rows|?| |] w1]; [|done..].
    destruct (rows_Err rows) eqn:He; [done|]. unfold ret in HQ. injection HQ as Hl ->.
    unfold collect. by rewrite Hl, HR, (scan_rows_all enc f), He.
  - rewrite decide_False by done. destruct (db_Query db text' args w) as [[rows|e1| |] w1] eqn:HQw; [|by simplify_eq|done..].
    destruct (pgx_Query_Err db Hdb _ _ _ _ _ HQw) as [He|He].
    + by rewrite He in HQ.
    + unfold collect. rewrite He in HQ |- *. simpl. unfold throw in *. destruct (rows_Err rows); by simplify_eq.
Qed.

Lemma text_value_null t : text_value t = null_text (text_of t).
Proof. unfold text_value, text_of. by destruct (Text_Valid t). Qed.

(** A column of each kind fits the destination of its type. *)
Ltac scanned := intros a; unfold of_tea, of_record; cbn; try match goal with |- context [null_text ?o] => destruct o end; reflexivity.

Create HintDb sqlc.
#[local] Hint Unfold
  ListUsers UpsertUser DeleteTea GetTea InsertTea ListTeas SearchTeasByPrefix UpdateTea AddTagToTea
  ChangeTagCategory DeleteTag DeleteTagCategory DeleteTagFromTea DeleteTagsByCategory GetTag
  GetTagCategory InsertTag InsertTagCategory ListTagCategories ListTags ListTagsByCategory
  ListTagsByCategoryFilter ListTagsByName ListTagsByNameCategory ListTagsByTea SearchTagCategories
  UpdateTag UpdateTagCategory GetQR UpsertQR DeleteCollection DeleteCollectionItem GetCollection
  InsertCollection InsertCollectionItem ListCollectionRecords ListCollections InsertDevice
  ListDeviceTokens UpdateDeviceToken ListNotifications DeleteConsumptionsBefore InsertConsumption
  ListConsumptionsSince : sqlc.

(** A method unfolds to one round trip; its text means the statement of the other
    package. *)
Ltac same_method :=
  intros; autounfold with sqlc go_preserves; rewrite ?text_value_null;
  first [eapply agrees_exec|eapply agrees_one|eapply agrees_many];
  [by eauto 1 with means|vm_compute; reflexivity|..]; scanned.

(** ** Properties *)

(** C29: the generated package is interchangeable with the one the server uses.
    Over any connection with the behaviour pgx documents, on a consistent
    database, every method of src/db/pkg/pgstore leaves the state its handwritten
    counterpart in src/pkg/pgstore leaves, fails exactly when that fails and with
    the same error, and answers the same rows, each column in its field; only a
    row that is not there is [pgx.ErrNoRows] instead of [sql.ErrNoRows]. *)
Theorem generated_package_agrees (id : UUID) (prefix : string) :
  let q := New db in
  agrees (fmap of_user) (ListUsers q) (Queries_ListUsers) ∧
  (∀ arg, agrees of_user (UpsertUser q arg)
    (Queries_UpsertUser (UpsertUserParams_ID arg) (UpsertUserParams_AppleID arg))) ∧
  agrees (λ _, tt) (DeleteTea q id) (Queries_DeleteTea id) ∧
  agrees of_tea (GetTea q id) (Queries_GetTea id) ∧
  (∀ arg, agrees of_tea (InsertTea q arg)
    (Queries_InsertTea (InsertTeaParams_ID arg) (InsertTeaParams_Name arg) (InsertTeaParams_Type arg)
      (text_of (InsertTeaParams_Description arg)))) ∧
  agrees (fmap of_tea) (ListTeas q) (Queries_ListTeas) ∧
  (∀ arg, agrees (fmap of_tea) (SearchTeasByPrefix q arg)
    (Queries_SearchTeasByPrefix (SearchTeasByPrefixParams_Lower arg) (SearchTeasByPrefixParams_Limit arg))) ∧
  (∀ arg, agrees of_tea (UpdateTea q arg)
    (Queries_UpdateTea (UpdateTeaParams_ID arg) (UpdateTeaParams_Name arg) (UpdateTeaParams_Type arg)
      (text_of (UpdateTeaParams_Description arg)))) ∧
  (∀ arg, agrees (λ _, tt) (AddTagToTea q arg)
    (Queries_AddTagToTea (AddTagToTeaParams_TeaID arg) (AddTagToTeaParams_TagID arg))) ∧
  (∀ arg, agrees of_tag (ChangeTagCategory q arg)
    (Queries_ChangeTagCategory (ChangeTagCategoryParams_ID arg) (ChangeTagCategoryParams_CategoryID arg))) ∧
  agrees (λ _, tt) (DeleteTag q id) (Queries_DeleteTag id) ∧
  agrees (λ _, tt) (DeleteTagCategory q id) (Queries_DeleteTagCategory id) ∧
  (∀ arg, agrees (λ _, tt) (DeleteTagFromTea q arg)
    (Queries_DeleteTagFromTea (DeleteTagFromTeaParams_TeaID arg) (DeleteTagFromTeaParams_TagID arg))) ∧
  agrees (λ _, tt) (DeleteTagsByCategory q id) (Queries_DeleteTagsByCategory id) ∧
  agrees of_tag (GetTag q id) (Queries_GetTag id) ∧
  agrees of_category (GetTagCategory q id) (Queries_GetTagCategory id) ∧
  (∀ arg, agrees of_tag (InsertTag q arg)
    (Queries_InsertTag (InsertTagParams_ID arg) (InsertTagParams_Name arg) (InsertTagParams_Color arg)
      (InsertTagParams_CategoryID arg))) ∧
  (∀ arg, agrees of_category (InsertTagCategory q arg)
    (Queries_InsertTagCategory (InsertTagCategoryParams_ID arg) (InsertTagCategoryParams_Name arg))) ∧
  agrees (fmap of_category) (ListTagCategories q) (Queries_ListTagCategories) ∧
  agrees (fmap of_tag) (ListTags q) (Queries_ListTags) ∧
  agrees (fmap of_tag) (ListTagsByCategory q id) (Queries_ListTagsByCategory id) ∧
  agrees (fmap of_tag) (ListTagsByCategoryFilter q id) (Queries_ListTagsByCategoryFilter id) ∧
  agrees (fmap of_tag) (ListTagsByName q prefix) (Queries_ListTagsByName prefix) ∧
  (∀ arg, agrees (fmap of_tag) (ListTagsByNameCategory q arg)
    (Queries_ListTagsByNameCategory (ListTagsByNameCategoryParams_Lower arg)
      (ListTagsByNameCategoryParams_CategoryID arg))) ∧
  agrees (fmap of_tag) (ListTagsByTea q id) (Queries_ListTagsByTea id) ∧
  agrees (fmap of_category) (SearchTagCategories q prefix) (Queries_SearchTagCategories prefix) ∧
  (∀ arg, agrees of_tag (UpdateTag q arg)
    (Queries_UpdateTag (UpdateTagParams_ID arg) (UpdateTagParams_Name arg) (UpdateTagParams_Color arg))) ∧
  (∀ arg, agrees of_category (UpdateTagCategory q arg)
    (Queries_UpdateTagCategory (UpdateTagCategoryParams_ID arg) (UpdateTagCategoryParams_Name arg))) ∧
  agrees of_qr (GetQR q id) (Queries_GetQR id) ∧
  (∀ arg, agrees (λ _, tt) (UpsertQR q arg)
    (Queries_UpsertQR (UpsertQRParams_ID arg) (UpsertQRParams_TeaID arg)
      (UpsertQRParams_BoilingTemp arg) (UpsertQRParams_ExpirationDate arg))) ∧
  (∀ arg, agrees (λ _, tt) (DeleteCollection q arg)
    (Queries_DeleteCollection (DeleteCollectionParams_ID arg) (DeleteCollectionParams_UserID arg))) ∧
  (∀ arg, agrees (λ _, tt) (DeleteCollectionItem q arg)
    (Queries_DeleteCollectionItem (DeleteCollectionItemParams_CollectionID arg)
      (DeleteCollectionItemParams_QrID arg))) ∧
  (∀ arg, agrees of_collection (GetCollection q arg)
    (Queries_GetCollection (GetCollectionParams_ID arg) (GetCollectionParams_UserID arg))) ∧
  (∀ arg, agrees of_collection (InsertCollection q arg)
    (Queries_InsertCollection (InsertCollectionParams_ID arg) (InsertCollectionParams_UserID arg)
      (InsertCollectionParams_Name arg))) ∧
  (∀ arg, agrees (λ _, tt) (InsertCollectionItem q arg)
    (Queries_InsertCollectionItem (InsertCollectionItemParams_CollectionID arg)
      (InsertCollectionItemParams_QrID arg))) ∧
  agrees (fmap of_record) (ListCollectionRecords q id) (Queries_ListCollectionRecords id) ∧
  agrees (fmap of_collection) (ListCollections q id) (Queries_ListCollections id) ∧
  (∀ arg, agrees (λ _, tt) (InsertDevice q arg)
    (Queries_InsertDevice (InsertDeviceParams_ID arg) (InsertDeviceParams_UserID arg)
      (InsertDeviceParams_Token arg))) ∧
  agrees (fmap Datatypes.id) (ListDeviceTokens q id) (Queries_ListDeviceTokens id) ∧
  (∀ arg, agrees (λ _, tt) (UpdateDeviceToken q arg)
    (Queries_UpdateDeviceToken (UpdateDeviceTokenParams_ID arg) (UpdateDeviceTokenParams_Token arg))) ∧
  agrees (fmap of_notification) (ListNotifications q id) (Queries_ListNotifications id) ∧
  (∀ arg, agrees (λ _, tt) (DeleteConsumptionsBefore q arg)
    (Queries_DeleteConsumptionsBefore (DeleteConsumptionsBeforeParams_UserID arg)
      (DeleteConsumptionsBeforeParams_Ts arg))) ∧
  (∀ arg, agrees (λ _, tt) (InsertConsumption q arg)
    (Queries_InsertConsumption (InsertConsumptionParams_UserID arg) (InsertConsumptionParams_Ts arg)
      (InsertConsumptionParams_TeaID arg))) ∧
  (∀ arg, agrees (fmap of_consumption) (ListConsumptionsSince q arg)
    (Queries_ListConsumptionsSince (ListConsumptionsSinceParams_UserID arg)
      (ListConsumptionsSinceParams_Ts arg))).
Proof. cbv zeta. split_and!; same_method. Qed.
End pgx.

(** On an example: the package over a pgx connection to an empty database does
    not find a tea and says so in its own way. *)
Lemma generated_package_agrees_witness :
  let none := EForeign "no rows in result set" in
  let q := New (@pgx_Conn exampleEnv none) in
  @pgx_laws exampleEnv none (db q) ∧
  @agrees exampleEnv none _ _ of_tea (GetTea q 5%N) (@Queries_GetTea World (@World_PgClient exampleEnv) 5%N) ∧
  (GetTea q 5%N (initial_world empty_db)).1 = Err none.
Proof.
  split_and!; [apply pgx_Conn_laws| |vm_compute; reflexivity].
  destruct (@generated_package_agrees exampleEnv (EForeign "no rows in result set") _
    (@pgx_Conn_laws exampleEnv (EForeign "no rows in result set")) 5%N "te") as (_ & _ & _ & Ht & _). exact Ht.
Defined.
