(* ===== verification/PgAdapter.v ===== *)
(** The storage adapter of src/pkg/pg/db.go. *)

From stdpp Require Import base gmap sets list strings sorting.
From Stdlib Require Import ZArith Lia.
From S2P Require Import Prelude GoTime Common Env Schema Sql World Queries.

Definition nullableString (src : option string) : string := default "" src.

(** The domain values of rows. *)
Definition tea_of_row (p : UUID * TeaRow) : Tea :=
  mkTea p.1 (mkTeaData (tea_name p.2) (StringToBeverageType (tea_type p.2))
    (nullableString (tea_description p.2))).

Definition category_of_row (p : UUID * string) : TagCategory := mkTagCategory p.1 p.2.

Definition tag_of_row (p : UUID * TagRow) : Tag :=
  mkTag p.1 (mkTagData (tag_name p.2) (tag_color p.2) (tag_category_id p.2)).

Definition collection_of_row (p : UUID * CollectionRow) : Collection :=
  mkCollection p.1 (coll_name p.2).

Definition record_of_row (row : ListCollectionRecordsRow) : CollectionRecord :=
  mkCollectionRecord (lcr_QRID row)
    (mkTea (lcr_TeaID row)
      (mkTeaData (lcr_Name row) (StringToBeverageType (lcr_Type row))
        (nullableString (lcr_Description row))))
    (lcr_BoilingTemp row) (lcr_ExpirationDate row).

Section adapter.
Context {S : Type} `{Env, PgClient S}.

(** ** Users *)
Definition GetOrCreateUser (unique : string) : M S GoError UUID :=
  let! id := new_uuid in
  let! user := wrapf "upsert user" (Queries_UpsertUser id unique) in
  ret user.1.

Definition GetUsers : M S GoError (list User) :=
  let! users := wrapf "list users" Queries_ListUsers in
  ret ((λ p, mkUser p.1 (user_apple_id p.2) "" 0%Z) <$> users).

(** ** Teas *)
Definition WriteRecord (rec : TeaData) : M S GoError Tea :=
  let! id := new_uuid in
  let! tea := wrapf "insert tea"
    (Queries_InsertTea id (td_Name rec) (BeverageType_String (td_Type rec))
      (Some (td_Description rec))) in
  ret (tea_of_row tea).

(** [if errors.Is(err, sql.ErrNoRows) { ... }] around a read. *)
Definition wrap_no_rows (missing other : string) (err : GoError) : GoError :=
  if errors_Is err SqlErrNoRows then EWrap missing err else EWrap other err.

Definition ReadRecord (id : UUID) : M S GoError Tea :=
  let! tea := map_err (wrap_no_rows "tea not found" "get tea") (Queries_GetTea id) in
  ret (tea_of_row tea).

Definition ReadAllRecords (search : string) : M S GoError (list Tea) :=
  let! teas := wrapf "list teas"
    (if String.eqb search "" then Queries_ListTeas
     else Queries_SearchTeasByPrefix search int32_max) in
  ret (tea_of_row <$> teas).

Definition Update (id : UUID) (rec : TeaData) : M S GoError Tea :=
  let! tea := wrapf "update tea"
    (Queries_UpdateTea id (td_Name rec) (BeverageType_String (td_Type rec))
      (Some (td_Description rec))) in
  ret (tea_of_row tea).

Definition Delete (id : UUID) : M S GoError unit := wrapf "delete tea" (Queries_DeleteTea id).

(** ** QR records *)
Definition clamp_int32 (bt : Z) : Z :=
  if (int32_max <? bt)%Z then int32_max
  else if (bt <? int32_min)%Z then int32_min
  else bt.

Definition WriteQR (id : UUID) (data : QR) : M S GoError unit :=
  let bt := clamp_int32 (qr_BowlingTemp data) in
  wrapf "upsert qr" (Queries_UpsertQR id (qr_Tea data) (wrap_int32 bt) (qr_ExpirationDate data)).

Definition ReadQR (id : UUID) : M S GoError QR :=
  let! qr := map_err (λ err, if errors_Is err SqlErrNoRows then ESentinel ErrQRRecordNotExist
                             else EWrap "get qr" err) (Queries_GetQR id) in
  ret (mkQR (qrr_tea_id qr.2) (qrr_boiling_temp qr.2) (qrr_expiration_date qr.2)).

(** ** Tags and categories *)
Definition CreateTagCategory (name : string) : M S GoError TagCategory :=
  let! id := new_uuid in
  let! cat := wrapf "insert tag category" (Queries_InsertTagCategory id name) in
  ret (category_of_row cat).

Definition UpdateTagCategory (id : UUID) (name : string) : M S GoError unit :=
  do! wrapf "update tag category" (Queries_UpdateTagCategory id name) in ret tt.

(** Three round trips, not one transaction. *)
Definition DeleteTagCategory (id : UUID) : M S GoError (list UUID) :=
  let! rows := wrapf "list tags by category" (Queries_ListTagsByCategory id) in
  let removed := rows.*1 in
  do! wrapf "delete tags by category" (Queries_DeleteTagsByCategory id) in
  do! wrapf "delete category" (Queries_DeleteTagCategory id) in
  ret removed.

Definition GetTagCategory (id : UUID) : M S GoError TagCategory :=
  let! cat := map_err (wrap_no_rows "tag category not found" "get tag category")
    (Queries_GetTagCategory id) in
  ret (category_of_row cat).

Definition ListTagCategories (search : option string) : M S GoError (list TagCategory) :=
  let! cats := wrapf "list tag categories"
    (match search with
     | None => Queries_ListTagCategories
     | Some s => if String.eqb s "" then Queries_ListTagCategories
                 else Queries_SearchTagCategories s
     end) in
  ret (category_of_row <$> cats).

Definition CreateTag (name color : string) (categoryID : UUID) : M S GoError Tag :=
  let! id := new_uuid in
  let! tag := wrapf "insert tag" (Queries_InsertTag id name color categoryID) in
  ret (tag_of_row tag).

Definition UpdateTag (id : UUID) (name color : string) : M S GoError Tag :=
  let! tag := wrapf "update tag" (Queries_UpdateTag id name color) in ret (tag_of_row tag).

Definition ChangeTagCategory (id categoryID : UUID) : M S GoError Tag :=
  let! tag := wrapf "change tag category" (Queries_ChangeTagCategory id categoryID) in
  ret (tag_of_row tag).

Definition DeleteTag (id : UUID) : M S GoError unit := wrapf "delete tag" (Queries_DeleteTag id).

Definition GetTag (id : UUID) : M S GoError Tag :=
  let! tag := wrapf "get tag" (Queries_GetTag id) in ret (tag_of_row tag).

Definition ListTags (name : option string) (categoryID : option UUID) : M S GoError (list Tag) :=
  let! tags := wrapf "list tags"
    (if match name with None => true | Some n => String.eqb n "" end then
       match categoryID with
       | None => Queries_ListTags
       | Some c => Queries_ListTagsByCategoryFilter c
       end
     else
       match categoryID with
       | None => Queries_ListTagsByName (default "" name)
       | Some c => Queries_ListTagsByNameCategory (default "" name) c
       end) in
  ret (tag_of_row <$> tags).

Definition AddTagToTea (tea tag : UUID) : M S GoError unit :=
  wrapf "add tag to tea" (Queries_AddTagToTea tea tag).

Definition DeleteTagFromTea (tea tag : UUID) : M S GoError unit :=
  wrapf "delete tag from tea" (Queries_DeleteTagFromTea tea tag).

Definition ListByTea (id : UUID) : M S GoError (list Tag) :=
  let! tags := wrapf "list tags by tea" (Queries_ListTagsByTea id) in ret (tag_of_row <$> tags).

(** ** Collections *)
Definition CreateCollection (userID : UUID) (name : string) : M S GoError UUID :=
  let! id := new_uuid in
  let! col := wrapf "insert collection" (Queries_InsertCollection id userID name) in
  ret col.1.

Definition AddTeaToCollection (id : UUID) (teas : list UUID) : M S GoError unit :=
  if bool_decide (teas = []) then ret tt
  else wrapf "add qr to collection (batch)" (Queries_InsertCollectionItems id teas).

Definition DeleteTeaFromCollection (id : UUID) (teas : list UUID) : M S GoError unit :=
  for_range (λ qrID, wrapf "delete qr from collection" (Queries_DeleteCollectionItem id qrID)) teas.

Definition DeleteCollection (id userID : UUID) : M S GoError unit :=
  wrapf "delete collection" (Queries_DeleteCollection id userID).

Definition Collections (userID : UUID) : M S GoError (list Collection) :=
  let! cols := wrapf "list collections" (Queries_ListCollections userID) in
  ret (collection_of_row <$> cols).

Definition db_Collection (id userID : UUID) : M S GoError Collection :=
  let! col := wrapf "get collection" (Queries_GetCollection id userID) in
  ret (collection_of_row col).

Definition CollectionRecords (id : UUID) : M S GoError (list CollectionRecord) :=
  let! rows := wrapf "list collection records" (Queries_ListCollectionRecords id) in
  ret (record_of_row <$> rows).

(** ** Devices and notifications *)
Definition AddDeviceForUser (userID deviceID : UUID) : M S GoError unit :=
  wrapf "insert device" (Queries_InsertDevice deviceID userID (uuid_String deviceID)).

Definition CreateOrUpdateDeviceToken (deviceID : UUID) (deviceToken : string)
    : M S GoError unit :=
  do! wrapf "update device token" (Queries_UpdateDeviceToken deviceID deviceToken) in ret tt.

Definition Notifications (userID : UUID) : M S GoError (list Notification) :=
  let! notifs := wrapf "list notifications" (Queries_ListNotifications userID) in
  ret ((λ p, mkNotification userID (notif_type p.2)) <$> notifs).

Definition MapUserIDToDeviceID (userID : UUID) : M S GoError (list string) :=
  wrapf "list device tokens" (Queries_ListDeviceTokens userID).

(** ** Version *)
Definition GetVersion : M S GoError Z := ret 0%Z.
Definition WriteVersion (version : Z) : M S GoError unit := ret tt.

End adapter.

#[export] Hint Unfold GetOrCreateUser GetUsers WriteRecord ReadRecord ReadAllRecords Update Delete
  WriteQR ReadQR CreateTagCategory UpdateTagCategory DeleteTagCategory GetTagCategory
  ListTagCategories CreateTag UpdateTag ChangeTagCategory DeleteTag GetTag ListTags AddTagToTea
  DeleteTagFromTea ListByTea CreateCollection AddTeaToCollection DeleteTeaFromCollection
  DeleteCollection Collections db_Collection CollectionRecords AddDeviceForUser
  CreateOrUpdateDeviceToken Notifications MapUserIDToDeviceID GetVersion WriteVersion
  : go_preserves.
