(* ===== verification/Interfaces.v ===== *)
(** What the managers ask of their storage: the [storage] interfaces of
    src/internal/managers (tea, tag, qr, collection), each with the abstract
    state a client sees and the effect every operation promises on it.

    The managers are proved against these interfaces; [PgAdapter] discharges
    them for the database. *)

From stdpp Require Import base gmap sets list strings sorting.
From Stdlib Require Import ZArith Lia.
From S2P Require Import Prelude GoTime Common World.

(** ** Promises

    [atomic eff v r v']: an operation that returned [r] took the abstract state
    from [v] to [v']. A success has the promised effect. A failure had no effect,
    or had it and lost its answer. The operation neither panics nor parks. *)
Definition atomic {V A} (eff : V → A → V → Prop) (v : V) (r : outcome GoError A) (v' : V) : Prop :=
  match r with
  | Ok a => eff v a v'
  | Err _ => v' = v ∨ ∃ a, eff v a v'
  | Panic | Blocked => False
  end.

Lemma atomic_mono {V A} (eff eff' : V → A → V → Prop) v r v' :
  (∀ a, eff v a v' -> eff' v a v') -> atomic eff v r v' -> atomic eff' v r v'.
Proof. destruct r; simpl; [by eauto| |done..]. intros He [->|[a Ha]]; eauto. Qed.

(** ** Teas *)

(** A beverage type as it comes back from storage. *)
Definition stored_type (b : BeverageType) : BeverageType :=
  StringToBeverageType (BeverageType_String b).

Definition stored_tea (rec : TeaData) : TeaData :=
  mkTeaData (td_Name rec) (stored_type (td_Type rec)) (td_Description rec).

Inductive tea_op : Type → Type :=
  | OpWriteRecord (rec : TeaData) : tea_op Tea
  | OpReadRecord (id : UUID) : tea_op Tea
  | OpReadAllRecords (search : string) : tea_op (list Tea)
  | OpUpdate (id : UUID) (rec : TeaData) : tea_op Tea
  | OpDelete (id : UUID) : tea_op unit.

(** The teas of a storage, and what each operation does to them. *)
Abbreviation TeaView := (gmap UUID TeaData).

Definition tea_effect {A} (op : tea_op A) : TeaView → A → TeaView → Prop :=
  match op with
  | OpWriteRecord rec => λ v tea v',
      tea_Data tea = stored_tea rec ∧ v !! tea_ID tea = None
      ∧ v' = <[tea_ID tea := tea_Data tea]> v
  | OpReadRecord id => λ v tea v',
      tea_ID tea = id ∧ v !! id = Some (tea_Data tea) ∧ v' = v
  | OpReadAllRecords search => λ v teas v',
      v' = v ∧ NoDup (tea_ID <$> teas) ∧
      (∀ tea, tea ∈ teas -> v !! tea_ID tea = Some (tea_Data tea)) ∧
      (search = "" -> ∀ id data, v !! id = Some data -> mkTea id data ∈ teas)
  | OpUpdate id rec => λ v tea v',
      tea = mkTea id (stored_tea rec) ∧ is_Some (v !! id) ∧ v' = <[id := stored_tea rec]> v
  | OpDelete id => λ v _ v', v' = delete id v
  end.

Class TeaStorage (S : Type) : Type := {
  ts_WriteRecord : TeaData → M S GoError Tea;
  ts_ReadRecord : UUID → M S GoError Tea;
  ts_ReadAllRecords : string → M S GoError (list Tea);
  ts_Update : UUID → TeaData → M S GoError Tea;
  ts_Delete : UUID → M S GoError unit }.

Definition tea_run {S} `{TeaStorage S} {A} (op : tea_op A) : M S GoError A :=
  match op with
  | OpWriteRecord rec => ts_WriteRecord rec
  | OpReadRecord id => ts_ReadRecord id
  | OpReadAllRecords search => ts_ReadAllRecords search
  | OpUpdate id rec => ts_Update id rec
  | OpDelete id => ts_Delete id
  end.

Class TeaStorageLaws (S : Type) `{TeaStorage S, EventBus S} : Type := {
  ts_inv : S → Prop;
  ts_view : S → TeaView;
  ts_spec : ∀ A (op : tea_op A) s r s', ts_inv s -> tea_run op s = (r, s') ->
    ts_inv s' ∧ bus_events s' = bus_events s ∧ atomic (tea_effect op) (ts_view s) r (ts_view s');
  ts_put : ∀ l s, (ts_inv s -> ts_inv (bus_put l s)) ∧ ts_view (bus_put l s) = ts_view s }.

(** ** Tags *)
Record TagView : Type := mkTagView {
  tv_categories : gmap UUID string;
  tv_tags : gmap UUID TagData;
  tv_links : gset (UUID * UUID) }.

Inductive tag_op : Type → Type :=
  | OpCreateTagCategory (name : string) : tag_op TagCategory
  | OpUpdateTagCategory (id : UUID) (name : string) : tag_op unit
  | OpDeleteTagCategory (id : UUID) : tag_op (list UUID)
  | OpGetTagCategory (id : UUID) : tag_op TagCategory
  | OpListTagCategories (search : option string) : tag_op (list TagCategory)
  | OpCreateTag (name color : string) (categoryID : UUID) : tag_op Tag
  | OpUpdateTag (id : UUID) (name color : string) : tag_op Tag
  | OpChangeTagCategory (id categoryID : UUID) : tag_op Tag
  | OpDeleteTag (id : UUID) : tag_op unit
  | OpGetTag (id : UUID) : tag_op Tag
  | OpListTags (name : option string) (categoryID : option UUID) : tag_op (list Tag)
  | OpAddTagToTea (tea tag : UUID) : tag_op unit
  | OpDeleteTagFromTea (tea tag : UUID) : tag_op unit
  | OpListByTea (id : UUID) : tag_op (list Tag).

(** The view without a set of tags and what refers to them. *)
Definition drop_tags (dead : gset UUID) (v : TagView) : TagView :=
  mkTagView (tv_categories v) (filter (λ kv, kv.1 ∉ dead) (tv_tags v))
    (filter (λ p, p.2 ∉ dead) (tv_links v)).

Definition drop_category (id : UUID) (v : TagView) : TagView :=
  mkTagView (delete id (tv_categories v)) (tv_tags v) (tv_links v).

(** The tags of a category. *)
Definition tags_in (id : UUID) (v : TagView) : gset UUID :=
  dom (filter (λ kv, tagd_CategoryID kv.2 = id) (tv_tags v)).

Definition put_tag (tag : Tag) (v : TagView) : TagView :=
  mkTagView (tv_categories v) (<[tag_ID tag := tag_Data tag]> (tv_tags v)) (tv_links v).

Definition put_category (id : UUID) (name : string) (v : TagView) : TagView :=
  mkTagView (<[id := name]> (tv_categories v)) (tv_tags v) (tv_links v).

Definition put_links (links : gset (UUID * UUID)) (v : TagView) : TagView :=
  mkTagView (tv_categories v) (tv_tags v) links.

Definition tag_effect {A} (op : tag_op A) : TagView → A → TagView → Prop :=
  match op with
  | OpCreateTagCategory name => λ v cat v',
      tc_Name cat = name ∧ tv_categories v !! tc_ID cat = None
      ∧ (∀ id, tv_categories v !! id ≠ Some name) ∧ v' = put_category (tc_ID cat) name v
  | OpUpdateTagCategory id name => λ v _ v',
      is_Some (tv_categories v !! id) ∧ v' = put_category id name v
  | OpDeleteTagCategory id => λ v removed v',
      NoDup removed ∧ list_to_set removed = tags_in id v
      ∧ v' = drop_category id (drop_tags (tags_in id v) v)
  | OpGetTagCategory id => λ v cat v',
      tc_ID cat = id ∧ tv_categories v !! id = Some (tc_Name cat) ∧ v' = v
  | OpListTagCategories search => λ v cats v',
      v' = v ∧ NoDup (tc_ID <$> cats) ∧
      (∀ cat, cat ∈ cats -> tv_categories v !! tc_ID cat = Some (tc_Name cat)) ∧
      (default "" search = "" -> ∀ id name, tv_categories v !! id = Some name ->
         mkTagCategory id name ∈ cats)
  | OpCreateTag name color categoryID => λ v tag v',
      tag_Data tag = mkTagData name color categoryID ∧ tv_tags v !! tag_ID tag = None
      ∧ is_Some (tv_categories v !! categoryID) ∧ v' = put_tag tag v
  | OpUpdateTag id name color => λ v tag v',
      ∃ old, tv_tags v !! id = Some old
        ∧ tag = mkTag id (mkTagData name color (tagd_CategoryID old)) ∧ v' = put_tag tag v
  | OpChangeTagCategory id categoryID => λ v tag v',
      ∃ old, tv_tags v !! id = Some old ∧ is_Some (tv_categories v !! categoryID)
        ∧ tag = mkTag id (mkTagData (tagd_Name old) (tagd_Color old) categoryID)
        ∧ v' = put_tag tag v
  | OpDeleteTag id => λ v _ v', v' = drop_tags {[id]} v
  | OpGetTag id => λ v tag v', tag_ID tag = id ∧ tv_tags v !! id = Some (tag_Data tag) ∧ v' = v
  | OpListTags name categoryID => λ v tags v',
      v' = v ∧ NoDup (tag_ID <$> tags) ∧
      (∀ tag, tag ∈ tags -> tv_tags v !! tag_ID tag = Some (tag_Data tag)
         ∧ ∀ c, categoryID = Some c -> tagd_CategoryID (tag_Data tag) = c) ∧
      (default "" name = "" -> ∀ id data, tv_tags v !! id = Some data ->
         (∀ c, categoryID = Some c -> tagd_CategoryID data = c) -> mkTag id data ∈ tags)
  | OpAddTagToTea tea tag => λ v _ v',
      is_Some (tv_tags v !! tag) ∧ v' = put_links ({[(tea, tag)]} ∪ tv_links v) v
  | OpDeleteTagFromTea tea tag => λ v _ v', v' = put_links (tv_links v ∖ {[(tea, tag)]}) v
  | OpListByTea id => λ v tags v',
      v' = v ∧ NoDup (tag_ID <$> tags) ∧
      (∀ tag, tag ∈ tags <->
         (id, tag_ID tag) ∈ tv_links v ∧ tv_tags v !! tag_ID tag = Some (tag_Data tag))
  end.

(** Deleting a category takes several steps: a failure may leave the category
    without its tags. Every other operation is one step. *)
Definition tag_promise {A} (op : tag_op A) (v : TagView) (r : outcome GoError A) (v' : TagView)
    : Prop :=
  match op with
  | OpDeleteTagCategory id =>
      atomic (tag_effect op) v r v' ∨ (∃ e, r = Err e ∧ v' = drop_tags (tags_in id v) v)
  | _ => atomic (tag_effect op) v r v'
  end.

Class TagStorage (S : Type) : Type := {
  gs_CreateTagCategory : string → M S GoError TagCategory;
  gs_UpdateTagCategory : UUID → string → M S GoError unit;
  gs_DeleteTagCategory : UUID → M S GoError (list UUID);
  gs_GetTagCategory : UUID → M S GoError TagCategory;
  gs_ListTagCategories : option string → M S GoError (list TagCategory);
  gs_CreateTag : string → string → UUID → M S GoError Tag;
  gs_UpdateTag : UUID → string → string → M S GoError Tag;
  gs_ChangeTagCategory : UUID → UUID → M S GoError Tag;
  gs_DeleteTag : UUID → M S GoError unit;
  gs_GetTag : UUID → M S GoError Tag;
  gs_ListTags : option string → option UUID → M S GoError (list Tag);
  gs_AddTagToTea : UUID → UUID → M S GoError unit;
  gs_DeleteTagFromTea : UUID → UUID → M S GoError unit;
  gs_ListByTea : UUID → M S GoError (list Tag) }.

Definition tag_run {S} `{TagStorage S} {A} (op : tag_op A) : M S GoError A :=
  match op with
  | OpCreateTagCategory name => gs_CreateTagCategory name
  | OpUpdateTagCategory id name => gs_UpdateTagCategory id name
  | OpDeleteTagCategory id => gs_DeleteTagCategory id
  | OpGetTagCategory id => gs_GetTagCategory id
  | OpListTagCategories search => gs_ListTagCategories search
  | OpCreateTag name color categoryID => gs_CreateTag name color categoryID
  | OpUpdateTag id name color => gs_UpdateTag id name color
  | OpChangeTagCategory id categoryID => gs_ChangeTagCategory id categoryID
  | OpDeleteTag id => gs_DeleteTag id
  | OpGetTag id => gs_GetTag id
  | OpListTags name categoryID => gs_ListTags name categoryID
  | OpAddTagToTea tea tag => gs_AddTagToTea tea tag
  | OpDeleteTagFromTea tea tag => gs_DeleteTagFromTea tea tag
  | OpListByTea id => gs_ListByTea id
  end.

Class TagStorageLaws (S : Type) `{TagStorage S, EventBus S} : Type := {
  gs_inv : S → Prop;
  gs_view : S → TagView;
  gs_spec : ∀ A (op : tag_op A) s r s', gs_inv s -> tag_run op s = (r, s') ->
    gs_inv s' ∧ bus_events s' = bus_events s ∧ tag_promise op (gs_view s) r (gs_view s');
  gs_put : ∀ l s, (gs_inv s -> gs_inv (bus_put l s)) ∧ gs_view (bus_put l s) = gs_view s }.

(** ** QR records and collections *)
Record CollectionView : Type := mkCollectionView {
  cv_teas : gmap UUID TeaData;
  cv_qrs : gmap UUID QR;
  cv_collections : gmap UUID (UUID * string);
  cv_items : gset (UUID * UUID);
  cv_users : gset UUID }.

Inductive collection_op : Type → Type :=
  | OpCreateCollection (userID : UUID) (name : string) : collection_op UUID
  | OpAddTeaToCollection (id : UUID) (teas : list UUID) : collection_op unit
  | OpDeleteTeaFromCollection (id : UUID) (teas : list UUID) : collection_op unit
  | OpDeleteCollection (id userID : UUID) : collection_op unit
  | OpCollections (userID : UUID) : collection_op (list Collection)
  | OpCollection (id userID : UUID) : collection_op Collection
  | OpCollectionRecords (id : UUID) : collection_op (list CollectionRecord).

Definition put_items (items : gset (UUID * UUID)) (v : CollectionView) : CollectionView :=
  mkCollectionView (cv_teas v) (cv_qrs v) (cv_collections v) items (cv_users v).

Definition put_collections (cols : gmap UUID (UUID * string)) (v : CollectionView)
    : CollectionView :=
  mkCollectionView (cv_teas v) (cv_qrs v) cols (cv_items v) (cv_users v).

(** The ids among [teas] that are QR records, as items of a collection. *)
Definition known_items (id : UUID) (teas : list UUID) (v : CollectionView) : gset (UUID * UUID) :=
  list_to_set (pair id <$> filter (λ q, is_Some (cv_qrs v !! q)) teas).

Definition drop_items (id : UUID) (teas : list UUID) (v : CollectionView) : CollectionView :=
  put_items (filter (λ p, ¬ (p.1 = id ∧ p.2 ∈ teas)) (cv_items v)) v.

(** A collection record that [v] contains under a collection. *)
Definition record_in (v : CollectionView) (id : UUID) (rec : CollectionRecord) : Prop :=
  (id, cr_ID rec) ∈ cv_items v ∧
  cv_qrs v !! cr_ID rec = Some (mkQR (tea_ID (cr_Tea rec)) (cr_BowlingTemp rec) (cr_ExpirationDate rec)) ∧
  cv_teas v !! tea_ID (cr_Tea rec) = Some (tea_Data (cr_Tea rec)).

Definition collection_effect {A} (op : collection_op A)
    : CollectionView → A → CollectionView → Prop :=
  match op with
  | OpCreateCollection userID name => λ v id v',
      cv_collections v !! id = None ∧ userID ∈ cv_users v
      ∧ v' = put_collections (<[id := (userID, name)]> (cv_collections v)) v
  | OpAddTeaToCollection id teas => λ v _ v', v' = put_items (known_items id teas v ∪ cv_items v) v
  | OpDeleteTeaFromCollection id teas => λ v _ v', v' = drop_items id teas v
  | OpDeleteCollection id userID => λ v _ v',
      v' = match cv_collections v !! id with
           | Some (owner, _) =>
               if decide (owner = userID)
               then put_collections (delete id (cv_collections v))
                      (put_items (filter (λ p, p.1 ≠ id) (cv_items v)) v)
               else v
           | None => v
           end
  | OpCollections userID => λ v cols v',
      v' = v ∧ NoDup (col_ID <$> cols) ∧
      (∀ c, c ∈ cols <-> cv_collections v !! col_ID c = Some (userID, col_Name c))
  | OpCollection id userID => λ v c v',
      v' = v ∧ col_ID c = id ∧ cv_collections v !! id = Some (userID, col_Name c)
  | OpCollectionRecords id => λ v recs v',
      v' = v ∧ NoDup (cr_ID <$> recs) ∧ StronglySorted (le_on cr_ExpirationDate) recs ∧
      (∀ rec, rec ∈ recs <-> record_in v id rec)
  end.

(** Removing records is one statement per record: a failure may have removed
    some of them. *)
Definition collection_promise {A} (op : collection_op A) (v : CollectionView)
    (r : outcome GoError A) (v' : CollectionView) : Prop :=
  match op with
  | OpDeleteTeaFromCollection id teas =>
      match r with
      | Ok _ => v' = drop_items id teas v
      | Err _ => ∃ n, v' = drop_items id (take n teas) v
      | _ => False
      end
  | _ => atomic (collection_effect op) v r v'
  end.

Class CollectionStorage (S : Type) : Type := {
  cs_CreateCollection : UUID → string → M S GoError UUID;
  cs_AddTeaToCollection : UUID → list UUID → M S GoError unit;
  cs_DeleteTeaFromCollection : UUID → list UUID → M S GoError unit;
  cs_DeleteCollection : UUID → UUID → M S GoError unit;
  cs_Collections : UUID → M S GoError (list Collection);
  cs_Collection : UUID → UUID → M S GoError Collection;
  cs_CollectionRecords : UUID → M S GoError (list CollectionRecord) }.

Definition collection_run {S} `{CollectionStorage S} {A} (op : collection_op A) : M S GoError A :=
  match op with
  | OpCreateCollection userID name => cs_CreateCollection userID name
  | OpAddTeaToCollection id teas => cs_AddTeaToCollection id teas
  | OpDeleteTeaFromCollection id teas => cs_DeleteTeaFromCollection id teas
  | OpDeleteCollection id userID => cs_DeleteCollection id userID
  | OpCollections userID => cs_Collections userID
  | OpCollection id userID => cs_Collection id userID
  | OpCollectionRecords id => cs_CollectionRecords id
  end.

Class CollectionStorageLaws (S : Type) `{CollectionStorage S} : Type := {
  cs_inv : S → Prop;
  cs_view : S → CollectionView;
  cs_spec : ∀ A (op : collection_op A) s r s', cs_inv s -> collection_run op s = (r, s') ->
    cs_inv s' ∧ collection_promise op (cs_view s) r (cs_view s') }.
