(* ===== verification/PgStorage.v ===== *)
(** The database adapter keeps the promises of the managers' storage
    interfaces. *)

From stdpp Require Import base gmap sets list strings sorting.
From Stdlib Require Import ZArith Lia.
From S2P Require Import Prelude GoTime Common Env Schema Sql World Queries PgAdapter Interfaces.

(** ** What a client sees of the database *)
Definition tea_data_of_row (r : TeaRow) : TeaData :=
  mkTeaData (tea_name r) (StringToBeverageType (tea_type r)) (nullableString (tea_description r)).

Definition tag_data_of_row (r : TagRow) : TagData :=
  mkTagData (tag_name r) (tag_color r) (tag_category_id r).

Definition qr_of_row (r : QRRow) : QR :=
  mkQR (qrr_tea_id r) (qrr_boiling_temp r) (qrr_expiration_date r).

Definition db_teas (d : Database) : TeaView := tea_data_of_row <$> teas d.

Definition db_tags (d : Database) : TagView :=
  mkTagView (tag_categories d) (tag_data_of_row <$> tags d) (tea_tags d).

Definition db_collections (d : Database) : CollectionView :=
  mkCollectionView (db_teas d) (qr_of_row <$> qr_records d)
    ((λ r, (coll_user_id r, coll_name r)) <$> collections d)
    (collection_qr_items d) (dom (users d)).

(** ** One statement is one atomic step *)
Section atomic.
Context `{Env}.

(** [m] leaves everything but the database and the tick alone. *)
Definition db_only {A} (m : M World GoError A) : Prop :=
  ∀ w, bus_events (m w).2 = bus_events w ∧ w_cache (m w).2 = w_cache w
     ∧ w_pushes (m w).2 = w_pushes w.

Lemma db_only_ret {A} (a : A) : db_only (ret a).
Proof. done. Qed.
Lemma db_only_throw {A} e : db_only (throw (A := A) e).
Proof. done. Qed.
Lemma db_only_new_uuid : db_only new_uuid.
Proof. done. Qed.
Lemma db_only_bind {A B} (m : M World GoError A) (k : A → M World GoError B) :
  db_only m -> (∀ a, db_only (k a)) -> db_only (bind m k).
Proof.
  intros Hm Hk w. unfold bind. destruct (Hm w) as (H1 & H2 & H3).
  destruct (m w) as [[a|e| |] w1]; simpl in *; [|done..].
  destruct (Hk a w1) as (H4 & H5 & H6). simpl in *. split_and!; congruence.
Qed.
Lemma db_only_map_err {A} f (m : M World GoError A) : db_only m -> db_only (map_err f m).
Proof.
  intros Hm w. specialize (Hm w). unfold map_err. by destruct (m w) as [[a|e| |] w1].
Qed.
Lemma db_only_exec {A} (s : Stmt A) : db_only (exec s).
Proof.
  intros w. unfold exec, World_PgClient, World_exec. destruct (pg_fault (w_tick w)) as [[?|?]|];
    [|destruct (s _ (w_db w)) as [?|[??]]..]; done.
Qed.
Lemma db_only_query_row {A} (s : Stmt (option A)) : db_only (query_row s).
Proof. apply db_only_bind; [apply db_only_exec|]. by intros []. Qed.
Lemma db_only_for_range {A} (f : A → M World GoError unit) l :
  (∀ x, db_only (f x)) -> db_only (for_range f l).
Proof. intros Hf. induction l; [done|]. by apply db_only_bind. Qed.

Context {V : Type} (view : Database → V).

(** A wrapped read or write that returns its rows converted by [f]. *)
Lemma exec_atomic {A B} (s : Stmt A) g (f : A → B) (eff : V → B → V → Prop) w r w' :
  (∀ t a d', s t (w_db w) = inr (a, d') -> eff (view (w_db w)) (f a) (view d')) ->
  bind (map_err g (exec s)) (λ a, ret (f a)) w = (r, w') ->
  atomic eff (view (w_db w)) r (view (w_db w')).
Proof.
  intros Heff. unfold bind, map_err.
  destruct (exec_returns s w) as [(a & w1 & E)|(e & w1 & E)]; rewrite E; intros [= <- <-]; simpl.
  - apply exec_Ok_inv in E as (d & Hs & -> & _). by eapply Heff.
  - apply exec_Err_inv in E as [->|(a & d & Hs & ->)]; [by left|]. right. eauto.
Qed.

Lemma query_row_atomic {A B} (s : Stmt (option A)) g (f : A → B) (eff : V → B → V → Prop) w r w' :
  (∀ t a d', s t (w_db w) = inr (Some a, d') -> eff (view (w_db w)) (f a) (view d')) ->
  (∀ t d', s t (w_db w) = inr (None, d') -> d' = w_db w) ->
  bind (map_err g (query_row s)) (λ a, ret (f a)) w = (r, w') ->
  atomic eff (view (w_db w)) r (view (w_db w')).
Proof.
  intros Heff Hnone. unfold bind, map_err.
  destruct (query_row_returns s w) as [(a & w1 & E)|(e & w1 & E)]; rewrite E;
    intros [= <- <-]; simpl.
  - apply query_row_Ok_inv in E as (d & Hs & -> & _). by eapply Heff.
  - apply query_row_Err_inv in E as [->|([a|] & d & Hs & ->)]; [by left|right; eauto|].
    left. simpl. f_equal. by eapply Hnone.
Qed.

(** The same for a method that returns what the statement returned. *)
Lemma exec_atomic_id {A} (s : Stmt A) g (eff : V → A → V → Prop) w r w' :
  (∀ t a d', s t (w_db w) = inr (a, d') -> eff (view (w_db w)) a (view d')) ->
  map_err g (exec s) w = (r, w') ->
  atomic eff (view (w_db w)) r (view (w_db w')).
Proof.
  intros Heff. unfold map_err.
  destruct (exec_returns s w) as [(a & w1 & E)|(e & w1 & E)]; rewrite E; intros [= <- <-]; simpl.
  - apply exec_Ok_inv in E as (d & Hs & -> & _). by eapply Heff.
  - apply exec_Err_inv in E as [->|(a & d & Hs & ->)]; [by left|]. right. eauto.
Qed.

(** ... and after a fresh UUID was drawn. *)
Lemma new_uuid_atomic {A} (k : UUID → M World GoError A) (eff : V → A → V → Prop) w r w' :
  (∀ id w1 r1 w2, w_db w1 = w_db w -> k id w1 = (r1, w2) ->
     atomic eff (view (w_db w1)) r1 (view (w_db w2))) ->
  bind new_uuid k w = (r, w') -> atomic eff (view (w_db w)) r (view (w_db w')).
Proof. intros Hk Hw. unfold bind, new_uuid in Hw. by eapply (Hk _ (advance w)) in Hw. Qed.
End atomic.

#[export] Hint Resolve db_only_ret db_only_throw db_only_new_uuid db_only_bind db_only_map_err
  db_only_exec db_only_query_row db_only_for_range : go_preserves.

(** Unfold an operation down to its statements and apply the hints. *)
Ltac walk :=
  repeat (autounfold with go_preserves; cbn beta iota zeta);
  repeat first
    [ progress intros
    | apply preserves_bind | apply preserves_map_err | apply preserves_for_range
    | apply db_only_bind | apply db_only_map_err | apply db_only_for_range
    | case_match | solve [eauto 4 with go_preserves] ].

(** ** The instances

    The adapter over any database client. *)
Section adapter.
Context {S : Type} `{Env, PgClient S}.

#[export] Instance Pg_TeaStorage : TeaStorage S := {
  ts_WriteRecord := WriteRecord;
  ts_ReadRecord := ReadRecord;
  ts_ReadAllRecords := ReadAllRecords;
  ts_Update := Update;
  ts_Delete := Delete }.

#[export] Instance Pg_TagStorage : TagStorage S := {
  gs_CreateTagCategory := CreateTagCategory;
  gs_UpdateTagCategory := UpdateTagCategory;
  gs_DeleteTagCategory := DeleteTagCategory;
  gs_GetTagCategory := GetTagCategory;
  gs_ListTagCategories := ListTagCategories;
  gs_CreateTag := CreateTag;
  gs_UpdateTag := UpdateTag;
  gs_ChangeTagCategory := ChangeTagCategory;
  gs_DeleteTag := DeleteTag;
  gs_GetTag := GetTag;
  gs_ListTags := ListTags;
  gs_AddTagToTea := AddTagToTea;
  gs_DeleteTagFromTea := DeleteTagFromTea;
  gs_ListByTea := ListByTea }.

#[export] Instance Pg_CollectionStorage : CollectionStorage S := {
  cs_CreateCollection := CreateCollection;
  cs_AddTeaToCollection := AddTeaToCollection;
  cs_DeleteTeaFromCollection := DeleteTeaFromCollection;
  cs_DeleteCollection := DeleteCollection;
  cs_Collections := Collections;
  cs_Collection := db_Collection;
  cs_CollectionRecords := CollectionRecords }.
End adapter.

Section instances.
Context `{Env}.

(** ** Every adapter operation keeps the integrity of the database and touches
    nothing else of the world *)

Lemma tea_run_wf {A} (op : tea_op A) : preserves world_wf (tea_run op).
Proof. destruct op; simpl; walk. Qed.

Lemma tag_run_wf {A} (op : tag_op A) : preserves world_wf (tag_run op).
Proof. destruct op; simpl; walk. Qed.

Lemma collection_run_wf {A} (op : collection_op A) : preserves world_wf (collection_run op).
Proof. destruct op; simpl; walk. Qed.

Lemma tea_run_db_only {A} (op : tea_op A) : db_only (tea_run op).
Proof. destruct op; simpl; walk. Qed.

Lemma tag_run_db_only {A} (op : tag_op A) : db_only (tag_run op).
Proof. destruct op; simpl; walk. Qed.

Lemma collection_run_db_only {A} (op : collection_op A) : db_only (collection_run op).
Proof. destruct op; simpl; walk. Qed.

Lemma other_adapter_wf unique user device token id qr version :
  preserves world_wf (GetOrCreateUser unique) ∧ preserves world_wf GetUsers ∧
  preserves world_wf (WriteQR id qr) ∧ preserves world_wf (ReadQR id) ∧
  preserves world_wf (AddDeviceForUser user device) ∧
  preserves world_wf (CreateOrUpdateDeviceToken device token) ∧
  preserves world_wf (Notifications user) ∧ preserves world_wf (MapUserIDToDeviceID user) ∧
  preserves world_wf GetVersion ∧ preserves world_wf (WriteVersion version).
Proof. split_and!; walk. Qed.


(** ** The effects on the views *)
Lemma limit_rows_elem {A} limit (l : list A) x : x ∈ limit_rows limit l -> x ∈ l.
Proof. unfold limit_rows. destruct (_ <=? _)%Z; [done|]. apply subseteq_take. Qed.

Lemma limit_rows_ids {A B} limit (l : list A) (f : A → B) :
  NoDup (f <$> l) -> NoDup (f <$> limit_rows limit l).
Proof.
  intros Hl. unfold limit_rows. destruct (_ <=? _)%Z; [done|].
  rewrite fmap_take. eapply sublist_NoDup; [done|]. apply sublist_take.
Qed.

Lemma remove_rows_singleton {A} i (m : gmap UUID A) : remove_rows {[i]} m = delete i m.
Proof.
  apply map_eq. intros j. apply option_eq. intros r.
  rewrite remove_rows_lookup, lookup_delete_Some, not_elem_of_singleton.
  split; intros [??]; split; congruence.
Qed.

Lemma fmap_remove_rows {A B} (f : A → B) ids (m : gmap UUID A) :
  f <$> remove_rows ids m = filter (λ kv, kv.1 ∉ ids) (f <$> m).
Proof. unfold remove_rows. by rewrite map_filter_fmap. Qed.

(** *** Teas *)
Lemma tea_of_row_data i r : tea_of_row (i, r) = mkTea i (tea_data_of_row r).
Proof. reflexivity. Qed.

Lemma stored_tea_row rec created :
  tea_data_of_row (mkTeaRow (td_Name rec) (BeverageType_String (td_Type rec))
    (Some (td_Description rec)) created) = stored_tea rec.
Proof. reflexivity. Qed.

Lemma db_teas_lookup d i data :
  db_teas d !! i = Some data <-> ∃ r, teas d !! i = Some r ∧ data = tea_data_of_row r.
Proof. unfold db_teas. rewrite lookup_fmap, fmap_Some. done. Qed.

Lemma fmap_ids {A B} (f : UUID * A → B) (g : B → UUID) (l : list (UUID * A)) :
  (∀ p, g (f p) = p.1) -> NoDup l.*1 -> NoDup (g <$> (f <$> l)).
Proof.
  intros Hg Hl. rewrite <-list_fmap_compose.
  erewrite list_fmap_ext; [exact Hl|]. intros i p _. apply Hg.
Qed.

Lemma teas_list_effect search d l :
  NoDup l.*1 -> (∀ i r, (i, r) ∈ l -> teas d !! i = Some r) ->
  (search = "" -> ∀ i r, teas d !! i = Some r -> (i, r) ∈ l) ->
  tea_effect (OpReadAllRecords search) (db_teas d) (tea_of_row <$> l) (db_teas d).
Proof.
  intros Hl Hin Hall. split_and!; [done|by apply fmap_ids| |].
  - intros tea ([i r] & -> & Hi)%list_elem_of_fmap. apply db_teas_lookup. exists r. auto.
  - intros Hs id data (r & Hi & ->)%db_teas_lookup.
    apply list_elem_of_fmap. exists (id, r). auto.
Qed.

Lemma tea_run_atomic {A} (op : tea_op A) w r w' :
  tea_run op w = (r, w') ->
  atomic (tea_effect op) (db_teas (w_db w)) r (db_teas (w_db w')).
Proof.
  destruct op; simpl; autounfold with go_preserves; intros Hrun.
  - eapply (new_uuid_atomic db_teas); [|exact Hrun]. intros id w1 r1 w2 _.
    apply query_row_atomic; unfold insertTea; intros t; [intros a|]; intros d' Hs.
    + case_bool_decide; [done|]. destruct (teas (w_db w1) !! id) eqn:Hid; [done|].
      simplify_eq. unfold db_teas. cbn -[fmap insert lookup].
      by rewrite lookup_fmap, Hid, fmap_insert.
    + case_bool_decide; [done|]. by destruct (teas (w_db w1) !! id).
  - eapply (query_row_atomic db_teas); [| |exact Hrun]; unfold getTea, queried; intros t.
    + intros a d' Hs. destruct (teas (w_db w) !! id) eqn:Hid; simplify_eq/=.
      unfold db_teas. by rewrite lookup_fmap, Hid.
    + intros d' Hs. by simplify_eq.
  - destruct (String.eqb_spec search "") as [->|Hne];
      (eapply (exec_atomic db_teas); [|exact Hrun]); intros t a d' Hs.
    + unfold listTeas, queried in Hs. simplify_eq. apply teas_list_effect.
      * apply select_NoDup.
      * by intros i r0 [Hi _]%select_elem.
      * intros _ i r0 Hi. by apply select_elem.
    + unfold searchTeasByPrefix, queried in Hs. simpl in Hs. simplify_eq.
      apply teas_list_effect; [apply limit_rows_ids, select_NoDup| |done].
      by intros i r0 [Hi _]%limit_rows_elem%select_elem.
  - eapply (query_row_atomic db_teas); [| |exact Hrun]; unfold updateTea; intros t.
    + intros a d' Hs. destruct (teas (w_db w) !! id) eqn:Hid; [|done].
      case_bool_decide; [done|]. simplify_eq. simpl. unfold db_teas. simpl.
      rewrite lookup_fmap, Hid, fmap_insert. done.
    + intros d' Hs. destruct (teas (w_db w) !! id); [by case_bool_decide|by simplify_eq].
  - eapply (exec_atomic_id db_teas); [|exact Hrun]. intros t a d' Hs.
    unfold deleteTea in Hs. simplify_eq. simpl. unfold db_teas. simpl.
    by rewrite remove_rows_singleton, fmap_delete.
Qed.

(** *** Tags *)
Lemma db_tags_put id r d :
  db_tags (set_tags (<[id := r]> (tags d)) d) = put_tag (tag_of_row (id, r)) (db_tags d).
Proof. unfold db_tags, put_tag. simpl. by rewrite fmap_insert. Qed.

Lemma db_tags_delete ids d : db_tags (delete_tags ids d) = drop_tags ids (db_tags d).
Proof. unfold db_tags, drop_tags, delete_tags. simpl. by rewrite fmap_remove_rows. Qed.

Lemma db_tags_in id d :
  tags_in id (db_tags d) = dom (filter (λ kv, tag_category_id kv.2 = id) (tags d)).
Proof. unfold tags_in, db_tags. simpl. by rewrite map_filter_fmap, dom_fmap_L. Qed.

Lemma db_tags_lookup d i data :
  tv_tags (db_tags d) !! i = Some data <-> ∃ r, tags d !! i = Some r ∧ data = tag_data_of_row r.
Proof. unfold db_tags. simpl. rewrite lookup_fmap, fmap_Some. done. Qed.

Lemma categories_list_effect search d l :
  NoDup l.*1 -> (∀ i name, (i, name) ∈ l -> tag_categories d !! i = Some name) ->
  (default "" search = "" -> ∀ i name, tag_categories d !! i = Some name -> (i, name) ∈ l) ->
  tag_effect (OpListTagCategories search) (db_tags d) (category_of_row <$> l) (db_tags d).
Proof.
  intros Hl Hin Hall. split_and!; [done|by apply fmap_ids| |].
  - intros cat ([i name] & -> & Hi)%list_elem_of_fmap. by apply Hin.
  - intros Hs id name Hi. apply list_elem_of_fmap. exists (id, name). auto.
Qed.

Lemma tags_list_effect name categoryID d l :
  NoDup l.*1 ->
  (∀ i r, (i, r) ∈ l -> tags d !! i = Some r ∧ ∀ c, categoryID = Some c -> tag_category_id r = c) ->
  (default "" name = "" -> ∀ i r, tags d !! i = Some r ->
     (∀ c, categoryID = Some c -> tag_category_id r = c) -> (i, r) ∈ l) ->
  tag_effect (OpListTags name categoryID) (db_tags d) (tag_of_row <$> l) (db_tags d).
Proof.
  intros Hl Hin Hall. split_and!; [done|by apply fmap_ids| |].
  - intros tag ([i r] & -> & Hi)%list_elem_of_fmap. apply Hin in Hi as [Hi Hc].
    split; [apply db_tags_lookup; by exists r|done].
  - intros Hs id data (r & Hi & ->)%db_tags_lookup Hc.
    apply list_elem_of_fmap. exists (id, r). auto.
Qed.

Lemma store_tag_effect id r d a d' :
  store_tag id r d = inr (a, d') ->
  a = Some (id, r) ∧ db_tags d' = put_tag (tag_of_row (id, r)) (db_tags d)
  ∧ is_Some (tag_categories d !! tag_category_id r).
Proof.
  unfold store_tag, check_tag. destruct (taken _ _ _ _); [done|].
  destruct (tag_categories d !! tag_category_id r) eqn:Hc; [|done].
  intros [= <- <-]. by rewrite db_tags_put.
Qed.

Lemma ListTags_atomic name categoryID w r w' :
  ListTags name categoryID w = (r, w') ->
  atomic (tag_effect (OpListTags name categoryID)) (db_tags (w_db w)) r (db_tags (w_db w')).
Proof.
  autounfold with go_preserves. intros Hrun.
  assert (∀ n, name = Some n -> String.eqb n "" = false -> default "" name ≠ "") as Hne.
  { intros n -> Hn. simpl. by apply String.eqb_neq. }
  destruct name as [n|]; [destruct (String.eqb n "") eqn:Hn|]; destruct categoryID as [c|];
    (eapply (exec_atomic db_tags); [|exact Hrun]); intros t a d' Hs;
    unfold listTags, listTagsByCategoryFilter, listTagsByName, listTagsByNameCategory,
      queried in Hs; simplify_eq;
    (apply tags_list_effect; [apply select_NoDup| |]);
    try (by intros []%(Hne n)); intros; rewrite ?select_elem in *; naive_solver.
Qed.

Lemma NoDup_joined {B} (f : UUID → option B) (c : UUID) (s : gset (UUID * UUID)) (g : B → UUID) :
  (∀ i b, f i = Some b -> g b = i) ->
  NoDup (g <$> omap (λ p, f p.2) (filter (λ p, p.1 = c) (elements s))).
Proof.
  intros Hg. pose proof (NoDup_elements s) as Hnd.
  induction (elements s) as [|[x y] l IH]; [constructor|].
  apply NoDup_cons in Hnd as [Hn Hnd]. rewrite filter_cons. simpl.
  destruct (decide (x = c)) as [->|]; [|by apply IH]. simpl.
  destruct (f y) as [b|] eqn:Hf; [|by apply IH]. simpl. apply NoDup_cons.
  split; [|by apply IH]. intros (b' & Hb & Hin)%list_elem_of_fmap.
  apply list_elem_of_omap in Hin as ([x' y'] & Hin & Hf').
  apply list_elem_of_filter in Hin as [Heq Hin]. simpl in *.
  apply Hg in Hf, Hf'. apply Hn. congruence.
Qed.

Lemma ListByTea_effect id d :
  tag_effect (OpListByTea id) (db_tags d)
    (tag_of_row <$> merge_sort (text_le (λ p, tag_name p.2))
      (omap (λ p, pair p.2 <$> tags d !! p.2) (filter (λ p, p.1 = id) (elements (tea_tags d)))))
    (db_tags d).
Proof.
  split_and!; [done| |].
  - apply fmap_ids; [done|]. rewrite merge_sort_Permutation.
    apply (NoDup_joined (λ i, pair i <$> tags d !! i)). intros i b.
    rewrite fmap_Some. intros (r & _ & ->). done.
  - intros tag. rewrite list_elem_of_fmap. split.
    + intros ([i r] & -> & Hin). rewrite merge_sort_Permutation in Hin.
      apply list_elem_of_omap in Hin as ([x y] & Hin & Hf).
      apply list_elem_of_filter in Hin as [Heq Hin]. simpl in *. subst.
      apply fmap_Some in Hf as (r' & Hr & Heq). simplify_eq.
      rewrite elem_of_elements in Hin. split; [done|]. apply db_tags_lookup. by eexists.
    + intros [Hin (r & Hr & Hd)%db_tags_lookup]. exists (tag_ID tag, r). split.
      * destruct tag; simpl in *. by rewrite Hd.
      * rewrite merge_sort_Permutation. apply list_elem_of_omap. exists (id, tag_ID tag).
        split; [by apply list_elem_of_filter; rewrite elem_of_elements|]. simpl. by rewrite Hr.
Qed.

(** The three statements of [DeleteTagCategory]. *)
Lemma listed_tags_in id d le `{∀ x y, Decision (le x y)} :
  list_to_set (select (λ p, tag_category_id p.2 = id) le (tags d)).*1 = tags_in id (db_tags d).
Proof.
  rewrite db_tags_in. apply set_eq. intros i. rewrite elem_of_list_to_set, elem_of_dom.
  rewrite list_elem_of_fmap. unfold is_Some. setoid_rewrite map_lookup_filter_Some.
  split; [intros ([i' r'] & -> & Hin%select_elem); eauto|].
  intros (r' & Hr'). exists (i, r'). split; [done|]. by apply select_elem.
Qed.

Lemma deleteTagsByCategory_run id t d :
  deleteTagsByCategory id t d = inr (tt, delete_tags (tags_in id (db_tags d)) d).
Proof. by rewrite db_tags_in. Qed.

(** Once the tags are gone the category is not referred to any more. *)
Lemma deleteTagCategory_run id t d (d1 := delete_tags (tags_in id (db_tags d)) d) :
  deleteTagCategory id t d1
  = inr (tt, set_tag_categories (remove_rows {[id]} (tag_categories d)) d1).
Proof.
  unfold deleteTagCategory. rewrite bool_decide_eq_false_2; [done|].
  intros (i & r0 & [Hi Hn]%remove_rows_lookup & Hc). apply Hn. rewrite db_tags_in.
  apply elem_of_dom. exists r0. by apply map_lookup_filter_Some.
Qed.

Lemma DeleteTagCategory_effect id d rows (d1 := delete_tags (tags_in id (db_tags d)) d) :
  NoDup rows -> list_to_set rows = tags_in id (db_tags d) ->
  tag_effect (OpDeleteTagCategory id) (db_tags d) rows
    (db_tags (set_tag_categories (remove_rows {[id]} (tag_categories d)) d1)).
Proof.
  intros Hnd Hrows. split_and!; [done..|]. rewrite <-db_tags_delete.
  unfold drop_category, db_tags. simpl. by rewrite remove_rows_singleton.
Qed.

Lemma DeleteTagCategory_promise id w r w' :
  DeleteTagCategory id w = (r, w') ->
  tag_promise (OpDeleteTagCategory id) (db_tags (w_db w)) r (db_tags (w_db w')).
Proof.
  autounfold with go_preserves. unfold bind, map_err.
  destruct (exec_returns (listTagsByCategory id) w) as [(rows & w1 & E)|(e & w1 & E)]; rewrite E.
  2:{ intros [= <- <-]. left. left.
      apply exec_Err_inv in E as [->|(? & ? & [= _ <-] & ->)]; done. }
  apply exec_Ok_inv in E as (d & [= <- <-] & -> & _).
  pose proof (listed_tags_in id (w_db w) (text_le (λ p, tag_name p.2))) as Hrows.
  pose proof (select_NoDup (λ p, tag_category_id p.2 = id) (text_le (λ p, tag_name p.2))
    (tags (w_db w))) as Hnd.
  pose proof (DeleteTagCategory_effect id (w_db w) _ Hnd Hrows) as Heff.
  destruct (exec_returns (deleteTagsByCategory id) (set_db (w_db w) (advance w)))
    as [([] & w2 & E)|(e & w2 & E)]; rewrite E.
  2:{ intros [= <- <-]. apply exec_Err_inv in E as [->|(? & ? & Hs & ->)]; [left; by left|right].
      rewrite deleteTagsByCategory_run in Hs. simplify_eq. exists (EWrap "delete tags by category" e). split; [done|]. apply db_tags_delete. }
  apply exec_Ok_inv in E as (d2 & Hs & -> & _).
  rewrite deleteTagsByCategory_run in Hs. simplify_eq.
  set (w2 := set_db _ _).
  destruct (exec_returns (deleteTagCategory id) w2)
    as [([] & w3 & E)|(e & w3 & E)]; rewrite E; intros [= <- <-].
  - apply exec_Ok_inv in E as (d3 & Hs & -> & _). unfold w2 in Hs. simpl in Hs.
    rewrite deleteTagCategory_run in Hs. simplify_eq. by left.
  - apply exec_Err_inv in E as [->|(u & d3 & Hs & ->)].
    + right. eexists. split; [done|]. apply db_tags_delete.
    + unfold w2 in Hs. simpl in Hs. rewrite deleteTagCategory_run in Hs. simplify_eq.
      left. right. by eexists.
Qed.

(** A statement that reads one row. *)
Lemma read_row_effect {A V B} (view : Database → V) (m : Database → option A) (f : A → B)
    (eff : V → B → V → Prop) g w r w' :
  (∀ d a, m d = Some a -> eff (view d) (f a) (view d)) ->
  bind (map_err g (query_row (λ _ d, queried (m d) d))) (λ a, ret (f a)) w = (r, w') ->
  atomic eff (view (w_db w)) r (view (w_db w')).
Proof.
  intros Heff. apply query_row_atomic; unfold queried; intros t; [intros a|]; intros d' [= Hs <-].
  - by apply Heff.
  - done.
Qed.

Lemma addTagToTea_effect tea tag t d d' :
  db_wf d -> addTagToTea tea tag t d = inr (tt, d') ->
  tag_effect (OpAddTagToTea tea tag) (db_tags d) tt (db_tags d').
Proof.
  intros Hwf Hs. unfold addTagToTea in Hs. case_bool_decide as Hin; simplify_eq.
  - destruct (wf_tea_tags _ Hwf _ _ Hin) as [_ [r0 Hr]]. split.
    + simpl. by rewrite lookup_fmap, Hr.
    + unfold put_links, db_tags. simpl. f_equal. set_solver.
  - destruct (teas d !! tea) eqn:Ht, (tags d !! tag) eqn:Hg; simplify_eq.
    split; [|done]. simpl. by rewrite lookup_fmap, Hg.
Qed.

Lemma tag_run_promise {A} (op : tag_op A) w r w' :
  world_wf w -> tag_run op w = (r, w') ->
  tag_promise op (db_tags (w_db w)) r (db_tags (w_db w')).
Proof.
  intros Hwf. destruct op; cbn [tag_promise];
    try (exact (DeleteTagCategory_promise _ _ _ _)); try (exact (ListTags_atomic _ _ _ _ _));
    simpl; autounfold with go_preserves; intros Hrun.
  - eapply (new_uuid_atomic db_tags); [|exact Hrun]. intros id w1 r1 w2 _.
    apply query_row_atomic; unfold insertTagCategory; intros t; [intros a|]; intros d' Hs;
      destruct (tag_categories _ !! id) eqn:Hid; try done;
      destruct (taken _ _ _ _) eqn:Ht; simplify_eq.
    split_and!; [done..| |done]. intros id' Hid'. by eapply taken_false in Ht.
  - eapply (query_row_atomic db_tags _ _ (λ _, tt)); [| |exact Hrun];
      unfold updateTagCategory; intros t; [intros a|]; intros d' Hs;
      destruct (tag_categories _ !! id) eqn:Hid; try done;
      try destruct (taken _ _ _ _) eqn:Ht; simplify_eq; [|done].
    split; [|done]. simpl. by rewrite Hid.
  - eapply (read_row_effect db_tags (λ d, pair id <$> tag_categories d !! id)); [|exact Hrun].
    intros d a (name & Hn & ->)%fmap_Some. done.
  - destruct search as [s|]; [destruct (String.eqb_spec s "") as [->|Hne]|];
      (eapply (exec_atomic db_tags); [|exact Hrun]); intros t a d' Hs;
      unfold listTagCategories, searchTagCategories, queried in Hs; simplify_eq;
      (apply categories_list_effect; [apply select_NoDup| |]); try done;
      intros; rewrite ?select_elem in *; tauto.
  - eapply (new_uuid_atomic db_tags); [|exact Hrun]. intros id w1 r1 w2 _.
    apply query_row_atomic; unfold insertTag; intros t; [intros a|]; intros d' Hs;
      destruct (tags (w_db w1) !! id) eqn:Hid; try done;
      apply store_tag_effect in Hs as (? & Hput & Hc); simplify_eq.
    split_and!; [done| |done|done]. simpl. by rewrite lookup_fmap, Hid.
  - eapply (query_row_atomic db_tags); [| |exact Hrun]; unfold updateTag; intros t; [intros a|];
      intros d' Hs; destruct (tags (w_db w) !! id) as [r0|] eqn:Hid; simplify_eq; try done;
      apply store_tag_effect in Hs as (? & Hput & Hc); simplify_eq.
    exists (tag_data_of_row r0). split_and!; [|done|done]. simpl. by rewrite lookup_fmap, Hid.
  - eapply (query_row_atomic db_tags); [| |exact Hrun]; unfold changeTagCategory; intros t;
      [intros a|]; intros d' Hs; destruct (tags (w_db w) !! id) as [r0|] eqn:Hid; simplify_eq;
      try done; apply store_tag_effect in Hs as (? & Hput & Hc); simplify_eq.
    exists (tag_data_of_row r0). split_and!; [|done..]. simpl. by rewrite lookup_fmap, Hid.
  - eapply (exec_atomic_id db_tags); [|exact Hrun]. intros t a d' [= _ <-]. apply db_tags_delete.
  - eapply (read_row_effect db_tags (λ d, pair id <$> tags d !! id)); [|exact Hrun].
    intros d a (r0 & Hr & ->)%fmap_Some. split_and!; [done| |done].
    apply db_tags_lookup. by exists r0.
  - eapply (exec_atomic_id db_tags); [|exact Hrun]. intros t [] d'. by apply addTagToTea_effect.
  - eapply (exec_atomic_id db_tags); [|exact Hrun]. by intros t a d' [= _ <-].
  - eapply (exec_atomic db_tags); [|exact Hrun]. intros t a d' [= <- <-]. apply ListByTea_effect.
Qed.

(** *** Collections *)
Lemma db_collections_items items d :
  db_collections (set_items items d) = put_items items (db_collections d).
Proof. reflexivity. Qed.

Lemma known_items_db id qids new d :
  (∀ p, p ∈ new <-> ∃ q, p = (id, q) ∧ q ∈ qids ∧ is_Some (qr_records d !! q)
                      ∧ p ∉ collection_qr_items d) ->
  list_to_set new ∪ collection_qr_items d
  = known_items id qids (db_collections d) ∪ collection_qr_items d.
Proof.
  intros Hnew. apply set_eq. intros p. unfold known_items.
  rewrite !elem_of_union, !elem_of_list_to_set, Hnew, list_elem_of_fmap.
  setoid_rewrite list_elem_of_filter. simpl. setoid_rewrite lookup_fmap.
  setoid_rewrite fmap_is_Some. destruct (decide (p ∈ collection_qr_items d)); naive_solver.
Qed.

Lemma deleteCollection_effect id user t d a d' :
  deleteCollection id user t d = inr (a, d') ->
  collection_effect (OpDeleteCollection id user) (db_collections d) a (db_collections d').
Proof.
  unfold deleteCollection. simpl. rewrite lookup_fmap.
  destruct (collections d !! id) as [r|]; simpl; [|by intros [= _ <-]].
  destruct (decide (coll_user_id r = user)); intros [= _ <-]; [|done].
  unfold db_collections, put_collections, put_items. simpl.
  rewrite remove_rows_singleton, fmap_delete. f_equal. apply set_eq. intros p.
  rewrite !elem_of_filter, not_elem_of_singleton. done.
Qed.

(** A loop of single-item deletions removes a prefix of the list. *)
Lemma drop_items_cons id q qs d :
  drop_items id qs (db_collections (set_items (collection_qr_items d ∖ {[(id, q)]}) d))
  = drop_items id (q :: qs) (db_collections d).
Proof.
  unfold drop_items, put_items, db_collections. simpl. f_equal. apply set_eq. intros [x y].
  rewrite !elem_of_filter, elem_of_difference, not_elem_of_singleton, elem_of_cons. simpl.
  naive_solver.
Qed.

Lemma drop_items_nil id v : drop_items id [] v = v.
Proof.
  destruct v. unfold drop_items, put_items. simpl. f_equal. apply set_eq. intros p.
  rewrite elem_of_filter. set_solver.
Qed.

Lemma DeleteTeaFromCollection_promise id teas w r w' :
  DeleteTeaFromCollection id teas w = (r, w') ->
  collection_promise (OpDeleteTeaFromCollection id teas) (db_collections (w_db w)) r
    (db_collections (w_db w')).
Proof.
  unfold DeleteTeaFromCollection. revert w. induction teas as [|q teas IH]; intros w.
  { intros [= <- <-]. simpl. by rewrite drop_items_nil. }
  simpl for_range. unfold bind, map_err, Queries_DeleteCollectionItem.
  destruct (exec_returns (deleteCollectionItem id q) w) as [([] & w1 & E)|(e & w1 & E)]; rewrite E.
  - apply exec_Ok_inv in E as (d1 & [= <-] & -> & _). intros Hrun.
    apply IH in Hrun. simpl in Hrun. destruct r as [[]|e| |]; simpl in *; [| |done..].
    + by rewrite Hrun, drop_items_cons.
    + destruct Hrun as [n Hn]. exists (S n). by rewrite Hn, firstn_cons, drop_items_cons.
  - intros [= <- <-]. simpl. apply exec_Err_inv in E as [->|(u & d1 & [= _ <-] & ->)].
    + exists 0. by rewrite drop_items_nil.
    + exists 1. rewrite <-(drop_items_nil id (db_collections (w_db _))). simpl w_db.
      by rewrite drop_items_cons.
Qed.

Lemma join_record_spec d q rec :
  join_record d q = Some rec <->
  ∃ r t, qr_records d !! q = Some r ∧ teas d !! qrr_tea_id r = Some t ∧
    rec = mkLcrRow q (qrr_tea_id r) (tea_name t) (tea_type t) (tea_description t)
            (qrr_boiling_temp r) (qrr_expiration_date r).
Proof.
  unfold join_record. destruct (qr_records d !! q) as [r|]; [|naive_solver].
  destruct (teas d !! qrr_tea_id r) as [t|] eqn:Ht; naive_solver.
Qed.

Lemma record_in_db d id rec :
  record_in (db_collections d) id rec <->
  (id, cr_ID rec) ∈ collection_qr_items d ∧
  ∃ row, join_record d (cr_ID rec) = Some row ∧ rec = record_of_row row.
Proof.
  unfold record_in. simpl. rewrite lookup_fmap, !fmap_Some. setoid_rewrite db_teas_lookup.
  setoid_rewrite join_record_spec. split.
  - intros (Hin & (r & Hr & Hq) & (t & Ht & Hd)). split; [done|].
    destruct rec as [i [ti td] b e]. simpl in *. injection Hq as -> -> ->.
    eexists. split; [by exists r, t|]. unfold record_of_row. simpl. by rewrite Hd.
  - intros (Hin & row & (r & t & Hr & Ht & ->) & Hrec). split; [done|].
    rewrite Hrec. simpl. split; [by exists r|by exists t].
Qed.

Lemma CollectionRecords_effect id d :
  collection_effect (OpCollectionRecords id) (db_collections d)
    (record_of_row <$> merge_sort (le_on lcr_ExpirationDate)
      (omap (λ p, join_record d p.2)
        (filter (λ p, p.1 = id) (elements (collection_qr_items d)))))
    (db_collections d).
Proof.
  split_and!; [done| | |].
  - rewrite <-list_fmap_compose, merge_sort_Permutation.
    apply (NoDup_joined (join_record d)). intros i b (r & t & _ & _ & ->)%join_record_spec. done.
  - apply (StronglySorted_fmap _ (le_on lcr_ExpirationDate)); [by intros|]. apply StronglySorted_merge_sort; apply _.
  - intros rec. rewrite record_in_db, list_elem_of_fmap. split.
    + intros (row & -> & Hin). rewrite merge_sort_Permutation in Hin.
      apply list_elem_of_omap in Hin as ([x y] & Hin & Hj).
      apply list_elem_of_filter in Hin as [Heq Hin]. simpl in *. subst.
      rewrite elem_of_elements in Hin.
      pose proof Hj as (r & t & _ & _ & ->)%join_record_spec. split; [done|]. by eexists.
    + intros (Hin & row & Hj & Heq). exists row. split; [done|].
      rewrite merge_sort_Permutation. apply list_elem_of_omap. exists (id, cr_ID rec).
      split; [|done]. by apply list_elem_of_filter; rewrite elem_of_elements.
Qed.

Lemma Collections_effect user d le `{∀ x y, Decision (le x y)} :
  collection_effect (OpCollections user) (db_collections d)
    (collection_of_row <$> select (λ p, coll_user_id p.2 = user) le (collections d))
    (db_collections d).
Proof.
  split_and!; [done|apply fmap_ids; [done|apply select_NoDup]|].
  intros c. rewrite list_elem_of_fmap. simpl. rewrite lookup_fmap, fmap_Some. split.
  - intros ([i r] & -> & [Hi Hu]%select_elem). exists r. simpl in *. by subst.
  - intros (r & Hr & [= Hu Hn]). exists (col_ID c, r). split.
    + destruct c. unfold collection_of_row. simpl in *. congruence.
    + apply select_elem. done.
Qed.

Lemma collection_run_promise {A} (op : collection_op A) w r w' :
  collection_run op w = (r, w') ->
  collection_promise op (db_collections (w_db w)) r (db_collections (w_db w')).
Proof.
  destruct op; cbn [collection_promise]; try (exact (DeleteTeaFromCollection_promise _ _ _ _ _));
    simpl; autounfold with go_preserves; intros Hrun.
  - eapply (new_uuid_atomic db_collections); [|exact Hrun]. intros id w1 r1 w2 _.
    apply query_row_atomic; unfold insertCollection; intros t; [intros a|]; intros d' Hs;
      destruct (collections (w_db w1) !! id) eqn:Hid; try done;
      destruct (users (w_db w1) !! userID) eqn:Hu; simplify_eq.
    split_and!; simpl; [by rewrite lookup_fmap, Hid|by apply elem_of_dom|].
    unfold db_collections, put_collections. simpl. by rewrite fmap_insert.
  - case_bool_decide as Hnil.
    + unfold ret in Hrun. simplify_eq. simpl. unfold known_items, put_items, db_collections.
      simpl. f_equal. set_solver.
    + eapply (exec_atomic_id db_collections); [|exact Hrun]. intros t [] d' Hs.
      apply insertCollectionItems_spec in Hs as (new & -> & Hnew & _).
      rewrite db_collections_items. simpl. f_equal. by apply known_items_db.
  - eapply (exec_atomic_id db_collections); [|exact Hrun]. intros t a d' Hs.
    by eapply deleteCollection_effect.
  - eapply (exec_atomic db_collections); [|exact Hrun]. intros t a d' [= <- <-].
    apply Collections_effect.
  - eapply (read_row_effect db_collections (λ d, match collections d !! id with
      | Some r => if decide (coll_user_id r = userID) then Some (id, r) else None
      | None => None end)); [|exact Hrun].
    intros d a Ha. destruct (collections d !! id) as [r0|] eqn:Hid; [|done].
    destruct (decide _) as [Hu|]; simplify_eq. split_and!; [done..|].
    simpl. by rewrite lookup_fmap, Hid.
  - eapply (exec_atomic db_collections); [|exact Hrun]. intros t a d' [= <- <-].
    apply CollectionRecords_effect.
Qed.

(** ** The laws *)
#[export] Instance World_TeaStorageLaws : TeaStorageLaws World.
Proof.
  refine {| ts_inv := world_wf; ts_view := λ w, db_teas (w_db w) |}.
  - intros A op w r w' Hw Hrun. pose proof (tea_run_wf op w Hw) as Hwf.
    pose proof (tea_run_db_only op w) as (Hev & _). rewrite Hrun in Hwf, Hev.
    split_and!; [done..|]. by apply tea_run_atomic.
  - done.
Defined.

#[export] Instance World_TagStorageLaws : TagStorageLaws World.
Proof.
  refine {| gs_inv := world_wf; gs_view := λ w, db_tags (w_db w) |}.
  - intros A op w r w' Hw Hrun. pose proof (tag_run_wf op w Hw) as Hwf.
    pose proof (tag_run_db_only op w) as (Hev & _). rewrite Hrun in Hwf, Hev.
    split_and!; [done..|]. by apply tag_run_promise.
  - done.
Defined.

#[export] Instance World_CollectionStorageLaws : CollectionStorageLaws World.
Proof.
  refine {| cs_inv := world_wf; cs_view := λ w, db_collections (w_db w) |}.
  intros A op w r w' Hw Hrun. pose proof (collection_run_wf op w Hw) as Hwf. rewrite Hrun in Hwf.
  split; [done|]. by apply collection_run_promise.
Defined.

End instances.
