(* ===== verification/Example.v ===== *)
(** A concrete world, for the witnesses: two users, two teas, a category with a
    tag, two QR records and a collection of the first user, all created by the
    adapter in the environment [exampleEnv], in which every statement is
    answered and the UUID drawn at tick [n] is [1000 + n]. *)

From stdpp Require Import base gmap sets list strings.
From Stdlib Require Import ZArith Lia.
From S2P Require Import Prelude GoTime Common Env Schema Sql World Queries PgAdapter Interfaces PgStorage.

#[local] Existing Instance exampleEnv.

Definition alice : UUID := 1000%N.
Definition bob : UUID := 1002%N.
Definition sencha : UUID := 1004%N.
Definition mint : UUID := 1006%N.
Definition flavour : UUID := 1008%N.
Definition grassy : UUID := 1010%N.
Definition box1 : UUID := 1%N.
Definition box2 : UUID := 2%N.
Definition shelf : UUID := 1015%N.

(** One day after the clock of the example starts. *)
Definition tomorrow : Time := (exampleClock 0 + 24 * Hour)%Z.

Definition exampleSetup : M World GoError unit :=
  do! GetOrCreateUser "apple-alice" in
  do! GetOrCreateUser "apple-bob" in
  do! WriteRecord (mkTeaData "Sencha" TeaBeverageType "green") in
  do! WriteRecord (mkTeaData "Mint" HerbBeverageType "") in
  do! CreateTagCategory "flavour" in
  do! CreateTag "grassy" "#0f0" flavour in
  do! AddTagToTea sencha grassy in
  do! WriteQR box1 (mkQR sencha 80 tomorrow) in
  do! WriteQR box2 (mkQR mint 100 (tomorrow + 24 * Hour)%Z) in
  do! CreateCollection alice "shelf" in
  AddTeaToCollection shelf [box1].

Definition exampleWorld : World := (exampleSetup (initial_world empty_db)).2.

Lemma exampleSetup_Ok : (exampleSetup (initial_world empty_db)).1 = Ok tt.
Proof. vm_compute. reflexivity. Qed.

Lemma exampleWorld_wf : world_wf exampleWorld.
Proof.
  assert (preserves world_wf exampleSetup) as Hp by (unfold exampleSetup; walk).
  apply Hp, empty_db_wf.
Qed.
