(* ===== verification/Managers.v ===== *)
(** The managers of src/internal/managers: teas, tags, QR records, collections
    and notifications.

    A manager calls its storage and announces a successful change on a channel
    of its event loop. The tea, tag and collection managers are defined and
    proved against the interfaces of [Interfaces]. *)

From stdpp Require Import base gmap sets list strings sorting.
From Stdlib Require Import ZArith Lia.
From S2P Require Import Prelude GoTime Common Models Env Schema Sql World Queries PgAdapter Interfaces.
From S2P Require Import PgStorage Example.

(** ** The tea manager (src/internal/managers/tea/manager.go) *)
Module TeaManager.
Section manager.
Context {S : Type} `{TeaStorage S, EventBus S}.

Definition Get (id : UUID) : M S GoError Tea := ts_ReadRecord id.

Definition List_ (search : option string) : M S GoError (list Tea) :=
  match search with
  | None => ts_ReadAllRecords ""
  | Some s => ts_ReadAllRecords s
  end.

Definition Create (data : TeaData) : M S GoError Tea :=
  let! res := ts_WriteRecord data in
  do! send_event (EvTeaCreate res) in
  ret res.

Definition Update (id : UUID) (rec : TeaData) : M S GoError Tea :=
  let! res := ts_Update id rec in
  do! send_event (EvTeaUpdate res) in
  ret res.

Definition Delete (id : UUID) : M S GoError unit :=
  do! ts_Delete id in
  send_event (EvTeaDelete id).
End manager.
End TeaManager.

(** ** The tag manager (src/internal/managers/tag/manager.go) *)
Module TagManager.
Section manager.
Context {S : Type} `{TagStorage S, EventBus S}.

Definition AddTagToTea (tea tag : UUID) : M S GoError unit :=
  do! gs_AddTagToTea tea tag in
  send_event (EvAddTagToTea tea).

Definition DeleteTagFromTea (tea tag : UUID) : M S GoError unit :=
  do! gs_DeleteTagFromTea tea tag in
  send_event (EvDeleteTagFromTea tea).

Definition ListByTea (id : UUID) : M S GoError (list Tag) := gs_ListByTea id.

Definition CreateCategory (name : string) : M S GoError TagCategory :=
  let! cat := gs_CreateTagCategory name in
  do! send_event (EvCategoryCreate cat) in
  ret cat.

Definition DeleteCategory (id : UUID) : M S GoError unit :=
  let! tags := gs_DeleteTagCategory id in
  do! for_range (λ t, send_event (EvTagDelete t)) tags in
  send_event (EvCategoryDelete id).

Definition GetCategory (id : UUID) : M S GoError TagCategory := gs_GetTagCategory id.

Definition ListCategory (search : option string) : M S GoError (list TagCategory) :=
  gs_ListTagCategories search.

Definition Create (name color : string) (categoryID : UUID) : M S GoError Tag :=
  let! tag := gs_CreateTag name color categoryID in
  do! send_event (EvTagCreate tag) in
  ret tag.

Definition Update (id : UUID) (name color : string) : M S GoError Tag :=
  let! tag := gs_UpdateTag id name color in
  do! send_event (EvTagUpdate tag) in
  ret tag.

Definition ChangeCategory (id categoryID : UUID) : M S GoError Tag :=
  let! tag := gs_ChangeTagCategory id categoryID in
  do! send_event (EvTagUpdate tag) in
  ret tag.

Definition Delete (id : UUID) : M S GoError unit :=
  do! gs_DeleteTag id in
  send_event (EvTagDelete id).

Definition Get (id : UUID) : M S GoError Tag := gs_GetTag id.

Definition List_ (name : option string) (categoryID : option UUID) : M S GoError (list Tag) :=
  gs_ListTags name categoryID.

Definition UpdateCategory (id : UUID) (name : string) : M S GoError TagCategory :=
  do! gs_UpdateTagCategory id name in
  let res := mkTagCategory id name in
  do! send_event (EvCategoryUpdate res) in
  ret res.
End manager.
End TagManager.

(** ** The collection manager (src/internal/managers/collection/manager.go) *)
Definition FromCollectionRecord (record : CollectionRecord) : gqlQRRecord :=
  mkGqlQRRecord (cr_ID record) (FromCommonTea (cr_Tea record)) (cr_BowlingTemp record)
    (cr_ExpirationDate record).

Module CollectionManager.
Section manager.
Context {S : Type} `{CollectionStorage S}.

Definition ListRecords (id userID : UUID) : M S GoError (list gqlQRRecord) :=
  do! cs_Collection id userID in
  let! records := cs_CollectionRecords id in
  ret (FromCollectionRecord <$> records).

Definition Create (userID : UUID) (name : string) : M S GoError gqlCollection :=
  let! id := cs_CreateCollection userID name in
  ret (mkGqlCollection id name userID).

Definition AddRecords (userID id : UUID) (teas : list UUID) : M S GoError gqlCollection :=
  do! cs_Collection id userID in
  do! cs_AddTeaToCollection id teas in
  let! collection := cs_Collection id userID in
  ret (mkGqlCollection id (col_Name collection) userID).

Definition DeleteRecords (userID id : UUID) (teas : list UUID) : M S GoError gqlCollection :=
  do! cs_Collection id userID in
  do! cs_DeleteTeaFromCollection id teas in
  let! collection := cs_Collection id userID in
  ret (mkGqlCollection id (col_Name collection) userID).

Definition Delete (userID id : UUID) : M S GoError unit := cs_DeleteCollection id userID.

Definition List_ (userID : UUID) : M S GoError (list gqlCollection) :=
  let! l := cs_Collections userID in
  ret ((λ col, mkGqlCollection (col_ID col) (col_Name col) userID) <$> l).
End manager.
End CollectionManager.

(** ** QR records and notifications: src/internal/managers/qr/manager.go and
    src/internal/managers/notification/manager.go *)
Module QRManager.
Section manager.
Context `{Env}.

Definition Set_ (id : UUID) (data : gqlQRRecordData) : M World GoError unit :=
  WriteQR id (mkQR (gqd_Tea data) (gqd_BowlingTemp data) (gqd_ExpirationDate data)).

Definition Get (id : UUID) : M World GoError gqlQRRecordData :=
  let! data := ReadQR id in
  ret (mkGqlQRRecordData (qr_Tea data) (qr_BowlingTemp data) (qr_ExpirationDate data)).
End manager.
End QRManager.

Module NotificationManager.
Section manager.
Context `{Env}.

Definition BindDevice (userID deviceID : UUID) : M World GoError unit :=
  AddDeviceForUser userID deviceID.

Definition RegisterDeviceToken (deviceID : UUID) (deviceToken : string) : M World GoError unit :=
  CreateOrUpdateDeviceToken deviceID deviceToken.

Definition Notifications (userID : UUID) : M World GoError (list Notification) :=
  PgAdapter.Notifications userID.
End manager.
End NotificationManager.

(** ** What a manager promises

    A mutation does what its storage promises and announces a success exactly
    once, after it happened; an error announces nothing. A full channel parks the
    caller with the change made and part of the announcement pending. [answer]
    turns the storage's answer into the manager's. *)
Definition announced {V A B} (promise : V → outcome GoError A → V → Prop)
    (events_of : A → list Event) (answer : A → B)
    (v : V) (r : outcome GoError B) (v' : V) (before after : list Event) : Prop :=
  match r with
  | Ok b => ∃ a, b = answer a ∧ promise v (Ok a) v' ∧ after = before ++ events_of a
  | Err e => promise v (Err e) v' ∧ after = before
  | Blocked => ∃ a sent e rest, promise v (Ok a) v' ∧ events_of a = sent ++ e :: rest
                 ∧ after = before ++ sent
                 ∧ defaultChanSize <= length (buffered (event_chan e) after)
  | Panic => False
  end.

Definition tea_events {A} (op : tea_op A) : A → list Event :=
  match op with
  | OpWriteRecord _ => λ tea, [EvTeaCreate tea]
  | OpUpdate _ _ => λ tea, [EvTeaUpdate tea]
  | OpDelete id => λ _, [EvTeaDelete id]
  | OpReadRecord _ | OpReadAllRecords _ => λ _, []
  end.

Definition tag_events {A} (op : tag_op A) : A → list Event :=
  match op with
  | OpCreateTagCategory _ => λ cat, [EvCategoryCreate cat]
  | OpUpdateTagCategory id name => λ _, [EvCategoryUpdate (mkTagCategory id name)]
  | OpDeleteTagCategory id => λ removed, (EvTagDelete <$> removed) ++ [EvCategoryDelete id]
  | OpCreateTag _ _ _ => λ tag, [EvTagCreate tag]
  | OpUpdateTag _ _ _ | OpChangeTagCategory _ _ => λ tag, [EvTagUpdate tag]
  | OpDeleteTag id => λ _, [EvTagDelete id]
  | OpAddTagToTea tea _ => λ _, [EvAddTagToTea tea]
  | OpDeleteTagFromTea tea _ => λ _, [EvDeleteTagFromTea tea]
  | OpGetTagCategory _ | OpListTagCategories _ | OpGetTag _ | OpListTags _ _ | OpListByTea _ =>
      λ _, []
  end.

(** The manager method that each storage operation serves. *)
Definition tea_manager {S} `{TeaStorage S, EventBus S} {A} (op : tea_op A) : M S GoError A :=
  match op with
  | OpWriteRecord rec => TeaManager.Create rec
  | OpReadRecord id => TeaManager.Get id
  | OpReadAllRecords search => TeaManager.List_ (Some search)
  | OpUpdate id rec => TeaManager.Update id rec
  | OpDelete id => TeaManager.Delete id
  end.

(** [UpdateCategory] answers the category, [DeleteCategory] nothing. *)
Definition tag_answer {A} (op : tag_op A) : Type :=
  match op with
  | OpUpdateTagCategory _ _ => TagCategory
  | OpDeleteTagCategory _ => unit
  | _ => A
  end.

Definition tag_answer_of {A} (op : tag_op A) : A → tag_answer op :=
  match op with
  | OpUpdateTagCategory id name => λ _, mkTagCategory id name
  | OpDeleteTagCategory _ => λ _, tt
  | OpCreateTagCategory _ | OpGetTagCategory _ => λ a, a
  | OpListTagCategories _ => λ a, a
  | OpCreateTag _ _ _ | OpUpdateTag _ _ _ | OpChangeTagCategory _ _ | OpGetTag _ => λ a, a
  | OpListTags _ _ | OpListByTea _ => λ a, a
  | OpDeleteTag _ | OpAddTagToTea _ _ | OpDeleteTagFromTea _ _ => λ a, a
  end.

Definition tag_manager {S} `{TagStorage S, EventBus S} {A} (op : tag_op A)
    : M S GoError (tag_answer op) :=
  match op with
  | OpCreateTagCategory name => TagManager.CreateCategory name
  | OpUpdateTagCategory id name => TagManager.UpdateCategory id name
  | OpDeleteTagCategory id => TagManager.DeleteCategory id
  | OpGetTagCategory id => TagManager.GetCategory id
  | OpListTagCategories search => TagManager.ListCategory search
  | OpCreateTag name color categoryID => TagManager.Create name color categoryID
  | OpUpdateTag id name color => TagManager.Update id name color
  | OpChangeTagCategory id categoryID => TagManager.ChangeCategory id categoryID
  | OpDeleteTag id => TagManager.Delete id
  | OpGetTag id => TagManager.Get id
  | OpListTags name categoryID => TagManager.List_ name categoryID
  | OpAddTagToTea tea tag => TagManager.AddTagToTea tea tag
  | OpDeleteTagFromTea tea tag => TagManager.DeleteTagFromTea tea tag
  | OpListByTea id => TagManager.ListByTea id
  end.

Section announcing.
Context {S : Type} `{EventBusLaws S}.

(** A storage call followed by its announcement. *)
Definition announcing {A B} (m : M S GoError A) (events_of : A → list Event) (answer : A → B)
    : M S GoError B :=
  let! a := m in do! for_range send_event (events_of a) in ret (answer a).

Lemma announcing_spec {V A B} (view : S → V) (promise : V → outcome GoError A → V → Prop)
    (m : M S GoError A) (events_of : A → list Event) (answer : A → B) s r s' :
  (∀ l s, view (bus_put l s) = view s) ->
  (∀ r s1, m s = (r, s1) -> bus_events s1 = bus_events s ∧ promise (view s) r (view s1)
     ∧ r ≠ Panic ∧ r ≠ Blocked) ->
  announcing m events_of answer s = (r, s') ->
  announced promise events_of answer (view s) r (view s') (bus_events s) (bus_events s')
  ∧ ∃ l r1 s1, s' = bus_put l s1 ∧ m s = (r1, s1).
Proof.
  intros Hput Hm. unfold announcing, bind at 1.
  destruct (m s) as [[a|e| |] s1] eqn:E;
    destruct (Hm _ _ eq_refl) as (Hev & Hp & Hnp & Hnb); [| |done..].
  - unfold bind. destruct (for_range send_event (events_of a) s1) as [r1 s2] eqn:Es.
    apply send_events_spec in Es as [[-> ->]|(-> & sent & e & rest & Hl & -> & Hfull)];
      intros [= <- <-]; simpl; rewrite Hput; (split; [|by repeat eexists]).
    + exists a. by rewrite bus_events_put, Hev.
    + rewrite bus_events_put in *. exists a, sent, e, rest. by rewrite Hev in *.
  - intros [= <- <-]. simpl. split; [done|]. exists (bus_events s1), (Err e), s1.
    by rewrite bus_put_events.
Qed.

Lemma atomic_returns {V A} (eff : V → A → V → Prop) v r v' :
  atomic eff v r v' -> r ≠ Panic ∧ r ≠ Blocked.
Proof. by destruct r. Qed.

Lemma tag_promise_returns {A} (op : tag_op A) v r v' :
  tag_promise op v r v' -> r ≠ Panic ∧ r ≠ Blocked.
Proof.
  destruct op; try exact (atomic_returns _ _ _ _).
  by intros [Hp%atomic_returns|(e & -> & _)].
Qed.

(** The methods have this shape. *)
Lemma send_then {A B} (m : M S GoError A) (e : A → Event) (answer : A → B) s :
  (let! a := m in do! send_event (e a) in ret (answer a)) s
  = announcing m (λ a, [e a]) answer s.
Proof.
  unfold announcing, bind. destruct (m s) as [[a|?| |] s1]; [|done..]. simpl. unfold bind.
  by destruct (send_event (e a) s1) as [[[]|?| |] ?].
Qed.

Lemma send_last (m : M S GoError unit) (e : Event) s :
  (do! m in send_event e) s = announcing m (λ _, [e]) (λ u, u) s.
Proof.
  unfold announcing, bind. destruct (m s) as [[[]|?| |] s1]; [|done..]. simpl. unfold bind.
  by destruct (send_event e s1) as [[[]|?| |] ?].
Qed.

Lemma send_none {A} (m : M S GoError A) s :
  m s = announcing m (λ _, []) (λ a, a) s.
Proof. unfold announcing, bind. by destruct (m s) as [[a|?| |] s1]. Qed.

Lemma for_range_app {A} (f : A → M S GoError unit) l1 l2 s :
  for_range f (l1 ++ l2) s = (do! for_range f l1 in for_range f l2) s.
Proof.
  revert s. induction l1 as [|x l1 IH]; intros s; [done|]. simpl. unfold bind.
  destruct (f x s) as [[[]|?| |] s1]; [|done..]. apply IH.
Qed.

Lemma for_range_fmap {A B} (g : A → B) (f : B → M S GoError unit) l s :
  for_range (λ x, f (g x)) l s = for_range f (g <$> l) s.
Proof.
  revert s. induction l as [|x l IH]; intros s; [done|]. simpl. unfold bind.
  destruct (f (g x) s) as [[[]|?| |] s1]; [|done..]. apply IH.
Qed.
End announcing.

Lemma tea_manager_shape {S} `{TeaStorage S, EventBus S} {A} (op : tea_op A) s :
  tea_manager op s = announcing (tea_run op) (tea_events op) (λ a, a) s.
Proof. destruct op; first [apply send_then|apply send_last|apply send_none]. Qed.

Lemma tag_manager_shape {S} `{TagStorage S, EventBus S} {A} (op : tag_op A) s :
  tag_manager op s = announcing (tag_run op) (tag_events op) (tag_answer_of op) s.
Proof.
  destruct op; try first [apply send_then|apply send_last|apply send_none].
  - simpl. unfold TagManager.DeleteCategory, announcing, bind.
    destruct (gs_DeleteTagCategory id s) as [[removed|?| |] s1]; [|done..].
    rewrite for_range_app, (for_range_fmap EvTagDelete). unfold bind.
    destruct (for_range send_event _ s1) as [[[]|?| |] s2]; [|done..]. simpl. unfold bind.
    by destruct (send_event (EvCategoryDelete id) s2) as [[[]|?| |] s3].
Qed.

(** ** Who may touch a collection *)

(** The collection belongs to the user. *)
Definition owns (v : CollectionView) (userID id : UUID) : Prop :=
  ∃ name, cv_collections v !! id = Some (userID, name).

Section ownership.
Context {S : Type} `{CollectionStorageLaws S}.

Lemma run_spec {A} (op : collection_op A) s r s' :
  cs_inv s -> collection_run op s = (r, s') ->
  cs_inv s' ∧ collection_promise op (cs_view s) r (cs_view s').
Proof. apply cs_spec. Qed.

(** The lookup that guards the other calls: it changes nothing, and succeeds
    for the owner only. *)
Lemma guard_spec id user s r s' :
  cs_inv s -> cs_Collection id user s = (r, s') ->
  cs_inv s' ∧ cs_view s' = cs_view s ∧
  match r with
  | Ok c => col_ID c = id ∧ cv_collections (cs_view s) !! id = Some (user, col_Name c)
  | Err _ => True
  | _ => False
  end.
Proof.
  intros Hs Hr. apply (run_spec (OpCollection id user)) in Hr as [Hs' Hp]; [|done].
  split; [done|]. destruct r; simpl in *; [naive_solver| |done..].
  by destruct Hp as [Hv|(a & Hv & _)].
Qed.

(** A call that follows the guard runs for the owner only. *)
Lemma guarded_spec {A} id user (k : Collection → M S GoError A) s r s' :
  cs_inv s -> bind (cs_Collection id user) k s = (r, s') ->
  (∃ c s1, cs_inv s1 ∧ cs_view s1 = cs_view s
     ∧ cv_collections (cs_view s) !! id = Some (user, col_Name c) ∧ k c s1 = (r, s')) ∨
  (cs_inv s' ∧ cs_view s' = cs_view s ∧ ∃ e, r = Err e).
Proof.
  intros Hs. unfold bind. destruct (cs_Collection id user s) as [[c|e| |] s1] eqn:E;
    destruct (guard_spec _ _ _ _ _ Hs E) as (Hs1 & Hv & Hc); try done.
  - intros Hk. left. destruct Hc as [_ Hc]. by exists c, s1.
  - intros [= <- <-]. right. eauto.
Qed.

Lemma AddRecords_spec user id qrs s r s' :
  cs_inv s -> CollectionManager.AddRecords user id qrs s = (r, s') ->
  cs_inv s' ∧
  ((∃ name, cv_collections (cs_view s) !! id = Some (user, name) ∧
      (cs_view s' = cs_view s ∨
       cs_view s' = put_items (known_items id qrs (cs_view s) ∪ cv_items (cs_view s)) (cs_view s)) ∧
      match r with
      | Ok c => c = mkGqlCollection id name user ∧
          cs_view s' = put_items (known_items id qrs (cs_view s) ∪ cv_items (cs_view s)) (cs_view s)
      | Err _ => True
      | _ => False
      end) ∨
   (cs_view s' = cs_view s ∧ ∃ e, r = Err e)).
Proof.
  intros Hs Hr. apply guarded_spec in Hr as [(c & s1 & Hs1 & Hv1 & Hown & Hr)|(Hs' & Hv & He)];
    [|by eauto|done].
  unfold bind at 1 in Hr.
  destruct (cs_AddTeaToCollection id qrs s1) as [r2 s2] eqn:E2.
  apply (run_spec (OpAddTeaToCollection id qrs)) in E2 as [Hs2 Hp2]; [|done]. simpl in Hp2.
  rewrite Hv1 in Hp2.
  destruct r2 as [[]|e| |]; simpl in Hp2; [| |done..].
  - apply guarded_spec in Hr as [(c' & s3 & Hs3 & Hv3 & Hown' & Hr)|(Hs' & Hv & He)]; [| |done].
    + unfold ret in Hr. simplify_eq. split; [done|]. left. exists (col_Name c).
      rewrite Hv3, Hp2. rewrite Hp2 in Hown'. simpl in Hown'. split_and!; [done|by right| |done].
      congruence.
    + split; [done|]. left. exists (col_Name c). rewrite Hv, Hp2.
      destruct He as [e ->]. split_and!; [done|by right|done].
  - simplify_eq. split; [done|]. left. exists (col_Name c). split_and!; [done| |done].
    destruct Hp2 as [->|[_ ->]]; eauto.
Qed.

Lemma DeleteRecords_spec user id qrs s r s' :
  cs_inv s -> CollectionManager.DeleteRecords user id qrs s = (r, s') ->
  cs_inv s' ∧
  ((∃ name n, cv_collections (cs_view s) !! id = Some (user, name) ∧
      cs_view s' = drop_items id (take n qrs) (cs_view s) ∧
      match r with
      | Ok c => c = mkGqlCollection id name user ∧ take n qrs = qrs
      | Err _ => True
      | _ => False
      end) ∨
   (cs_view s' = cs_view s ∧ ∃ e, r = Err e)).
Proof.
  intros Hs Hr. apply guarded_spec in Hr as [(c & s1 & Hs1 & Hv1 & Hown & Hr)|(Hs' & Hv & He)];
    [|by eauto|done].
  unfold bind at 1 in Hr.
  destruct (cs_DeleteTeaFromCollection id qrs s1) as [r2 s2] eqn:E2.
  apply (run_spec (OpDeleteTeaFromCollection id qrs)) in E2 as [Hs2 Hp2]; [|done]. simpl in Hp2.
  rewrite Hv1 in Hp2.
  assert (take (length qrs) qrs = qrs) as Htake by by apply firstn_all.
  destruct r2 as [[]|e| |]; simpl in Hp2; [| |done..].
  - apply guarded_spec in Hr as [(c' & s3 & Hs3 & Hv3 & Hown' & Hr)|(Hs' & Hv & He)]; [| |done].
    + unfold ret in Hr. simplify_eq. split; [done|]. left. exists (col_Name c), (length qrs).
      rewrite Hv3, Hp2, Htake. rewrite Hp2 in Hown'. simpl in Hown'. split_and!; [done..| |done].
      congruence.
    + split; [done|]. left. exists (col_Name c), (length qrs). rewrite Hv, Hp2, Htake.
      by destruct He as [e ->].
  - simplify_eq. split; [done|]. left. destruct Hp2 as [n Hn]. by exists (col_Name c), n.
Qed.

Lemma ListRecords_spec user id s r s' :
  cs_inv s -> CollectionManager.ListRecords id user s = (r, s') ->
  cs_inv s' ∧ cs_view s' = cs_view s ∧
  match r with
  | Ok l => owns (cs_view s) user id ∧ ∃ recs, l = FromCollectionRecord <$> recs
      ∧ NoDup (cr_ID <$> recs) ∧ StronglySorted (le_on cr_ExpirationDate) recs
      ∧ ∀ rec, rec ∈ recs <-> record_in (cs_view s) id rec
  | Err _ => True
  | _ => False
  end.
Proof.
  intros Hs Hr. apply guarded_spec in Hr as [(c & s1 & Hs1 & Hv1 & Hown & Hr)|(Hs' & Hv & e & ->)];
    [|done..].
  unfold bind in Hr. destruct (cs_CollectionRecords id s1) as [r2 s2] eqn:E2.
  apply (run_spec (OpCollectionRecords id)) in E2 as [Hs2 Hp2]; [|done]. simpl in Hp2.
  rewrite Hv1 in Hp2. destruct r2 as [recs|e| |]; simpl in Hp2; [| |done..];
    unfold ret in Hr; simplify_eq; (split; [done|]).
  - destruct Hp2 as (Hv & Hnd & Hsort & Hin). split; [done|].
    split; [by eexists|]. by exists recs.
  - destruct Hp2 as [Hv|(recs & Hv & _)]; done.
Qed.
End ownership.

(** ** Announcements *)
Lemma tea_manager_announced {S} `{TeaStorageLaws S, !EventBusLaws S} {A} (op : tea_op A) s r s' :
  ts_inv s -> tea_manager op s = (r, s') ->
  ts_inv s' ∧
  announced (atomic (tea_effect op)) (tea_events op) (λ a, a) (ts_view s) r (ts_view s')
    (bus_events s) (bus_events s').
Proof.
  intros Hs. rewrite tea_manager_shape. intros Hrun.
  apply (announcing_spec ts_view (atomic (tea_effect op))) in Hrun as [Ha (l & r1 & s1 & -> & Hr1)].
  - split; [|done]. apply ts_put. by apply ts_spec in Hr1 as [Hi _].
  - intros l s0. apply ts_put.
  - intros r0 s1 Hr0. apply ts_spec in Hr0 as (_ & Hev & Hp); [|done].
    split_and!; [done..| |]; by eapply atomic_returns.
Qed.

Lemma tag_manager_announced {S} `{TagStorageLaws S, !EventBusLaws S} {A} (op : tag_op A) s r s' :
  gs_inv s -> tag_manager op s = (r, s') ->
  gs_inv s' ∧
  announced (tag_promise op) (tag_events op) (tag_answer_of op) (gs_view s) r (gs_view s')
    (bus_events s) (bus_events s').
Proof.
  intros Hs. rewrite tag_manager_shape. intros Hrun.
  apply (announcing_spec gs_view (tag_promise op)) in Hrun as [Ha (l & r1 & s1 & -> & Hr1)].
  - split; [|done]. apply gs_put. by apply gs_spec in Hr1 as [Hi _].
  - intros l s0. apply gs_put.
  - intros r0 s1 Hr0. apply gs_spec in Hr0 as (_ & Hev & Hp); [|done].
    split_and!; [done..| |]; by eapply tag_promise_returns.
Qed.

(** ** Properties *)

(** C19: every method of the tea manager does to the teas what its storage
    promises, and announces a successful creation, update or deletion exactly
    once, with the stored tea, after it happened. A failed or reading call
    announces nothing. When the channel is full the caller is parked with the
    change made and the announcement pending. *)
Theorem tea_manager_announces {S} `{TeaStorageLaws S, !EventBusLaws S} {A} (op : tea_op A) s r s' :
  ts_inv s -> tea_manager op s = (r, s') ->
  ts_inv s' ∧
  announced (atomic (tea_effect op)) (tea_events op) (λ a, a) (ts_view s) r (ts_view s')
    (bus_events s) (bus_events s').
Proof.
  apply tea_manager_announced.
Qed.

(** C20: the same for the tag manager: categories, tags and the links between
    tags and teas. Deleting a category announces the deletion of each of its
    tags and then its own; if it fails half way the tags are gone and nothing is
    announced. *)
Theorem tag_manager_announces {S} `{TagStorageLaws S, !EventBusLaws S} {A} (op : tag_op A) s r s' :
  gs_inv s -> tag_manager op s = (r, s') ->
  gs_inv s' ∧
  announced (tag_promise op) (tag_events op) (tag_answer_of op) (gs_view s) r (gs_view s')
    (bus_events s) (bus_events s').
Proof.
  apply tag_manager_announced.
Qed.

(** C21: a user who does not own a collection can neither read nor change it:
    adding, removing and listing records fail, and deleting does nothing, all
    without a change to any collection. *)
Theorem collections_are_private {S} `{CollectionStorageLaws S} user id qrs s :
  cs_inv s -> ¬ owns (cs_view s) user id ->
  (∀ r s', CollectionManager.AddRecords user id qrs s = (r, s') ->
     (∃ e, r = Err e) ∧ cs_view s' = cs_view s) ∧
  (∀ r s', CollectionManager.DeleteRecords user id qrs s = (r, s') ->
     (∃ e, r = Err e) ∧ cs_view s' = cs_view s) ∧
  (∀ r s', CollectionManager.ListRecords id user s = (r, s') ->
     (∃ e, r = Err e) ∧ cs_view s' = cs_view s) ∧
  (∀ r s', CollectionManager.Delete user id s = (r, s') -> cs_view s' = cs_view s).
Proof.
  intros Hs Hown. split_and!; intros r s' Hr.
  - apply AddRecords_spec in Hr as [_ [(name & Hn & _)|[??]]]; [|done..]. destruct Hown. by eexists.
  - apply DeleteRecords_spec in Hr as [_ [(name & n & Hn & _)|[??]]]; [|done..].
    destruct Hown. by eexists.
  - apply ListRecords_spec in Hr as (_ & Hv & Hr); [|done]. split; [|done].
    destruct r; [|by eexists|done..]. by destruct Hr.
  - apply (run_spec (OpDeleteCollection id user)) in Hr as [_ Hp]; [|done]. simpl in Hp.
    assert (∀ v', v' = match cv_collections (cs_view s) !! id with
      | Some (owner, _) => if decide (owner = user) then
          put_collections (delete id (cv_collections (cs_view s)))
            (put_items (filter (λ p, p.1 ≠ id) (cv_items (cs_view s))) (cs_view s))
          else cs_view s | None => cs_view s end -> v' = cs_view s) as Hsame.
    { intros v' ->. destruct (cv_collections _ !! id) as [[owner name]|] eqn:Hc; [|done].
      case_decide; [|done]. subst. destruct Hown. by eexists. }
    destruct r; simpl in Hp; [by apply Hsame| |done..].
    destruct Hp as [->|(_ & Hp)]; [done|by apply Hsame].
Qed.

(** For the owner, a successful AddRecords adds exactly the given ids that
    are QR records, a successful DeleteRecords removes exactly the given ids, a
    successful ListRecords returns every record of the collection once, in the
    order of expiration, and each returns the collection's own name. *)
Theorem collection_records_exact {S} `{CollectionStorageLaws S} user id qrs s :
  cs_inv s ->
  (∀ c s', CollectionManager.AddRecords user id qrs s = (Ok c, s') ->
     cv_collections (cs_view s) !! id = Some (user, gcol_Name c) ∧
     c = mkGqlCollection id (gcol_Name c) user ∧
     cs_view s' = put_items (known_items id qrs (cs_view s) ∪ cv_items (cs_view s)) (cs_view s)) ∧
  (∀ c s', CollectionManager.DeleteRecords user id qrs s = (Ok c, s') ->
     cv_collections (cs_view s) !! id = Some (user, gcol_Name c) ∧
     c = mkGqlCollection id (gcol_Name c) user ∧
     cs_view s' = drop_items id qrs (cs_view s)) ∧
  (∀ l s', CollectionManager.ListRecords id user s = (Ok l, s') ->
     ∃ recs, l = FromCollectionRecord <$> recs ∧ NoDup (cr_ID <$> recs)
       ∧ StronglySorted (le_on cr_ExpirationDate) recs
       ∧ ∀ rec, rec ∈ recs <-> record_in (cs_view s) id rec).
Proof.
  intros Hs. split_and!.
  - intros c s' Hr. apply AddRecords_spec in Hr as [_ [(name & Hn & _ & -> & Hv)|[_ [e ?]]]]; done.
  - intros c s' Hr. apply DeleteRecords_spec in Hr
      as [_ [(name & n & Hn & Hv & -> & Ht)|[_ [e ?]]]]; [|done..]. by rewrite Ht in Hv.
  - intros l s' Hr. by apply ListRecords_spec in Hr as (_ & _ & _ & Hr).
Qed.

(** ** Witnesses *)
#[local] Existing Instance exampleEnv.

Lemma tea_manager_announces_witness :
  let op := OpUpdate sencha (mkTeaData "Sencha" TeaBeverageType "steamed") in
  let run := tea_manager op exampleWorld in
  run.1 = Ok (mkTea sencha (mkTeaData "Sencha" TeaBeverageType "steamed")) ∧
  ts_inv run.2 ∧
  announced (atomic (tea_effect op)) (tea_events op) (λ a, a) (ts_view exampleWorld) run.1
    (ts_view run.2) (bus_events exampleWorld) (bus_events run.2).
Proof.
  cbv zeta. split; [vm_compute; reflexivity|].
  apply (tea_manager_announces (OpUpdate sencha (mkTeaData "Sencha" TeaBeverageType "steamed"))
    exampleWorld); [exact exampleWorld_wf|apply surjective_pairing].
Defined.

Lemma tag_manager_announces_witness :
  let op := OpDeleteTagCategory flavour in
  let run := tag_manager op exampleWorld in
  run.1 = Ok tt ∧ w_events run.2 = [EvTagDelete grassy; EvCategoryDelete flavour] ∧
  gs_inv run.2 ∧
  announced (tag_promise op) (tag_events op) (tag_answer_of op) (gs_view exampleWorld) run.1
    (gs_view run.2) (bus_events exampleWorld) (bus_events run.2).
Proof.
  cbv zeta. split; [vm_compute; reflexivity|]. split; [vm_compute; reflexivity|].
  apply (tag_manager_announces (OpDeleteTagCategory flavour) exampleWorld);
    [exact exampleWorld_wf|apply surjective_pairing].
Defined.

Lemma collections_are_private_witness :
  let run := CollectionManager.ListRecords shelf bob exampleWorld in
  is_Ok (CollectionManager.ListRecords shelf alice exampleWorld).1 = true ∧
  (∃ e, run.1 = Err e) ∧ cs_view run.2 = cs_view exampleWorld.
Proof.
  cbv zeta. split; [vm_compute; reflexivity|].
  apply (collections_are_private bob shelf [] exampleWorld).
  - exact exampleWorld_wf.
  - intros [name Hn]. vm_compute in Hn. discriminate Hn.
  - apply surjective_pairing.
Defined.

Lemma collection_records_exact_witness :
  let run := CollectionManager.AddRecords alice shelf [box2; 77%N] exampleWorld in
  run.1 = Ok (mkGqlCollection shelf "shelf" alice) ∧
  cs_view run.2 = put_items (known_items shelf [box2; 77%N] (cs_view exampleWorld)
                             ∪ cv_items (cs_view exampleWorld)) (cs_view exampleWorld).
Proof.
  cbv zeta. split; [vm_compute; reflexivity|].
  refine (proj2 (proj2 (proj1 (collection_records_exact alice shelf [box2; 77%N] exampleWorld _)
    (mkGqlCollection shelf "shelf" alice) _ _))).
  - exact exampleWorld_wf.
  - vm_compute. reflexivity.
Defined.
