(* ===== verification/PgConsumption.v ===== *)
(** The PostgreSQL consumption store: src/internal/consumption/pg_store.go. It
    implements the interface [Store] of [Consumption] on the database. *)

From stdpp Require Import base gmap sets list strings sorting.
From Stdlib Require Import ZArith Lia.
From S2P Require Import Prelude GoTime Common Consumption Env Schema Sql World Queries PgStorage Example.

Local Open Scope Z_scope.

Record PGStore : Type := mkPGStore { pgs_queries : bool; pgs_retention : Duration }.

Definition defaultRetention : Duration := 30 * 24 * Hour.

Definition NewPGStore (retention : Duration) : PGStore :=
  mkPGStore true (if retention <=? 0 then defaultRetention else retention).

Section store.
Context `{Env} (st : PGStore).

Definition PGStore_Record (userID teaID : UUID) (ts : Time) : M World GoError unit :=
  if negb (pgs_queries st) then throw (ESentinel ErrNilDB)
  else
    do! wrapf "pg consumption.Record: insert" (Queries_InsertConsumption userID ts teaID) in
    let cutoff := Add ts (- pgs_retention st) in
    wrapf "pg consumption.Record: retention delete" (Queries_DeleteConsumptionsBefore userID cutoff).

Definition PGStore_Recent (userID : UUID) (since : Time) : M World GoError (list Consumption) :=
  if negb (pgs_queries st) then throw (ESentinel ErrNilDB)
  else
    let! rows := wrapf "pg consumption.Recent: query" (Queries_ListConsumptionsSince userID since) in
    ret ((λ row, mkConsumption row.2 row.1) <$> rows).

(** [SELECT 1 FROM consumptions LIMIT 1] and the ping of the connection. *)
Definition EnsurePGConsumptionsTable : M World GoError unit :=
  wrapf "pg consumption: consumptions table check failed" (exec (λ _ d, queried tt d)).

Definition PGStore_Ping : M World GoError unit :=
  if negb (pgs_queries st) then throw (ESentinel ErrNilDB)
  else wrapf "pg consumption.Ping" (exec (λ _ d, queried tt d)).
End store.

#[export] Hint Unfold PGStore_Record PGStore_Recent EnsurePGConsumptionsTable PGStore_Ping
  : go_preserves.

(** The store as built by [NewPGStore]. *)
Definition pg_store_ok (st : PGStore) : Prop := pgs_queries st = true ∧ 0 < pgs_retention st.

Lemma NewPGStore_ok retention : pg_store_ok (NewPGStore retention).
Proof.
  split; [done|]. simpl. destruct (Z.leb_spec retention 0); [done|lia].
Qed.

Section laws.
Context `{EnvLaws} (st : PGStore).

Lemma PGStore_Record_wf user tea ts : preserves world_wf (PGStore_Record st user tea ts).
Proof. walk. Qed.

Lemma PGStore_Recent_wf user since : preserves world_wf (PGStore_Recent st user since).
Proof. walk. Qed.

(** The rows of one user after a successful [Record]. *)
Lemma PGStore_Record_rows user tea ts w w' u t e :
  PGStore_Record st user tea ts w = (Ok tt, w') ->
  (u, t, e) ∈ consumptions (w_db w') <->
  ((u, t, e) = (user, pg_ts ts, tea) ∨ (u, t, e) ∈ consumptions (w_db w)) ∧
  (u = user -> pg_ts (ts - pgs_retention st) <= t).
Proof.
  unfold PGStore_Record. destruct (pgs_queries st); simpl; [|done]. intros Hr. inv_go Hr.
  apply exec_Ok_inv in Hr0 as (d1 & Hs1 & -> & _), Hr as (d2 & Hs2 & -> & _).
  unfold deleteConsumptionsBefore in Hs2. simplify_eq. simpl.
  rewrite elem_of_filter. simpl. unfold Add. change (ts + - pgs_retention st) with (ts - pgs_retention st).
  unfold insertConsumption in Hs1. simpl in Hs1. case_bool_decide as Hin.
  - simplify_eq. split.
    + intros [Hn Hi]. split; [by right|]. intros ->. destruct (decide (pg_ts (ts - pgs_retention st) <= t)); [done|]. destruct Hn. split; [done|lia].
    + intros [[Heq|Hi] Hn]; (split; [intros [-> ?]; specialize (Hn eq_refl); lia|]); [by simplify_eq|done].
  - destruct (users (w_db w) !! user), (teas (w_db w) !! tea); simplify_eq. simpl.
    rewrite elem_of_union, elem_of_singleton. split.
    + intros [Hn Hi]. split; [done|]. intros ->. destruct (decide (pg_ts (ts - pgs_retention st) <= t)); [done|]. destruct Hn. split; [done|lia].
    + intros [Hi Hn]. split; [intros [-> ?]; specialize (Hn eq_refl); lia|done].
Qed.

Lemma PGStore_Recent_Ok user since w l w' :
  PGStore_Recent st user since w = (Ok l, w') ->
  (∀ c, c ∈ l <-> (user, cons_Time c, cons_TeaID c) ∈ consumptions (w_db w)
                  ∧ pg_ts since <= cons_Time c) ∧
  StronglySorted (ge_on cons_Time) l ∧ w_db w' = w_db w.
Proof.
  unfold PGStore_Recent. destruct (pgs_queries st); simpl; [|done]. intros Hr. inv_go Hr.
  apply exec_Ok_inv in Hr0 as (d1 & [= <- <-] & -> & _). split_and!; [| |done].
  - intros [e t]. rewrite list_elem_of_fmap. simpl. split.
    + intros ([t' e'] & [= -> ->] & Hin). rewrite merge_sort_Permutation in Hin.
      apply list_elem_of_fmap in Hin as ([[u t1] e1] & [= -> ->] & Hin).
      apply list_elem_of_filter in Hin as [[Hu Ht] Hin]. simpl in *. subst.
      by apply elem_of_elements in Hin.
    + intros [Hin Ht]. exists (t, e). split; [done|]. rewrite merge_sort_Permutation.
      apply list_elem_of_fmap. exists (user, t, e). split; [done|].
      apply list_elem_of_filter. by rewrite elem_of_elements.
  - apply (StronglySorted_fmap _ (ge_on fst)); [by intros|].
    apply StronglySorted_merge_sort; apply _.
Qed.

#[export] Instance PGStore_Store : Store World := {
  store_Record := PGStore_Record st;
  store_Recent := PGStore_Recent st }.

Lemma PGStore_Record_Recent (Hok : pg_store_ok st) s s1 s2 user tea ts since l :
  PGStore_Record st user tea ts s = (Ok tt, s1) -> PGStore_Recent st user since s1 = (Ok l, s2) ->
  since <= ts -> mkConsumption tea (pg_ts ts) ∈ l.
Proof.
  intros Hrec Hl Hle. apply PGStore_Recent_Ok in Hl as (Hin & _ & _).
  apply Hin. simpl. split; [|by apply pg_ts_mono].
  eapply PGStore_Record_rows; [done|]. split; [by left|]. intros _. apply pg_ts_mono.
  destruct Hok. lia.
Qed.

#[export] Instance PGStore_laws (Hok : pg_store_ok st) : StoreLaws World.
Proof.
  refine {| store_inv := world_wf; store_round := pg_ts |}.
  - exact pg_ts_mono.
  - exact PGStore_Record_wf.
  - exact PGStore_Recent_wf.
  - intros s s' user since l _ Hl. apply PGStore_Recent_Ok in Hl as (Hin & Hsort & _).
    split; [done|]. apply Forall_forall. intros c Hc. by apply Hin.
  - intros s s1 s2 user tea ts since l _ Hr Hl Hle. exact (PGStore_Record_Recent Hok _ _ _ _ _ _ _ _ Hr Hl Hle).
Defined.
End laws.

(** ** Properties *)

(** C37: a successful Record stores the event with the precision of the database
    and keeps exactly the user's events that are not older than the retention
    window before it; the events of other users stay as they were. A Recent
    that follows lists exactly the stored events since the given time, newest
    first. *)
Theorem PGStore_Record_then_Recent `{EnvLaws} st user tea ts since w w1 w2 l :
  PGStore_Record st user tea ts w = (Ok tt, w1) ->
  PGStore_Recent st user since w1 = (Ok l, w2) ->
  (∀ u t e, u ≠ user -> (u, t, e) ∈ consumptions (w_db w1) <-> (u, t, e) ∈ consumptions (w_db w)) ∧
  StronglySorted (ge_on cons_Time) l ∧
  (∀ c, c ∈ l <->
     (c = mkConsumption tea (pg_ts ts) ∨ (user, cons_Time c, cons_TeaID c) ∈ consumptions (w_db w))
     ∧ pg_ts (ts - pgs_retention st) <= cons_Time c ∧ pg_ts since <= cons_Time c).
Proof.
  intros Hrec Hl. apply PGStore_Recent_Ok in Hl as (Hin & Hsort & _). split_and!; [|done|].
  - intros u t e Hu. rewrite (PGStore_Record_rows _ _ _ _ _ _ _ _ _ Hrec).
    split; [intros [[?|?] _]; [by simplify_eq|done]|]. intros Hi. split; [by right|done].
  - intros [e t]. rewrite Hin, (PGStore_Record_rows _ _ _ _ _ _ _ _ _ Hrec). simpl.
    split.
    + intros [[[[= -> ->]|Hi] Hn] Hs]; (split; [|split; [by apply Hn|done]]); [by left|by right].
    + intros [[[= -> ->]|Hi] [Hn Hs]]; (split; [split; [|done]|done]); [by left|by right].
Qed.

Lemma PGStore_Record_then_Recent_witness :
  let ts := exampleClock 20 in
  let st := NewPGStore 0 in
  let run := @PGStore_Record exampleEnv st alice sencha ts exampleWorld in
  let run2 := @PGStore_Recent exampleEnv st alice 0 run.2 in
  run2.1 = Ok [mkConsumption sencha ts] ∧
  StronglySorted (ge_on cons_Time) [mkConsumption sencha ts].
Proof.
  cbv zeta. split; [vm_compute; reflexivity|].
  refine (proj1 (proj2 (@PGStore_Record_then_Recent exampleEnv exampleEnvLaws (NewPGStore 0)
    alice sencha (exampleClock 20) 0 exampleWorld _ _ [mkConsumption sencha (exampleClock 20)] _ _))).
  - vm_compute. reflexivity.
  - vm_compute. reflexivity.
Defined.
