(* ===== verification/StorageTheorems.v ===== *)
(** Theorems about the storage as the rest of the program sees it: what every
    reachable database looks like, that the adapter implements the storage
    interfaces, and the functional behaviour of its more delicate methods. *)

From stdpp Require Import base gmap sets list strings sorting.
From Stdlib Require Import ZArith Lia.
From S2P Require Import Prelude GoTime Common Models Consumption Env Schema Sql World Queries PgAdapter.
From S2P Require Import Interfaces PgStorage Example Managers PgConsumption.

(** ** Reachable worlds *)
Section reachable.
Context `{Env}.

Lemma announcing_wf {A B} (m : M World GoError A) events_of (answer : A → B) :
  preserves world_wf m -> preserves world_wf (announcing m events_of answer).
Proof.
  intros Hm. apply preserves_bind; [done|]. intros a. apply preserves_bind;
    [apply preserves_for_range|]; auto with go_preserves.
Qed.

Lemma tea_manager_wf {A} (op : tea_op A) : preserves world_wf (tea_manager op).
Proof. intros w Hw. rewrite tea_manager_shape. by apply announcing_wf, Hw; apply tea_run_wf. Qed.

Lemma tag_manager_wf {A} (op : tag_op A) : preserves world_wf (tag_manager op).
Proof. intros w Hw. rewrite tag_manager_shape. by apply announcing_wf, Hw; apply tag_run_wf. Qed.

Lemma collection_manager_wf user id name qrs :
  preserves world_wf (CollectionManager.Create user name) ∧
  preserves world_wf (CollectionManager.AddRecords user id qrs) ∧
  preserves world_wf (CollectionManager.DeleteRecords user id qrs) ∧
  preserves world_wf (CollectionManager.Delete user id) ∧
  preserves world_wf (CollectionManager.List_ user) ∧
  preserves world_wf (CollectionManager.ListRecords id user).
Proof.
  pose proof (collection_run_wf (OpCollection id user)) as Hguard.
  split_and!.
  - apply preserves_bind; [exact (collection_run_wf (OpCreateCollection user name))|].
    auto with go_preserves.
  - apply preserves_bind; [exact Hguard|]. intros _.
    apply preserves_bind; [exact (collection_run_wf (OpAddTeaToCollection id qrs))|]. intros _.
    apply preserves_bind; [exact Hguard|]. auto with go_preserves.
  - apply preserves_bind; [exact Hguard|]. intros _.
    apply preserves_bind; [exact (collection_run_wf (OpDeleteTeaFromCollection id qrs))|]. intros _.
    apply preserves_bind; [exact Hguard|]. auto with go_preserves.
  - exact (collection_run_wf (OpDeleteCollection id user)).
  - apply preserves_bind; [exact (collection_run_wf (OpCollections user))|]. auto with go_preserves.
  - apply preserves_bind; [exact Hguard|]. intros _.
    apply preserves_bind; [exact (collection_run_wf (OpCollectionRecords id))|].
    auto with go_preserves.
Qed.

(** A request of the server that can change the database. *)
Inductive request : Type :=
  | ReqTea {A} (op : tea_op A)
  | ReqTag {A} (op : tag_op A)
  | ReqCreateCollection (user : UUID) (name : string)
  | ReqAddRecords (user id : UUID) (qrs : list UUID)
  | ReqDeleteRecords (user id : UUID) (qrs : list UUID)
  | ReqDeleteCollection (user id : UUID)
  | ReqLogin (apple_id : string)
  | ReqSetQR (id : UUID) (data : gqlQRRecordData)
  | ReqBindDevice (user device : UUID)
  | ReqRegisterToken (device : UUID) (token : string)
  | ReqRecord (st : PGStore) (user tea : UUID) (ts : Time).

Definition run_request (req : request) (w : World) : World :=
  match req with
  | ReqTea op => (tea_manager op w).2
  | ReqTag op => (tag_manager op w).2
  | ReqCreateCollection user name => (CollectionManager.Create user name w).2
  | ReqAddRecords user id qrs => (CollectionManager.AddRecords user id qrs w).2
  | ReqDeleteRecords user id qrs => (CollectionManager.DeleteRecords user id qrs w).2
  | ReqDeleteCollection user id => (CollectionManager.Delete user id w).2
  | ReqLogin apple_id => (GetOrCreateUser apple_id w).2
  | ReqSetQR id data => (QRManager.Set_ id data w).2
  | ReqBindDevice user device => (NotificationManager.BindDevice user device w).2
  | ReqRegisterToken device token => (NotificationManager.RegisterDeviceToken device token w).2
  | ReqRecord st user tea ts => (PGStore_Record st user tea ts w).2
  end.

(** [served w w']: some sequence of requests, event-loop steps and clock ticks
    leads from [w] to [w']. *)
Inductive served : World → World → Prop :=
  | served_refl w : served w w
  | served_request w w' req : served w w' -> served w (run_request req w')
  | served_events w w' l : served w w' -> served w (set_events l w')
  | served_tick w w' : served w w' -> served w (advance w').

Lemma run_request_wf req w : world_wf w -> world_wf (run_request req w).
Proof.
  destruct req; simpl.
  - apply tea_manager_wf.
  - apply tag_manager_wf.
  - by apply (collection_manager_wf user uuid_Nil name []).
  - by apply (collection_manager_wf user id "" qrs).
  - by apply (collection_manager_wf user id "" qrs).
  - by apply (collection_manager_wf user id "" []).
  - by apply (other_adapter_wf apple_id uuid_Nil uuid_Nil "" uuid_Nil (mkQR uuid_Nil 0 0)%Z 0%Z).
  - by apply (other_adapter_wf "" uuid_Nil uuid_Nil "" id
      (mkQR (gqd_Tea data) (gqd_BowlingTemp data) (gqd_ExpirationDate data)) 0%Z).
  - by apply (other_adapter_wf "" user device "" uuid_Nil (mkQR uuid_Nil 0 0)%Z 0%Z).
  - by apply (other_adapter_wf "" uuid_Nil device token uuid_Nil (mkQR uuid_Nil 0 0)%Z 0%Z).
  - apply PGStore_Record_wf.
Qed.

Lemma served_wf w w' : served w w' -> world_wf w -> world_wf w'.
Proof. induction 1; auto using run_request_wf. Qed.
End reachable.

(** ** The search prefix *)

(** No character that [LIKE] treats specially. *)
Definition plain (s : string) : Prop :=
  Forall (λ c, c ≠ "%" ∧ c ≠ "_" ∧ c ≠ "\") (utf8_chars s).

Lemma utf8_chars_cons c c' s :
  utf8_chars (String c (String c' s)) =
  if is_continuation c' then
    match utf8_chars (String c' s) with x :: l => String c x :: l | [] => [String c ""] end
  else String c "" :: utf8_chars (String c' s).
Proof.
  change (utf8_chars (String c (String c' s))) with
    (match utf8_chars (String c' s) with
     | x :: l' => if is_continuation c' then String c x :: l'
                  else String c "" :: utf8_chars (String c' s)
     | [] => String c "" :: utf8_chars (String c' s) end).
  destruct (utf8_chars (String c' s)) eqn:E; [|by destruct (is_continuation c')].
  by destruct (is_continuation c').
Qed.

Lemma utf8_chars_percent s : utf8_chars (s +:+ "%") = utf8_chars s ++ ["%"].
Proof.
  induction s as [|c s IH]; [done|].
  change (String c s +:+ "%") with (String c (s +:+ "%")).
  destruct s as [|c' s]; [done|].
  change (String c' s +:+ "%") with (String c' (s +:+ "%")) in *.
  rewrite !utf8_chars_cons, IH. destruct (is_continuation c'); [|done].
  destruct (utf8_chars (String c' s)) as [|x l] eqn:E; [|done].
  exfalso. destruct s as [|c2 s]; [done|]. rewrite utf8_chars_cons in E.
  by destruct (is_continuation c2), (utf8_chars (String c2 s)).
Qed.

Lemma like_chars_any s : like_chars ["%"] s = true.
Proof. induction s as [|x s IH]; [done|]. simpl in *. exact IH. Qed.

Lemma like_chars_prefix p s :
  Forall (λ c, c ≠ "%" ∧ c ≠ "_" ∧ c ≠ "\") p ->
  like_chars (p ++ ["%"]) s = true <-> p `prefix_of` s.
Proof.
  intros Hp. revert s. induction Hp as [|c p (H1 & H2 & H3) Hp IH]; intros s.
  - split; [intros _; apply prefix_nil|intros _]. apply like_chars_any.
  - cbn [like_chars app]. rewrite (proj2 (String.eqb_neq _ _) H1), (proj2 (String.eqb_neq _ _) H2),
      (proj2 (String.eqb_neq _ _) H3).
    destruct s as [|x s]; [split; [done|intros Hpre; by apply prefix_nil_not in Hpre]|].
    rewrite andb_true_iff, String.eqb_eq, IH. split.
    + intros [-> Hs]. by apply prefix_cons.
    + intros Hs. split; [by eapply prefix_cons_inv_1|by eapply prefix_cons_inv_2].
Qed.

(** ** Lemmas on single methods *)
Section methods.
Context `{Env}.

Lemma find_row_unique (d : Database) i r :
  db_wf d -> users d !! i = Some r ->
  find_row (λ r', user_apple_id r' = user_apple_id r) (users d) = Some (i, r).
Proof.
  intros Hd Hi. destruct (find_row _ _) as [[j r']|] eqn:Hf.
  - apply find_row_Some in Hf as [Hj Hk].
    assert (j = i) as -> by (by eapply (wf_apple_id _ Hd)). congruence.
  - by eapply find_row_None in Hf.
Qed.

Lemma GetOrCreateUser_Ok unique w u w' :
  GetOrCreateUser unique w = (Ok u, w') ->
  ∃ r, users (w_db w') !! u = Some r ∧ user_apple_id r = unique.
Proof.
  unfold GetOrCreateUser. intros Hr. inv_go Hr.
  rewrite new_uuid_run in Hr0. simplify_eq.
  apply query_row_Ok_inv in Hr1 as (d & Hs & -> & _). unfold upsertUser in Hs. simpl in Hs.
  destruct (find_row _ _) as [[i r]|].
  - simplify_eq. eexists. simpl. by rewrite lookup_insert_eq.
  - destruct (users (w_db w) !! _); simplify_eq. eexists. simpl. by rewrite lookup_insert_eq.
Qed.

(** The row exists: the login finds it and changes nothing. *)
Lemma GetOrCreateUser_existing unique w u r :
  world_wf w -> users (w_db w) !! u = Some r -> user_apple_id r = unique ->
  pg_fault (S (w_tick w)) = None ->
  GetOrCreateUser unique w = (Ok u, advance (advance w)).
Proof.
  intros Hw Hu <- Hf. unfold GetOrCreateUser, bind, map_err. rewrite new_uuid_run.
  unfold Queries_UpsertUser. erewrite query_row_Ok; [|done|].
  2:{ unfold upsertUser. simpl. by rewrite (find_row_unique _ u r). }
  simpl. unfold ret. f_equal. unfold set_db, advance, set_users. simpl.
  rewrite insert_id by (by destruct r). by destruct (w_db w).
Qed.

Lemma clamp_int32_range z : is_int4 (clamp_int32 z) = true.
Proof.
  unfold is_int4, clamp_int32. apply andb_true_iff. rewrite !Z.leb_le.
  destruct (Z.ltb_spec int32_max z); [done|]. destruct (Z.ltb_spec z int32_min); [done|]. done.
Qed.

Lemma clamp_int32_wrap z : wrap_int32 (clamp_int32 z) = clamp_int32 z.
Proof.
  apply wrap_int32_small. pose proof (clamp_int32_range z) as Hr.
  unfold is_int4 in Hr. apply andb_true_iff in Hr. by rewrite !Z.leb_le in Hr.
Qed.

(** The outcome of a wrapped statement in a faultless round trip. *)
Lemma map_err_exec_run {A} g (s : Stmt A) w :
  pg_fault (w_tick w) = None ->
  map_err g (exec s) w =
  match s (pg_now (w_tick w)) (w_db w) with
  | inl e => (Err (g (ESql e)), advance w)
  | inr (a, d) => (Ok a, set_db d (advance w))
  end.
Proof.
  intros Hf. unfold map_err, exec, World_PgClient, World_exec. rewrite Hf.
  by destruct (s (pg_now (w_tick w)) (w_db w)) as [e|[a d]].
Qed.

Lemma map_err_query_row_run {A} g (s : Stmt (option A)) w :
  pg_fault (w_tick w) = None ->
  map_err g (query_row s) w =
  match s (pg_now (w_tick w)) (w_db w) with
  | inl e => (Err (g (ESql e)), advance w)
  | inr (Some a, d) => (Ok a, set_db d (advance w))
  | inr (None, d) => (Err (g (ESentinel SqlErrNoRows)), set_db d (advance w))
  end.
Proof.
  intros Hf. unfold map_err, query_row, bind, exec, World_PgClient, World_exec. rewrite Hf.
  by destruct (s (pg_now (w_tick w)) (w_db w)) as [e|[[a|] d]].
Qed.

(** Writing a QR record of a known tea, in a faultless round trip. *)
Lemma WriteQR_run id data w :
  pg_fault (w_tick w) = None -> is_Some (teas (w_db w) !! qr_Tea data) ->
  ∃ row, qr_of_row row = mkQR (qr_Tea data) (clamp_int32 (qr_BowlingTemp data)) (pg_ts (qr_ExpirationDate data)) ∧
    WriteQR id data w = (Ok tt, set_db (set_qr_records (<[id := row]> (qr_records (w_db w))) (w_db w)) (advance w)).
Proof.
  intros Hf [t Ht]. unfold WriteQR, Queries_UpsertQR. rewrite map_err_exec_run by done.
  unfold upsertQR. rewrite clamp_int32_wrap, clamp_int32_range, Ht. simpl.
  eexists. split; [|reflexivity]. reflexivity.
Qed.

End methods.

#[export] Hint Rewrite @map_err_exec_run @map_err_query_row_run using done : go.

(** ** Properties *)

(** C1: whatever requests are served, in whatever order, and whatever round
    trips to the database fail, before or after the statement ran, the database
    reached from a consistent one satisfies every constraint of the schema:
    unique names and keys, no dangling reference, beverage types and
    temperatures in range. *)
Theorem database_stays_consistent `{Env} w w' :
  served w w' -> db_wf (w_db w) -> db_wf (w_db w').
Proof. apply served_wf. Qed.

(** C3: the database adapter implements the storage interfaces of the
    managers. Every operation is one atomic step on the abstract state, except
    that a failed category deletion may have removed the tags only and a failed
    removal of collection records a prefix of them; no operation panics or
    parks; and nothing but the database changes. *)
Theorem pg_implements_storage `{Env} w :
  world_wf w ->
  (∀ A (op : tea_op A) r w', tea_run op w = (r, w') ->
     world_wf w' ∧ w_events w' = w_events w ∧ w_cache w' = w_cache w ∧ w_pushes w' = w_pushes w ∧
     atomic (tea_effect op) (db_teas (w_db w)) r (db_teas (w_db w'))) ∧
  (∀ A (op : tag_op A) r w', tag_run op w = (r, w') ->
     world_wf w' ∧ w_events w' = w_events w ∧ w_cache w' = w_cache w ∧ w_pushes w' = w_pushes w ∧
     tag_promise op (db_tags (w_db w)) r (db_tags (w_db w'))) ∧
  (∀ A (op : collection_op A) r w', collection_run op w = (r, w') ->
     world_wf w' ∧ w_events w' = w_events w ∧ w_cache w' = w_cache w ∧ w_pushes w' = w_pushes w ∧
     collection_promise op (db_collections (w_db w)) r (db_collections (w_db w'))).
Proof.
  intros Hw. split_and!; intros A op r w' Hr.
  - pose proof (tea_run_wf op w Hw) as Hwf. pose proof (tea_run_db_only op w) as (He & Hc & Hp).
    rewrite Hr in *. split_and!; [done..|]. by apply tea_run_atomic.
  - pose proof (tag_run_wf op w Hw) as Hwf. pose proof (tag_run_db_only op w) as (He & Hc & Hp).
    rewrite Hr in *. split_and!; [done..|]. by apply tag_run_promise.
  - pose proof (collection_run_wf op w Hw) as Hwf.
    pose proof (collection_run_db_only op w) as (He & Hc & Hp).
    rewrite Hr in *. split_and!; [done..|]. by apply collection_run_promise.
Qed.

(** Signing in is idempotent. A successful GetOrCreateUser leaves a user with
    the Apple ID, and every later call that reaches a consistent database still
    holding that user returns the same id and changes nothing. *)
Theorem GetOrCreateUser_idempotent `{Env} unique w u w1 :
  GetOrCreateUser unique w = (Ok u, w1) ->
  (∃ r, users (w_db w1) !! u = Some r ∧ user_apple_id r = unique) ∧
  (∀ w2, world_wf w2 -> users (w_db w1) ⊆ users (w_db w2) -> pg_fault (S (w_tick w2)) = None ->
     GetOrCreateUser unique w2 = (Ok u, advance (advance w2))).
Proof.
  intros Hr. apply GetOrCreateUser_Ok in Hr as (r & Hu & Ha). split; [by exists r|].
  intros w2 Hw2 Hsub Hf. apply (GetOrCreateUser_existing _ _ _ r); [done| |done..].
  by eapply lookup_weaken.
Qed.

(** C38: a QR record that was written reads back as it was given, with the
    temperature clamped to 32 bits and the expiration date at the precision of
    the database, for as long as its row stays; reading an id that has no row
    is the error "qr record not exist", and writing to a tea that does not exist
    is refused. *)
Theorem WriteQR_ReadQR `{Env} id data w :
  (∀ w1 w2, WriteQR id data w = (Ok tt, w1) ->
     qr_records (w_db w2) !! id = qr_records (w_db w1) !! id -> pg_fault (w_tick w2) = None ->
     ReadQR id w2 = (Ok (mkQR (qr_Tea data) (clamp_int32 (qr_BowlingTemp data))
                          (pg_ts (qr_ExpirationDate data))), advance w2)) ∧
  (pg_fault (w_tick w) = None -> qr_records (w_db w) !! id = None ->
     ReadQR id w = (Err (ESentinel ErrQRRecordNotExist), advance w)) ∧
  (pg_fault (w_tick w) = None ->
     ((WriteQR id data w).1 = Ok tt <-> is_Some (teas (w_db w) !! qr_Tea data))).
Proof.
  split_and!.
  - unfold WriteQR. rewrite clamp_int32_wrap. intros w1 w2 Hw Hrow Hf. inv_go Hw.
    apply exec_Ok_inv in Hw as (d & Hs & -> & _). unfold upsertQR in Hs.
    rewrite clamp_int32_range in Hs. simpl in Hs.
    destruct (teas (w_db w) !! qr_Tea data); simplify_eq. simpl in Hrow.
    rewrite lookup_insert_eq in Hrow. unfold ReadQR, bind, Queries_GetQR.
    rewrite map_err_query_row_run by done. unfold getQR, queried. by rewrite Hrow.
  - intros Hf Hrow. unfold ReadQR, bind, Queries_GetQR. rewrite map_err_query_row_run by done.
    unfold getQR, queried. by rewrite Hrow.
  - intros Hf. unfold WriteQR, Queries_UpsertQR. rewrite map_err_exec_run by done.
    unfold upsertQR. rewrite clamp_int32_wrap, clamp_int32_range. simpl.
    destruct (teas (w_db w) !! qr_Tea data); simpl; [done|].
    split; [done|by intros [? ?]].
Qed.

(** Deleting a tea deletes with it exactly its tag links, its QR records, the
    collection items of those QR records and its consumptions; everything else
    stays. *)
Theorem Delete_tea_cascades `{Env} id w w' :
  Delete id w = (Ok tt, w') ->
  teas (w_db w') = delete id (teas (w_db w)) ∧
  (∀ t g, (t, g) ∈ tea_tags (w_db w') <-> (t, g) ∈ tea_tags (w_db w) ∧ t ≠ id) ∧
  (∀ q r, qr_records (w_db w') !! q = Some r <->
     qr_records (w_db w) !! q = Some r ∧ qrr_tea_id r ≠ id) ∧
  (∀ c q, (c, q) ∈ collection_qr_items (w_db w') <->
     (c, q) ∈ collection_qr_items (w_db w)
     ∧ ∀ r, qr_records (w_db w) !! q = Some r -> qrr_tea_id r ≠ id) ∧
  (∀ u t e, (u, t, e) ∈ consumptions (w_db w') <-> (u, t, e) ∈ consumptions (w_db w) ∧ e ≠ id) ∧
  users (w_db w') = users (w_db w) ∧ tags (w_db w') = tags (w_db w) ∧
  tag_categories (w_db w') = tag_categories (w_db w) ∧
  collections (w_db w') = collections (w_db w) ∧ devices (w_db w') = devices (w_db w).
Proof.
  unfold Delete, Queries_DeleteTea. intros Hr. inv_go Hr.
  apply exec_Ok_inv in Hr as (d & [= <-] & -> & _).
  assert (∀ q, q ∈ qrs_of_teas {[id]} (w_db w) <->
    ∃ r, qr_records (w_db w) !! q = Some r ∧ qrr_tea_id r = id) as Hq.
  { intros q. unfold qrs_of_teas. rewrite elem_of_dom. unfold is_Some.
    setoid_rewrite map_lookup_filter_Some. setoid_rewrite elem_of_singleton. done. }
  split_and!; simpl; try done.
  - apply remove_rows_singleton.
  - intros t g. rewrite elem_of_filter, not_elem_of_singleton. simpl. tauto.
  - intros q r. rewrite remove_rows_lookup, Hq. split.
    + intros [Hr Hn]. split; [done|]. intros He. apply Hn. by exists r.
    + intros [Hr Hn]. split; [done|]. intros (r' & Hr' & He). congruence.
  - intros c q. rewrite elem_of_filter, Hq. simpl. naive_solver.
  - intros u t e. rewrite elem_of_filter, not_elem_of_singleton. simpl. tauto.
Qed.

(** A search term without [%], [_] and backslash matches exactly the names
    that start with it, character by character, after both were lowered; and
    [%] typed by a user matches every name. *)
Theorem name_like_is_prefix `{Env} prefix name :
  (plain (pg_lower prefix) ->
   name_like prefix name = true <->
   utf8_chars (pg_lower prefix) `prefix_of` utf8_chars (pg_lower name)) ∧
  (pg_lower prefix = "%" -> name_like prefix name = true).
Proof.
  unfold name_like, like. split.
  - intros Hp. rewrite utf8_chars_percent. by apply like_chars_prefix.
  - intros ->. change (utf8_chars ("%" +:+ "%")) with ["%"; "%"]%string.
    cbn [like_chars String.eqb Ascii.eqb Bool.eqb]. destruct (utf8_chars (pg_lower name)); [done|].
    apply orb_true_iff. left. apply like_chars_any.
Qed.

(** Creating a tag in a faultless round trip is refused exactly when the
    category has a tag whose name is the same after lowering, or does not exist;
    the error names the constraint, and otherwise the tag is stored. *)
Theorem CreateTag_outcome `{Env} name color cat w (id := uuid_New (w_tick w)) :
  pg_fault (S (w_tick w)) = None -> tags (w_db w) !! id = None ->
  let taken_name := ∃ i r, tags (w_db w) !! i = Some r ∧ tag_category_id r = cat
                           ∧ pg_lower (tag_name r) = pg_lower name in
  match (CreateTag name color cat w).1 with
  | Ok tag => tag = mkTag id (mkTagData name color cat) ∧ ¬ taken_name
      ∧ is_Some (tag_categories (w_db w) !! cat)
      ∧ tags (w_db (CreateTag name color cat w).2) = <[id := mkTagRow name color cat]> (tags (w_db w))
  | Err e => w_db (CreateTag name color cat w).2 = w_db w ∧
      ((e = EWrap "insert tag" (ESql (UniqueViolation "tags_category_name_uq")) ∧ taken_name) ∨
       (e = EWrap "insert tag" (ESql (ForeignKeyViolation "tags_category_id_fkey")) ∧ ¬ taken_name
        ∧ tag_categories (w_db w) !! cat = None))
  | _ => False
  end.
Proof.
  intros Hf Hid. cbv zeta. unfold CreateTag, Queries_InsertTag.
  erewrite bind_Ok by reflexivity. unfold bind. rewrite map_err_query_row_run by done.
  unfold insertTag, store_tag, check_tag. simpl. unfold id in *. rewrite Hid.
  destruct (taken _ _ _ _) eqn:Ht; simpl.
  - split; [done|]. left. split; [done|]. unfold taken in Ht. apply bool_decide_eq_true in Ht.
    destruct Ht as (i & r & Hi & _ & [= Hc Hn]). by exists i, r.
  - assert (¬ ∃ i r, tags (w_db w) !! i = Some r ∧ tag_category_id r = cat
              ∧ pg_lower (tag_name r) = pg_lower name) as Hfree.
    { intros (i & r & Hi & Hc & Hn). eapply taken_false in Ht; [|done|].
      - apply Ht. unfold tag_key. simpl. congruence.
      - intros [= ->]. congruence. }
    destruct (tag_categories (w_db w) !! cat) eqn:Hc; simpl; [done|]. split; [done|]. by right.
Qed.

(** Deleting a category takes three round trips. If all are answered the
    category and its tags are gone and the removed tags are returned. If the last
    one is not executed the call fails although the tags are gone, and the
    category is left without tags. *)
Theorem DeleteTagCategory_not_atomic `{Env} id w :
  pg_fault (w_tick w) = None -> pg_fault (S (w_tick w)) = None ->
  (pg_fault (S (S (w_tick w))) = None ->
   ∃ removed w', DeleteTagCategory id w = (Ok removed, w') ∧
     list_to_set removed = tags_in id (db_tags (w_db w)) ∧
     db_tags (w_db w') = drop_category id (drop_tags (tags_in id (db_tags (w_db w))) (db_tags (w_db w)))) ∧
  (∀ msg, pg_fault (S (S (w_tick w))) = Some (NotExecuted msg) ->
   ∃ w', DeleteTagCategory id w = (Err (EWrap "delete category" (EForeign msg)), w') ∧
     db_tags (w_db w') = drop_tags (tags_in id (db_tags (w_db w))) (db_tags (w_db w))).
Proof.
  intros H1 H2. unfold DeleteTagCategory, Queries_ListTagsByCategory, Queries_DeleteTagsByCategory,
    Queries_DeleteTagCategory.
  unfold bind at 1 4. rewrite map_err_exec_run by done.
  unfold listTagsByCategory at 1 2, queried.
  unfold bind at 1 3. rewrite map_err_exec_run by done. simpl w_db. rewrite deleteTagsByCategory_run.
  split.
  - intros H3. unfold bind. rewrite map_err_exec_run by done. simpl w_db.
    rewrite deleteTagCategory_run. eexists _, _. split; [reflexivity|].
    pose proof (listed_tags_in id (w_db w) (text_le (λ p, tag_name p.2))) as Hl. split; [done|].
    by apply (DeleteTagCategory_effect id (w_db w) _ (select_NoDup _ _ _) Hl).
  - intros msg H3. unfold bind, map_err, exec, World_PgClient, World_exec. simpl w_tick. rewrite H3.
    eexists. split; [reflexivity|]. apply db_tags_delete.
Qed.

(** ** Witnesses *)
#[local] Existing Instance exampleEnv.

Lemma database_stays_consistent_witness :
  let w' := run_request (ReqTag (OpDeleteTagCategory flavour))
              (run_request (ReqTea (OpDelete mint)) exampleWorld) in
  dom (qr_records (w_db w')) = {[box1]} ∧ tea_tags (w_db w') = ∅ ∧ db_wf (w_db w').
Proof.
  cbv zeta. split; [vm_compute; reflexivity|]. split; [vm_compute; reflexivity|].
  apply (database_stays_consistent exampleWorld).
  - apply served_request, served_request, served_refl.
  - exact exampleWorld_wf.
Defined.

Lemma pg_implements_storage_witness :
  let run := tea_run (OpReadRecord sencha) exampleWorld in
  run.1 = Ok (mkTea sencha (mkTeaData "Sencha" TeaBeverageType "green")) ∧
  atomic (tea_effect (OpReadRecord sencha)) (db_teas (w_db exampleWorld)) run.1
    (db_teas (w_db run.2)).
Proof.
  cbv zeta. split; [vm_compute; reflexivity|].
  apply (proj1 (pg_implements_storage exampleWorld exampleWorld_wf) Tea (OpReadRecord sencha)).
  apply surjective_pairing.
Defined.

Lemma GetOrCreateUser_idempotent_witness :
  let run := GetOrCreateUser "apple-carol" exampleWorld in
  run.1 = Ok 1018%N ∧ GetOrCreateUser "apple-carol" run.2 = (Ok 1018%N, advance (advance run.2)).
Proof.
  cbv zeta. split; [vm_compute; reflexivity|].
  refine (proj2 (GetOrCreateUser_idempotent "apple-carol" exampleWorld 1018%N
    (GetOrCreateUser "apple-carol" exampleWorld).2 _) _ _ _ _).
  - vm_compute. reflexivity.
  - apply (run_request_wf (ReqLogin "apple-carol")). exact exampleWorld_wf.
  - reflexivity.
  - reflexivity.
Defined.

Lemma WriteQR_ReadQR_witness :
  let data := mkQR sencha 99999999999 tomorrow in
  (WriteQR 5%N data exampleWorld).1 = Ok tt ∧
  (ReadQR 5%N (WriteQR 5%N data exampleWorld).2).1 = Ok (mkQR sencha 2147483647 tomorrow) ∧
  ReadQR 6%N exampleWorld = (Err (ESentinel ErrQRRecordNotExist), advance exampleWorld).
Proof.
  cbv zeta. split; [|split].
  - refine (proj2 (proj2 (proj2 (WriteQR_ReadQR 5%N (mkQR sencha 99999999999 tomorrow) exampleWorld))
      _) _); [reflexivity|]. vm_compute. by eexists.
  - vm_compute. reflexivity.
  - refine (proj1 (proj2 (WriteQR_ReadQR 6%N (mkQR sencha 0 tomorrow) exampleWorld)) _ _);
      vm_compute; reflexivity.
Defined.

Lemma Delete_tea_cascades_witness :
  (Delete sencha exampleWorld).1 = Ok tt ∧
  teas (w_db (Delete sencha exampleWorld).2) = delete sencha (teas (w_db exampleWorld)) ∧
  collection_qr_items (w_db (Delete sencha exampleWorld).2) = ∅.
Proof.
  split; [vm_compute; reflexivity|]. split; [|vm_compute; reflexivity].
  refine (proj1 (Delete_tea_cascades sencha exampleWorld (Delete sencha exampleWorld).2 _)).
  vm_compute. reflexivity.
Defined.

Lemma name_like_is_prefix_witness :
  name_like "SEN" "Sencha" = true ∧ name_like "cha" "Sencha" = false.
Proof.
  split; [|vm_compute; reflexivity].
  apply (proj1 (name_like_is_prefix "SEN" "Sencha")).
  - unfold plain. apply (bool_decide_unpack _). vm_compute. exact I.
  - exists ["c"; "h"; "a"]. vm_compute. reflexivity.
Defined.

Lemma CreateTag_outcome_witness :
  (CreateTag "GRASSY" "#fff" flavour exampleWorld).1
  = Err (EWrap "insert tag" (ESql (UniqueViolation "tags_category_name_uq"))) ∧
  w_db (CreateTag "GRASSY" "#fff" flavour exampleWorld).2 = w_db exampleWorld.
Proof.
  assert ((CreateTag "GRASSY" "#fff" flavour exampleWorld).1
    = Err (EWrap "insert tag" (ESql (UniqueViolation "tags_category_name_uq")))) as Hr
    by (vm_compute; reflexivity).
  split; [exact Hr|].
  pose proof (CreateTag_outcome "GRASSY" "#fff" flavour exampleWorld) as Hc.
  cbv zeta in Hc. rewrite Hr in Hc. apply Hc; vm_compute; reflexivity.
Defined.

Lemma DeleteTagCategory_not_atomic_witness :
  ∃ removed w', DeleteTagCategory flavour exampleWorld = (Ok removed, w') ∧
     list_to_set removed = tags_in flavour (db_tags (w_db exampleWorld)) ∧
     db_tags (w_db w') = drop_category flavour
       (drop_tags (tags_in flavour (db_tags (w_db exampleWorld))) (db_tags (w_db exampleWorld))).
Proof.
  apply (DeleteTagCategory_not_atomic flavour exampleWorld); reflexivity.
Defined.
