(* ===== verification/EventLoop.v ===== *)
(** The event loops of the tea and the tag manager, with their subscriptions:
    src/internal/managers/tea/loop.go, src/internal/managers/tag/loop.go and the
    [SubscribeOn...] methods of the managers.

    A loop iteration receives one event from one of its channels, broadcasts it
    and removes the subscribers whose context is done. [ready] says which
    subscriber channels have a reader, [done] which contexts are cancelled. *)

From stdpp Require Import base gmap sets list strings.
From Stdlib Require Import ZArith Lia.
From S2P Require Import Prelude GoTime Common Models Subscribers Env Schema Sql World Queries.
From S2P Require Import PgAdapter Interfaces PgStorage Example Managers.

(** ** Receiving

    [<-c]: the oldest event of the channel, if there is one. *)
Fixpoint take_event (c : Chan) (l : list Event) : option (Event * list Event) :=
  match l with
  | [] => None
  | e :: l' =>
      if decide (event_chan e = c) then Some (e, l')
      else match take_event c l' with
           | Some (e', rest) => Some (e', e :: rest)
           | None => None
           end
  end.

Definition receive {S} `{EventBus S} (c : Chan) (s : S) : option (Event * S) :=
  match take_event c (bus_events s) with
  | Some (e, rest) => Some (e, bus_put rest s)
  | None => None
  end.

(** ** The tea manager *)
Record TeaHubs : Type := mkTeaHubs {
  th_create : Hub gqlTea;
  th_update : Hub gqlTea;
  th_delete : Hub UUID }.

Definition put_th_create x (h : TeaHubs) : TeaHubs := mkTeaHubs x (th_update h) (th_delete h).
Definition put_th_update x (h : TeaHubs) : TeaHubs := mkTeaHubs (th_create h) x (th_delete h).
Definition put_th_delete x (h : TeaHubs) : TeaHubs := mkTeaHubs (th_create h) (th_update h) x.

Module TeaLoop.
Import TeaManagerSubscribers.

Definition NewManager_hubs : TeaHubs := mkTeaHubs NewSubscribers NewSubscribers NewSubscribers.

(** [SubscribeOn...] makes the channel [ch] and returns it. *)
Definition SubscribeOnCreate (ctx ch : nat) : M TeaHubs GoError nat :=
  do! zoom th_create put_th_create (Teas_Push ctx ch) in ret ch.
Definition SubscribeOnUpdate (ctx ch : nat) : M TeaHubs GoError nat :=
  do! zoom th_update put_th_update (Teas_Push ctx ch) in ret ch.
Definition SubscribeOnDelete (ctx ch : nat) : M TeaHubs GoError nat :=
  do! zoom th_delete put_th_delete (IDs_Push ctx ch) in ret ch.

(** The cases of the [select]. *)
Definition dispatch (ready : nat → bool) (e : Event) : M TeaHubs GoError unit :=
  match e with
  | EvTeaCreate tea => zoom th_create put_th_create (Teas_SendAll ready (FromCommonTea tea))
  | EvTeaUpdate tea => zoom th_update put_th_update (Teas_SendAll ready (FromCommonTea tea))
  | EvTeaDelete id => zoom th_delete put_th_delete (IDs_SendAll ready id)
  | _ => ret tt
  end.

(** One turn of the loop, after [e] was received. *)
Definition iteration (ready done : nat → bool) (e : Event) : M TeaHubs GoError unit :=
  do! dispatch ready e in
  do! zoom th_create put_th_create (Teas_CleanDone done) in
  do! zoom th_update put_th_update (Teas_CleanDone done) in
  zoom th_delete put_th_delete (IDs_CleanDone done).
End TeaLoop.

(** ** The tag manager *)
Record TagHubs : Type := mkTagHubs {
  gh_create : Hub gqlTag;
  gh_update : Hub gqlTag;
  gh_delete : Hub UUID;
  gh_createCategory : Hub gqlTagCategory;
  gh_updateCategory : Hub gqlTagCategory;
  gh_deleteCategory : Hub UUID;
  gh_addTagToTea : Hub gqlTea;
  gh_deleteTagToTea : Hub gqlTea }.

Definition put_gh_create x (h : TagHubs) : TagHubs :=
  mkTagHubs x (gh_update h) (gh_delete h) (gh_createCategory h) (gh_updateCategory h)
    (gh_deleteCategory h) (gh_addTagToTea h) (gh_deleteTagToTea h).
Definition put_gh_update x (h : TagHubs) : TagHubs :=
  mkTagHubs (gh_create h) x (gh_delete h) (gh_createCategory h) (gh_updateCategory h)
    (gh_deleteCategory h) (gh_addTagToTea h) (gh_deleteTagToTea h).
Definition put_gh_delete x (h : TagHubs) : TagHubs :=
  mkTagHubs (gh_create h) (gh_update h) x (gh_createCategory h) (gh_updateCategory h)
    (gh_deleteCategory h) (gh_addTagToTea h) (gh_deleteTagToTea h).
Definition put_gh_createCategory x (h : TagHubs) : TagHubs :=
  mkTagHubs (gh_create h) (gh_update h) (gh_delete h) x (gh_updateCategory h)
    (gh_deleteCategory h) (gh_addTagToTea h) (gh_deleteTagToTea h).
Definition put_gh_updateCategory x (h : TagHubs) : TagHubs :=
  mkTagHubs (gh_create h) (gh_update h) (gh_delete h) (gh_createCategory h) x
    (gh_deleteCategory h) (gh_addTagToTea h) (gh_deleteTagToTea h).
Definition put_gh_deleteCategory x (h : TagHubs) : TagHubs :=
  mkTagHubs (gh_create h) (gh_update h) (gh_delete h) (gh_createCategory h) (gh_updateCategory h)
    x (gh_addTagToTea h) (gh_deleteTagToTea h).
Definition put_gh_addTagToTea x (h : TagHubs) : TagHubs :=
  mkTagHubs (gh_create h) (gh_update h) (gh_delete h) (gh_createCategory h) (gh_updateCategory h)
    (gh_deleteCategory h) x (gh_deleteTagToTea h).
Definition put_gh_deleteTagToTea x (h : TagHubs) : TagHubs :=
  mkTagHubs (gh_create h) (gh_update h) (gh_delete h) (gh_createCategory h) (gh_updateCategory h)
    (gh_deleteCategory h) (gh_addTagToTea h) x.

Module TagLoop.
Import TagManagerSubscribers.

Definition NewManager_hubs : TagHubs :=
  mkTagHubs NewSubscribers NewSubscribers NewSubscribers NewSubscribers NewSubscribers NewSubscribers
    NewSubscribers NewSubscribers.

Definition SubscribeOnCreate (ctx ch : nat) : M TagHubs GoError nat :=
  do! zoom gh_create put_gh_create (TagSubscribers_Push ctx ch) in ret ch.
Definition SubscribeOnUpdate (ctx ch : nat) : M TagHubs GoError nat :=
  do! zoom gh_update put_gh_update (TagSubscribers_Push ctx ch) in ret ch.
Definition SubscribeOnDelete (ctx ch : nat) : M TagHubs GoError nat :=
  do! zoom gh_delete put_gh_delete (IDSubscribers_Push ctx ch) in ret ch.
Definition SubscribeOnCreateCategory (ctx ch : nat) : M TagHubs GoError nat :=
  do! zoom gh_createCategory put_gh_createCategory (TagCategorySubscribers_Push ctx ch) in ret ch.
Definition SubscribeOnUpdateCategory (ctx ch : nat) : M TagHubs GoError nat :=
  do! zoom gh_updateCategory put_gh_updateCategory (TagCategorySubscribers_Push ctx ch) in ret ch.
Definition SubscribeOnDeleteCategory (ctx ch : nat) : M TagHubs GoError nat :=
  do! zoom gh_deleteCategory put_gh_deleteCategory (IDSubscribers_Push ctx ch) in ret ch.
Definition SubscribeOnAddTagToTea (ctx ch : nat) : M TagHubs GoError nat :=
  do! zoom gh_addTagToTea put_gh_addTagToTea (TeaSubscribers_Push ctx ch) in ret ch.
Definition SubscribeOnDeleteTagToTea (ctx ch : nat) : M TagHubs GoError nat :=
  do! zoom gh_deleteTagToTea put_gh_deleteTagToTea (TeaSubscribers_Push ctx ch) in ret ch.

Section loop.
Context {S : Type} `{TagStorage S, TeaStorage S}.

(** The handlers read the storage, which is the first component of the state. *)
Definition on_storage {A} (m : M S GoError A) : M (S * TagHubs) GoError A :=
  zoom fst (λ x p, (x, p.2)) m.
Definition on_hubs {A} (m : M TagHubs GoError A) : M (S * TagHubs) GoError A :=
  zoom snd (λ x p, (p.1, x)) m.

Definition tag_message (tag : Tag) (cat : TagCategory) : gqlTag :=
  mkGqlTag (tag_ID tag) (tagd_Name (tag_Data tag)) (tagd_Color (tag_Data tag))
    (Some (mkGqlTagCategory (tc_ID cat) (tc_Name cat))).

(** A failed lookup is logged and the event is dropped. *)
Definition handleCreateTag (ready : nat → bool) (tag : Tag) : M (S * TagHubs) GoError unit :=
  let! cat := try (on_storage (gs_GetTagCategory (tagd_CategoryID (tag_Data tag)))) in
  match cat with
  | inl _ => ret tt
  | inr cat =>
      on_hubs (zoom gh_create put_gh_create (TagSubscribers_SendAll ready (tag_message tag cat)))
  end.

Definition handleUpdateTag (ready : nat → bool) (tag : Tag) : M (S * TagHubs) GoError unit :=
  let! cat := try (on_storage (gs_GetTagCategory (tagd_CategoryID (tag_Data tag)))) in
  match cat with
  | inl _ => ret tt
  | inr cat =>
      on_hubs (zoom gh_update put_gh_update (TagSubscribers_SendAll ready (tag_message tag cat)))
  end.

Definition handleTeaTagChange (ready : nat → bool) (id : UUID) (added : bool)
    : M (S * TagHubs) GoError unit :=
  let! tea := try (on_storage (TeaManager.Get id)) in
  match tea with
  | inl _ => ret tt
  | inr tea =>
      on_hubs (if added
        then zoom gh_addTagToTea put_gh_addTagToTea (TeaSubscribers_SendAll ready (FromCommonTea tea))
        else zoom gh_deleteTagToTea put_gh_deleteTagToTea
               (TeaSubscribers_SendAll ready (FromCommonTea tea)))
  end.

Definition category_message (cat : TagCategory) : gqlTagCategory :=
  mkGqlTagCategory (tc_ID cat) (tc_Name cat).

Definition dispatch (ready : nat → bool) (e : Event) : M (S * TagHubs) GoError unit :=
  match e with
  | EvTagCreate tag => handleCreateTag ready tag
  | EvTagUpdate tag => handleUpdateTag ready tag
  | EvTagDelete id => on_hubs (zoom gh_delete put_gh_delete (IDSubscribers_SendAll ready id))
  | EvCategoryCreate cat =>
      on_hubs (zoom gh_createCategory put_gh_createCategory
        (TagCategorySubscribers_SendAll ready (category_message cat)))
  | EvCategoryUpdate cat =>
      on_hubs (zoom gh_updateCategory put_gh_updateCategory
        (TagCategorySubscribers_SendAll ready (category_message cat)))
  | EvCategoryDelete id =>
      on_hubs (zoom gh_deleteCategory put_gh_deleteCategory (IDSubscribers_SendAll ready id))
  | EvAddTagToTea id => handleTeaTagChange ready id true
  | EvDeleteTagFromTea id => handleTeaTagChange ready id false
  | _ => ret tt
  end.

Definition cleanAll (done : nat → bool) : M TagHubs GoError unit :=
  do! zoom gh_createCategory put_gh_createCategory (TagCategorySubscribers_CleanDone done) in
  do! zoom gh_updateCategory put_gh_updateCategory (TagCategorySubscribers_CleanDone done) in
  do! zoom gh_deleteCategory put_gh_deleteCategory (IDSubscribers_CleanDone done) in
  do! zoom gh_delete put_gh_delete (IDSubscribers_CleanDone done) in
  do! zoom gh_create put_gh_create (TagSubscribers_CleanDone done) in
  do! zoom gh_update put_gh_update (TagSubscribers_CleanDone done) in
  do! zoom gh_addTagToTea put_gh_addTagToTea (TeaSubscribers_CleanDone done) in
  zoom gh_deleteTagToTea put_gh_deleteTagToTea (TeaSubscribers_CleanDone done).

Definition iteration (ready done : nat → bool) (e : Event) : M (S * TagHubs) GoError unit :=
  do! dispatch ready e in
  on_hubs (cleanAll done).
End loop.
End TagLoop.

(** ** The channels between the managers and the loops *)
Section bus.
Context {S : Type} `{EventBusLaws S}.

(** [bus_history sent received s]: from empty channels, the managers sent
    [sent] and the loops received [received], and the state is now [s]. Steps
    that do not touch the channels may happen in between. *)
Inductive bus_history : list Event → list Event → S → Prop :=
  | bh_start s : bus_events s = [] -> bus_history [] [] s
  | bh_send sent received s e s' :
      bus_history sent received s -> send_event e s = (Ok tt, s') ->
      bus_history (sent ++ [e]) received s'
  | bh_receive sent received s c e s' :
      bus_history sent received s -> receive c s = Some (e, s') ->
      bus_history sent (received ++ [e]) s'
  | bh_other sent received s s' :
      bus_history sent received s -> bus_events s' = bus_events s ->
      bus_history sent received s'.

Lemma buffered_cons c e l :
  buffered c (e :: l) = if decide (event_chan e = c) then e :: buffered c l else buffered c l.
Proof. unfold buffered. by rewrite filter_cons. Qed.

Lemma take_event_spec c l e rest :
  take_event c l = Some (e, rest) ->
  event_chan e = c ∧ buffered c l = e :: buffered c rest ∧
  ∀ c', c' ≠ c -> buffered c' rest = buffered c' l.
Proof.
  revert rest. induction l as [|e0 l IH]; intros rest; simpl; [done|].
  destruct (decide (event_chan e0 = c)) as [Hc|Hc].
  - intros [= <- <-]. rewrite buffered_cons, decide_True by done. split_and!; [done..|].
    intros c' Hne. by rewrite buffered_cons, decide_False by congruence.
  - destruct (take_event c l) as [[e' rest']|] eqn:E; [|done]. intros [= <- <-].
    destruct (IH rest' eq_refl) as (He & Hb & Hother). split_and!; [done| |].
    + by rewrite !buffered_cons, !decide_False by done.
    + intros c' Hne. rewrite !buffered_cons. by rewrite (Hother c' Hne).
Qed.

Lemma buffered_app c l1 l2 : buffered c (l1 ++ l2) = buffered c l1 ++ buffered c l2.
Proof. apply filter_app. Qed.

Lemma send_event_Ok_inv e s s' :
  send_event e s = (Ok tt, s') ->
  bus_events s' = bus_events s ++ [e] ∧
  length (buffered (event_chan e) (bus_events s)) < defaultChanSize.
Proof.
  unfold send_event. case_decide; [|done]. intros [= <-]. by rewrite bus_events_put.
Qed.

Lemma bus_history_inv sent received s c :
  bus_history sent received s ->
  buffered c sent = buffered c received ++ buffered c (bus_events s) ∧
  length (buffered c (bus_events s)) <= defaultChanSize.
Proof.
  induction 1 as [s He|sent received s e s' _ [IH1 IH2] Hs|sent received s c' e s' _ [IH1 IH2] Hr
                 |sent received s s' _ [IH1 IH2] He].
  - rewrite He. unfold defaultChanSize. simpl. split; [done|lia].
  - apply send_event_Ok_inv in Hs as [-> Hlt]. rewrite !buffered_app, IH1, length_app, app_assoc.
    split; [done|]. rewrite buffered_cons.
    destruct (decide (event_chan e = c)) as [<-|]; simpl; unfold defaultChanSize in *; lia.
  - unfold receive in Hr. destruct (take_event c' (bus_events s)) as [[e' rest]|] eqn:E; [|done].
    simplify_eq. rewrite bus_events_put. apply take_event_spec in E as (<- & Hb & Hother).
    rewrite buffered_app, <-app_assoc. destruct (decide (c = event_chan e)) as [->|Hne].
    + rewrite Hb in IH1, IH2. simpl in IH2. rewrite buffered_cons, decide_True by done.
      split; [done|lia].
    + rewrite <-(Hother c Hne) in IH1, IH2. by rewrite buffered_cons, decide_False by done.
  - by rewrite He.
Qed.
End bus.

(** ** One turn of a loop, per subscriber set *)

(** [hub_served done h h' msgs]: the messages went to every subscriber of [h] in
    turn, and then the cancelled subscribers were removed and their channels
    closed. *)
Definition hub_served {T} (done : nat → bool) (h h' : Hub T) (msgs : list T) : Prop :=
  h_delivered h' = h_delivered h ++ (msgs ≫= λ m, (λ s, (sub_ch s, m)) <$> h_subs h) ∧
  h_subs h' ≡ₚ filter (λ s, ¬ cancelled done s) (h_subs h) ∧
  h_closed h' = h_closed h ++ (sub_ch <$> filter (cancelled done) (h_subs h)) ∧
  channels_open h'.

(** [h1] is [h] after [msgs] were broadcast. *)
Definition hub_sent {T} (h h1 : Hub T) (msgs : list T) : Prop :=
  h_delivered h1 = h_delivered h ++ (msgs ≫= λ m, (λ s, (sub_ch s, m)) <$> h_subs h) ∧
  h_subs h1 = h_subs h ∧ h_closed h1 = h_closed h ∧ channels_open h1.

Lemma hub_sent_nil {T} (h : Hub T) : channels_open h -> hub_sent h h [].
Proof. intros Ho. split_and!; [|done..]. simpl. by rewrite app_nil_r. Qed.

Lemma SendAll_cases {T} ready (m : T) (h : Hub T) :
  channels_open h ->
  (∃ h1, SendAll ready m h = (Ok tt, h1) ∧ hub_sent h h1 [m]) ∨
  (∃ h1 s, SendAll ready m h = (Blocked, h1) ∧ s ∈ h_subs h ∧ ready (sub_ch s) = false
     ∧ h_subs h1 = h_subs h).
Proof.
  intros Ho. destruct (SendAll_spec ready m h Ho) as [[_ ->]|(l1 & s & l2 & Hs & Hr & ->)].
  - left. eexists. split; [done|]. split_and!; [|done..|exact Ho]. simpl. by rewrite app_nil_r.
  - right. eexists _, s. split_and!; [done| |done..]. rewrite Hs. set_solver.
Qed.

Lemma SendAll_stuck {T} ready (m : T) (h : Hub T) s :
  channels_open h -> s ∈ h_subs h -> ready (sub_ch s) = false ->
  ∃ h1, SendAll ready m h = (Blocked, h1) ∧ h_subs h1 = h_subs h.
Proof.
  intros Ho Hs Hr. destruct (SendAll_spec ready m h Ho) as [[HF _]|(l1 & s' & l2 & _ & _ & ->)].
  - rewrite Forall_forall in HF. apply HF in Hs. congruence.
  - by eexists.
Qed.

Lemma CleanDone_served {T} done (h h1 : Hub T) msgs :
  hub_sent h h1 msgs -> ∃ h', CleanDone done h1 = (Ok tt, h') ∧ hub_served done h h' msgs.
Proof.
  intros (Hd & Hs & Hc & Ho). destruct (CleanDone_open done h1 Ho) as (h' & -> & Hd' & HP & Hc' & Ho').
  exists h'. split; [done|]. split_and!; [by rewrite Hd'|by rewrite HP, Hs|by rewrite Hc', Hs, Hc|done].
Qed.

(** What an event carries to each set of the tea manager. *)
Definition tea_created (e : Event) : list gqlTea :=
  match e with EvTeaCreate tea => [FromCommonTea tea] | _ => [] end.
Definition tea_updated (e : Event) : list gqlTea :=
  match e with EvTeaUpdate tea => [FromCommonTea tea] | _ => [] end.
Definition tea_deleted (e : Event) : list UUID :=
  match e with EvTeaDelete id => [id] | _ => [] end.

Definition tea_hubs_open (h : TeaHubs) : Prop :=
  channels_open (th_create h) ∧ channels_open (th_update h) ∧ channels_open (th_delete h).

(** The subscribers of the set an event is for. *)
Definition tea_audience (e : Event) (h : TeaHubs) : list Subscriber :=
  match e with
  | EvTeaCreate _ => h_subs (th_create h)
  | EvTeaUpdate _ => h_subs (th_update h)
  | EvTeaDelete _ => h_subs (th_delete h)
  | _ => []
  end.

Lemma tea_dispatch_cases ready e h :
  tea_hubs_open h ->
  (∃ h1, TeaLoop.dispatch ready e h = (Ok tt, h1) ∧ hub_sent (th_create h) (th_create h1) (tea_created e)
     ∧ hub_sent (th_update h) (th_update h1) (tea_updated e)
     ∧ hub_sent (th_delete h) (th_delete h1) (tea_deleted e)) ∨
  (∃ h1 s, TeaLoop.dispatch ready e h = (Blocked, h1) ∧ s ∈ tea_audience e h
     ∧ ready (sub_ch s) = false ∧ tea_audience e h1 = tea_audience e h).
Proof.
  intros (H1 & H2 & H3). pose proof (hub_sent_nil _ H1) as N1. pose proof (hub_sent_nil _ H2) as N2.
  pose proof (hub_sent_nil _ H3) as N3.
  destruct e; try (left; by exists h); unfold TeaLoop.dispatch, zoom,
    TeaManagerSubscribers.Teas_SendAll, TeaManagerSubscribers.IDs_SendAll;
    match goal with |- context [SendAll ready ?m ?hub] =>
      destruct (SendAll_cases ready m hub ltac:(assumption))
        as [(h1 & -> & Hs)|(h1 & s & -> & Hin & Hr & Hsame)] end;
    [left|right|left|right|left|right]; eexists; try (split_and!; done); exists s; done.
Qed.

Lemma tea_clean done h h1 m1 m2 m3 :
  hub_sent (th_create h) (th_create h1) m1 -> hub_sent (th_update h) (th_update h1) m2 ->
  hub_sent (th_delete h) (th_delete h1) m3 ->
  ∃ h', (do! zoom th_create put_th_create (CleanDone done) in
         do! zoom th_update put_th_update (CleanDone done) in
         zoom th_delete put_th_delete (CleanDone done)) h1 = (Ok tt : outcome GoError unit, h') ∧
    hub_served done (th_create h) (th_create h') m1 ∧ hub_served done (th_update h) (th_update h') m2
    ∧ hub_served done (th_delete h) (th_delete h') m3.
Proof.
  intros H1 H2 H3. apply (CleanDone_served done) in H1 as (c1 & E1 & S1), H2 as (c2 & E2 & S2),
    H3 as (c3 & E3 & S3).
  unfold bind, zoom. rewrite E1. simpl. rewrite E2. simpl. rewrite E3. by eexists.
Qed.

(** A category lookup reads the database and nothing else. *)
Section lookups.
Context `{Env}.

Lemma query_row_read {A} (m : Database → option A) w r w' :
  query_row (λ _ d, queried (m d) d) w = (r, w') ->
  w' = advance w ∧ match r with Ok a => m (w_db w) = Some a | Err _ => True | _ => False end.
Proof.
  intros Hr. destruct (query_row_returns (λ _ d, queried (m d) d) w) as [(a & w1 & E)|(e & w1 & E)];
    rewrite E in Hr; simplify_eq.
  - by apply query_row_Ok_inv in E as (d & [= Ha <-] & -> & _).
  - split; [|done]. by apply query_row_Err_inv in E as [->|(a & d & [= _ <-] & ->)].
Qed.

Lemma GetTagCategory_read id w r w' :
  GetTagCategory id w = (r, w') ->
  w' = advance w ∧
  match r with
  | Ok cat => tc_ID cat = id ∧ tag_categories (w_db w) !! id = Some (tc_Name cat)
  | Err _ => True
  | _ => False
  end.
Proof.
  unfold GetTagCategory, bind, map_err, Queries_GetTagCategory.
  destruct (query_row (getTagCategory id) w) as [r0 w0] eqn:E.
  apply (query_row_read (λ d, pair id <$> tag_categories d !! id)) in E as [-> Hr].
  destruct r0 as [p|e| |]; [|intros [= <- <-]; done|done..].
  intros [= <- <-]. split; [done|]. by apply fmap_Some in Hr as (name & Hn & ->).
Qed.

Lemma ReadRecord_read id w r w' :
  ReadRecord id w = (r, w') ->
  w' = advance w ∧
  match r with
  | Ok tea => tea_ID tea = id ∧ db_teas (w_db w) !! id = Some (tea_Data tea)
  | Err _ => True
  | _ => False
  end.
Proof.
  unfold ReadRecord, bind, map_err, Queries_GetTea.
  destruct (query_row (getTea id) w) as [r0 w0] eqn:E.
  apply (query_row_read (λ d, pair id <$> teas d !! id)) in E as [-> Hr].
  destruct r0 as [p|e| |]; [|intros [= <- <-]; done|done..].
  intros [= <- <-]. split; [done|]. apply fmap_Some in Hr as (row & Hn & ->). split; [done|].
  apply db_teas_lookup. by exists row.
Qed.
End lookups.

(** ** One turn of the tag loop *)

(** What an event carries to each set of the tag manager: tags with their
    category, and teas, as the database has them now. *)
Definition tag_messages (d : Database) (tag : Tag) : list gqlTag :=
  match tag_categories d !! tagd_CategoryID (tag_Data tag) with
  | Some name => [TagLoop.tag_message tag (mkTagCategory (tagd_CategoryID (tag_Data tag)) name)]
  | None => []
  end.
Definition tea_messages (d : Database) (id : UUID) : list gqlTea :=
  match db_teas d !! id with Some data => [FromCommonTea (mkTea id data)] | None => [] end.

Definition tag_created (d : Database) (e : Event) : list gqlTag :=
  match e with EvTagCreate tag => tag_messages d tag | _ => [] end.
Definition tag_updated (d : Database) (e : Event) : list gqlTag :=
  match e with EvTagUpdate tag => tag_messages d tag | _ => [] end.
Definition tag_deleted (e : Event) : list UUID :=
  match e with EvTagDelete id => [id] | _ => [] end.
Definition category_created (e : Event) : list gqlTagCategory :=
  match e with EvCategoryCreate cat => [TagLoop.category_message cat] | _ => [] end.
Definition category_updated (e : Event) : list gqlTagCategory :=
  match e with EvCategoryUpdate cat => [TagLoop.category_message cat] | _ => [] end.
Definition category_deleted (e : Event) : list UUID :=
  match e with EvCategoryDelete id => [id] | _ => [] end.
Definition tag_added (d : Database) (e : Event) : list gqlTea :=
  match e with EvAddTagToTea id => tea_messages d id | _ => [] end.
Definition tag_removed (d : Database) (e : Event) : list gqlTea :=
  match e with EvDeleteTagFromTea id => tea_messages d id | _ => [] end.

Definition tag_hubs_open (h : TagHubs) : Prop :=
  channels_open (gh_create h) ∧ channels_open (gh_update h) ∧ channels_open (gh_delete h)
  ∧ channels_open (gh_createCategory h) ∧ channels_open (gh_updateCategory h)
  ∧ channels_open (gh_deleteCategory h) ∧ channels_open (gh_addTagToTea h)
  ∧ channels_open (gh_deleteTagToTea h).

Definition tag_audience (e : Event) (h : TagHubs) : list Subscriber :=
  match e with
  | EvTagCreate _ => h_subs (gh_create h)
  | EvTagUpdate _ => h_subs (gh_update h)
  | EvTagDelete _ => h_subs (gh_delete h)
  | EvCategoryCreate _ => h_subs (gh_createCategory h)
  | EvCategoryUpdate _ => h_subs (gh_updateCategory h)
  | EvCategoryDelete _ => h_subs (gh_deleteCategory h)
  | EvAddTagToTea _ => h_subs (gh_addTagToTea h)
  | EvDeleteTagFromTea _ => h_subs (gh_deleteTagToTea h)
  | _ => []
  end.

(** [all_hubs R d ok e h h']: every set of [h'] is in relation [R] to that of [h]
    and its messages; a failed lookup ([ok = false]) has no message. *)
Definition all_hubs (R : ∀ T, Hub T → Hub T → list T → Prop) (d : Database) (ok : bool) (e : Event)
    (h h' : TagHubs) : Prop :=
  R _ (gh_create h) (gh_create h') (if ok then tag_created d e else []) ∧
  R _ (gh_update h) (gh_update h') (if ok then tag_updated d e else []) ∧
  R _ (gh_delete h) (gh_delete h') (tag_deleted e) ∧
  R _ (gh_createCategory h) (gh_createCategory h') (category_created e) ∧
  R _ (gh_updateCategory h) (gh_updateCategory h') (category_updated e) ∧
  R _ (gh_deleteCategory h) (gh_deleteCategory h') (category_deleted e) ∧
  R _ (gh_addTagToTea h) (gh_addTagToTea h') (if ok then tag_added d e else []) ∧
  R _ (gh_deleteTagToTea h) (gh_deleteTagToTea h') (if ok then tag_removed d e else []).

Section tag_loop.
Context `{Env}.

(** The database answers the next round trip. *)
Definition db_answers (w : World) : bool := match pg_fault (w_tick w) with None => true | Some _ => false end.

(** The outcome of the [select] cases. *)
Definition tag_dispatched (ready : nat → bool) (e : Event) (w : World) (h : TagHubs)
    (r : outcome GoError unit) (w1 : World) (h1 : TagHubs) : Prop :=
  (w1 = w ∨ w1 = advance w) ∧
  match r with
  | Ok _ => all_hubs (@hub_sent) (w_db w) (db_answers w) e h h1
  | Blocked => ∃ s, s ∈ tag_audience e h ∧ ready (sub_ch s) = false
  | _ => False
  end.

(** The error of a faultless lookup is that there is no row. *)
Lemma category_lookup_fails id w e w1 :
  GetTagCategory id w = (Err e, w1) -> pg_fault (w_tick w) = None ->
  tag_categories (w_db w) !! id = None.
Proof.
  unfold GetTagCategory, bind, map_err, Queries_GetTagCategory, query_row, bind, exec, World_PgClient, World_exec.
  intros Hr Hf. rewrite Hf in Hr. unfold getTagCategory, queried in Hr.
  by destruct (tag_categories (w_db w) !! id).
Qed.

Lemma tea_lookup_fails id w e w1 :
  ReadRecord id w = (Err e, w1) -> pg_fault (w_tick w) = None -> db_teas (w_db w) !! id = None.
Proof.
  unfold ReadRecord, bind, map_err, Queries_GetTea, query_row, bind, exec, World_PgClient, World_exec.
  intros Hr Hf. rewrite Hf in Hr. unfold getTea, queried in Hr. unfold db_teas.
  rewrite lookup_fmap. by destruct (teas (w_db w) !! id).
Qed.

Lemma category_lookup_answered id w cat w1 : GetTagCategory id w = (Ok cat, w1) -> db_answers w = true.
Proof.
  unfold GetTagCategory, Queries_GetTagCategory. intros (p & w2 & Hq & _)%bind_Ok_inv.
  apply map_err_Ok_inv, query_row_Ok_inv in Hq as (d & _ & _ & Hf). unfold db_answers. by rewrite Hf.
Qed.

Lemma tea_lookup_answered id w tea w1 : ReadRecord id w = (Ok tea, w1) -> db_answers w = true.
Proof.
  unfold ReadRecord, Queries_GetTea. intros (p & w2 & Hq & _)%bind_Ok_inv.
  apply map_err_Ok_inv, query_row_Ok_inv in Hq as (d & _ & _ & Hf). unfold db_answers. by rewrite Hf.
Qed.

(** The other sets are as they were, and have no message. *)
Ltac nil_hubs :=
  unfold all_hubs; cbn [tag_created tag_updated tag_deleted category_created category_updated
    category_deleted tag_added tag_removed];
  try destruct (db_answers _); split_and!; first [assumption | by apply hub_sent_nil].

(** A broadcast on one of the sets. *)
Ltac broadcast :=
  unfold TagManagerSubscribers.IDSubscribers_SendAll, TagManagerSubscribers.TagSubscribers_SendAll,
    TagManagerSubscribers.TagCategorySubscribers_SendAll,
    TagManagerSubscribers.TeaSubscribers_SendAll;
  match goal with
  | Ho : channels_open ?hub |- context [SendAll ?ready ?m ?hub] =>
      destruct (SendAll_cases ready m hub Ho) as [(? & -> & ?)|(? & s & -> & ? & ? & ?)];
      intros [= <- <- <-]; (split; [by auto|]); [|by exists s]
  end.

(** A lookup that failed: nobody is told, and without a fault there is no row. *)
Ltac failed_lookup E :=
  intros [= <- <- <-]; split; [by right|];
  unfold db_answers; destruct (pg_fault (w_tick _)) as [?|] eqn:Hf; [nil_hubs|];
  first [apply category_lookup_fails in E; [|done] | apply tea_lookup_fails in E; [|done]];
  unfold all_hubs, tag_created, tag_updated, tag_added, tag_removed, tag_messages, tea_messages;
  rewrite ?E; nil_hubs.

Lemma tag_messages_found d tag cat :
  tc_ID cat = tagd_CategoryID (tag_Data tag) ∧
  tag_categories d !! tagd_CategoryID (tag_Data tag) = Some (tc_Name cat) ->
  tag_messages d tag = [TagLoop.tag_message tag cat].
Proof. intros [Hc Hn]. unfold tag_messages. rewrite Hn, <-Hc. by destruct cat. Qed.

Lemma tea_messages_found d id tea :
  tea_ID tea = id ∧ db_teas d !! id = Some (tea_Data tea) ->
  tea_messages d id = [FromCommonTea tea].
Proof. intros [<- Hn]. unfold tea_messages. rewrite Hn. by destruct tea. Qed.

(** A lookup and the broadcast of its row. *)
Ltac looked_up run read found ans :=
  intros Hr; destruct run as [r0 w0] eqn:E; revert Hr;
  pose proof (read _ _ _ E) as [-> Hrow];
  (destruct r0 as [row|err| |]; [| |done..]); simpl fst; simpl snd; [|failed_lookup E];
  pose proof (found _ _ _ Hrow) as Hmsg; pose proof (ans _ _ _ _ E) as Hans; broadcast;
  rewrite Hans, <-Hmsg in *; nil_hubs.

Lemma tag_dispatch_cases ready e w h r w1 h1 :
  tag_hubs_open h -> TagLoop.dispatch ready e (w, h) = (r, (w1, h1)) ->
  tag_dispatched ready e w h r w1 h1.
Proof.
  intros (?&?&?&?&?&?&?&?). unfold tag_dispatched.
  destruct e; unfold TagLoop.dispatch, TagLoop.handleCreateTag, TagLoop.handleUpdateTag,
    TagLoop.handleTeaTagChange, TagLoop.on_hubs, TagLoop.on_storage, TeaManager.Get, bind, try, zoom;
    simpl fst; simpl snd; cbn [gs_GetTagCategory Pg_TagStorage ts_ReadRecord Pg_TeaStorage].
  1-3: intros [= <- <- <-]; split; [by left|]; nil_hubs.
  1-2: match goal with |- context [GetTagCategory ?id ?v] =>
         looked_up (GetTagCategory id v) (@GetTagCategory_read _ id) tag_messages_found category_lookup_answered end.
  1-4: broadcast; nil_hubs.
  1-2: match goal with |- context [ReadRecord ?id ?v] =>
         looked_up (ReadRecord id v) (@ReadRecord_read _ id) tea_messages_found tea_lookup_answered end.
Qed.

Lemma tag_cleanAll done d ok e h h1 :
  all_hubs (@hub_sent) d ok e h h1 ->
  ∃ h', TagLoop.cleanAll done h1 = (Ok tt, h') ∧ all_hubs (λ T, @hub_served T done) d ok e h h'.
Proof.
  intros (H1&H2&H3&H4&H5&H6&H7&H8).
  apply (CleanDone_served done) in H1 as (c1&E1&S1), H2 as (c2&E2&S2), H3 as (c3&E3&S3),
    H4 as (c4&E4&S4), H5 as (c5&E5&S5), H6 as (c6&E6&S6), H7 as (c7&E7&S7), H8 as (c8&E8&S8).
  exists (mkTagHubs c1 c2 c3 c4 c5 c6 c7 c8). split; [|done].
  unfold TagLoop.cleanAll, TagManagerSubscribers.IDSubscribers_CleanDone,
    TagManagerSubscribers.TagSubscribers_CleanDone,
    TagManagerSubscribers.TagCategorySubscribers_CleanDone,
    TagManagerSubscribers.TeaSubscribers_CleanDone, bind, zoom.
  rewrite E4; simpl. rewrite E5; simpl. rewrite E6; simpl. rewrite E3; simpl. rewrite E1; simpl.
  rewrite E2; simpl. rewrite E7; simpl. by rewrite E8.
Qed.
End tag_loop.

(** One turn of the tea loop. *)
Lemma tea_iteration ready done e h :
  tea_hubs_open h ->
  match TeaLoop.iteration ready done e h with
  | (Ok _, h') =>
      hub_served done (th_create h) (th_create h') (tea_created e) ∧
      hub_served done (th_update h) (th_update h') (tea_updated e) ∧
      hub_served done (th_delete h) (th_delete h') (tea_deleted e) ∧ tea_hubs_open h'
  | (Blocked, _) => ∃ s, s ∈ tea_audience e h ∧ ready (sub_ch s) = false
  | _ => False
  end.
Proof.
  intros Ho. unfold TeaLoop.iteration.
  destruct (tea_dispatch_cases ready e h Ho) as [(h1 & E & H1 & H2 & H3)|(h1 & s & E & Hs & Hr & _)].
  - rewrite (bind_Ok _ _ _ _ _ E).
    unfold TeaManagerSubscribers.Teas_CleanDone, TeaManagerSubscribers.IDs_CleanDone.
    destruct (tea_clean done h h1 _ _ _ H1 H2 H3) as (h' & -> & S1 & S2 & S3).
    split_and!; [done..|]. repeat split; first [apply S1|apply S2|apply S3].
  - unfold bind. rewrite E. by exists s.
Qed.

(** One turn of the tag loop. *)
Lemma tag_iteration `{Env} ready done e w h :
  tag_hubs_open h ->
  match TagLoop.iteration ready done e (w, h) with
  | (Ok _, (w', h')) =>
      w_db w' = w_db w ∧ w_events w' = w_events w ∧
      all_hubs (λ T, @hub_served T done) (w_db w) (db_answers w) e h h'
  | (Blocked, (w', _)) =>
      w_db w' = w_db w ∧ ∃ s, s ∈ tag_audience e h ∧ ready (sub_ch s) = false
  | _ => False
  end.
Proof.
  intros Ho. unfold TagLoop.iteration.
  destruct (TagLoop.dispatch ready e (w, h)) as [r [w1 h1]] eqn:E.
  destruct (tag_dispatch_cases _ _ _ _ _ _ _ Ho E) as [Hw Hr].
  assert (w_db w1 = w_db w ∧ w_events w1 = w_events w) as [Hdb Hev] by (by destruct Hw as [->| ->]).
  unfold bind. rewrite E. destruct r as [[]|err| |]; [|done..|done].
  destruct (tag_cleanAll done (w_db w) _ e h h1 Hr) as (h' & Hc & Hserved).
  unfold TagLoop.on_hubs, zoom. simpl. rewrite Hc. simpl. by split_and!.
Qed.

(** ** Properties *)

(** A channel between a manager and its loop is a queue: whatever
    requests and loop turns happen, in whatever order, the events received from
    a channel followed by the events still in its buffer are exactly the events
    sent to it, in order; nothing is lost or duplicated, and at most a hundred
    events wait. *)
Theorem event_channels_are_bounded_queues {S} `{EventBusLaws S} sent received (s : S) c :
  bus_history sent received s ->
  buffered c sent = buffered c received ++ buffered c (bus_events s) ∧
  length (buffered c (bus_events s)) <= defaultChanSize.
Proof. apply bus_history_inv. Qed.

(** One turn of the tea loop sends the event to every subscriber of its
    kind and to nobody else, then removes exactly the subscribers whose context
    is done, closes their channels and no others, and leaves the sets well formed
    for the next turn; it parks only
    when a subscriber of that kind has no reader, and never panics. *)
Theorem tea_loop_turn ready done e h :
  tea_hubs_open h ->
  match TeaLoop.iteration ready done e h with
  | (Ok _, h') =>
      hub_served done (th_create h) (th_create h') (tea_created e) ∧
      hub_served done (th_update h) (th_update h') (tea_updated e) ∧
      hub_served done (th_delete h) (th_delete h') (tea_deleted e) ∧ tea_hubs_open h'
  | (Blocked, _) => ∃ s, s ∈ tea_audience e h ∧ ready (sub_ch s) = false
  | _ => False
  end.
Proof. intros Ho. exact (tea_iteration ready done e h Ho). Qed.

(** One turn of the tag loop reads at most one row and changes no data. It
    sends a created or changed tag together with its category, and the tea of a
    changed link, as the database holds them at that moment; a category or a
    tea that is gone, or a failed read, drops the event. Then it removes exactly
    the subscribers whose context is done. It parks only when a subscriber of
    the event's kind has no reader. *)
Theorem tag_loop_turn `{Env} ready done e w h :
  tag_hubs_open h ->
  match TagLoop.iteration ready done e (w, h) with
  | (Ok _, (w', h')) =>
      w_db w' = w_db w ∧ w_events w' = w_events w ∧
      all_hubs (λ T, @hub_served T done) (w_db w) (db_answers w) e h h'
  | (Blocked, (w', _)) =>
      w_db w' = w_db w ∧ ∃ s, s ∈ tag_audience e h ∧ ready (sub_ch s) = false
  | _ => False
  end.
Proof. intros Ho. exact (tag_iteration ready done e w h Ho). Qed.

(** C33: a subscriber that stopped reading stops the loop, even if its context is
    done: subscribers are removed only after the broadcast. The turn parks with
    the subscriber still registered; and once a hundred creations wait on the
    channel, the next successful creation parks its caller with the tea already
    stored. *)
Theorem stopped_subscriber_blocks_the_loop :
  (∀ ready done tea h s, tea_hubs_open h -> s ∈ h_subs (th_create h) -> ready (sub_ch s) = false ->
     ∃ h', TeaLoop.iteration ready done (EvTeaCreate tea) h = (Blocked, h')
       ∧ s ∈ h_subs (th_create h')) ∧
  (∀ S `{TeaStorageLaws S, !EventBusLaws S} (data : TeaData) (tea : Tea) (s s1 : S),
     ts_inv s -> ts_WriteRecord data s = (Ok tea, s1) ->
     defaultChanSize <= length (buffered ch_tea_create (bus_events s)) ->
     TeaManager.Create data s = (Blocked, s1)).
Proof.
  split.
  - intros ready done tea h s (Ho & _ & _) Hs Hr.
    destruct (SendAll_stuck ready (FromCommonTea tea) _ s Ho Hs Hr) as (h1 & E & Hsame).
    exists (put_th_create h1 h). split; [|simpl; by rewrite Hsame].
    unfold TeaLoop.iteration, TeaLoop.dispatch, TeaManagerSubscribers.Teas_SendAll, bind, zoom.
    by rewrite E.
  - intros S ? ? ? ? data tea s s1 Hs Hw Hfull.
    pose proof (ts_spec _ (OpWriteRecord data) _ _ _ Hs Hw) as (_ & Hev & _).
    unfold TeaManager.Create. rewrite (bind_Ok _ _ _ _ _ Hw). unfold bind, send_event.
    rewrite decide_False; [done|]. simpl. rewrite Hev. lia.
Qed.

(** ** Witnesses *)
#[local] Existing Instance exampleEnv.

(** Two subscribers to created teas; the context of the first is done. *)
Definition exampleTeaHubs : TeaHubs :=
  ((do! TeaLoop.SubscribeOnCreate 1 10 in TeaLoop.SubscribeOnCreate 2 20)
    TeaLoop.NewManager_hubs).2.

Definition exampleTagHubs : TagHubs :=
  mkTagHubs (mkHub [mkSubscriber 1 10; mkSubscriber 2 20] [] []) NewSubscribers NewSubscribers
    NewSubscribers NewSubscribers NewSubscribers NewSubscribers NewSubscribers.

Lemma two_subscribers_open {T} : channels_open (T := T) (mkHub [mkSubscriber 1 10; mkSubscriber 2 20] [] []).
Proof. split; [by apply (bool_decide_unpack _)|]. intros s _ Hs. by apply not_elem_of_nil in Hs. Qed.

Lemma NewSubscribers_open {T} : channels_open (T := T) NewSubscribers.
Proof. apply hub_reach_open, hr_new. Qed.

Lemma event_channels_are_bounded_queues_witness :
  let e1 := EvTeaDelete 1%N in
  let e2 := EvTagDelete 2%N in
  let w := set_events [e2] (initial_world empty_db) in
  bus_history [e1; e2] [e1] w ∧
  buffered ch_tea_delete [e1; e2] = buffered ch_tea_delete [e1] ++ buffered ch_tea_delete (bus_events w) ∧
  length (buffered ch_tea_delete (bus_events w)) <= defaultChanSize.
Proof.
  cbv zeta.
  assert (bus_history [EvTeaDelete 1%N; EvTagDelete 2%N] [EvTeaDelete 1%N]
    (set_events [EvTagDelete 2%N] (initial_world empty_db))) as Hh.
  { apply (bh_receive _ [] (set_events [EvTeaDelete 1%N; EvTagDelete 2%N] (initial_world empty_db))
      ch_tea_delete); [|reflexivity].
    apply (bh_send [EvTeaDelete 1%N] [] (set_events [EvTeaDelete 1%N] (initial_world empty_db))); [|reflexivity].
    apply (bh_send [] [] (set_events [] (initial_world empty_db))); [|reflexivity].
    by apply bh_start. }
  split; [exact Hh|]. exact (event_channels_are_bounded_queues _ _ _ ch_tea_delete Hh).
Defined.

Lemma exampleTeaHubs_open : tea_hubs_open exampleTeaHubs.
Proof. split_and!; [apply two_subscribers_open|apply NewSubscribers_open..]. Qed.

Lemma tea_loop_turn_witness :
  let e := EvTeaCreate (mkTea sencha (mkTeaData "Sencha" TeaBeverageType "")) in
  let run := TeaLoop.iteration (λ _, true) (λ c, bool_decide (c = 1)) e exampleTeaHubs in
  h_subs (th_create run.2) = [mkSubscriber 2 20] ∧ length (h_delivered (th_create run.2)) = 2 ∧
  match run with
  | (Ok _, h') =>
      hub_served (λ c, bool_decide (c = 1)) (th_create exampleTeaHubs) (th_create h') (tea_created e) ∧
      hub_served (λ c, bool_decide (c = 1)) (th_update exampleTeaHubs) (th_update h') (tea_updated e) ∧
      hub_served (λ c, bool_decide (c = 1)) (th_delete exampleTeaHubs) (th_delete h') (tea_deleted e) ∧
      tea_hubs_open h'
  | (Blocked, _) => ∃ s, s ∈ tea_audience e exampleTeaHubs ∧ true = false
  | _ => False
  end.
Proof.
  cbv zeta. split; [reflexivity|]. split; [reflexivity|].
  exact (tea_loop_turn (λ _, true) (λ c, bool_decide (c = 1))
    (EvTeaCreate (mkTea sencha (mkTeaData "Sencha" TeaBeverageType ""))) exampleTeaHubs
    exampleTeaHubs_open).
Defined.

Lemma tag_loop_turn_witness :
  let e := EvTagCreate (mkTag grassy (mkTagData "grassy" "#0f0" flavour)) in
  let run := TagLoop.iteration (λ _, true) (λ _, false) e (exampleWorld, exampleTagHubs) in
  h_delivered (gh_create run.2.2)
  = (λ ch, (ch, mkGqlTag grassy "grassy" "#0f0" (Some (mkGqlTagCategory flavour "flavour")))) <$> [10; 20] ∧
  match run with
  | (Ok _, (w', h')) =>
      w_db w' = w_db exampleWorld ∧ w_events w' = w_events exampleWorld ∧
      all_hubs (λ T, @hub_served T (λ _, false)) (w_db exampleWorld) (db_answers exampleWorld) e exampleTagHubs h'
  | (Blocked, (w', _)) =>
      w_db w' = w_db exampleWorld ∧ ∃ s, s ∈ tag_audience e exampleTagHubs ∧ true = false
  | _ => False
  end.
Proof.
  cbv zeta. split; [vm_compute; reflexivity|].
  apply (tag_loop_turn (λ _, true) (λ _, false)
    (EvTagCreate (mkTag grassy (mkTagData "grassy" "#0f0" flavour))) exampleWorld exampleTagHubs).
  split_and!; [apply two_subscribers_open|apply NewSubscribers_open..].
Defined.

Lemma stopped_subscriber_blocks_the_loop_witness :
  ∃ h', TeaLoop.iteration (λ ch, bool_decide (ch ≠ 10)) (λ c, bool_decide (c = 1))
          (EvTeaCreate (mkTea sencha (mkTeaData "Sencha" TeaBeverageType ""))) exampleTeaHubs
        = (Blocked, h') ∧ mkSubscriber 1 10 ∈ h_subs (th_create h').
Proof.
  apply (proj1 stopped_subscriber_blocks_the_loop).
  - apply exampleTeaHubs_open.
  - simpl. set_solver.
  - reflexivity.
Defined.
