(* ===== verification/Frame.v ===== *)
(** Frame conditions: which part of the database a call leaves alone.

    [keeps f m] says that the call [m] does not change the part [f] of the
    database. It is proved statement by statement: [walk] unfolds a call, and the
    hints below close the goals for its statements. *)

From stdpp Require Import base gmap sets list strings.
From Stdlib Require Import ZArith Lia.
From S2P Require Import Prelude GoTime Common Consumption Env Schema Sql World Queries PgAdapter Interfaces.
From S2P Require Import PgStorage Managers PgConsumption.

Section keeps.
Context `{Env} {T : Type} (f : Database → T).

Definition stmt_keeps {A} (s : Stmt A) : Prop :=
  ∀ now d a d', s now d = inr (a, d') -> f d' = f d.

Definition keeps {A} (m : M World GoError A) : Prop := ∀ x, preserves (λ w, f (w_db w) = x) m.

Lemma read_only_keeps {A} (s : Stmt A) : read_only s -> stmt_keeps s.
Proof. intros Hs now d a d' E. by rewrite (Hs _ _ _ _ E). Qed.

Lemma exec_keeps {A} (s : Stmt A) x : stmt_keeps s -> preserves (λ w, f (w_db w) = x) (exec s).
Proof.
  intros Hs w Hw. unfold exec, World_PgClient, World_exec.
  destruct (pg_fault (w_tick w)) as [[msg|msg]|]; [done| |];
    destruct (s _ (w_db w)) as [e|[v d]] eqn:E; try done; simpl; by rewrite (Hs _ _ _ _ E).
Qed.

Lemma query_row_keeps {A} (s : Stmt (option A)) x :
  stmt_keeps s -> preserves (λ w, f (w_db w) = x) (query_row s).
Proof. intros Hs. apply preserves_bind; [by apply exec_keeps|]. by intros [v|]; auto with go_preserves. Qed.

Lemma new_uuid_keeps x : preserves (λ w, f (w_db w) = x) new_uuid.
Proof. by intros w. Qed.
Lemma clock_now_keeps x : preserves (λ w, f (w_db w) = x) clock_now.
Proof. by intros w. Qed.
Lemma ask_keeps {A} (service : nat → GoError + A) x : preserves (λ w, f (w_db w) = x) (ask service).
Proof. intros w Hw. unfold ask. by destruct (service (w_tick w)). Qed.
Lemma send_event_keeps e x : preserves (λ w, f (w_db w) = x) (send_event e).
Proof. intros w Hw. unfold send_event. by case_decide. Qed.

Lemma keeps_run {A} (m : M World GoError A) w r w' :
  keeps m -> m w = (r, w') -> f (w_db w') = f (w_db w).
Proof. intros Hm E. specialize (Hm _ w eq_refl). by rewrite E in Hm. Qed.
End keeps.

#[export] Hint Resolve read_only_keeps exec_keeps query_row_keeps new_uuid_keeps clock_now_keeps ask_keeps
  send_event_keeps : go_preserves.

(** A call that does not change the database at all, and its hints. *)
Definition keeps_db {A} (m : M World GoError A) : Prop := ∀ d, preserves (λ w, w_db w = d) m.

Section keeps_db.
Context `{Env}.

Lemma exec_keeps_db {A} (s : Stmt A) x : read_only s -> preserves (λ w, w_db w = x) (exec s).
Proof. intros Hs. by apply (exec_keeps (λ d, d)), read_only_keeps. Qed.
Lemma query_row_keeps_db {A} (s : Stmt (option A)) x :
  read_only s -> preserves (λ w, w_db w = x) (query_row s).
Proof. intros Hs. by apply (query_row_keeps (λ d, d)), read_only_keeps. Qed.
Lemma ask_keeps_db {A} (service : nat → GoError + A) x : preserves (λ w, w_db w = x) (ask service).
Proof. apply (ask_keeps (λ d, d)). Qed.
Lemma clock_now_keeps_db x : preserves (λ w, w_db w = x) clock_now.
Proof. by intros w. Qed.

Lemma keeps_db_run {A} (m : M World GoError A) w r w' : keeps_db m -> m w = (r, w') -> w_db w' = w_db w.
Proof. intros Hm E. specialize (Hm _ w eq_refl). by rewrite E in Hm. Qed.

Lemma keeps_db_keeps {A} {T} (f : Database → T) (m : M World GoError A) x :
  keeps_db m -> preserves (λ w, f (w_db w) = x) m.
Proof. intros Hm w Hw. by rewrite (Hm _ w eq_refl). Qed.
End keeps_db.

#[export] Hint Resolve exec_keeps_db query_row_keeps_db ask_keeps_db clock_now_keeps_db : go_preserves.

(** ** The catalogue: teas, tags, categories and the tags of teas *)
Definition catalogue (d : Database) :=
  (teas d, tag_categories d, tags d, tea_tags d).

Section catalogue.
Context `{Env}.

Lemma upsertUser_catalogue id apple_id : stmt_keeps catalogue (upsertUser id apple_id).
Proof.
  intros now d a d'. unfold upsertUser. destruct (find_row _ _) as [[i r]|]; [by intros; simplify_eq|].
  destruct (users d !! id); intros; by simplify_eq.
Qed.

Lemma upsertQR_catalogue id tea temp expiration : stmt_keeps catalogue (upsertQR id tea temp expiration).
Proof. intros now d a d'. unfold upsertQR. repeat case_match; intros; by simplify_eq. Qed.

Lemma insertCollection_catalogue id user name : stmt_keeps catalogue (insertCollection id user name).
Proof. intros now d a d'. unfold insertCollection. repeat case_match; intros; by simplify_eq. Qed.

Lemma insertCollectionItems_catalogue id qrs : stmt_keeps catalogue (insertCollectionItems id qrs).
Proof. intros now d a d'. unfold insertCollectionItems. repeat case_match; intros; by simplify_eq. Qed.

Lemma deleteCollectionItem_catalogue id q : stmt_keeps catalogue (deleteCollectionItem id q).
Proof. intros now d a d'. unfold deleteCollectionItem. intros; by simplify_eq. Qed.

Lemma deleteCollection_catalogue id user : stmt_keeps catalogue (deleteCollection id user).
Proof. intros now d a d'. unfold deleteCollection. repeat case_match; intros; by simplify_eq. Qed.

Lemma insertDevice_catalogue id user token : stmt_keeps catalogue (insertDevice id user token).
Proof. intros now d a d'. unfold insertDevice. repeat case_match; intros; by simplify_eq. Qed.

Lemma updateDeviceToken_catalogue id token : stmt_keeps catalogue (updateDeviceToken id token).
Proof. intros now d a d'. unfold updateDeviceToken. repeat case_match; intros; by simplify_eq. Qed.

Lemma insertConsumption_catalogue user ts tea : stmt_keeps catalogue (insertConsumption user ts tea).
Proof. intros now d a d'. unfold insertConsumption. repeat case_match; intros; by simplify_eq. Qed.

Lemma deleteConsumptionsBefore_catalogue user cutoff :
  stmt_keeps catalogue (deleteConsumptionsBefore user cutoff).
Proof. intros now d a d'. unfold deleteConsumptionsBefore. intros; by simplify_eq. Qed.
End catalogue.

#[export] Hint Resolve upsertUser_catalogue upsertQR_catalogue insertCollection_catalogue
  insertCollectionItems_catalogue deleteCollectionItem_catalogue deleteCollection_catalogue
  insertDevice_catalogue updateDeviceToken_catalogue insertConsumption_catalogue
  deleteConsumptionsBefore_catalogue : go_preserves.

(** ** The shelves: collections and their records *)
Definition shelves (d : Database) := (collections d, collection_qr_items d).

Section shelves.
Context `{Env}.

Lemma upsertUser_shelves id apple_id : stmt_keeps shelves (upsertUser id apple_id).
Proof. intros now d r d'. unfold upsertUser. destruct (find_row _ _) as [[i row]|]; [by intros; simplify_eq|].
  destruct (users d !! id); intros; by simplify_eq. Qed.

Lemma upsertQR_shelves id tea temp expiration : stmt_keeps shelves (upsertQR id tea temp expiration).
Proof. intros now d r d'. unfold upsertQR. repeat case_match; intros; by simplify_eq. Qed.

Lemma insertDevice_shelves id user token : stmt_keeps shelves (insertDevice id user token).
Proof. intros now d r d'. unfold insertDevice. repeat case_match; intros; by simplify_eq. Qed.

Lemma updateDeviceToken_shelves id token : stmt_keeps shelves (updateDeviceToken id token).
Proof. intros now d r d'. unfold updateDeviceToken. repeat case_match; intros; by simplify_eq. Qed.

Lemma insertConsumption_shelves user ts tea : stmt_keeps shelves (insertConsumption user ts tea).
Proof. intros now d r d'. unfold insertConsumption. repeat case_match; intros; by simplify_eq. Qed.

Lemma deleteConsumptionsBefore_shelves user cutoff : stmt_keeps shelves (deleteConsumptionsBefore user cutoff).
Proof. intros now d r d'. unfold deleteConsumptionsBefore. repeat case_match; intros; by simplify_eq. Qed.
End shelves.

#[export] Hint Resolve upsertUser_shelves upsertQR_shelves insertDevice_shelves updateDeviceToken_shelves
  insertConsumption_shelves deleteConsumptionsBefore_shelves : go_preserves.

(** ** Calls *)
Section calls.
Context `{Env}.

Lemma collection_reads_keep user id :
  keeps_db (CollectionManager.List_ user) ∧ keeps_db (CollectionManager.ListRecords id user).
Proof.
  split; intros x; unfold CollectionManager.List_, CollectionManager.ListRecords; simpl; walk.
Qed.
End calls.
