(* ===== verification/AuthLib.v ===== *)
(** What authentication takes from third-party code: signed tokens
    (github.com/golang-jwt/jwt), keys (crypto/x509, encoding/pem), UUID parsing
    and Sign in with Apple (github.com/Timothylock/go-signin-with-apple).

    The functions are parameters, in the class [AuthLib]; the documented
    behaviour the theorems rely on is the class [AuthLibLaws]. A concrete
    library that satisfies the laws closes the file. *)

From Stdlib Require Import Ascii.
From stdpp Require Import base gmap list strings countable.
From Stdlib Require Import ZArith Lia.
From S2P Require Import Prelude GoTime Common Env.

(** A value of a decoded JSON object, as Go's [interface\{\}] holds it: a number
    is a [float64], kept as its bits; anything else by its text. *)
Inductive JValue : Type :=
  | JString (s : string)
  | JBool (b : bool)
  | JNumber (bits : Z)
  | JOther (text : string).

#[export] Instance JValue_eq_dec : EqDecision JValue.
Proof. solve_decision. Defined.

(** [jwt.MapClaims] and a token's header are Go maps. *)
Definition MapClaims : Type := gmap string JValue.

Inductive SigningMethod : Type :=
  | SigningMethodECDSA (name : string)
  | SigningMethodOther (name : string).

Definition Alg (m : SigningMethod) : string :=
  match m with SigningMethodECDSA name | SigningMethodOther name => name end.

(** [jwt.SigningMethodES256] *)
Definition SigningMethodES256 : SigningMethod := SigningMethodECDSA "ES256".

(** [jwt.Token]; [tok_Claims] is [None] for claims that are not [MapClaims]. *)
Record Token : Type := mkToken {
  tok_Method : SigningMethod;
  tok_Header : gmap string JValue;
  tok_Claims : option MapClaims;
  tok_Valid : bool }.

(** The token a key function sees: parsed and not yet verified. *)
Definition unverified (t : Token) : Token :=
  mkToken (tok_Method t) (tok_Header t) (tok_Claims t) false.

(** The options of [jwt.Parse] the program sets. *)
Record ParserOptions : Type := mkParserOptions {
  po_ValidMethods : option (list string);
  po_Issuer : option string;
  po_Audience : option string;
  po_Leeway : Duration }.

Definition noOptions : ParserOptions := mkParserOptions None None None 0%Z.

(** The fields of [jwt.RegisteredClaims] the program sets. *)
Record RegisteredClaims : Type := mkRegisteredClaims {
  rc_Issuer : string;
  rc_ExpiresAt : Time;
  rc_ID : string }.

Record AppValidationTokenRequest : Type := mkAppValidationTokenRequest {
  avr_ClientID : string;
  avr_ClientSecret : string;
  avr_Code : string }.

Record ValidationResponse : Type := mkValidationResponse {
  vr_Error : string;
  vr_ErrorDescription : string;
  vr_IDToken : string }.

(** A key as [any]: what [x509] parses and [jwt] takes. *)
Inductive Key (private public : Type) : Type :=
  | KPrivate (k : private)
  | KPublic (k : public)
  | KOther (name : string).
Arguments KPrivate {private public} k.
Arguments KPublic {private public} k.
Arguments KOther {private public} name.

Class AuthLib : Type := {
  (** [ecdsa.PrivateKey], [ecdsa.PublicKey] and the public half of a private key *)
  ecdsaPrivate : Type;
  ecdsaPublic : Type;
  PublicKey : ecdsaPrivate → ecdsaPublic;
  (** [pem.Decode]: the bytes of the first block *)
  pem_Decode : string → option string;
  ParsePKCS8PrivateKey : string → GoError + Key ecdsaPrivate ecdsaPublic;
  ParsePKIXPublicKey : string → GoError + Key ecdsaPrivate ecdsaPublic;
  (** [os.ReadFile] *)
  ReadFile : string → nat → GoError + string;
  (** [fmt.Sprint] of a header value *)
  Sprint : option JValue → string;
  (** [jwt.Parse], given the time it reads from the clock *)
  jwt_Parse : string → (Token → GoError + Key ecdsaPrivate ecdsaPublic) → ParserOptions → Time →
              GoError + Token;
  (** the signature part of a token verifies under a key *)
  jwt_verifies : string → SigningMethod → Key ecdsaPrivate ecdsaPublic → bool;
  GetExpirationTime : MapClaims → GoError + option Time;
  GetIssuedAt : MapClaims → GoError + option Time;
  GetIssuer : MapClaims → GoError + string;
  GetAudience : MapClaims → GoError + list string;
  jwt_NewNumericDate : Time → Time;
  (** [jwt.NewWithClaims(method, claims).SignedString(key)]; signing draws
      randomness *)
  jwt_SignedString : SigningMethod → RegisteredClaims → Key ecdsaPrivate ecdsaPublic → nat →
                     GoError + string;
  uuid_Parse : string → GoError + UUID;
  (** Sign in with Apple *)
  apple_GenerateClientSecret : string → string → string → string → nat → GoError + string;
  apple_VerifyAppToken : AppValidationTokenRequest → nat → GoError + ValidationResponse;
  apple_GetClaims : string → GoError + unit;
  apple_GetUniqueID : string → GoError + string }.

Abbreviation AnyKey := (Key ecdsaPrivate ecdsaPublic).
Abbreviation Keyfunc := (Token → GoError + Key ecdsaPrivate ecdsaPublic).

Class AuthLibLaws `{Env, AuthLib} : Type := {
  (** A token that parses is valid, has map claims, is signed with the key the
      key function chose for it, and meets the options. *)
  jwt_Parse_sound : ∀ s (kf : Keyfunc) opts now tok, jwt_Parse s kf opts now = inr tok ->
    tok_Valid tok = true ∧
    ∃ mc key exp, tok_Claims tok = Some mc ∧ kf (unverified tok) = inr key ∧
      jwt_verifies s (tok_Method tok) key = true ∧
      (∀ ms, po_ValidMethods opts = Some ms -> Alg (tok_Method tok) ∈ ms) ∧
      (∀ iss, po_Issuer opts = Some iss -> GetIssuer mc = inr iss) ∧
      (∀ aud, po_Audience opts = Some aud -> ∃ l, GetAudience mc = inr l ∧ aud ∈ l) ∧
      GetExpirationTime mc = inr exp ∧ (∀ t, exp = Some t -> (now < t + po_Leeway opts)%Z);
  (** ES256 signs with an ECDSA private key only. The result parses back under
      its public half until it expires. *)
  jwt_sign_key : ∀ rc key n s,
    jwt_SignedString SigningMethodES256 rc key n = inr s -> ∃ k, key = KPrivate k;
  jwt_sign_parse : ∀ rc k n s (kf : Keyfunc) now,
    jwt_SignedString SigningMethodES256 rc (KPrivate k) n = inr s ->
    (∀ tok, tok_Method tok = SigningMethodES256 -> kf tok = inr (KPublic (PublicKey k))) ->
    if (now <? rc_ExpiresAt rc)%Z
    then ∃ tok mc, jwt_Parse s kf noOptions now = inr tok ∧ tok_Valid tok = true ∧
           tok_Claims tok = Some mc ∧ GetIssuer mc = inr (rc_Issuer rc) ∧
           GetExpirationTime mc = inr (Some (rc_ExpiresAt rc))
    else ∃ e, jwt_Parse s kf noOptions now = inl e;
  (** Dates are cut to the second. *)
  jwt_NewNumericDate_cut : ∀ t, (jwt_NewNumericDate t <= t < jwt_NewNumericDate t + Second)%Z;
  uuid_Parse_String : ∀ u, uuid_valid u -> uuid_Parse (uuid_String u) = inr u }.

(** ** A concrete library

    A token is a payload in the open: its algorithm, key id, claims and the key
    it was signed with, as bits. A key pair is a number; every PEM file holds
    key 7. Apple knows the code ["apple-code"]. *)
Definition jvalue_parts (v : JValue) : string + (bool + (Z + string)) :=
  match v with
  | JString s => inl s
  | JBool b => inr (inl b)
  | JNumber z => inr (inr (inl z))
  | JOther t => inr (inr (inr t))
  end.

Definition jvalue_of_parts (p : string + (bool + (Z + string))) : JValue :=
  match p with
  | inl s => JString s
  | inr (inl b) => JBool b
  | inr (inr (inl z)) => JNumber z
  | inr (inr (inr t)) => JOther t
  end.

#[export] Instance JValue_countable : Countable JValue.
Proof. refine (inj_countable' jvalue_parts jvalue_of_parts _). by intros []. Defined.

(** algorithm, key id, claims, signing key *)
Abbreviation Payload := (string * option string * list (string * JValue) * N)%type.

Definition payload_token (p : Payload) : string := pos_bits (encode p).
Definition token_payload (s : string) : option Payload :=
  match bits_pos s with Some p => decode p | None => None end.

Lemma token_payload_token p : token_payload (payload_token p) = Some p.
Proof. unfold token_payload, payload_token. by rewrite bits_pos_bits, decode_encode. Qed.

Definition example_method (alg : string) : SigningMethod :=
  if String.prefix "ES" alg then SigningMethodECDSA alg else SigningMethodOther alg.

Definition example_date (mc : MapClaims) (claim : string) : GoError + option Time :=
  match mc !! claim with
  | None => inr None
  | Some (JNumber z) => inr (Some z)
  | Some _ => inl (EForeign (claim +:+ " is invalid"))
  end.

Definition example_text (mc : MapClaims) (claim : string) : GoError + string :=
  match mc !! claim with
  | None => inr ""
  | Some (JString s) => inr s
  | Some _ => inl (EForeign (claim +:+ " is invalid"))
  end.

Definition example_token (p : Payload) (valid : bool) : Token :=
  let '(alg, kid, claims, _) := p in
  mkToken (example_method alg)
    (match kid with Some k => {["alg" := JString alg; "kid" := JString k]} | None => {["alg" := JString alg]} end)
    (Some (list_to_map claims)) valid.

Definition example_claims_ok (mc : MapClaims) (opts : ParserOptions) (now : Time) : bool :=
  match po_Issuer opts with
  | Some iss => bool_decide (example_text mc "iss" = inr iss)
  | None => true
  end &&
  match po_Audience opts with
  | Some aud => bool_decide (example_text mc "aud" = inr aud)
  | None => true
  end &&
  match example_date mc "exp" with
  | inr (Some t) => (now <? t + po_Leeway opts)%Z
  | inr None => true
  | inl _ => false
  end.

Definition example_method_ok (m : SigningMethod) (opts : ParserOptions) : bool :=
  match po_ValidMethods opts with
  | Some ms => bool_decide (Alg m ∈ ms)
  | None => true
  end.

Definition example_Parse (s : string) (kf : Token → GoError + Key N N) (opts : ParserOptions)
    (now : Time) : GoError + Token :=
  match token_payload s with
  | None => inl (EForeign "token is malformed")
  | Some ((_, claims, signer) as p) =>
      let tok := example_token p false in
      if negb (example_method_ok (tok_Method tok) opts) then inl (EForeign "signing method is invalid")
      else match kf tok with
      | inl e => inl (EWrap "token is unverifiable" e)
      | inr (KPublic k) =>
          if negb (bool_decide (k = signer)) then inl (EForeign "signature is invalid")
          else if example_claims_ok (list_to_map claims) opts now then inr (example_token p true)
          else inl (EForeign "token has invalid claims")
      | inr _ => inl (EForeign "key is of invalid type")
      end
  end.

Definition example_verifies (s : string) (m : SigningMethod) (key : Key N N) : bool :=
  match token_payload s, key with
  | Some (_, _, signer), KPublic k => bool_decide (k = signer)
  | _, _ => false
  end.

Definition example_claims (rc : RegisteredClaims) : list (string * JValue) :=
  [("iss", JString (rc_Issuer rc)); ("exp", JNumber (rc_ExpiresAt rc)); ("jti", JString (rc_ID rc))].

Definition example_Sign (m : SigningMethod) (rc : RegisteredClaims) (key : Key N N) (n : nat)
  : GoError + string :=
  match m, key with
  | SigningMethodECDSA alg, KPrivate k => inr (payload_token (alg, None, example_claims rc, k))
  | _, _ => inl (EForeign "key is of invalid type")
  end.

Definition exampleAuthLib : AuthLib := {|
  ecdsaPrivate := N; ecdsaPublic := N; PublicKey k := k;
  pem_Decode s := if bool_decide (s = "") then None else Some s;
  ParsePKCS8PrivateKey _ := inr (KPrivate 7%N);
  ParsePKIXPublicKey _ := inr (KPublic 7%N);
  ReadFile _ _ := inr "PEM";
  Sprint v := match v with Some (JString s) => s | _ => "" end;
  jwt_Parse := example_Parse;
  jwt_verifies := example_verifies;
  GetExpirationTime mc := example_date mc "exp";
  GetIssuedAt mc := example_date mc "iat";
  GetIssuer mc := example_text mc "iss";
  GetAudience mc := match example_text mc "aud" with inl e => inl e | inr a => inr [a] end;
  jwt_NewNumericDate t := (t / Second * Second)%Z;
  jwt_SignedString := example_Sign;
  uuid_Parse s := match bits_pos s with Some p => inr (Pos.pred_N p) | None => inl (EForeign "invalid UUID") end;
  apple_GenerateClientSecret _ _ _ _ _ := inr "client-secret";
  apple_VerifyAppToken req _ :=
    if bool_decide (avr_Code req = "apple-code") then inr (mkValidationResponse "" "" "apple-alice")
    else inr (mkValidationResponse "invalid_grant" "unknown code" "");
  apple_GetClaims _ := inr tt;
  apple_GetUniqueID s := inr s |}.

Lemma example_Parse_inv s kf opts now tok :
  example_Parse s kf opts now = inr tok ->
  ∃ alg kid claims signer, let p := (alg, kid, claims, signer) in
    token_payload s = Some p ∧ tok = example_token p true ∧
    example_method_ok (tok_Method tok) opts = true ∧
    kf (unverified tok) = inr (KPublic signer) ∧
    example_claims_ok (list_to_map claims) opts now = true.
Proof.
  unfold example_Parse.
  destruct (token_payload s) as [[[[alg kid] claims] signer]|]; [|done].
  intros Hp. exists alg, kid, claims, signer. simpl in *.
  destruct (example_method_ok _ _) eqn:Em; simpl in Hp; [|done].
  destruct (kf _) as [e|[k|k|]] eqn:Ek; simpl in Hp; [done..| |done].
  case_bool_decide; simpl in Hp; [|done]. subst k.
  destruct (example_claims_ok _ _ _) eqn:Ec; [|done]. by simplify_eq/=.
Qed.

Lemma example_claims_ok_spec mc opts now :
  example_claims_ok mc opts now = true ->
  (∀ iss, po_Issuer opts = Some iss -> example_text mc "iss" = inr iss) ∧
  (∀ aud, po_Audience opts = Some aud -> example_text mc "aud" = inr aud) ∧
  ∃ exp, example_date mc "exp" = inr exp ∧ (∀ t, exp = Some t -> (now < t + po_Leeway opts)%Z).
Proof.
  unfold example_claims_ok. rewrite !andb_true_iff. intros [[Hi Ha] He]. split_and!.
  - intros iss Eq. rewrite Eq in Hi. by case_bool_decide.
  - intros aud Eq. rewrite Eq in Ha. by case_bool_decide.
  - destruct (example_date mc "exp") as [|exp]; [done|]. exists exp. split; [done|].
    intros t ->. lia.
Qed.

Lemma example_claims_date rc :
  example_date (list_to_map (example_claims rc)) "exp" = inr (Some (rc_ExpiresAt rc)).
Proof. reflexivity. Qed.

Lemma example_claims_issuer rc :
  example_text (list_to_map (example_claims rc)) "iss" = inr (rc_Issuer rc).
Proof. reflexivity. Qed.

Lemma example_Parse_signed rc k n s kf now :
  example_Sign SigningMethodES256 rc (KPrivate k) n = inr s ->
  (∀ tok, tok_Method tok = SigningMethodES256 -> kf tok = inr (KPublic k)) ->
  let claims := example_claims rc in
  example_Parse s kf noOptions now =
  if (now <? rc_ExpiresAt rc)%Z then inr (example_token ("ES256", None, claims, k) true)
  else inl (EForeign "token has invalid claims").
Proof.
  simpl. intros [= <-] Hkf. unfold example_Parse. rewrite token_payload_token. simpl.
  rewrite Hkf by done. simpl. rewrite bool_decide_true by done. simpl.
  unfold example_claims_ok. simpl. change (<["iss":=_]> _) with (list_to_map (M := MapClaims) (example_claims rc)).
  rewrite example_claims_date. simpl. by rewrite Z.add_0_r.
Qed.

#[export] Instance exampleAuthLibLaws : @AuthLibLaws exampleEnv exampleAuthLib.
Proof.
  split; simpl.
  - intros s kf opts now tok (alg & kid & claims & signer & Es & -> & Em & Ek & Ec)%example_Parse_inv.
    split; [done|].
    apply example_claims_ok_spec in Ec as (Hi & Ha & exp & He & Hnow).
    eexists _, _, exp. split_and!; [done|exact Ek|..]; try done.
    + unfold example_verifies. rewrite Es. by apply bool_decide_true.
    + intros ms Hms. unfold example_method_ok in Em. rewrite Hms in Em. by case_bool_decide.
    + intros aud Haud. rewrite (Ha aud Haud). eexists. split; [done|]. set_solver.
  - intros rc [k|k|] n s; naive_solver.
  - intros rc k n s kf now Hs Hkf. rewrite (example_Parse_signed rc k n s kf now Hs Hkf).
    destruct (_ <? _)%Z; [|by eexists]. eexists _, (list_to_map (example_claims rc)).
    split_and!; [done..|apply example_claims_issuer|apply example_claims_date].
  - intros t. pose proof (Z.mul_div_le t Second). pose proof (Z.mul_succ_div_gt t Second).
    unfold Second, Nanosecond in *. lia.
  - intros u _. rewrite bits_pos_bits. by rewrite N.pos_pred_succ.
Qed.
