(* ===== verification/Auth.v ===== *)
(** Authentication: package [auth] (src/internal/auth). User tokens are issued
    after Sign in with Apple and signed with the server's own key; admin tokens
    are signed by the editor and verified with a public key loaded at start. *)

From Stdlib Require Import Ascii.
From stdpp Require Import base gmap list strings.
From Stdlib Require Import ZArith Lia.
From S2P Require Import Prelude GoTime Common TodCache Env Schema Sql World PgAdapter AuthLib Example.
From S2P Require Import StorageTheorems.

(** [strings.Replace(s, old, "", 1)] for a non-empty [old]. *)
Fixpoint remove_first (old s : string) : string :=
  match s with
  | EmptyString => EmptyString
  | String c s' =>
      if String.prefix old s then String.substring (String.length old) (String.length s - String.length old) s
      else String c (remove_first old s')
  end.

(** ** Constants *)
Definition JwtDurationHour : Z := 24.
Definition bearerPrefix : string := "Bearer ".
Definition AdminClaimKey : string := "admin".
Definition AdminIssuer : string := "TeaElephantEditor".
Definition AdminAudience : string := "tea-elephant-api".
Definition ClockSkewSeconds : Z := 300.
Definition signingMethod : SigningMethod := SigningMethodES256.

(** ** Data *)
Record AdminPrincipal : Type := mkAdminPrincipal {
  ap_JTI : string;
  ap_IssuedAt : Time;
  ap_ExpiresAt : Time }.

Record Configuration : Type := mkConfiguration {
  cfg_SecretPath : string;
  cfg_Secret : string;
  cfg_TeamID : string;
  cfg_ClientID : string;
  cfg_KeyID : string;
  cfg_AdminPublicKeyPath : string }.

(** The two values the program stores in a request's context. *)
Record Ctx : Type := mkCtx {
  ctx_user : option User;
  ctx_admin : option AdminPrincipal }.

Definition Background : Ctx := mkCtx None None.
Definition with_user (u : User) (ctx : Ctx) : Ctx := mkCtx (Some u) (ctx_admin ctx).
Definition with_admin (p : AdminPrincipal) (ctx : Ctx) : Ctx := mkCtx (ctx_user ctx) (Some p).

#[export] Instance AdminPrincipal_eq_dec : EqDecision AdminPrincipal.
Proof. solve_decision. Defined.

#[export] Instance Ctx_eq_dec : EqDecision Ctx.
Proof. solve_decision. Defined.

Section auth.
Context `{Env, AuthLib}.

(** The state of the service; the map of admin keys is nil until it is made, and
    holds pointers. The Apple client is the library's. *)
Record auth : Type := mkAuth {
  au_cfg : Configuration;
  au_secret : string;
  au_adminKeys : option (gmap string (option ecdsaPublic)) }.

Definition NewAuth (cfg : Configuration) : auth := mkAuth cfg "" None.
Definition put_secret (secret : string) (a : auth) : auth := mkAuth (au_cfg a) secret (au_adminKeys a).
Definition put_adminKeys (keys : gmap string (option ecdsaPublic)) (a : auth) : auth :=
  mkAuth (au_cfg a) (au_secret a) (Some keys).

(** ** User tokens *)
Definition getSecret (a : auth) : GoError + AnyKey :=
  match pem_Decode (cfg_Secret (au_cfg a)) with
  | None => inl (ESentinel ErrEmptyBlockDecode)
  | Some bytes =>
      match ParsePKCS8PrivateKey bytes with
      | inl err => inl (EWrap "parse pkcs8 private key" err)
      | inr key => inr key
      end
  end.

Definition unexpectedSigningMethod (token : Token) : GoError :=
  EWrapSuffix (ESentinel errUnexpectedSigningMethod) (Sprint (tok_Header token !! "alg")).

Definition verificationKey (a : auth) (token : Token) : GoError + AnyKey :=
  match tok_Method token with
  | SigningMethodECDSA _ =>
      match getSecret a with
      | inl err => inl (EWrap "get secret" err)
      | inr (KPrivate privKey) => inr (KPublic (PublicKey privKey))
      | inr key => inr key
      end
  | SigningMethodOther _ => inl (unexpectedSigningMethod token)
  end.

(** [jwt.Parse] reads the clock once. *)
Definition parse_jwt (jwtToken : string) (kf : Keyfunc) (opts : ParserOptions) : M World GoError Token :=
  let! now := clock_now in of_sum (jwt_Parse jwtToken kf opts now).

(** [x.Time] for a [*jwt.NumericDate], which is nil when the claim is absent. *)
Definition deref_date {S} (date : option Time) : M S GoError Time :=
  match date with Some t => ret t | None => panic end.

Definition extractValidClaims (result : Token) : M World GoError (MapClaims * Time) :=
  match tok_Claims result, tok_Valid result with
  | Some claims, true =>
      let! exp := map_err (EWrap "get expiration time") (of_sum (GetExpirationTime claims)) in
      let! now := clock_now in
      let! exp := deref_date exp in
      if After now exp then throw (ESentinel ErrExpiredToken) else ret (claims, exp)
  | _, _ => throw (ESentinel ErrInvalidToken)
  end.

Definition issuerUUID (claims : MapClaims) : GoError + UUID :=
  match GetIssuer claims with
  | inl err => inl (EWrap "get issuer" err)
  | inr userIDStr =>
      match uuid_Parse userIDStr with
      | inl err => inl (EWrap "parse uuid" err)
      | inr userID => inr userID
      end
  end.

Definition Validate (a : auth) (jwtToken : string) : M World GoError User :=
  let! result := map_err (EWrap "parse jwt") (parse_jwt jwtToken (verificationKey a) noOptions) in
  let! claims_exp := extractValidClaims result in
  let! userID := of_sum (issuerUUID claims_exp.1) in
  ret (mkUser userID "" jwtToken claims_exp.2).

(** Sign in: the Apple code is exchanged for an identity, the user is looked up
    or created, and a token of the server is issued. *)
Definition Auth (a : auth) (token : string) : M World GoError Session :=
  let vReq := mkAppValidationTokenRequest (cfg_ClientID (au_cfg a)) (au_secret a) token in
  let! resp := map_err (EWrap "verify apple app token") (ask (apple_VerifyAppToken vReq)) in
  do! (if bool_decide (vr_Error resp ≠ "")
       then throw (EWrapSuffix (ESentinel ErrAppleAuth) (vr_ErrorDescription resp)) else ret tt) in
  do! map_err (EWrap "get claims") (of_sum (apple_GetClaims (vr_IDToken resp))) in
  let! unique := map_err (EWrap "get unique id") (of_sum (apple_GetUniqueID (vr_IDToken resp))) in
  let! user := map_err (EWrap "get or create user") (GetOrCreateUser unique) in
  let! now := clock_now in
  let exp := Add now (Hour * JwtDurationHour)%Z in
  let! jti := new_uuid in
  let newClaims := mkRegisteredClaims (uuid_String user) (jwt_NewNumericDate exp) (uuid_String jti) in
  let! privKey := map_err (EWrap "get secret") (of_sum (getSecret a)) in
  let! signedJWT := map_err (EWrap "sign jwt") (ask (jwt_SignedString signingMethod newClaims privKey)) in
  ret (mkSession signedJWT (mkUser user unique "" 0%Z) exp).

(** ** Admin keys *)
Definition loadPublicKeyFromFile (path : string) : M World GoError ecdsaPublic :=
  let! b := map_err (EWrap "read admin public key") (ask (ReadFile path)) in
  match pem_Decode b with
  | None => throw (ESentinel ErrEmptyBlockDecode)
  | Some bytes =>
      let! pk := map_err (EWrap "parse admin public key") (of_sum (ParsePKIXPublicKey bytes)) in
      match pk with
      | KPublic ecdsaKey => ret ecdsaKey
      | _ => throw (ESentinel ErrAdminKeyNotECDSA)
      end
  end.

Definition on_auth {A} (m : M auth GoError A) : M (auth * World) GoError A :=
  zoom fst (λ a s, (a, s.2)) m.
Definition on_world {A} (m : M World GoError A) : M (auth * World) GoError A :=
  zoom snd (λ w s, (s.1, w)) m.

Definition loadAdminKeys : M (auth * World) GoError unit :=
  do! on_auth (modify (λ a, match au_adminKeys a with None => put_adminKeys ∅ a | Some _ => a end)) in
  let! a := on_auth get in
  let! key := on_world (loadPublicKeyFromFile (cfg_AdminPublicKeyPath (au_cfg a))) in
  on_auth (modify (λ a, put_adminKeys (<["" := Some key]> (default ∅ (au_adminKeys a))) a)).

(** When the client secret cannot be generated the error is all that matters:
    the process does not start. *)
Definition Start : M (auth * World) GoError unit :=
  let! a := on_auth get in
  let cfg := au_cfg a in
  let! secret := on_world (map_err (EWrap "generate apple client secret")
    (ask (apple_GenerateClientSecret (cfg_Secret cfg) (cfg_TeamID cfg) (cfg_ClientID cfg) (cfg_KeyID cfg)))) in
  do! on_auth (modify (put_secret secret)) in
  map_err (EWrap "load admin keys") loadAdminKeys.

(** The two lookups under the read lock: the key and whether one was found. *)
Definition lookupAdminKey (a : auth) (kid : string) : option ecdsaPublic * bool :=
  let keys := default ∅ (au_adminKeys a) in
  match keys !! kid with
  | Some key => (key, true)
  | None => match keys !! "" with Some key => (key, true) | None => (None, false) end
  end.

Definition headerKid (token : Token) : string :=
  match tok_Header token !! "kid" with Some (JString kid) => kid | _ => "" end.

Definition adminVerificationKey (a : auth) (token : Token) : GoError + AnyKey :=
  if negb (String.eqb (Alg (tok_Method token)) (Alg signingMethod))
  then inl (unexpectedSigningMethod token)
  else match lookupAdminKey a (headerKid token) with
       | (Some key, true) => inr (KPublic key)
       | _ => inl (ESentinel ErrAdminVerificationKeyAbsent)
       end.

Definition adminParserOptions : ParserOptions :=
  mkParserOptions (Some [Alg signingMethod]) (Some AdminIssuer) (Some AdminAudience)
    (ClockSkewSeconds * Second)%Z.

Definition ValidateAdmin (a : auth) (jwtToken : string) : M World GoError AdminPrincipal :=
  let! parsed := map_err (EWrap "parse admin jwt")
    (parse_jwt jwtToken (adminVerificationKey a) adminParserOptions) in
  match tok_Claims parsed, tok_Valid parsed with
  | Some claims, true =>
      let isAdmin := match claims !! AdminClaimKey with Some (JBool b) => b | _ => false end in
      if negb isAdmin then throw (ESentinel ErrNotAdmin)
      else
        let jti := match claims !! "jti" with Some (JString v) => v | _ => "" end in
        let! issuedAt := map_err (EWrap "missing iat") (of_sum (GetIssuedAt claims)) in
        let! exp := map_err (EWrap "missing exp") (of_sum (GetExpirationTime claims)) in
        let! issuedAt := deref_date issuedAt in
        let! exp := deref_date exp in
        ret (mkAdminPrincipal jti issuedAt exp)
  | _, _ => throw (ESentinel ErrInvalidToken)
  end.

(** ** Requests *)

(** The websocket handshake: the context of the connection, or a refusal. *)
Definition WsInitFunc (a : auth) (ctx : Ctx) (authHeader : string) : M World GoError Ctx :=
  if bool_decide (authHeader = "") then ret ctx
  else
    let token := remove_first bearerPrefix authHeader in
    let! user := try (Validate a token) in
    match user with
    | inr user => ret (with_user user ctx)
    | inl _ =>
        let! principal := try (ValidateAdmin a token) in
        match principal with
        | inr principal => ret (with_admin principal ctx)
        | inl _ => throw (ESentinel ErrJwtIncorrect)
        end
    end.

(** The error added to a response whose token is neither kind. *)
Definition jwtIncorrect : GoError :=
  EGql (Sentinel_Error ErrJwtIncorrect) (Some (CodeName "UNAUTHENTICATED")).

(** The middleware around an operation [next]. [headers] is the Authorization
    header of the operation, [None] without an operation context. The result is
    what [next] returns and the errors added to the response before it ran. *)
Definition InterceptResponse {R} (a : auth) (headers : option string) (ctx : Ctx)
    (next : Ctx → M World GoError R) : M World GoError (R * list GoError) :=
  let run ctx errs := let! r := next ctx in ret (r, errs) in
  match headers with
  | None => run ctx []
  | Some header =>
      if bool_decide (header = "") then run ctx []
      else
        let token := remove_first bearerPrefix header in
        let! user := try (Validate a token) in
        match user with
        | inr user => run (with_user user ctx) []
        | inl _ =>
            let! principal := try (ValidateAdmin a token) in
            match principal with
            | inr principal => run (with_admin principal ctx) []
            | inl _ => run ctx [jwtIncorrect]
            end
        end
  end.

Definition GetUser (ctx : Ctx) : GoError + User :=
  match ctx_user ctx with Some user => inr user | None => inl (ESentinel ErrUserNotFound) end.

Definition AdminPrincipalFrom (ctx : Ctx) : option AdminPrincipal * bool :=
  (ctx_admin ctx, bool_decide (is_Some (ctx_admin ctx))).

Definition RequireAdmin (ctx : Ctx) : GoError + unit :=
  if (AdminPrincipalFrom ctx).2 then inr tt else inl (ESentinel ErrUnauthorized).
End auth.

(** ** Lemmas *)
Section lemmas.
Context `{Env, AuthLib}.

(** A token the service accepts as an admin's at [now], signed for [key]. *)
Definition admin_token (key : ecdsaPublic) (jwtToken : string) (now : Time) (tok : Token)
    (mc : MapClaims) : Prop :=
  tok_Claims tok = Some mc ∧
  jwt_verifies jwtToken (tok_Method tok) (KPublic key) = true ∧
  Alg (tok_Method tok) = "ES256" ∧
  GetIssuer mc = inr AdminIssuer ∧
  (∃ l, GetAudience mc = inr l ∧ AdminAudience ∈ l) ∧
  mc !! AdminClaimKey = Some (JBool true) ∧
  (∀ t, GetExpirationTime mc = inr (Some t) -> now < t + ClockSkewSeconds * Second)%Z.

(** A token of user [u] that the service with key [secret] accepts at [now]. *)
Definition user_token (secret : AnyKey) (jwtToken : string) (now : Time) (u : User) : Prop :=
  ∃ tok mc iss key, tok_Claims tok = Some mc ∧
    key = match secret with KPrivate k => KPublic (PublicKey k) | _ => secret end ∧
    jwt_verifies jwtToken (tok_Method tok) key = true ∧
    (∃ alg, tok_Method tok = SigningMethodECDSA alg) ∧
    GetIssuer mc = inr iss ∧ uuid_Parse iss = inr (usr_ID u) ∧
    GetExpirationTime mc = inr (Some (usr_ExpiredAt u)) ∧ (now < usr_ExpiredAt u)%Z ∧
    usr_JWT u = jwtToken.

(** What a request that runs in [w] proves by showing a token; the clock moves
    while the token is tried as a user's before it is tried as an admin's. *)
Definition shows_admin (key : ecdsaPublic) (jwtToken : string) (w : World) : Prop :=
  ∃ tick tok mc, w_tick w < tick <= w_tick w + 2 ∧ admin_token key jwtToken (time_Now tick) tok mc.

Definition shows_user (a : auth) (jwtToken : string) (w : World) (u : User) : Prop :=
  ∃ secret, getSecret a = inr secret ∧ user_token secret jwtToken (time_Now (w_tick w)) u.

Lemma parse_jwt_run s kf opts w :
  parse_jwt s kf opts w =
  (match jwt_Parse s kf opts (time_Now (w_tick w)) with inl e => Err e | inr tok => Ok tok end, advance w).
Proof. unfold parse_jwt, bind, clock_now, of_sum. by destruct (jwt_Parse _ _ _ _). Qed.

(** [lookupAdminKey] ignores the token's [kid] once only the default is loaded. *)
Lemma lookupAdminKey_default a key kid :
  au_adminKeys a = Some {["" := Some key]} -> lookupAdminKey a kid = (Some key, true).
Proof.
  intros Ha. unfold lookupAdminKey. rewrite Ha. simpl.
  destruct (decide (kid = "")) as [->|Hne]; [by rewrite lookup_singleton|].
  rewrite lookup_singleton_ne by done. by rewrite lookup_singleton.
Qed.

Lemma Start_inv cfg w a w' :
  Start (NewAuth cfg, w) = (Ok tt, (a, w')) ->
  ∃ pem bytes key, au_cfg a = cfg ∧
    ReadFile (cfg_AdminPublicKeyPath cfg) (S (w_tick w)) = inr pem ∧
    pem_Decode pem = Some bytes ∧ ParsePKIXPublicKey bytes = inr (KPublic key) ∧
    au_adminKeys a = Some {["" := Some key]} ∧ w' = advance (advance w).
Proof.
  unfold Start, loadAdminKeys, on_auth, on_world, zoom, bind, map_err, modify, ask, get. simpl.
  destruct (apple_GenerateClientSecret _ _ _ _ _) as [e|secret]; [done|].
  unfold loadPublicKeyFromFile, bind, map_err, ask. simpl.
  destruct (ReadFile _ _) as [e|pem] eqn:Ef; [done|].
  destruct (pem_Decode pem) as [bytes|] eqn:Ed; [|done].
  destruct (ParsePKIXPublicKey bytes) as [e|[k|k|]] eqn:Ep; simpl; intros; simplify_eq/=.
  eauto 10.
Qed.

(** Authentication asks the clock and changes nothing. *)
Lemma ValidateAdmin_run a s w : (ValidateAdmin a s w).2 = advance w.
Proof.
  unfold ValidateAdmin, bind, map_err. rewrite parse_jwt_run.
  destruct (jwt_Parse _ _ _ _) as [e|tok]; [done|].
  destruct (tok_Claims tok) as [mc|]; [|done]. destruct (tok_Valid tok); [|done].
  destruct (negb _); [done|]. unfold of_sum.
  destruct (GetIssuedAt mc) as [e|[iat|]]; try reflexivity;
    destruct (GetExpirationTime mc) as [e|[exp|]]; reflexivity.
Qed.

Lemma Validate_ticks a s w : (Validate a s w).2 = advance w ∨ (Validate a s w).2 = advance (advance w).
Proof.
  unfold Validate, bind, map_err. rewrite parse_jwt_run.
  destruct (jwt_Parse _ _ _ _) as [e|tok]; [by left|].
  unfold extractValidClaims, bind, map_err, of_sum, clock_now.
  destruct (tok_Claims tok) as [mc|]; [|by left]. destruct (tok_Valid tok); [|by left].
  destruct (GetExpirationTime mc) as [e|[exp|]]; [by left| |by right]. right. simpl.
  destruct (After _ _); [reflexivity|]. simpl. destruct (issuerUUID mc); reflexivity.
Qed.
Lemma Validate_returns a s w : (Validate a s w).1 ≠ Blocked.
Proof.
  unfold Validate, bind, map_err. rewrite parse_jwt_run.
  destruct (jwt_Parse _ _ _ _) as [e|tok]; [done|].
  unfold extractValidClaims, bind, map_err, of_sum, clock_now.
  destruct (tok_Claims tok) as [mc|]; [|done]. destruct (tok_Valid tok); [|done].
  destruct (GetExpirationTime mc) as [e|[exp|]]; [done| |done]. simpl.
  destruct (After _ _); [done|]. simpl. by destruct (issuerUUID mc).
Qed.
End lemmas.

Section sound.
Context `{AuthLibLaws}.

Lemma adminVerificationKey_inv a tok key :
  adminVerificationKey a tok = inr key ->
  ∃ k, key = KPublic k ∧ lookupAdminKey a (headerKid tok) = (Some k, true) ∧
       Alg (tok_Method tok) = "ES256".
Proof.
  unfold adminVerificationKey. destruct (String.eqb _ _) eqn:Ea; simpl; [|done].
  apply String.eqb_eq in Ea.
  destruct (lookupAdminKey _ _) as [[k|] []] eqn:El; intros; simplify_eq; eauto.
Qed.

(** What [jwt.Parse] with the admin options and keys guarantees. *)
Lemma admin_parse_sound a s now tok :
  jwt_Parse s (adminVerificationKey a) adminParserOptions now = inr tok ->
  tok_Valid tok = true ∧
  ∃ mc key, tok_Claims tok = Some mc ∧ lookupAdminKey a (headerKid tok) = (Some key, true) ∧
    (mc !! AdminClaimKey = Some (JBool true) -> admin_token key s now tok mc).
Proof.
  intros (Hv & mc & key & exp & Hc & Hk & Hs & Hm & Hi & Ha & He & Hnow)%jwt_Parse_sound.
  split; [done|].
  apply adminVerificationKey_inv in Hk as (k & -> & Hk & Halg).
  exists mc, k. split_and!; [done..|]. intros Hadmin.
  unfold admin_token. split_and!; [done..|by apply Hi|by apply Ha|done|].
  intros t Ht. apply Hnow. congruence.
Qed.

Lemma ValidateAdmin_cases a s w r w' :
  ValidateAdmin a s w = (r, w') ->
  match jwt_Parse s (adminVerificationKey a) adminParserOptions (time_Now (w_tick w)) with
  | inl e => r = Err (EWrap "parse admin jwt" e)
  | inr tok => ∃ mc, tok_Claims tok = Some mc ∧ tok_Valid tok = true ∧
      if decide (mc !! AdminClaimKey = Some (JBool true))
      then match GetIssuedAt mc, GetExpirationTime mc with
           | inr (Some iat), inr (Some exp) =>
               ∃ jti, r = Ok (mkAdminPrincipal jti iat exp)
           | inl _, _ | _, inl _ => ∃ e, r = Err e
           | _, _ => r = Panic
           end
      else r = Err (ESentinel ErrNotAdmin)
  end.
Proof.
  intros Hrun. unfold ValidateAdmin, bind, map_err in Hrun. rewrite parse_jwt_run in Hrun.
  destruct (jwt_Parse _ _ _ _) as [e|tok] eqn:Ep; [by simplify_eq|].
  destruct (admin_parse_sound _ _ _ _ Ep) as (Hv & mc & key & Hc & _).
  exists mc. split_and!; [done..|]. rewrite Hc, Hv in Hrun.
  unfold throw, panic, ret, of_sum, deref_date in Hrun.
  destruct (decide _) as [Eadm|Hne].
  - rewrite Eadm in Hrun. simpl in Hrun.
    destruct (GetIssuedAt mc) as [e|[iat|]], (GetExpirationTime mc) as [e'|[exp|]];
      simplify_eq/=; eauto.
  - by destruct (mc !! AdminClaimKey) as [[s0|[]|z|s0]|]; simplify_eq/=.
Qed.

Lemma Validate_accepts a s w u w' :
  Validate a s w = (Ok u, w') ->
  ∃ secret, getSecret a = inr secret ∧ user_token secret s (time_Now (w_tick w)) u.
Proof.
  intros Hrun. unfold Validate, bind at 1, map_err in Hrun. rewrite parse_jwt_run in Hrun.
  destruct (jwt_Parse _ _ _ _) as [e|tok] eqn:Ep; [done|].
  apply jwt_Parse_sound in Ep as (Hv & mc & key & exp & Hc & Hk & Hs & _ & _ & _ & He & Hnow).
  unfold extractValidClaims, bind, map_err, of_sum, clock_now in Hrun.
  rewrite Hc, Hv, He in Hrun. destruct exp as [exp|]; simpl in Hrun; [|done].
  destruct (After _ _); [done|]. simpl in Hrun.
  unfold issuerUUID in Hrun. destruct (GetIssuer mc) as [e|iss] eqn:Ei; [done|].
  destruct (uuid_Parse iss) as [e|uid] eqn:Eu; [done|]. unfold ret in Hrun. simplify_eq/=.
  unfold verificationKey in Hk. simpl in Hk.
  destruct (tok_Method tok) as [alg|alg] eqn:Em; [|done].
  destruct (getSecret a) as [e|secret] eqn:Es; [done|]. exists secret. split; [done|].
  exists tok, mc, iss, key. specialize (Hnow exp eq_refl). simpl in Hnow. rewrite Z.add_0_r in Hnow.
  rewrite Em. split_and!; eauto. by destruct secret; simplify_eq.
Qed.

Lemma ValidateAdmin_accepts a s w p w' :
  ValidateAdmin a s w = (Ok p, w') ->
  ∃ tok mc key, lookupAdminKey a (headerKid tok) = (Some key, true) ∧
    admin_token key s (time_Now (w_tick w)) tok mc ∧
    GetIssuedAt mc = inr (Some (ap_IssuedAt p)) ∧ GetExpirationTime mc = inr (Some (ap_ExpiresAt p)).
Proof.
  intros Hrun%ValidateAdmin_cases. destruct (jwt_Parse _ _ _ _) as [e|tok] eqn:Ep; [done|].
  destruct Hrun as (mc & Hc & _ & Hrun). case_decide as Hadm; [|done].
  destruct (admin_parse_sound _ _ _ _ Ep) as (_ & mc' & key & Hc' & Hk & Ht). simplify_eq.
  exists tok, mc, key. split_and!; [done|by apply Ht|..];
    destruct (GetIssuedAt mc) as [e|[iat|]], (GetExpirationTime mc) as [e'|[exp|]];
    naive_solver.
Qed.

Lemma ValidateAdmin_returns a s w r w' : ValidateAdmin a s w = (r, w') -> r ≠ Blocked.
Proof.
  intros Hrun%ValidateAdmin_cases. destruct (jwt_Parse _ _ _ _) as [e|tok]; [by subst|].
  destruct Hrun as (mc & _ & _ & Hrun). case_decide; [|by subst].
  destruct (GetIssuedAt mc) as [e|[iat|]], (GetExpirationTime mc) as [e'|[exp|]]; naive_solver.
Qed.

(** The claims of a token whose dates can be read but are not both there. *)
Definition lacks_date (mc : MapClaims) : Prop :=
  (GetIssuedAt mc = inr None ∧ ∃ exp, GetExpirationTime mc = inr exp) ∨
  (GetExpirationTime mc = inr None ∧ ∃ iat, GetIssuedAt mc = inr iat).

(** A token the library accepts under the admin options and keys, and that
    claims to be an admin's. *)
Definition accepted_admin_token (a : auth) (jwtToken : string) (now : Time) (mc : MapClaims) : Prop :=
  ∃ tok, jwt_Parse jwtToken (adminVerificationKey a) adminParserOptions now = inr tok ∧
    tok_Claims tok = Some mc ∧ mc !! AdminClaimKey = Some (JBool true).

Lemma ValidateAdmin_accepted a s w r w' mc :
  ValidateAdmin a s w = (r, w') -> accepted_admin_token a s (time_Now (w_tick w)) mc ->
  (∃ tok key, lookupAdminKey a (headerKid tok) = (Some key, true) ∧
     admin_token key s (time_Now (w_tick w)) tok mc) ∧
  (r = Panic <-> lacks_date mc) ∧
  ∀ iat exp, GetIssuedAt mc = inr (Some iat) -> GetExpirationTime mc = inr (Some exp) ->
    ∃ jti, r = Ok (mkAdminPrincipal jti iat exp).
Proof.
  intros Hrun%ValidateAdmin_cases (tok & Hp & Hc & Hadm). rewrite Hp in Hrun.
  destruct (admin_parse_sound _ _ _ _ Hp) as (_ & mc' & key & Hc' & Hk & Ht).
  destruct Hrun as (mc0 & Hc0 & _ & Hrun).
  assert (mc0 = mc) as -> by congruence. assert (mc' = mc) as -> by congruence.
  rewrite decide_True in Hrun by done.
  split; [exists tok, key; auto|]. unfold lacks_date.
  destruct (GetIssuedAt mc) as [e|[iat|]], (GetExpirationTime mc) as [e'|[exp|]];
    (split; [|naive_solver]); destruct_and?; subst;
    (split; [intros ?|intros [[? [? ?]]|[? [? ?]]]]); naive_solver.
Qed.

(** Only such a token gets that far. *)
Lemma ValidateAdmin_reached a s w r w' :
  ValidateAdmin a s w = (r, w') -> r = Panic ∨ (∃ p, r = Ok p) ->
  ∃ mc, accepted_admin_token a s (time_Now (w_tick w)) mc.
Proof.
  intros Hrun%ValidateAdmin_cases Hr. destruct (jwt_Parse _ _ _ _) as [e|tok] eqn:Hp; [naive_solver|].
  destruct Hrun as (mc & Hc & _ & Hrun). case_decide; [|naive_solver]. exists mc, tok. auto.
Qed.

(** A request with a token: the context of its operation, by the token. *)
Lemma InterceptResponse_token a header ctx w r w' :
  header ≠ "" ->
  InterceptResponse a (Some header) ctx ret w = (r, w') ->
  let token := remove_first bearerPrefix header in
  ∃ w1, w_db w1 = w_db w ∧ (w1 = advance w ∨ w1 = advance (advance w)) ∧
  match Validate a token w with
  | (Ok u, _) => r = Ok (with_user u ctx, [])
  | (Err _, _) =>
      match (ValidateAdmin a token w1).1 with
      | Ok p => r = Ok (with_admin p ctx, [])
      | Err _ => r = Ok (ctx, [jwtIncorrect])
      | Panic => r = Panic
      | Blocked => r = Blocked
      end
  | (Panic, _) => r = Panic
  | (Blocked, _) => r = Blocked
  end ∧ w_db w' = w_db w.
Proof.
  intros Hne Hrun token. unfold InterceptResponse in Hrun. rewrite bool_decide_false in Hrun by done.
  fold token in Hrun. unfold bind, try, ret in Hrun.
  pose proof (Validate_ticks a token w) as Ht.
  destruct (Validate a token w) as [rv w1] eqn:Ev. simpl in Ht. exists w1.
  assert (w_db w1 = w_db w) as Hdb by (by destruct Ht as [-> | ->]).
  split_and!; [done..| |];
    destruct rv as [u|e| |]; simplify_eq/=; try done;
    pose proof (ValidateAdmin_run a token w1) as Hr;
    destruct (ValidateAdmin a token w1) as [[p|e'| |] w2]; simplify_eq/=; done.
Qed.
Lemma of_sum_Ok_inv {S A} (r : GoError + A) (s : S) a s' :
  of_sum r s = (Ok a, s') -> r = inr a ∧ s' = s.
Proof. unfold of_sum, throw, ret. destruct r; naive_solver. Qed.

Lemma ask_Ok_inv {A} (f : nat → GoError + A) w a w' :
  ask f w = (Ok a, w') -> f (w_tick w) = inr a ∧ w' = advance w.
Proof. unfold ask. destruct (f _); naive_solver. Qed.

Lemma GetOrCreateUser_ticks unique w u w' :
  GetOrCreateUser unique w = (Ok u, w') -> w_tick w < w_tick w'.
Proof.
  unfold GetOrCreateUser. intros Hr. inv_go Hr. rewrite new_uuid_run in Hr0. simplify_eq.
  apply query_row_Ok_inv in Hr1 as (d & _ & -> & _). simpl. lia.
Qed.

(** The session [Auth] issues. *)
Lemma Auth_inv a token w s w1 :
  Auth a token w = (Ok s, w1) ->
  ∃ k n jti tick,
    (∃ row, users (w_db w1) !! usr_ID (ses_User s) = Some row ∧
       user_apple_id row = usr_AppleID (ses_User s)) ∧
    getSecret a = inr (KPrivate k) ∧ w_tick w < tick < w_tick w1 ∧
    ses_ExpiredAt s = (time_Now tick + 24 * Hour)%Z ∧
    jwt_SignedString SigningMethodES256
      (mkRegisteredClaims (uuid_String (usr_ID (ses_User s)))
         (jwt_NewNumericDate (ses_ExpiredAt s)) jti) (KPrivate k) n = inr (ses_JWT s).
Proof.
  unfold Auth. intros Hrun. inv_go Hrun.
  apply ask_Ok_inv in Hrun0 as [_ ->]. case_bool_decide; [done|]. unfold ret in Hrun1. simplify_eq.
  apply of_sum_Ok_inv in Hrun2 as [_ ->]. apply of_sum_Ok_inv in Hrun3 as [_ ->].
  unfold clock_now in Hrun5. rewrite new_uuid_run in Hrun6. simplify_eq.
  apply of_sum_Ok_inv in Hrun7 as [Hkey ->]. apply ask_Ok_inv in Hrun8 as [Hs ->].
  destruct (jwt_sign_key _ _ _ _ Hs) as [k ->].
  pose proof (GetOrCreateUser_ticks _ _ _ _ Hrun4) as Ht.
  apply GetOrCreateUser_Ok in Hrun4. simpl in *.
  eexists k, _, _, _. split_and!; [done|exact Hkey| | |reflexivity|exact Hs]; lia.
Qed.

(** The validation of a token signed for [uid]. *)
Lemma Validate_issued a k rc n token uid w :
  getSecret a = inr (KPrivate k) ->
  jwt_SignedString SigningMethodES256 rc (KPrivate k) n = inr token ->
  rc_Issuer rc = uuid_String uid -> uuid_valid uid ->
  let now := time_Now (w_tick w) in let later := time_Now (S (w_tick w)) in
  if (now <? rc_ExpiresAt rc)%Z then
    Validate a token w =
    (if (rc_ExpiresAt rc <? later)%Z then Err (ESentinel ErrExpiredToken)
     else Ok (mkUser uid "" token (rc_ExpiresAt rc)), advance (advance w))
  else ∃ e, (Validate a token w).1 = Err e.
Proof.
  intros Hkey Hs Hiss Hu now later.
  assert (∀ tok, tok_Method tok = SigningMethodES256 ->
    verificationKey a tok = inr (KPublic (PublicKey k))) as Hvk.
  { intros tok Hm. unfold verificationKey. by rewrite Hm, Hkey. }
  pose proof (jwt_sign_parse rc k n token _ now Hs Hvk) as Hp.
  destruct (now <? _)%Z; unfold Validate, bind at 1, map_err; rewrite parse_jwt_run; fold now.
  - destruct Hp as (tok & mc & -> & Hv & Hc & Hi & He). unfold extractValidClaims.
    rewrite Hv, Hc. unfold bind, map_err, of_sum, clock_now. rewrite He. simpl.
    unfold After. fold later. destruct (_ <? later)%Z; [done|]. simpl.
    unfold issuerUUID. by rewrite Hi, Hiss, uuid_Parse_String.
  - destruct Hp as [e ->]. by eexists.
Qed.
(** A request authenticates first and then runs its operation in the context
    found. *)
Lemma InterceptResponse_factors {R} a header ctx (next : Ctx → M World GoError R) w :
  InterceptResponse a header ctx next w =
    (let! c := InterceptResponse a header ctx ret in let! r := next c.1 in ret (r, c.2)) w.
Proof.
  unfold InterceptResponse, bind, ret, try.
  destruct header as [h|]; [case_bool_decide|]; [done| |done].
  destruct (Validate _ _ w) as [[u|e| |] w1]; try done.
  by destruct (ValidateAdmin _ _ w1) as [[p|e'| |] w2].
Qed.

(** Authentication changes no data. *)
Lemma InterceptResponse_keeps a header ctx w r w' :
  InterceptResponse a header ctx ret w = (r, w') -> w_db w' = w_db w.
Proof.
  destruct header as [h|]; [|unfold InterceptResponse, bind, ret; by intros [= <- <-]].
  destruct (decide (h = "")) as [->|Hne]; [unfold InterceptResponse, bind, ret; by intros [= <- <-]|].
  by intros (w1 & _ & _ & _ & Hdb)%InterceptResponse_token.
Qed.

(** The tokens that can make an operation an admin's, or a user's, when it starts
    in the context [ctx0]. *)
Lemma InterceptResponse_context a key header ctx0 w ctx errs w' :
  au_adminKeys a = Some {["" := Some key]} ->
  InterceptResponse a header ctx0 ret w = (Ok (ctx, errs), w') ->
  let token := remove_first bearerPrefix (default "" header) in
  (∀ p, ctx_admin ctx = Some p -> ctx_admin ctx0 = Some p ∨
     ∃ tick tok mc, w_tick w < tick <= w_tick w + 2 ∧ admin_token key token (time_Now tick) tok mc) ∧
  (∀ u, ctx_user ctx = Some u -> ctx_user ctx0 = Some u ∨
     ∃ secret, getSecret a = inr secret ∧ user_token secret token (time_Now (w_tick w)) u).
Proof.
  intros Hkeys Hrun token.
  destruct (decide (default "" header = "")) as [Hno|Hsome].
  { assert (ctx = ctx0) as -> by (by destruct header as [h|]; simpl in *; subst;
      unfold InterceptResponse, bind, ret in Hrun; simpl in Hrun; simplify_eq).
    by split; left. }
  destruct header as [h|]; [|done]. simpl in *.
  apply InterceptResponse_token in Hrun as (w2 & _ & Hticks & Hrun & _); [|done]. fold token in Hrun.
  destruct (Validate a token w) as [[u|e| |] w3] eqn:Ev; simplify_eq/=.
  - split; [by left|]. intros u' [= <-]. right. by eapply Validate_accepts.
  - destruct (ValidateAdmin a token w2) as [[p|e'| |] w4] eqn:Ea; simplify_eq/=; [|by split; left].
    split; [|by left]. intros p' [= <-]. right.
    apply ValidateAdmin_accepts in Ea as (tok & mc & k & Hk & Ht & _).
    rewrite (lookupAdminKey_default _ _ _ Hkeys) in Hk. simplify_eq.
    exists (w_tick w2), tok, mc. split; [|done]. destruct Hticks as [-> | ->]; simpl; lia.
Qed.

(** The handshake of a websocket looks at its payload as the middleware does at
    a header, and refuses what the middleware would let through anonymously. *)
Lemma WsInitFunc_intercepts a ctx payload w :
  WsInitFunc a ctx payload w =
  (let! c := InterceptResponse a (Some payload) ctx ret in
   match c.2 with [] => ret c.1 | _ => throw (ESentinel ErrJwtIncorrect) end) w.
Proof.
  unfold WsInitFunc, InterceptResponse, bind, ret, try, throw. case_bool_decide; [done|].
  destruct (Validate _ _ w) as [[u|e| |] w1]; try done.
  by destruct (ValidateAdmin _ _ w1) as [[p|e'| |] w2].
Qed.

(** Looking at a token never parks, and reports no error of its own. *)
Lemma InterceptResponse_returns a header ctx w r w' :
  InterceptResponse a header ctx ret w = (r, w') -> (∃ c, r = Ok c) ∨ (r = Panic ∧ default "" header ≠ "").
Proof.
  destruct (decide (default "" header = "")) as [Hno|Hsome]; intros Hrun.
  { left. destruct header as [h|]; simpl in *; subst; unfold InterceptResponse, bind, ret in Hrun;
      simpl in Hrun; simplify_eq; eauto. }
  destruct header as [h|]; [|done]. simpl in *.
  apply InterceptResponse_token in Hrun as (w2 & _ & _ & Hrun & _); [|done].
  pose proof (Validate_returns a (remove_first bearerPrefix h) w) as Hv.
  destruct (Validate _ _ w) as [[u|e| |] w3]; [by eauto| |by auto|done].
  destruct (ValidateAdmin a (remove_first bearerPrefix h) w2) as [ra w4] eqn:Ea.
  apply ValidateAdmin_returns in Ea. destruct ra; simpl in Hrun; subst; naive_solver.
Qed.

(** What the context of a request says about its token. *)
Lemma authenticated_context cfg a key header w ctx errs w' :
  au_cfg a = cfg -> au_adminKeys a = Some {["" := Some key]} ->
  InterceptResponse a header Background ret w = (Ok (ctx, errs), w') ->
  let token := remove_first bearerPrefix (default "" header) in
  w_db w' = w_db w ∧
  (RequireAdmin ctx = inr tt ->
     GetUser ctx = inl (ESentinel ErrUserNotFound) ∧ shows_admin key token w) ∧
  (∀ u, GetUser ctx = inr u ->
     RequireAdmin ctx = inl (ESentinel ErrUnauthorized) ∧ shows_user (NewAuth cfg) token w u) ∧
  errs = (if bool_decide (default "" header = "" ∨ ctx ≠ Background) then [] else [jwtIncorrect]).
Proof.
  intros Hcfg Hkeys Hrun token.
  destruct (decide (default "" header = "")) as [Hno|Hsome].
  { assert (ctx = Background ∧ errs = [] ∧ w' = w) as (-> & -> & ->).
    { destruct header as [h|]; simpl in *; subst; unfold InterceptResponse, bind, ret in Hrun;
        simpl in Hrun; by simplify_eq. }
    rewrite bool_decide_true by (by left). by split_and!. }
  destruct header as [h|]; [|done]. simpl in *.
  apply InterceptResponse_token in Hrun as (w2 & _ & Hticks & Hrun & Hdb); [|done].
  fold token in Hrun. split; [done|].
  destruct (Validate a token w) as [[u|e| |] w3] eqn:Ev; simplify_eq/=.
  - rewrite bool_decide_true by (by right). split_and!; [done| |done].
    intros u' [= <-]. split; [done|]. apply Validate_accepts in Ev as (secret & Hs & Hu).
    by exists secret.
  - destruct (ValidateAdmin a token w2) as [[p|e'| |] w4] eqn:Ea; simplify_eq/=.
    + rewrite bool_decide_true by (by right). split_and!; [|done..]. intros _. split; [done|].
      apply ValidateAdmin_accepts in Ea as (tok & mc & k & Hk & Ht & _).
      rewrite (lookupAdminKey_default _ _ _ Hkeys) in Hk. simplify_eq.
      exists (w_tick w2), tok, mc. split; [|done]. destruct Hticks as [-> | ->]; simpl; lia.
    + rewrite bool_decide_false by naive_solver. by split_and!.
Qed.

(** The same for a handshake, which refuses a token that is neither kind. *)
Lemma authenticated_handshake cfg a key payload w r w' :
  au_cfg a = cfg -> au_adminKeys a = Some {["" := Some key]} ->
  WsInitFunc a Background payload w = (r, w') ->
  let token := remove_first bearerPrefix payload in
  w_db w' = w_db w ∧
  match r with
  | Ok ctx =>
      (RequireAdmin ctx = inr tt ->
         GetUser ctx = inl (ESentinel ErrUserNotFound) ∧ shows_admin key token w) ∧
      (∀ u, GetUser ctx = inr u ->
         RequireAdmin ctx = inl (ESentinel ErrUnauthorized) ∧ shows_user (NewAuth cfg) token w u) ∧
      (ctx = Background <-> payload = "")
  | Err e => e = ESentinel ErrJwtIncorrect ∧ payload ≠ ""
  | Panic => payload ≠ ""
  | Blocked => False
  end.
Proof.
  intros Hcfg Hkeys Hrun token. rewrite WsInitFunc_intercepts in Hrun. unfold bind at 1 in Hrun.
  destruct (InterceptResponse a (Some payload) Background ret w) as [ri w1] eqn:Ei.
  pose proof (InterceptResponse_returns _ _ _ _ _ _ Ei) as [[[ctx errs] ->]|[-> Hne]].
  2:{ simplify_eq. split; [by eapply InterceptResponse_keeps|done]. }
  pose proof (authenticated_context _ _ _ _ _ _ _ _ Hcfg Hkeys Ei) as (Hdb & Hadmin & Huser & Herrs).
  simpl in *. case_bool_decide as Hb; subst errs; unfold ret, throw in Hrun; simplify_eq/=.
  - split_and!; [done..|]. split; [intros ->; naive_solver|intros ->].
    unfold InterceptResponse, bind, ret in Ei. simpl in Ei. by simplify_eq.
  - split; [done|]. split; [done|]. naive_solver.
Qed.
End sound.

(** ** Properties *)

(** C18: an admin token is accepted only if it is signed with ES256 under an admin
    key the service loaded, names the editor as issuer and this service as
    audience, carries the claim [admin = true] and expired at most five minutes
    ago; the principal carries the token's own dates. A token that passes all
    these checks and carries both dates is accepted. One that passes them but
    lacks the [iat] or the [exp] claim, the other being readable, crashes the
    validation, and nothing else does. *)
Theorem ValidateAdmin_sound `{AuthLibLaws} a s w r w' :
  ValidateAdmin a s w = (r, w') ->
  let now := time_Now (w_tick w) in
  w' = advance w ∧ r ≠ Blocked ∧
  (∀ p, r = Ok p ->
     ∃ tok mc key, lookupAdminKey a (headerKid tok) = (Some key, true) ∧
       admin_token key s now tok mc ∧
       GetIssuedAt mc = inr (Some (ap_IssuedAt p)) ∧
       GetExpirationTime mc = inr (Some (ap_ExpiresAt p))) ∧
  (r = Panic <-> ∃ mc, accepted_admin_token a s now mc ∧ lacks_date mc) ∧
  (∀ mc, accepted_admin_token a s now mc ->
     (∃ tok key, lookupAdminKey a (headerKid tok) = (Some key, true) ∧ admin_token key s now tok mc) ∧
     ∀ iat exp, GetIssuedAt mc = inr (Some iat) -> GetExpirationTime mc = inr (Some exp) ->
       ∃ jti, r = Ok (mkAdminPrincipal jti iat exp)).
Proof.
  intros Hrun now. split; [by rewrite <-(ValidateAdmin_run a s w), Hrun|].
  split; [by eapply ValidateAdmin_returns|].
  split; [intros p ->; by eapply ValidateAdmin_accepts|]. split; [split|].
  - intros ->. destruct (ValidateAdmin_reached _ _ _ _ _ Hrun) as [mc Hmc]; [by left|].
    exists mc. split; [done|]. by apply (ValidateAdmin_accepted _ _ _ _ _ _ Hrun Hmc).
  - intros (mc & Hmc & Hlacks). by apply (ValidateAdmin_accepted _ _ _ _ _ _ Hrun Hmc).
  - intros mc Hmc. split; by apply (ValidateAdmin_accepted _ _ _ _ _ _ Hrun Hmc).
Qed.

(** C17: once the service has started, the context of an operation is an admin's
    only on the strength of an admin token signed for the key in the configured
    file, whatever key id the token names, and a user's only on the strength of
    an unexpired token of that user signed with the server's own key.

    A request over HTTP shows its token each time: its operation is an admin's
    or a user's, never both, only if the token is good when it runs. Without a
    token the operation runs anonymously; with one that is neither kind, too,
    and there is an UNAUTHENTICATED error in the response.

    A websocket shows its token in the handshake, with the same meaning, except
    that a token that is neither kind is refused. Every operation of the
    connection then starts in the context of the handshake and may be an
    admin's or a user's on the strength of that token alone, which may have
    expired since; whatever else it is needs a token that is good when it runs.

    Authentication changes no data and does not wait. *)
Theorem requests_are_authenticated `{AuthLibLaws} cfg w0 a w1 :
  Start (NewAuth cfg, w0) = (Ok tt, (a, w1)) ->
  ∃ pem bytes key,
    ReadFile (cfg_AdminPublicKeyPath cfg) (S (w_tick w0)) = inr pem ∧
    pem_Decode pem = Some bytes ∧ ParsePKIXPublicKey bytes = inr (KPublic key) ∧
  (∀ header w ctx errs w',
    InterceptResponse a header Background ret w = (Ok (ctx, errs), w') ->
    let token := remove_first bearerPrefix (default "" header) in
    w_db w' = w_db w ∧
    (RequireAdmin ctx = inr tt ->
       GetUser ctx = inl (ESentinel ErrUserNotFound) ∧ shows_admin key token w) ∧
    (∀ u, GetUser ctx = inr u ->
       RequireAdmin ctx = inl (ESentinel ErrUnauthorized) ∧ shows_user (NewAuth cfg) token w u) ∧
    errs = (if bool_decide (default "" header = "" ∨ ctx ≠ Background) then [] else [jwtIncorrect])) ∧
  (∀ payload w r w',
    WsInitFunc a Background payload w = (r, w') ->
    let token := remove_first bearerPrefix payload in
    w_db w' = w_db w ∧
    match r with
    | Ok ctx =>
        (RequireAdmin ctx = inr tt ->
           GetUser ctx = inl (ESentinel ErrUserNotFound) ∧ shows_admin key token w) ∧
        (∀ u, GetUser ctx = inr u ->
           RequireAdmin ctx = inl (ESentinel ErrUnauthorized) ∧ shows_user (NewAuth cfg) token w u) ∧
        (ctx = Background <-> payload = "")
    | Err e => e = ESentinel ErrJwtIncorrect ∧ payload ≠ ""
    | Panic => payload ≠ ""
    | Blocked => False
    end) ∧
  (∀ header ctx0 w ctx errs w',
    InterceptResponse a header ctx0 ret w = (Ok (ctx, errs), w') ->
    let token := remove_first bearerPrefix (default "" header) in
    w_db w' = w_db w ∧
    (∀ p, ctx_admin ctx = Some p -> ctx_admin ctx0 = Some p ∨ shows_admin key token w) ∧
    (∀ u, ctx_user ctx = Some u -> ctx_user ctx0 = Some u ∨ shows_user (NewAuth cfg) token w u)).
Proof.
  intros (pem & bytes & key & Hcfg & Hf & Hd & Hp & Hkeys & _)%Start_inv.
  exists pem, bytes, key. split_and!; [done..| | |].
  - intros header w ctx errs w' Hrun. by eapply authenticated_context.
  - intros payload w r w' Hrun. by eapply authenticated_handshake.
  - intros header ctx0 w ctx errs w' Hrun. split; [by eapply InterceptResponse_keeps|].
    rewrite <-Hcfg. by eapply (InterceptResponse_context a key).
Qed.

(** C24: signing in with Apple gives a session for the user stored under the
    Apple ID, for 24 hours. Its token validates to that user, with the expiration
    date cut to the second, on every request before that date, and to nobody
    from then on. *)
Theorem Auth_then_Validate `{AuthLibLaws} a token w s w1 :
  Auth a token w = (Ok s, w1) ->
  let uid := usr_ID (ses_User s) in
  let exp := jwt_NewNumericDate (ses_ExpiredAt s) in
  (∃ row, users (w_db w1) !! uid = Some row ∧ user_apple_id row = usr_AppleID (ses_User s)) ∧
  (∃ tick, w_tick w < tick < w_tick w1 ∧
     ses_ExpiredAt s = (time_Now tick + 24 * Hour)%Z ∧
     (time_Now tick + 24 * Hour - Second < exp)%Z) ∧
  (uuid_valid uid -> ∀ w2, let now := time_Now (w_tick w2) in let later := time_Now (S (w_tick w2)) in
     ((now < exp)%Z -> (later <= exp)%Z ->
        Validate a (ses_JWT s) w2 = (Ok (mkUser uid "" (ses_JWT s) exp), advance (advance w2))) ∧
     ((exp <= now)%Z ∨ (exp < later)%Z -> ∃ e, (Validate a (ses_JWT s) w2).1 = Err e)).
Proof.
  intros Hrun uid exp.
  destruct (Auth_inv _ _ _ _ _ Hrun) as (k & n & jti & tick & Hrow & Hkey & Htick & He & Hs).
  split; [done|]. split.
  { exists tick. split; [done|]. split; [done|]. rewrite <-He.
    pose proof (jwt_NewNumericDate_cut (ses_ExpiredAt s)). unfold exp. lia. }
  intros Hvalid w2 now later.
  pose proof (Validate_issued a k _ n (ses_JWT s) uid w2 Hkey Hs eq_refl Hvalid) as Hv.
  cbn [rc_ExpiresAt] in Hv. fold exp now later in Hv.
  destruct (Z.ltb_spec now exp) as [Hlt|Hge]; [|by split; [lia|]].
  rewrite Hv. split; [intros _ ?; by rewrite (proj2 (Z.ltb_ge _ _)) by lia|].
  intros [?|?]; [lia|]. rewrite (proj2 (Z.ltb_lt _ _)) by lia. by eexists.
Qed.

(** ** Witnesses *)
#[local] Existing Instance exampleEnv.
#[local] Existing Instance exampleAuthLib.

Definition exampleConfiguration : Configuration :=
  mkConfiguration "AuthKey.p8" "secret PEM" "team" "client" "key" "/keys/admin.pem".

(** The service after its start. *)
Definition exampleAuth : auth := mkAuth exampleConfiguration "client-secret" (Some {["" := Some 7%N]}).

(** An admin token that names an unknown key id, and one without dates. *)
Definition exampleAdminToken (dated : bool) : string :=
  payload_token ("ES256", Some "rotated",
    [("iss", JString AdminIssuer); ("aud", JString AdminAudience); ("admin", JBool true);
     ("jti", JString "j1")] ++
    (if dated then [("iat", JNumber (exampleClock 0)); ("exp", JNumber (exampleClock 60))] else []), 7%N).

Lemma exampleAuth_starts :
  Start (NewAuth exampleConfiguration, exampleWorld) =
  (Ok tt, (exampleAuth, advance (advance exampleWorld))).
Proof. reflexivity. Qed.

Lemma ValidateAdmin_sound_witness :
  let run := ValidateAdmin exampleAuth (exampleAdminToken true) exampleWorld in
  run.1 = Ok (mkAdminPrincipal "j1" (exampleClock 0) (exampleClock 60)) ∧
  (ValidateAdmin exampleAuth (exampleAdminToken false) exampleWorld).1 = Panic ∧
  run.2 = advance exampleWorld.
Proof.
  cbv zeta. split; [vm_compute; reflexivity|]. split; [vm_compute; reflexivity|].
  exact (proj1 (ValidateAdmin_sound exampleAuth (exampleAdminToken true) exampleWorld _ _ (surjective_pairing _))).
Defined.

Lemma requests_are_authenticated_witness :
  Start (NewAuth exampleConfiguration, exampleWorld) =
    (Ok tt, (exampleAuth, advance (advance exampleWorld))) ∧
  let '(r, w) := InterceptResponse (R := Ctx) exampleAuth (Some (bearerPrefix +:+ exampleAdminToken true))
                   Background ret exampleWorld in
  r = Ok (mkCtx None (Some (mkAdminPrincipal "j1" (exampleClock 0) (exampleClock 60))), []) ∧
  ∃ pem : string, ReadFile "/keys/admin.pem" (S (w_tick exampleWorld)) = inr pem.
Proof.
  split; [exact exampleAuth_starts|].
  destruct (InterceptResponse _ _ _ _ _) as [r w] eqn:E.
  split; [change r with (r, w).1; rewrite <-E; vm_compute; reflexivity|].
  destruct (requests_are_authenticated exampleConfiguration exampleWorld _ _ exampleAuth_starts)
    as (pem & _ & _ & Hf & _).
  exists pem. exact Hf.
Defined.

Lemma Auth_then_Validate_witness :
  let '(r, w) := Auth exampleAuth "apple-code" exampleWorld in
  ∃ s, r = Ok s ∧
    ∃ row, users (w_db w) !! usr_ID (ses_User s) = Some row ∧ user_apple_id row = "apple-alice".
Proof.
  destruct (Auth exampleAuth "apple-code" exampleWorld) as [r w] eqn:E.
  assert (∃ s, r = Ok s ∧ usr_AppleID (ses_User s) = "apple-alice") as (s & -> & Hid).
  { change r with (r, w).1. rewrite <-E. eexists. split; vm_compute; reflexivity. }
  exists s. split; [done|].
  destruct (Auth_then_Validate exampleAuth "apple-code" exampleWorld s w E) as [(row & Hrow & Ha) _].
  exists row. split; [exact Hrow|]. by rewrite Ha.
Defined.
