(* ===== verification/Weather.v ===== *)
(** The weather: src/common/weather.go and src/internal/openweather/service.go.

    A [float64] is a [spec_float]; what [fmt] prints for [%f] is exact decimal
    arithmetic, rounded half to even at the sixth digit. *)

From Stdlib Require Import Floats.SpecFloat.
From stdpp Require Import base list strings pretty.
From Stdlib Require Import ZArith Lia.
From S2P Require Import Prelude GoTime Common TodCache Env Schema Sql World.

Local Open Scope Z_scope.

(** ** Floating-point numbers *)
Abbreviation float64 := spec_float.

(** [x > 0] *)
Definition float_positive (x : float64) : bool :=
  match x with S754_finite false _ _ | S754_infinity false => true | _ => false end.

(** [n / d] rounded to the nearest integer, ties to even. *)
Definition round_half_even (n d : Z) : Z :=
  let q := n / d in
  match Z.compare (2 * (n mod d)) d with
  | Lt => q
  | Gt => q + 1
  | Eq => if Z.even q then q else q + 1
  end.

(** The last [k] decimal digits of [n]. *)
Fixpoint pad_digits (k : nat) (n : Z) : string :=
  match k with
  | O => ""
  | S k' => pad_digits k' (n / 10) +:+ pretty (n mod 10)
  end.

Definition million : Z := 1000000.

(** The magnitude in millionths. *)
Definition float_millionths (m : positive) (e : Z) : Z :=
  if 0 <=? e then Zpos m * 2 ^ e * million else round_half_even (Zpos m * million) (2 ^ (- e)).

Definition fixed6 (n : Z) : string := pretty (n / million) +:+ "." +:+ pad_digits 6 (n mod million).

(** [fmt.Sprintf("%f", x)] *)
Definition Sprintf_f (x : float64) : string :=
  match x with
  | S754_nan => "NaN"
  | S754_infinity s => if s then "-Inf" else "+Inf"
  | S754_zero s => (if s then "-" else "") +:+ fixed6 0
  | S754_finite s m e => (if s then "-" else "") +:+ fixed6 (float_millionths m e)
  end.

(** ** Data *)
Definition Rain : Type := float64.

Record Weather : Type := mkWeather {
  wt_Temperature : float64;
  wt_Clouds : Z;
  wt_Rain : Rain;
  wt_Humidity : Z;
  wt_WindSpeed : float64;
  wt_Visibility : Z }.

(** [common.Weather{}] *)
Definition noWeather : Weather := mkWeather (S754_zero false) 0 (S754_zero false) 0 (S754_zero false) 0.

Definition Rain_String (r : Rain) : string :=
  if float_positive r then "rain is " +:+ Sprintf_f r +:+ " mm/h" else "no rain".

Definition Weather_String (w : Weather) : string :=
  "temperature is " +:+ Sprintf_f (wt_Temperature w) +:+ ", clouds percent is " +:+ pretty (wt_Clouds w)
  +:+ ", " +:+ Rain_String (wt_Rain w) +:+ ", humidity level is " +:+ pretty (wt_Humidity w)
  +:+ ", wind speed is " +:+ Sprintf_f (wt_WindSpeed w) +:+ " meter/sec,, visibility is "
  +:+ pretty (wt_Visibility w) +:+ " meters".

(** ** The OpenWeatherMap client (src/internal/openweather)

    [github.com/briandowns/openweathermap]: a query object for a unit, a
    language and a key, and the data it reads for a city. *)
Record CurrentWeatherData : Type := mkCurrentWeatherData {
  owm_Temp : float64;
  owm_CloudsAll : Z;
  owm_RainOneH : float64;
  owm_Humidity : Z;
  owm_WindSpeed : float64;
  owm_Visibility : Z }.

Class OpenWeather : Type := {
  owm_Query : Type;
  owm_NewCurrent : string → string → string → GoError + owm_Query;
  owm_CurrentByName : owm_Query → string → nat → GoError + CurrentWeatherData }.

Section service.
Context `{OpenWeather} (key : string).

Definition CurrentCyprus : M World GoError Weather :=
  let! data := of_sum (owm_NewCurrent "C" "en" key) in
  let! data := ask (owm_CurrentByName data "Pegeia") in
  ret (mkWeather (owm_Temp data) (owm_CloudsAll data) (owm_RainOneH data) (owm_Humidity data)
         (owm_WindSpeed data) (owm_Visibility data)).
End service.

(** The two cases of src/common/weather_test.go. *)
Definition float_10_5 : float64 := S754_finite true 5910974510923776 (-49).
Definition float_56_4 : float64 := S754_finite false 7937594343240499 (-47).
Definition float_100_5 : float64 := S754_finite false 7072058789855232 (-46).

Example Weather_String_no_rain :
  Weather_String (mkWeather float_10_5 99 (S754_zero false) 55 float_56_4 10000) =
  "temperature is -10.500000, clouds percent is 99, no rain, humidity level is 55, wind speed is 56.400000 meter/sec,, visibility is 10000 meters".
Proof. vm_compute. reflexivity. Qed.

Example Weather_String_rainy :
  Weather_String (mkWeather float_10_5 99 float_100_5 55 float_56_4 10000) =
  "temperature is -10.500000, clouds percent is 99, rain is 100.500000 mm/h, humidity level is 55, wind speed is 56.400000 meter/sec,, visibility is 10000 meters".
Proof. vm_compute. reflexivity. Qed.
