(* ===== verification/Resolvers.v ===== *)
(** The GraphQL resolvers: src/pkg/api/v2/graphql/schema.resolvers.go,
    resolver.go and errors.go, but for the tea of the day (file TeaOfTheDay).

    A resolver runs in the context the authentication middleware gave it. The
    services behind the resolver's interfaces [ai], [adviser], [weather] and
    [debug] are the class [Services]. *)

From stdpp Require Import base gmap sets list strings.
From Stdlib Require Import ZArith Lia.
From S2P Require Import Prelude GoTime Common Models Subscribers Consumption TodCache Env Schema Sql.
From S2P Require Import World Queries PgAdapter Interfaces PgStorage Managers EventLoop Frame.
From S2P Require Import AuthLib Auth Weather.

(** ** The services of a resolver (resolver.go) *)
Class Services : Type := {
  (** [ai] *)
  GenerateDescription : string → M World GoError string;
  (** The messages a streaming call sends before it closes its channel. *)
  StartGenerateDescription : string → M World GoError (list string);
  (** [adviser] *)
  RecommendTea : list Tea → Weather → string → M World GoError string;
  RecommendTeaStream : list Tea → Weather → string → M World GoError (list string);
  ContextScores : list string → Weather → Z → M World GoError (gmap string Z);
  (** [weather] *)
  Services_CurrentCyprus : M World GoError Weather;
  (** [debug] *)
  Run : M World GoError unit;
  (** the [Error] method of [*gqlerror.Error] *)
  gqlerror_text : string → option GqlCode → string }.

(** The services read the database and leave it alone. *)
Class ServicesLaws `{Services} : Type := {
  GenerateDescription_keeps name : keeps_db (GenerateDescription name);
  StartGenerateDescription_keeps name : keeps_db (StartGenerateDescription name);
  RecommendTea_keeps teas wth feelings : keeps_db (RecommendTea teas wth feelings);
  RecommendTeaStream_keeps teas wth feelings : keeps_db (RecommendTeaStream teas wth feelings);
  ContextScores_keeps names wth day : keeps_db (ContextScores names wth day);
  CurrentCyprus_keeps : keeps_db Services_CurrentCyprus;
  Run_keeps : keeps_db Run }.

(** ** Errors (errors.go) *)
Definition GQLErrQRRecordNotExist : Z := 0.
Definition GQLErrExpiredToken : Z := 1.
Definition GQLErrInvalidToken : Z := 2.
Definition GQLErrUserNotFound : Z := 3.
Definition GQLErrCollectionNotFound : Z := 4.
Definition GQLErrDeviceNotFound : Z := 5.

Definition errorsMap (s : Sentinel) : option Z :=
  match s with
  | ErrQRRecordNotExist => Some GQLErrQRRecordNotExist
  | ErrExpiredToken => Some GQLErrExpiredToken
  | ErrInvalidToken => Some GQLErrInvalidToken
  | ErrUserNotFound => Some GQLErrUserNotFound
  | ErrCollectionNotFound => Some GQLErrCollectionNotFound
  | ErrDeviceNotFound => Some GQLErrDeviceNotFound
  | _ => None
  end.

Section resolvers.
Context `{Env, AuthLib, Services} (a : auth).

(** The map is indexed by the error itself: only an unwrapped sentinel is a key. *)
Definition errorCode (err : GoError) : option GqlCode :=
  if errors_Is err ErrUnauthorized then Some (CodeName "UNAUTHENTICATED")
  else if errors_Is err ErrNotAdmin then Some (CodeName "FORBIDDEN")
  else match err with ESentinel s => CodeNumber <$> errorsMap s | _ => None end.

Definition castGQLError (err : GoError) : GoError :=
  EGql (GoError_Error gqlerror_text err) (errorCode err).

(** [gqlerror.Wrap] *)
Definition gqlerror_Wrap (err : GoError) : GoError := EGql (GoError_Error gqlerror_text err) None.

Definition require_admin {S} (ctx : Ctx) : M S GoError unit := map_err castGQLError (of_sum (RequireAdmin ctx)).
Definition current_user {S} (ctx : Ctx) : M S GoError User := map_err castGQLError (of_sum (GetUser ctx)).

(** ** Mutations *)
Section mutations.
Context (ctx : Ctx).

Definition AuthApple (appleCode : string) (deviceID : UUID) : M World GoError gqlSession :=
  let! session := map_err gqlerror_Wrap (Auth a appleCode) in
  do! NotificationManager.BindDevice (usr_ID (ses_User session)) deviceID in
  ret (mkGqlSession (ses_JWT session) (ses_ExpiredAt session)).

Definition NewTea (tea : gqlTeaData) : M World GoError gqlTea :=
  do! require_admin ctx in
  let! res := map_err castGQLError (TeaManager.Create (ToCommonTeaData tea)) in
  ret (FromCommonTea res).

Definition UpdateTea (id : UUID) (tea : gqlTeaData) : M World GoError gqlTea :=
  do! require_admin ctx in
  let! res := map_err castGQLError (TeaManager.Update id (ToCommonTeaData tea)) in
  ret (FromCommonTea res).

Definition AddTagToTea (teaID tagID : UUID) : M World GoError gqlTea :=
  do! require_admin ctx in
  do! map_err castGQLError (TagManager.AddTagToTea teaID tagID) in
  let! t := map_err castGQLError (TeaManager.Get teaID) in
  ret (FromCommonTea t).

Definition DeleteTagFromTea (teaID tagID : UUID) : M World GoError gqlTea :=
  do! require_admin ctx in
  do! map_err castGQLError (TagManager.DeleteTagFromTea teaID tagID) in
  let! t := map_err castGQLError (TeaManager.Get teaID) in
  ret (FromCommonTea t).

Definition DeleteTea (id : UUID) : M World GoError UUID :=
  do! require_admin ctx in
  do! map_err castGQLError (TeaManager.Delete id) in
  ret id.

Definition WriteToQR (id : UUID) (data : gqlQRRecordData) : M World GoError gqlQRRecord :=
  do! map_err castGQLError (QRManager.Set_ id data) in
  let! tea := map_err castGQLError (TeaManager.Get (gqd_Tea data)) in
  ret (mkGqlQRRecord id
         (mkGqlTea (tea_ID tea) (td_Name (tea_Data tea)) (FromBeverageType (td_Type (tea_Data tea)))
            (td_Description (tea_Data tea)))
         (gqd_BowlingTemp data) (gqd_ExpirationDate data)).

Definition CreateTagCategory (name : string) : M World GoError gqlTagCategory :=
  do! require_admin ctx in
  let! category := map_err castGQLError (TagManager.CreateCategory name) in
  ret (mkGqlTagCategory (tc_ID category) (tc_Name category)).

Definition UpdateTagCategory (id : UUID) (name : string) : M World GoError gqlTagCategory :=
  do! require_admin ctx in
  let! cat := map_err castGQLError (TagManager.UpdateCategory id name) in
  ret (mkGqlTagCategory (tc_ID cat) (tc_Name cat)).

Definition DeleteTagCategory (id : UUID) : M World GoError UUID :=
  do! require_admin ctx in
  do! map_err castGQLError (TagManager.DeleteCategory id) in
  ret id.

(** The answer of the three tag mutations carries no category. *)
Definition tag_without_category (tag : Tag) : gqlTag :=
  mkGqlTag (tag_ID tag) (tagd_Name (tag_Data tag)) (tagd_Color (tag_Data tag)) None.

Definition CreateTag (name color : string) (category : UUID) : M World GoError gqlTag :=
  do! require_admin ctx in
  let! tag := map_err castGQLError (TagManager.Create name color category) in
  ret (tag_without_category tag).

Definition UpdateTag (id : UUID) (name color : string) : M World GoError gqlTag :=
  do! require_admin ctx in
  let! tag := map_err castGQLError (TagManager.Update id name color) in
  ret (tag_without_category tag).

Definition ChangeTagCategory (id category : UUID) : M World GoError gqlTag :=
  do! require_admin ctx in
  let! tag := map_err castGQLError (TagManager.ChangeCategory id category) in
  ret (tag_without_category tag).

Definition DeleteTag (id : UUID) : M World GoError UUID :=
  do! require_admin ctx in
  do! map_err castGQLError (TagManager.Delete id) in
  ret id.

Definition CreateCollection (name : string) : M World GoError gqlCollection :=
  let! user := current_user ctx in
  map_err castGQLError (CollectionManager.Create (usr_ID user) name).

Definition AddRecordsToCollection (id : UUID) (records : list UUID) : M World GoError gqlCollection :=
  let! user := current_user ctx in
  map_err castGQLError (CollectionManager.AddRecords (usr_ID user) id records).

Definition DeleteRecordsFromCollection (id : UUID) (records : list UUID) : M World GoError gqlCollection :=
  let! user := current_user ctx in
  map_err castGQLError (CollectionManager.DeleteRecords (usr_ID user) id records).

Definition DeleteCollection (id : UUID) : M World GoError UUID :=
  let! user := current_user ctx in
  do! map_err castGQLError (CollectionManager.Delete (usr_ID user) id) in
  ret id.

Definition RegisterDeviceToken (deviceID : UUID) (deviceToken : string) : M World GoError bool :=
  do! map_err castGQLError (NotificationManager.RegisterDeviceToken deviceID deviceToken) in
  ret true.

Definition Send : M World GoError bool :=
  do! current_user ctx in
  do! map_err castGQLError Run in
  ret true.

(** The teas of a collection of the user, for a recommendation, with the weather. *)
Definition recommendation_input (collectionID : UUID) : M World GoError (list Tea * Weather) :=
  let! user := current_user ctx in
  let! wth := map_err castGQLError Services_CurrentCyprus in
  let! records := map_err castGQLError (CollectionManager.ListRecords collectionID (usr_ID user)) in
  if bool_decide (records = []) then throw (ESentinel ErrNoTeas)
  else ret ((λ rec, ToCommonTea (gqr_Tea rec)) <$> records, wth).

Definition TeaRecommendation (collectionID : UUID) (feelings : string) : M World GoError string :=
  let! input := recommendation_input collectionID in
  map_err castGQLError (RecommendTea input.1 input.2 feelings).
End mutations.

(** ** Queries *)
Section queries.
Context (ctx : Ctx).

(** [model.User\{TokenExpiredAt\}] *)
Definition Me : M World GoError Time :=
  let! user := current_user ctx in ret (usr_ExpiredAt user).

Definition Teas (prefix : option string) : M World GoError (list gqlTea) :=
  let! res := map_err castGQLError (TeaManager.List_ prefix) in
  ret (FromCommonTea <$> res).

Definition Query_Tea (id : UUID) : M World GoError gqlTea :=
  let! res := map_err castGQLError (TeaManager.Get id) in ret (FromCommonTea res).

Definition Query_GenerateDescription (name : string) : M World GoError string :=
  map_err castGQLError (GenerateDescription name).

Definition Query_QRRecord (id : UUID) : M World GoError gqlQRRecord :=
  let! qr := map_err castGQLError (QRManager.Get id) in
  let! res := map_err castGQLError (TeaManager.Get (gqd_Tea qr)) in
  ret (mkGqlQRRecord id (FromCommonTea res) (gqd_BowlingTemp qr) (gqd_ExpirationDate qr)).

(** A tag whose category is known by id only; its name is fetched on demand. *)
Definition tag_with_category_id (tag : Tag) : gqlTag :=
  mkGqlTag (tag_ID tag) (tagd_Name (tag_Data tag)) (tagd_Color (tag_Data tag))
    (Some (mkGqlTagCategory (tagd_CategoryID (tag_Data tag)) "")).

Definition Query_Tag (id : UUID) : M World GoError gqlTag :=
  let! tag := map_err castGQLError (TagManager.Get id) in ret (tag_with_category_id tag).

Definition TagsCategories (name : option string) : M World GoError (list gqlTagCategory) :=
  let! categories := map_err castGQLError (TagManager.ListCategory name) in
  ret ((λ cat, mkGqlTagCategory (tc_ID cat) (tc_Name cat)) <$> categories).

Definition Query_Collections : M World GoError (list gqlCollection) :=
  let! user := current_user ctx in
  map_err castGQLError (CollectionManager.List_ (usr_ID user)).
End queries.

(** ** Fields *)
Definition Collection_Records (obj : gqlCollection) : M World GoError (list gqlQRRecord) :=
  CollectionManager.ListRecords (gcol_ID obj) (gcol_UserID obj).

Definition Tag_Category (obj : gqlTag) : M World GoError (option gqlTagCategory) :=
  match gtag_Category obj with
  | None => ret None
  | Some category =>
      if bool_decide (gtc_Name category ≠ "") then ret (Some category)
      else
        let! cat := map_err castGQLError (TagManager.GetCategory (gtc_ID category)) in
        ret (Some (mkGqlTagCategory (tc_ID cat) (tc_Name cat)))
  end.

Definition TagCategory_Tags (obj : option gqlTagCategory) (name : option string)
    : M World GoError (list gqlTag) :=
  let cat := match obj with Some obj => gtc_ID obj | None => uuid_Nil end in
  let! tags := map_err castGQLError (TagManager.List_ name (Some cat)) in
  if bool_decide (tags = []) then ret []
  else
    let! categories := map_err castGQLError (TagManager.ListCategory None) in
    let catMap : gmap UUID gqlTagCategory :=
      fold_left (λ m ctg, <[tc_ID ctg := mkGqlTagCategory (tc_ID ctg) (tc_Name ctg)]> m) categories ∅ in
    ret ((λ tag, mkGqlTag (tag_ID tag) (tagd_Name (tag_Data tag)) (tagd_Color (tag_Data tag))
                   (catMap !! tagd_CategoryID (tag_Data tag))) <$> tags).

Definition Tea_Tags (obj : gqlTea) : M World GoError (list gqlTag) :=
  let! tags := map_err castGQLError (TagManager.ListByTea (gt_ID obj)) in
  ret (tag_with_category_id <$> tags).

Definition User_Collections (ctx : Ctx) : M World GoError (list gqlCollection) :=
  map_err castGQLError (Query_Collections ctx).

Definition User_Notifications (ctx : Ctx) : M World GoError (list gqlNotificationType) :=
  let! user := current_user ctx in
  let! notifications := map_err castGQLError (NotificationManager.Notifications (usr_ID user)) in
  ret ((λ n, NotificationType_FromCommon (ntf_Type n)) <$> notifications).

(** ** Subscriptions

    [ctx] and [ch] number the context and the channel made for it. *)
Definition OnCreateTea (ctx ch : nat) := map_err castGQLError (TeaLoop.SubscribeOnCreate ctx ch).
Definition OnUpdateTea (ctx ch : nat) := map_err castGQLError (TeaLoop.SubscribeOnUpdate ctx ch).
Definition OnDeleteTea (ctx ch : nat) := map_err castGQLError (TeaLoop.SubscribeOnDelete ctx ch).
Definition OnCreateTagCategory (ctx ch : nat) :=
  map_err castGQLError (TagLoop.SubscribeOnCreateCategory ctx ch).
Definition OnUpdateTagCategory (ctx ch : nat) := TagLoop.SubscribeOnUpdateCategory ctx ch.
Definition OnDeleteTagCategory (ctx ch : nat) := TagLoop.SubscribeOnDeleteCategory ctx ch.
Definition OnCreateTag (ctx ch : nat) := map_err castGQLError (TagLoop.SubscribeOnCreate ctx ch).
Definition OnUpdateTag (ctx ch : nat) := map_err castGQLError (TagLoop.SubscribeOnUpdate ctx ch).
Definition OnDeleteTag (ctx ch : nat) := map_err castGQLError (TagLoop.SubscribeOnDelete ctx ch).
Definition OnAddTagToTea (ctx ch : nat) := map_err castGQLError (TagLoop.SubscribeOnAddTagToTea ctx ch).
Definition OnDeleteTagFromTea (ctx ch : nat) :=
  map_err castGQLError (TagLoop.SubscribeOnDeleteTagToTea ctx ch).

Definition Subscription_StartGenerateDescription (name : string) : M World GoError (list string) :=
  map_err castGQLError (StartGenerateDescription name).

Definition Subscription_RecommendTea (ctx : Ctx) (collectionID : UUID) (feelings : string)
    : M World GoError (list string) :=
  let! input := recommendation_input ctx collectionID in
  map_err castGQLError (RecommendTeaStream input.1 input.2 feelings).
End resolvers.
