(* ===== verification/TeaOfTheDay.v ===== *)
(** The tea of the day: [queryResolver.TeaOfTheDay] of
    src/pkg/api/v2/graphql/schema.resolvers.go. It gathers the teas of a user's
    collections, scores them with the help of the weather, the adviser and the
    user's recent choices, records the choice and caches it until midnight. *)

From stdpp Require Import base gmap sets list strings.
From Stdlib Require Import ZArith Lia.
From S2P Require Import Prelude GoTime Common Scoring Models Consumption TodCache Env Schema Sql World.
From S2P Require Import Queries PgAdapter Interfaces PgStorage Managers Frame AuthLib Auth Weather.
From S2P Require Import Resolvers Example PgConsumption.

(** What the resolver takes from Go's library: the time zone of the process,
    [strings.ToLower] and [strings.TrimSpace], the order in which [range] visits
    a map, and [t.Format(time.RFC3339)] for the log. *)
Class Locale : Type := {
  Local_ : Location;
  ToLower : string → string;
  TrimSpace : string → string;
  range_scores : nat → gmap string Z → list (string * Z);
  FormatRFC3339 : Time → string }.

Class LocaleLaws `{Locale} : Type := {
  range_scores_all : ∀ n m, range_scores n m ≡ₚ map_to_list m }.

(** [t.Weekday()], Sunday being 0; the Unix epoch was a Thursday. *)
Definition Weekday (loc : Location) (t : Time) : Z := ((civil_day loc t + 4) mod 7)%Z.

(** ** Gathering the teas *)

(** The variables of the loop over the records. *)
Record Gathered : Type := mkGathered {
  ga_earliestRec : gmap UUID gqlQRRecord;
  ga_candidates : list Candidate;
  ga_names : list string;
  ga_nameToID : gmap string UUID;
  ga_idToIdx : gmap UUID nat }.

Definition noneGathered : Gathered := mkGathered ∅ [] [] ∅ ∅.

Definition set_Expiration (exp : Time) (c : Candidate) : Candidate :=
  mkCandidate (cand_ID c) (cand_Name c) exp.

Section resolver.
Context `{Env, AuthLib, Services, Locale, !Store World}.

Definition normalize (name : string) : string := ToLower (TrimSpace name).

(** One record. The index into the candidates is checked, as Go does. *)
Definition gather {S} (rec : gqlQRRecord) (st : Gathered) : M S GoError Gathered :=
  let id := gt_ID (gqr_Tea rec) in
  let name := gt_Name (gqr_Tea rec) in
  match ga_earliestRec st !! id with
  | None =>
      ret (mkGathered (<[id := rec]> (ga_earliestRec st))
             (ga_candidates st ++ [mkCandidate id name (gqr_ExpirationDate rec)])
             (ga_names st ++ [name])
             (<[normalize name := id]> (ga_nameToID st))
             (<[id := length (ga_candidates st)]> (ga_idToIdx st)))
  | Some prev =>
      if Before (gqr_ExpirationDate rec) (gqr_ExpirationDate prev) then
        let! candidates :=
          match ga_idToIdx st !! id with
          | None => ret (ga_candidates st)
          | Some idx =>
              match ga_candidates st !! idx with
              | None => panic
              | Some c => ret (<[idx := set_Expiration (gqr_ExpirationDate rec) c]> (ga_candidates st))
              end
          end in
        ret (mkGathered (<[id := rec]> (ga_earliestRec st)) candidates (ga_names st)
               (ga_nameToID st) (ga_idToIdx st))
      else ret st
  end.

Fixpoint gather_records {S} (records : list gqlQRRecord) (st : Gathered) : M S GoError Gathered :=
  match records with
  | [] => ret st
  | rec :: records' => let! st' := gather rec st in gather_records records' st'
  end.

Fixpoint gather_collections (user : UUID) (cols : list gqlCollection) (st : Gathered)
  : M World GoError Gathered :=
  match cols with
  | [] => ret st
  | c :: cols' =>
      let! records := map_err castGQLError (CollectionManager.ListRecords (gcol_ID c) user) in
      let! st' := gather_records records st in
      gather_collections user cols' st'
  end.

(** ** Scores *)
Definition lastByStep (lastBy : gmap UUID Time) (c : Consumption) : gmap UUID Time :=
  match lastBy !! cons_TeaID c with
  | None => <[cons_TeaID c := cons_Time c]> lastBy
  | Some t => if After (cons_Time c) t then <[cons_TeaID c := cons_Time c]> lastBy else lastBy
  end.

Definition lastByTea (recent : list Consumption) : gmap UUID Time := fold_left lastByStep recent ∅.

Definition aiScoresStep (nameToID : gmap string UUID) (aiScores : gmap UUID Z) (ns : string * Z)
  : gmap UUID Z :=
  match nameToID !! normalize ns.1 with
  | Some id => <[id := ns.2]> aiScores
  | None => aiScores
  end.

(** The map is visited in the order of this moment. *)
Definition aiScoresOf (nameToID : gmap string UUID) (ctxScores : gmap string Z)
  : M World GoError (gmap UUID Z) := λ w,
  (Ok (fold_left (aiScoresStep nameToID) (range_scores (w_tick w) ctxScores) ∅), advance w).

(** [v, err := m]; on an error the zero value [z] is used. *)
Definition best_effort {A} (z : A) (m : M World GoError A) : M World GoError A :=
  let! r := try m in ret (match r with inr v => v | inl _ => z end).

(** ** The resolver *)

(** [r.todCache.Get(user.ID, now)] and [Set] *)
Definition todCache_Get (user : UUID) (now : Time) : M World GoError (option gqlTeaOfTheDay) := λ w,
  let '(cached, items) := cache_Get user now (w_cache w) in (Ok cached, set_cache items w).
Definition todCache_Set (user : UUID) (v : gqlTeaOfTheDay) (now : Time) : M World GoError unit := λ w,
  (Ok tt, set_cache (cache_Set Local_ user v now (w_cache w)) w).

(** Four days back. *)
Definition recentWindow : Duration := (96 * Hour)%Z.

(** The choice among the gathered teas; it always logs. *)
Definition chooseTea (user : UUID) (now : Time) (st : Gathered) : M World GoError UUID :=
  let! w := best_effort noWeather Services_CurrentCyprus in
  let! recent := best_effort [] (store_Recent user (Add now (- recentWindow)%Z)) in
  let! ctxScores := best_effort ∅ (ContextScores (ga_names st) w (Weekday Local_ now)) in
  let! aiScores := aiScoresOf (ga_nameToID st) ctxScores in
  ret (SelectBestWithLogging FormatRFC3339 aiScores (lastByTea recent) now true (ga_candidates st)).1.1.

Definition TeaOfTheDay (ctx : Ctx) : M World GoError gqlTeaOfTheDay :=
  let! user := current_user ctx in
  let! now := clock_now in
  let! cached := todCache_Get (usr_ID user) now in
  match cached with
  | Some cached => ret cached
  | None =>
      let! cols := map_err castGQLError (CollectionManager.List_ (usr_ID user)) in
      let! st := gather_collections (usr_ID user) cols noneGathered in
      if bool_decide (ga_earliestRec st = ∅) then throw (ESentinel ErrNoTeas)
      else
        let! bestID := chooseTea (usr_ID user) now st in
        if bool_decide (bestID = uuid_Nil) then throw (ESentinel ErrNoTeaCandidates)
        else
          do! best_effort tt (store_Record (usr_ID user) bestID now) in
          match ga_earliestRec st !! bestID with
          | None => throw (ESentinel ErrNoTeaCandidates)
          | Some qrr =>
              let res := mkGqlTeaOfTheDay qrr now in
              do! todCache_Set (usr_ID user) res now in
              ret res
          end
  end.
End resolver.

(** ** Lemmas *)
Abbreviation rec_tea rec := (gt_ID (gqr_Tea rec)).

(** A candidate's entry in the map from names to teas. *)
Definition name_entry `{Locale} (c : Candidate) : string * UUID := (normalize (cand_Name c), cand_ID c).

(** What the loop knows after the records [recs]. *)
Record gathered `{Locale} (recs : list gqlQRRecord) (st : Gathered) : Prop := {
  ga_seen id : is_Some (ga_earliestRec st !! id) <-> ∃ rec, rec ∈ recs ∧ rec_tea rec = id;
  ga_earliest id rec : ga_earliestRec st !! id = Some rec ->
    rec ∈ recs ∧ rec_tea rec = id ∧
    ∀ rec', rec' ∈ recs -> rec_tea rec' = id -> (gqr_ExpirationDate rec <= gqr_ExpirationDate rec')%Z;
  ga_candidate i c : ga_candidates st !! i = Some c ->
    ga_idToIdx st !! cand_ID c = Some i ∧
    ∃ rec, ga_earliestRec st !! cand_ID c = Some rec ∧ cand_Expiration c = gqr_ExpirationDate rec;
  ga_index id i : ga_idToIdx st !! id = Some i -> ∃ c, ga_candidates st !! i = Some c ∧ cand_ID c = id;
  ga_indexed id : is_Some (ga_earliestRec st !! id) -> is_Some (ga_idToIdx st !! id);
  ga_named c : c ∈ ga_candidates st ->
    ∃ rec, rec ∈ recs ∧ rec_tea rec = cand_ID c ∧ gt_Name (gqr_Tea rec) = cand_Name c;
  ga_names_listed : ga_names st = cand_Name <$> ga_candidates st;
  ga_names_mapped : ga_nameToID st = list_to_map (reverse (name_entry <$> ga_candidates st)) }.

Lemma elem_of_snoc {A} (x y : A) l : x ∈ l ++ [y] <-> x ∈ l ∨ x = y.
Proof. rewrite elem_of_app. set_solver. Qed.

Section gather.
Context `{Env, AuthLib, Services, Locale}.

Lemma noneGathered_gathered : gathered [] noneGathered.
Proof.
  split; simpl; try done; intros id.
  - rewrite lookup_empty. split; [by intros []|]. intros (? & Hin & _). by apply not_elem_of_nil in Hin.
  - by rewrite lookup_empty; intros [].
  - by intros ?%not_elem_of_nil.
Qed.

Lemma gather_first recs rec st :
  gathered recs st -> ga_earliestRec st !! rec_tea rec = None ->
  gathered (recs ++ [rec])
    (mkGathered (<[rec_tea rec := rec]> (ga_earliestRec st))
       (ga_candidates st ++ [mkCandidate (rec_tea rec) (gt_Name (gqr_Tea rec)) (gqr_ExpirationDate rec)])
       (ga_names st ++ [gt_Name (gqr_Tea rec)])
       (<[normalize (gt_Name (gqr_Tea rec)) := rec_tea rec]> (ga_nameToID st))
       (<[rec_tea rec := length (ga_candidates st)]> (ga_idToIdx st))).
Proof.
  intros [Hs He Hc Hi Hx Hn Hl Hm] Hnone. split; simpl.
  - intros id. rewrite lookup_insert_is_Some, Hs. setoid_rewrite elem_of_snoc. destruct (decide (rec_tea rec = id)); naive_solver.
  - intros id r. rewrite lookup_insert_Some. intros [[<- <-]|[Hne Hr]].
    + split_and!; [set_solver|done|]. intros r' [Hr'| ->]%elem_of_snoc Hid; [|done].
      assert (is_Some (ga_earliestRec st !! rec_tea rec)) as [? ?] by (apply Hs; eauto). congruence.
    + destruct (He id r Hr) as (Q1 & Q2 & Q3). split_and!; [set_solver|done|].
      intros r' [Hr'| ->]%elem_of_snoc Hid; [by apply Q3|done].
  - intros i c [Hold|[Hlen Hnew]]%lookup_app_Some.
    + destruct (Hc i c Hold) as (Q1 & r & Q2 & Q3).
      assert (rec_tea rec ≠ cand_ID c) by congruence.
      rewrite !lookup_insert_ne by done. eauto.
    + apply list_lookup_singleton_Some in Hnew as [? <-]. simpl. rewrite !lookup_insert_eq.
      split; [f_equal; lia|eauto].
  - intros id i. rewrite lookup_insert_Some. intros [[<- <-]|[Hne Hr]].
    + eexists. split; [by rewrite lookup_app_r, Nat.sub_diag by done|done].
    + destruct (Hi id i Hr) as (c & Hci & Hid). exists c. split; [|done]. by apply lookup_app_l_Some.
  - intros id. rewrite !lookup_insert_is_Some. destruct (decide (rec_tea rec = id)); naive_solver.
  - intros c [(r & Hr & Hid)%Hn| ->]%elem_of_snoc; [exists r|exists rec]; rewrite elem_of_snoc; auto.
  - by rewrite Hl, fmap_app.
  - by rewrite Hm, fmap_app, reverse_app.
Qed.

(** A new expiration date leaves the name and the tea of a candidate. *)
Lemma expiration_keeps {B} (f : Candidate → B) exp idx c (l : list Candidate) :
  (∀ c', f (set_Expiration exp c') = f c') -> l !! idx = Some c ->
  f <$> <[idx := set_Expiration exp c]> l = f <$> l.
Proof.
  intros Hf Hc. rewrite list_fmap_insert, Hf. apply list_insert_id. by rewrite list_lookup_fmap, Hc.
Qed.

Lemma gather_earlier recs rec prev idx c st :
  gathered recs st -> ga_earliestRec st !! rec_tea rec = Some prev ->
  (gqr_ExpirationDate rec < gqr_ExpirationDate prev)%Z ->
  ga_idToIdx st !! rec_tea rec = Some idx -> ga_candidates st !! idx = Some c ->
  gathered (recs ++ [rec])
    (mkGathered (<[rec_tea rec := rec]> (ga_earliestRec st))
       (<[idx := set_Expiration (gqr_ExpirationDate rec) c]> (ga_candidates st)) (ga_names st)
       (ga_nameToID st) (ga_idToIdx st)).
Proof.
  intros [Hs He Hc Hi Hx Hn Hl Hm] Hprev Hlt Hidx Hcand. split; simpl.
  - intros id. rewrite lookup_insert_is_Some, Hs. setoid_rewrite elem_of_snoc. destruct (decide (rec_tea rec = id)); naive_solver.
  - intros id r. rewrite lookup_insert_Some. intros [[<- <-]|[Hne Hr]].
    + split_and!; [set_solver|done|]. intros r' [Hr'| ->]%elem_of_snoc Hid; [|done].
      destruct (He _ _ Hprev) as (_ & _ & Q3). specialize (Q3 r' Hr' Hid). lia.
    + destruct (He id r Hr) as (Q1 & Q2 & Q3). split_and!; [set_solver|done|].
      intros r' [Hr'| ->]%elem_of_snoc Hid; [by apply Q3|done].
  - destruct (Hi _ _ Hidx) as (c0 & Hc0 & Hid0). simplify_eq.
    intros i c'. rewrite list_lookup_insert_Some. intros [(<- & <- & _)|[Hne Hold]].
    + simpl. split; [congruence|]. rewrite Hid0, lookup_insert_eq. eauto.
    + destruct (Hc i c' Hold) as (Q1 & r & Q2 & Q3).
      assert (rec_tea rec ≠ cand_ID c') by congruence.
      rewrite !lookup_insert_ne by done. eauto.
  - intros id i Hid. destruct (Hi _ _ Hid) as (c' & Hc' & <-).
    destruct (decide (i = idx)) as [->|Hne].
    + exists (set_Expiration (gqr_ExpirationDate rec) c). simplify_eq. split; [|done].
      apply list_lookup_insert_eq. by eapply lookup_lt_Some.
    + exists c'. by rewrite list_lookup_insert_ne.
  - intros id. rewrite lookup_insert_is_Some. intros [<-|[_ ?]]; [by rewrite Hidx|by apply Hx].
  - intros c' [i Hi']%list_elem_of_lookup. apply list_lookup_insert_Some in Hi' as [(<- & <- & _)|[_ Hold]].
    + destruct (Hn c) as (r & Hr & Hid); [by eapply list_elem_of_lookup_2|]. exists r. by rewrite elem_of_snoc; auto.
    + destruct (Hn c') as (r & Hr & Hid); [by eapply list_elem_of_lookup_2|]. exists r. by rewrite elem_of_snoc; auto.
  - by rewrite Hl, (expiration_keeps cand_Name).
  - by rewrite Hm, (expiration_keeps name_entry).
Qed.

Lemma gather_run {S} recs rec st (s : S) :
  gathered recs st -> ∃ st', gather rec st s = (Ok st', s) ∧ gathered (recs ++ [rec]) st'.
Proof.
  intros Hst. unfold gather.
  destruct (ga_earliestRec st !! rec_tea rec) as [prev|] eqn:Hprev.
  2:{ eexists. split; [reflexivity|by apply gather_first]. }
  unfold Before. destruct (Z.ltb_spec (gqr_ExpirationDate rec) (gqr_ExpirationDate prev)) as [Hlt|Hge].
  - destruct (ga_indexed _ _ Hst (rec_tea rec)) as [idx Hidx]; [by rewrite Hprev|].
    destruct (ga_index _ _ Hst _ _ Hidx) as (c & Hc & Hid).
    rewrite Hidx, Hc. eexists. split; [reflexivity|]. by eapply gather_earlier.
  - eexists. split; [reflexivity|]. destruct Hst as [Hs He Hc Hi Hx Hn Hl Hm]. split; try done.
    + intros id. rewrite Hs. setoid_rewrite elem_of_snoc.
      split; [naive_solver|]. intros (r & [Hr| ->] & <-); [eauto|].
      destruct (He _ _ Hprev) as (? & ? & _). eauto.
    + intros id r Hr. destruct (He id r Hr) as (Q1 & Q2 & Q3). split_and!; [set_solver|done|].
      intros r' [Hr'| ->]%elem_of_snoc Hid; [by apply Q3|]. rewrite Hid in Hprev. simplify_eq. lia.
    + intros c (r & Hr & Hid)%Hn. exists r. rewrite elem_of_snoc. auto.
Qed.

Lemma gather_records_run {S} recs records st (s : S) :
  gathered recs st ->
  ∃ st', gather_records records st s = (Ok st', s) ∧ gathered (recs ++ records) st'.
Proof.
  revert recs st. induction records as [|rec records IH]; intros recs st Hst.
  - exists st. by rewrite app_nil_r.
  - destruct (gather_run recs rec st s Hst) as (st1 & E1 & Q1).
    destruct (IH _ _ Q1) as (st' & E & Hst'). exists st'. simpl. rewrite (bind_Ok _ _ _ _ _ E1).
    by rewrite <-app_assoc in Hst'.
Qed.

(** Each tea is a candidate exactly once, with its earliest expiration. *)
Lemma gathered_candidates recs st :
  gathered recs st ->
  NoDup (cand_ID <$> ga_candidates st) ∧
  (∀ c, c ∈ ga_candidates st -> ∃ rec, ga_earliestRec st !! cand_ID c = Some rec ∧
     cand_Expiration c = gqr_ExpirationDate rec) ∧
  (∀ rec, rec ∈ recs -> ∃ c, c ∈ ga_candidates st ∧ cand_ID c = rec_tea rec).
Proof.
  intros [Hs He Hc Hi Hx _ _ _]. split_and!.
  - apply NoDup_alt. intros i j id. rewrite !list_lookup_fmap, !fmap_Some.
    intros (c1 & Q1 & ->) (c2 & Q2 & Heq).
    destruct (Hc _ _ Q1) as [E1 _]. destruct (Hc _ _ Q2) as [E2 _]. congruence.
  - intros c [i Hic]%list_elem_of_lookup. by destruct (Hc _ _ Hic) as [_ ?].
  - intros rec Hrec. destruct (Hx (rec_tea rec)) as [i Hidx]; [apply Hs; eauto|].
    destruct (Hi _ _ Hidx) as (c & Hc' & Hid). exists c. split; [|done]. by eapply list_elem_of_lookup_2.
Qed.
End gather.

(** The score of a record's tea. *)
Definition record_score (ai : gmap UUID Z) (lastBy : gmap UUID Time) (now : Time) (rec : gqlQRRecord) : Z :=
  totalScore ai lastBy now (mkCandidate (rec_tea rec) (gt_Name (gqr_Tea rec)) (gqr_ExpirationDate rec)).

Lemma gathered_score `{Locale} recs st ai lastBy now c rec :
  gathered recs st -> c ∈ ga_candidates st -> ga_earliestRec st !! cand_ID c = Some rec ->
  totalScore ai lastBy now c = record_score ai lastBy now rec.
Proof.
  intros Hst Hc Hrec. destruct (gathered_candidates _ _ Hst) as (_ & Hcand & _).
  destruct (Hcand c Hc) as (rec' & Hrec' & Hexp). simplify_eq.
  destruct (ga_earliest _ _ Hst _ _ Hrec) as (_ & Hid & _).
  unfold record_score, totalScore. simpl. by rewrite Hid, Hexp.
Qed.

(** The selection among the gathered candidates, in terms of the records. *)
Lemma gathered_best `{Locale} recs st ai lastBy now qrr :
  gathered recs st -> (∀ rec, rec ∈ recs -> rec_tea rec ≠ uuid_Nil) ->
  ga_earliestRec st !! (SelectBest ai lastBy now (ga_candidates st)).1 = Some qrr ->
  ∀ rec, rec ∈ recs ->
    (∀ rec', rec' ∈ recs -> rec_tea rec' = rec_tea rec ->
       (gqr_ExpirationDate rec <= gqr_ExpirationDate rec')%Z) ->
    (record_score ai lastBy now rec <= record_score ai lastBy now qrr)%Z.
Proof.
  intros Hst Hnil Hbest rec Hrec Hfirst.
  destruct (gathered_candidates _ _ Hst) as (_ & Hcand & Hall).
  destruct (Hall rec Hrec) as (c & Hc & Hcid). destruct (Hcand c Hc) as (r0 & Hr0 & Hexp).
  destruct (ga_earliest _ _ Hst _ _ Hr0) as (Hr0in & Hr0id & Hr0first).
  assert (gqr_ExpirationDate r0 = gqr_ExpirationDate rec) as Heq.
  { specialize (Hr0first rec Hrec (eq_sym Hcid)). specialize (Hfirst r0 Hr0in (eq_trans Hr0id Hcid)). lia. }
  destruct (SelectBest_max ai lastBy now (ga_candidates st)) as (best & Hbin & Hb & Hmax).
  { intros c' Hc'. destruct (Hcand c' Hc') as (r & Hr & _).
    destruct (ga_earliest _ _ Hst _ _ Hr) as (Hrin & <- & _). by apply Hnil. }
  { intros Hnone. rewrite Hnone in Hc. by apply not_elem_of_nil in Hc. }
  rewrite Hb in Hbest. simpl in Hbest.
  rewrite <-(gathered_score _ _ _ _ _ _ _ Hst Hbin Hbest).
  transitivity (totalScore ai lastBy now c); [|by apply Hmax].
  unfold record_score, totalScore. simpl. rewrite <-Hcid, <-Heq, Hexp. done.
Qed.

(** A record in a collection of the user, as the API shows it. *)
Definition owned_record (v : CollectionView) (user : UUID) (rec : gqlQRRecord) : Prop :=
  ∃ id name r, cv_collections v !! id = Some (user, name) ∧ record_in v id r ∧ rec = FromCollectionRecord r.

(** Its tea is in the database. *)
Lemma owned_record_tea `{Env} w user rec :
  (∀ d, teas (w_db w) !! uuid_Nil ≠ Some d) -> owned_record (cs_view w) user rec ->
  rec_tea rec ≠ uuid_Nil.
Proof.
  intros Hnil (id & name & r & _ & (_ & _ & Htea) & ->). simpl. intros Heq. rewrite Heq in Htea.
  apply db_teas_lookup in Htea as (row & Hrow & _). by apply (Hnil row).
Qed.

(** The tea decides the name. *)
Lemma owned_record_name v user rec1 rec2 :
  owned_record v user rec1 -> owned_record v user rec2 -> rec_tea rec1 = rec_tea rec2 ->
  gt_Name (gqr_Tea rec1) = gt_Name (gqr_Tea rec2).
Proof.
  intros (id1 & n1 & r1 & _ & (_ & _ & H1) & ->) (id2 & n2 & r2 & _ & (_ & _ & H2) & ->) Htea.
  simpl in *. rewrite Htea in H1. congruence.
Qed.

Section choice.
Context `{Env, AuthLib, Services, Locale, !Store World}.

Lemma gather_collections_run user cols recs st w r w' :
  world_wf w -> gathered recs st -> gather_collections user cols st w = (r, w') ->
  world_wf w' ∧ cs_view w' = cs_view w ∧
  match r with
  | Ok st' => ∃ recs', gathered (recs ++ recs') st' ∧
      ∀ rec, rec ∈ recs' <-> ∃ c q, c ∈ cols ∧ record_in (cs_view w) (gcol_ID c) q ∧ rec = FromCollectionRecord q
  | Err _ => True
  | _ => False
  end.
Proof.
  revert recs st w. induction cols as [|c cols IH]; intros recs st w Hw Hst Hrun; simpl in Hrun.
  { unfold ret in Hrun. simplify_eq. split_and!; [done..|]. exists []. rewrite app_nil_r.
    split; [done|]. intros rec. split; [by intros ?%not_elem_of_nil|]. intros (? & ? & ?%not_elem_of_nil & _). done. }
  unfold bind at 1, map_err in Hrun.
  destruct (CollectionManager.ListRecords (gcol_ID c) user w) as [r1 w1] eqn:E1.
  apply ListRecords_spec in E1 as (Hw1 & Hv1 & Hr1); [|done].
  destruct r1 as [l|e| |]; [|by simpl in Hrun; injection Hrun as <- <-|done..].
  destruct Hr1 as (_ & qs & -> & _ & _ & Hqs).
  destruct (gather_records_run recs (FromCollectionRecord <$> qs) st w1 Hst) as (st1 & E2 & Hst1).
  rewrite (bind_Ok _ _ _ _ _ E2) in Hrun.
  destruct (IH _ _ _ Hw1 Hst1 Hrun) as (Hw' & Hv' & Hr'). split; [done|]. split; [congruence|].
  destruct r as [st'|e| |]; [|done..]. destruct Hr' as (recs' & Hst' & Hin).
  exists ((FromCollectionRecord <$> qs) ++ recs'). split; [by rewrite app_assoc|].
  intros rec. rewrite elem_of_app, Hin, list_elem_of_fmap, Hv1. setoid_rewrite elem_of_cons.
  setoid_rewrite Hqs. naive_solver.
Qed.

Lemma gather_records_keeps {S} records st (s : S) : (gather_records records st s).2 = s.
Proof.
  revert st. induction records as [|rec records IH]; intros st; [done|]. simpl. unfold bind.
  assert ((gather rec st s).2 = s) as Hs.
  { unfold gather, bind, ret, panic. repeat (case_match; simplify_eq/=); done. }
  destruct (gather rec st s) as [[st'|e| |] s']; simpl in *; subst; [apply IH|done..].
Qed.

Lemma gather_collections_keeps user cols st : keeps_db (gather_collections user cols st).
Proof.
  intros d. revert st. induction cols as [|c cols IH]; intros st; [apply preserves_ret|]. simpl.
  apply preserves_bind; [apply preserves_map_err, (collection_reads_keep user (gcol_ID c))|].
  intros records. apply preserves_bind; [|done]. intros w Hw. by rewrite gather_records_keeps.
Qed.

(** What the resolver knows once the teas are gathered. *)
Lemma gather_user user w cols w1 st w2 :
  world_wf w ->
  map_err castGQLError (CollectionManager.List_ user) w = (Ok cols, w1) ->
  gather_collections user cols noneGathered w1 = (Ok st, w2) ->
  world_wf w2 ∧ cs_view w2 = cs_view w ∧
  ∃ recs, gathered recs st ∧ ∀ rec, rec ∈ recs <-> owned_record (cs_view w) user rec.
Proof.
  intros Hw Hl Hg. apply map_err_Ok_inv in Hl. unfold CollectionManager.List_ in Hl. inv_go Hl.
  apply (run_spec (OpCollections user)) in Hl0 as [Hw1 Hp]; [|done].
  destruct Hp as (Hv1 & _ & Hcols).
  apply gather_collections_run with (recs := []) in Hg as (Hw2 & Hv2 & recs & Hst & Hin);
    [|done|apply noneGathered_gathered].
  split; [done|]. split; [congruence|]. exists recs. split; [done|].
  intros rec. rewrite Hin, Hv1. split.
  - intros (c & q & (col & -> & Hcol)%list_elem_of_fmap & Hq & ->).
    exists (col_ID col), (col_Name col), q. by rewrite <-Hcols.
  - intros (id & name & q & Hid & Hq & ->). exists (mkGqlCollection id name user), q.
    split_and!; [|done..]. apply list_elem_of_fmap. exists (mkCollection id name). split; [done|].
    by apply Hcols.
Qed.

Lemma best_effort_Ok {A} (z : A) (m : M World GoError A) w v w' :
  best_effort z m w = (Ok v, w') -> m w = (Ok v, w') ∨ (∃ e, m w = (Err e, w')) ∧ v = z.
Proof.
  unfold best_effort, bind, try, ret. destruct (m w) as [[x|e| |] w1]; intros; simplify_eq; eauto.
Qed.

Lemma lastByStep_lookup lastBy c tea :
  lastByStep lastBy c !! tea =
  if decide (cons_TeaID c = tea)
  then Some (match lastBy !! tea with Some t => Z.max t (cons_Time c) | None => cons_Time c end)
  else lastBy !! tea.
Proof.
  unfold lastByStep. destruct (decide (cons_TeaID c = tea)) as [<-|Hne].
  - destruct (lastBy !! cons_TeaID c) as [t|] eqn:E; [|by rewrite lookup_insert_eq].
    unfold After. destruct (Z.ltb_spec t (cons_Time c)).
    + rewrite lookup_insert_eq. f_equal. lia.
    + etrans; [exact E|]. f_equal. lia.
  - destruct (lastBy !! cons_TeaID c) as [t|]; [|by rewrite lookup_insert_ne].
    destruct (After _ _); [by rewrite lookup_insert_ne|done].
Qed.

(** The last time each tea was drunk. *)
Definition last_times (recent : list Consumption) (lastBy : gmap UUID Time) : Prop :=
  ∀ tea, match lastBy !! tea with
         | Some t => mkConsumption tea t ∈ recent ∧
                     ∀ c, c ∈ recent -> cons_TeaID c = tea -> (cons_Time c <= t)%Z
         | None => ∀ c, c ∈ recent -> cons_TeaID c ≠ tea
         end.

Lemma lastByTea_spec recent : last_times recent (lastByTea recent).
Proof.
  unfold lastByTea. rewrite <-(reverse_involutive recent).
  induction (reverse recent) as [|c l IH]; intros tea.
  { change (fold_left lastByStep (reverse []) ∅) with (∅ : gmap UUID Time). rewrite lookup_empty. by intros c ?%not_elem_of_nil. }
  rewrite reverse_cons, fold_left_app. simpl. rewrite lastByStep_lookup. specialize (IH tea).
  destruct (decide (cons_TeaID c = tea)) as [<-|Hne].
  - destruct (fold_left _ _ _ !! _) as [t|]; setoid_rewrite elem_of_snoc.
    + destruct IH as [Hin Hmax]. split.
      * destruct (Z.max_spec t (cons_Time c)) as [[_ ->]|[_ ->]]; [right; by destruct c|by left].
      * intros c' [Hc'| ->] Hid; [specialize (Hmax c' Hc' Hid)|]; lia.
    + split; [right; by destruct c|]. intros c' [Hc'| ->] Hid; [by edestruct IH|done].
  - destruct (fold_left _ _ _ !! _) as [t|]; setoid_rewrite elem_of_snoc.
    + destruct IH as [Hin Hmax]. split; [by left|]. intros c' [Hc'| ->] Hid; [by apply Hmax|done].
    + intros c' [Hc'| ->]; [by apply IH|done].
Qed.

(** What a best-effort request in the state [w] is taken to answer: its value, or
    [z] when it fails. *)
Definition reported {A} (z : A) (m : M World GoError A) (w : World) : A :=
  match (m w).1 with Ok v => v | _ => z end.

Lemma best_effort_reported {A} (z : A) (m : M World GoError A) w v w' :
  best_effort z m w = (Ok v, w') -> v = reported z m w ∧ w' = (m w).2.
Proof.
  unfold reported. intros [Hm|[[e Hm] ->]]%best_effort_Ok; by rewrite Hm.
Qed.

(** A list of the teas in the user's collections, each with its name, once. *)
Definition owned_teas (v : CollectionView) (user : UUID) (owned : list (UUID * string)) : Prop :=
  NoDup owned.*1 ∧
  ∀ id name, (id, name) ∈ owned <-> ∃ rec, owned_record v user rec ∧ rec_tea rec = id ∧ gt_Name (gqr_Tea rec) = name.

(** The tea a name of the adviser's stands for: up to case and surrounding
    space, the last of the list with that name. *)
Definition stands_for (owned : list (UUID * string)) (name : string) (id : UUID) : Prop :=
  ∃ before name' after, owned = before ++ (id, name') :: after ∧ normalize name' = normalize name ∧
    ∀ x, x ∈ after -> normalize x.2 ≠ normalize name.

(** The scores of the teas are those the adviser gave to their names. *)
Definition adviser_scores (owned : list (UUID * string)) (scores : gmap string Z) (ai : gmap UUID Z) : Prop :=
  ∀ id, match ai !! id with
        | Some score => ∃ name, scores !! name = Some score ∧ stands_for owned name id
        | None => ∀ name, is_Some (scores !! name) -> ¬ stands_for owned name id
        end.

Lemma best_effort_keeps {A} (z : A) (m : M World GoError A) : keeps_db m -> keeps_db (best_effort z m).
Proof.
  intros Hm d. apply preserves_bind; [apply preserves_try, Hm|]. intros r. apply preserves_ret.
Qed.

Definition named_candidates (cands : list Candidate) : list (UUID * string) :=
  (λ c, (cand_ID c, cand_Name c)) <$> cands.

Lemma gathered_owned recs st v user :
  gathered recs st -> (∀ rec, rec ∈ recs <-> owned_record v user rec) ->
  owned_teas v user (named_candidates (ga_candidates st)).
Proof.
  intros Hst Hin. destruct (gathered_candidates _ _ Hst) as (Hnd & _ & Hall). split.
  { unfold named_candidates. by rewrite <-list_fmap_compose. }
  intros id name. unfold named_candidates. rewrite list_elem_of_fmap. split.
  - intros (c & [= -> ->] & (rec & Hrec & Hid & Hname)%(ga_named _ _ Hst)). exists rec. by rewrite <-Hin.
  - intros (rec & Hrec%Hin & <- & <-). destruct (Hall rec Hrec) as (c & Hc & Hid). exists c. split; [|done].
    destruct (ga_named _ _ Hst c Hc) as (rec' & Hrec' & Hid' & Hname').
    rewrite Hid, <-Hname'. f_equal. apply (owned_record_name v user); [by apply Hin..|congruence].
Qed.

(** The map from names to teas holds the last tea of each name. *)
Lemma name_map_lookup cands key id :
  list_to_map (M := gmap string UUID) (reverse (name_entry <$> cands)) !! key = Some id <->
  ∃ before name' after, named_candidates cands = before ++ (id, name') :: after ∧
    normalize name' = key ∧ ∀ x, x ∈ after -> normalize x.2 ≠ key.
Proof.
  induction cands as [|c cands IH] using rev_ind.
  { simpl. rewrite lookup_empty. split; [done|]. by intros ([] & ? & ? & ? & _). }
  unfold named_candidates in *. rewrite !fmap_app, reverse_app. simpl.
  rewrite lookup_insert_Some, IH. unfold name_entry. simpl. split.
  - intros [[<- <-]|[Hne (before & name' & after & -> & Hn & Hafter)]].
    + eexists _, _, []. split_and!; [done..|]. by intros ? ?%not_elem_of_nil.
    + exists before, name', (after ++ [(cand_ID c, cand_Name c)]). rewrite <-app_assoc. split_and!; [done..|].
      intros x [Hx| ->]%elem_of_snoc; [by apply Hafter|done].
  - intros (before & name' & after & Heq & Hn & Hafter).
    destruct after as [|x after _] using rev_ind.
    + apply app_inj_tail in Heq as [<- [= <- <-]]. by left.
    + rewrite app_comm_cons, app_assoc in Heq. apply app_inj_tail in Heq as [Heq <-]. right. split.
      { apply (Hafter (cand_ID c, cand_Name c)), elem_of_snoc. by right. }
      exists before, name', after. split_and!; [done..|]. intros x Hx. apply Hafter, elem_of_snoc. by left.
Qed.

Lemma adviser_scores_fold `{!LocaleLaws} recs st scores n :
  gathered recs st ->
  adviser_scores (named_candidates (ga_candidates st)) scores
    (fold_left (aiScoresStep (ga_nameToID st)) (range_scores n scores) ∅).
Proof.
  intros Hst id. set (owned := named_candidates (ga_candidates st)).
  assert (∀ name id', ga_nameToID st !! normalize name = Some id' <-> stands_for owned name id') as Hmap.
  { intros name id'. rewrite (ga_names_mapped _ _ Hst). apply name_map_lookup. }
  assert (∀ name s, scores !! name = Some s <-> (name, s) ∈ range_scores n scores) as Hrange.
  { intros name s. by rewrite range_scores_all, elem_of_map_to_list. }
  assert (match fold_left (aiScoresStep (ga_nameToID st)) (range_scores n scores) ∅ !! id with
          | Some score => ∃ name, (name, score) ∈ range_scores n scores ∧ stands_for owned name id
          | None => ∀ name s, (name, s) ∈ range_scores n scores -> ¬ stands_for owned name id
          end) as Hfold.
  { clear Hrange. induction (range_scores n scores) as [|[name s] l IH] using rev_ind.
    { simpl. rewrite lookup_empty. by intros ? ? ?%not_elem_of_nil. }
    rewrite fold_left_app. simpl. unfold aiScoresStep at 1. simpl.
    destruct (ga_nameToID st !! normalize name) as [id'|] eqn:Hid.
    - destruct (decide (id' = id)) as [->|Hne].
      + rewrite lookup_insert_eq. exists name. rewrite elem_of_snoc. split; [by right|by apply Hmap].
      + rewrite lookup_insert_ne by done. destruct (fold_left _ _ _ !! id) as [score|].
        * destruct IH as (name1 & ? & ?). exists name1. rewrite elem_of_snoc. auto.
        * intros name1 s1 [Hl|[= -> ->]]%elem_of_snoc; [by eapply IH|]. rewrite <-Hmap. congruence.
    - destruct (fold_left _ _ _ !! id) as [score|].
      + destruct IH as (name1 & ? & ?). exists name1. rewrite elem_of_snoc. auto.
      + intros name1 s1 [Hl|[= -> ->]]%elem_of_snoc; [by eapply IH|]. rewrite <-Hmap. congruence. }
  destruct (fold_left _ _ _ !! id) as [score|].
  - destruct Hfold as (name & ? & ?). exists name. by rewrite Hrange.
  - intros name [s Hs]. eapply Hfold. by apply Hrange.
Qed.

(** The choice, from what the weather, the store and the adviser report. *)
Lemma chooseTea_Ok `{!ServicesLaws, !LocaleLaws} user now recs st w id w' :
  gathered recs st -> chooseTea user now st w = (Ok id, w') ->
  let owned := named_candidates (ga_candidates st) in
  let recently := store_Recent user (now - recentWindow)%Z in
  let wb := (Services_CurrentCyprus w).2 in
  let wc := (recently wb).2 in
  let scores := ContextScores owned.*2 (reported noWeather Services_CurrentCyprus w) (Weekday Local_ now) in
  w_db wb = w_db w ∧ w' = advance (scores wc).2 ∧ w_db w' = w_db wc ∧
  ∃ ai, adviser_scores owned (reported ∅ scores wc) ai ∧
    id = (SelectBest ai (lastByTea (reported [] recently wb)) now (ga_candidates st)).1.
Proof.
  unfold chooseTea. intros Hst Hrun.
  apply bind_Ok_inv in Hrun as (wth & wb & Hw & Hrun).
  apply bind_Ok_inv in Hrun as (recent & wc & Hr & Hrun).
  apply bind_Ok_inv in Hrun as (scores & wd & Hs & Hrun).
  apply bind_Ok_inv in Hrun as (ai & we & Hai & Hrun).
  unfold ret in Hrun. rewrite SelectBestWithLogging_choice in Hrun.
  unfold aiScoresOf in Hai. injection Hai as <- <-. injection Hrun as <- <-.
  assert (w_db wb = w_db w) as Hdb by (refine (keeps_db_run _ _ _ _ _ Hw); apply best_effort_keeps, CurrentCyprus_keeps).
  assert (w_db wd = w_db wc) as Hdb' by (refine (keeps_db_run _ _ _ _ _ Hs); apply best_effort_keeps, ContextScores_keeps).
  apply best_effort_reported in Hw as [-> ->], Hr as [-> ->], Hs as [-> ->].
  assert ((named_candidates (ga_candidates st)).*2 = ga_names st) as ->.
  { rewrite (ga_names_listed _ _ Hst). unfold named_candidates. by rewrite <-list_fmap_compose. }
  split_and!; [done|done|exact Hdb'|]. eexists. split; [by eapply adviser_scores_fold|done].
Qed.

(** A run that does not find an unexpired entry in the cache. *)
Lemma TeaOfTheDay_fresh_inv ctx u w tod w' :
  GetUser ctx = inr u ->
  (cache_Get (usr_ID u) (time_Now (w_tick w)) (w_cache w)).1 = None ->
  TeaOfTheDay ctx w = (Ok tod, w') ->
  let now := time_Now (w_tick w) in
  ∃ cols w1 w2 w3 w4 st bestID w5 qrr,
    w_db w1 = w_db w ∧
    map_err castGQLError (CollectionManager.List_ (usr_ID u)) w1 = (Ok cols, w2) ∧
    gather_collections (usr_ID u) cols noneGathered w2 = (Ok st, w3) ∧ ga_earliestRec st ≠ ∅ ∧
    chooseTea (usr_ID u) now st w3 = (Ok bestID, w4) ∧
    best_effort tt (store_Record (usr_ID u) bestID now) w4 = (Ok tt, w5) ∧
    ga_earliestRec st !! bestID = Some qrr ∧ tod = mkGqlTeaOfTheDay qrr now ∧
    w' = set_cache (cache_Set Local_ (usr_ID u) tod now (w_cache w5)) w5.
Proof.
  intros Hu Hmiss Hrun now. unfold TeaOfTheDay, current_user in Hrun.
  rewrite Hu in Hrun. unfold bind at 1, map_err, of_sum, ret at 1 in Hrun.
  unfold bind at 1, clock_now in Hrun. unfold bind at 1, todCache_Get in Hrun. simpl in Hrun.
  fold now in Hmiss, Hrun. destruct (cache_Get (usr_ID u) now (w_cache w)) as [cached items].
  simpl in Hmiss. subst cached.
  apply bind_Ok_inv in Hrun as (cols & w2 & Hl & Hrun).
  apply bind_Ok_inv in Hrun as (st & w3 & Hg & Hrun).
  case_bool_decide as Hne; [done|].
  apply bind_Ok_inv in Hrun as (bestID & w4 & Hc & Hrun).
  case_bool_decide as Hnil; [done|].
  apply bind_Ok_inv in Hrun as ([] & w5 & Hr & Hrun).
  destruct (ga_earliestRec st !! bestID) as [qrr|] eqn:Hq; [|done].
  unfold bind, todCache_Set, ret in Hrun. simplify_eq.
  eexists cols, _, w2, w3, w4, st, bestID, w5, qrr. by split_and!; [..|exact Hl|exact Hg| | | | | |].
Qed.

(** After an answer the cache holds it until its day ends. *)
Lemma TeaOfTheDay_caches ctx u w tod w' :
  GetUser ctx = inr u ->
  (∀ e, w_cache w !! usr_ID u = Some e -> ce_expiresAt e = nextMidnight Local_ (tod_Date (ce_val e))) ->
  TeaOfTheDay ctx w = (Ok tod, w') ->
  ∃ e, w_cache w' !! usr_ID u = Some e ∧ ce_val e = tod ∧
    ce_expiresAt e = nextMidnight Local_ (tod_Date tod).
Proof.
  intros Hu He Hrun.
  destruct (cache_Get (usr_ID u) (time_Now (w_tick w)) (w_cache w)) as [[v|] items] eqn:Eg.
  - unfold cache_Get, cache_lookup in Eg.
    destruct (w_cache w !! usr_ID u) as [e|] eqn:Ee; [|done].
    destruct (negb _) eqn:Eb; [done|]. simplify_eq.
    unfold TeaOfTheDay, current_user in Hrun. rewrite Hu in Hrun.
    unfold bind, map_err, of_sum, ret, clock_now, todCache_Get, cache_Get, cache_lookup in Hrun.
    simpl in Hrun. rewrite Ee, Eb in Hrun. simplify_eq. simpl. exists e. by auto.
  - destruct (TeaOfTheDay_fresh_inv _ _ _ _ _ Hu ltac:(by rewrite Eg) Hrun)
      as (? & ? & ? & ? & ? & ? & ? & w5 & qrr & _ & _ & _ & _ & _ & _ & _ & -> & ->).
    eexists. split; [apply lookup_insert_eq|done].
Qed.
End choice.

(** No other record of the same tea expires before it. *)
Definition expires_first (v : CollectionView) (user : UUID) (rec : gqlQRRecord) : Prop :=
  owned_record v user rec ∧
  ∀ rec', owned_record v user rec' -> rec_tea rec' = rec_tea rec ->
    (gqr_ExpirationDate rec <= gqr_ExpirationDate rec')%Z.

(** ** Properties *)

(** C15: a fresh tea of the day is a record of one of the user's collections, the
    first of its tea to expire, and no tea of the user's collections scores
    higher. The scores are made of what the adviser answers for the names of
    the user's teas, the reported weather and the day of the week (an answer
    goes to the tea whose name it has up to case and surrounding space), of the
    last time each tea was drunk in the four days the store reports, and of the
    first expiration date of the tea; the weather, the store and the adviser
    are asked in this order, and one that fails counts as having said nothing.
    Then the choice is recorded as drunk, a failure to do so changing nothing
    in the answer, and the answer is cached until the next local midnight. *)
Theorem TeaOfTheDay_is_a_best_choice `{Env, AuthLib, ServicesLaws, LocaleLaws, !Store World} ctx u w tod w' :
  world_wf w -> (∀ d, teas (w_db w) !! uuid_Nil ≠ Some d) -> GetUser ctx = inr u ->
  (cache_Get (usr_ID u) (time_Now (w_tick w)) (w_cache w)).1 = None ->
  TeaOfTheDay ctx w = (Ok tod, w') ->
  let now := time_Now (w_tick w) in
  let recently := store_Recent (usr_ID u) (now - recentWindow)%Z in
  tod_Date tod = now ∧ expires_first (cs_view w) (usr_ID u) (tod_Tea tod) ∧
  ∃ wa owned ai lastBy,
    let wb := (Services_CurrentCyprus wa).2 in
    let wc := (recently wb).2 in
    let scores := ContextScores owned.*2 (reported noWeather Services_CurrentCyprus wa) (Weekday Local_ now) in
    let wd := advance (scores wc).2 in
    let we := (store_Record (usr_ID u) (rec_tea (tod_Tea tod)) now wd).2 in
    w_db wa = w_db w ∧ w_db wb = w_db w ∧ w_db wd = w_db wc ∧
    owned_teas (cs_view w) (usr_ID u) owned ∧
    adviser_scores owned (reported ∅ scores wc) ai ∧ last_times (reported [] recently wb) lastBy ∧
    (∀ rec, expires_first (cs_view w) (usr_ID u) rec ->
       (record_score ai lastBy now rec <= record_score ai lastBy now (tod_Tea tod))%Z) ∧
    w' = set_cache (<[usr_ID u := mkCached tod (nextMidnight Local_ now)]> (w_cache we)) we.
Proof.
  intros Hw Hnil Hu Hmiss Hrun now recently.
  destruct (TeaOfTheDay_fresh_inv _ _ _ _ _ Hu Hmiss Hrun) as (cols & w1 & w2 & w3 & w4 & st & bestID
    & w5 & qrr & Hdb1 & Hl & Hg & _ & Hchoose & Hrecord & Hbest & -> & ->).
  fold now in Hchoose, Hrecord |- *. simpl. split; [done|].
  assert (w_db w3 = w_db w) as Hdb3.
  { rewrite (keeps_db_run _ _ _ _ (gather_collections_keeps _ _ _) Hg), <-Hdb1.
    refine (keeps_db_run _ _ _ _ _ Hl). intros d.
    by apply preserves_map_err, (collection_reads_keep _ uuid_Nil). }
  assert (cs_view w1 = cs_view w) as Hv1 by exact (f_equal db_collections Hdb1).
  assert (world_wf w1) as Hw1 by (unfold world_wf; by rewrite Hdb1).
  destruct (gather_user _ _ _ _ _ _ Hw1 Hl Hg) as (_ & _ & recs & Hst & Hin).
  rewrite Hv1 in Hin. destruct (ga_earliest _ _ Hst _ _ Hbest) as (Hqrr & Hid & Hfirst).
  split; [split; [by apply Hin|]; intros rec' Hrec' Htea; apply Hfirst; [by apply Hin|congruence]|].
  destruct (chooseTea_Ok _ _ _ _ _ _ _ Hst Hchoose) as (Hwb & Hwd & Hdb & ai & Hai & ->).
  exists w3, (named_candidates (ga_candidates st)), ai, (lastByTea (reported [] recently (Services_CurrentCyprus w3).2)).
  cbn [tod_Tea]. unfold recently. rewrite Hid, <-Hwd.
  apply best_effort_reported in Hrecord as [_ <-].
  split_and!; [done|by etransitivity|by rewrite Hwd in Hdb|by eapply gathered_owned|exact Hai|apply lastByTea_spec| |done].
  intros rec [Howned Hrfirst]. refine (gathered_best _ _ _ _ _ _ Hst _ Hbest rec _ _).
  - intros r Hr. apply Hin in Hr. by eapply owned_record_tea.
  - by apply Hin.
  - intros rec' Hrec'. apply Hrfirst. by apply Hin.
Qed.

(** C26: within a local day the answer stays the same. Whatever happened to the
    database in between, a later request of the user on the day of the choice
    is answered with the same tea from the cache, without a round trip and
    without recording a consumption; on a later day the choice is made anew. *)
Theorem TeaOfTheDay_is_stable `{Env, AuthLib, Services, Locale, !Store World} ctx u w tod w' :
  GetUser ctx = inr u ->
  (∀ e, w_cache w !! usr_ID u = Some e -> ce_expiresAt e = nextMidnight Local_ (tod_Date (ce_val e))) ->
  TeaOfTheDay ctx w = (Ok tod, w') ->
  ∀ w2 off, let now2 := time_Now (w_tick w2) in
    w_cache w2 !! usr_ID u = w_cache w' !! usr_ID u ->
    steady_offset Local_ (tod_Date tod) off -> steady_offset Local_ now2 off ->
    (tod_Date tod <= now2)%Z ->
    if decide (civil_day Local_ now2 = civil_day Local_ (tod_Date tod))
    then TeaOfTheDay ctx w2 = (Ok tod, advance w2)
    else (cache_Get (usr_ID u) now2 (w_cache w2)).1 = None.
Proof.
  intros Hu He Hrun w2 off now2 Hsame Hs1 Hs2 Hle.
  destruct (TeaOfTheDay_caches _ _ _ _ _ Hu He Hrun) as (e & Hc & <- & Hexp).
  rewrite <-Hsame in Hc. destruct (before_nextMidnight _ _ _ _ Hs1 Hs2 Hle) as [_ Hiff].
  rewrite <-Hexp in Hiff. unfold cache_Get, cache_lookup. rewrite Hc. case_decide as Hday.
  - apply Hiff in Hday. unfold TeaOfTheDay, current_user. rewrite Hu.
    unfold bind, map_err, of_sum, ret, clock_now, todCache_Get, cache_Get, cache_lookup. simpl.
    rewrite Hc. unfold Before. fold now2. rewrite (proj2 (Z.ltb_lt _ _) Hday). simpl.
    by destruct w2.
  - unfold Before. rewrite (proj2 (Z.ltb_ge _ _)); [done|]. destruct (Z.le_gt_cases (ce_expiresAt e) now2); [done|].
    destruct Hday. by apply Hiff.
Qed.

(** ** Witnesses

    The weather service is down; the adviser likes Sencha. *)
Definition exampleServices : Services := {|
  GenerateDescription name := ret name;
  StartGenerateDescription name := ret [name];
  RecommendTea _ _ _ := ret "";
  RecommendTeaStream _ _ _ := ret [];
  ContextScores _ _ _ := ret {["SENCHA" := 9%Z]};
  Services_CurrentCyprus := throw (EForeign "timeout");
  Run := ret tt;
  gqlerror_text m _ := m |}.

#[export] Instance exampleServicesLaws : @ServicesLaws exampleServices.
Proof. split; intros; intros d; by intros w. Qed.

Definition exampleLocale : Locale := {|
  Local_ := UTC;
  ToLower := lower_string;
  TrimSpace s := s;
  range_scores _ m := map_to_list m;
  FormatRFC3339 _ := "" |}.

#[export] Instance exampleLocaleLaws : @LocaleLaws exampleLocale.
Proof. by split. Qed.

#[local] Existing Instance exampleEnv.
#[local] Existing Instance exampleAuthLib.
#[local] Existing Instance exampleServices.
#[local] Existing Instance exampleLocale.

Definition aliceUser : User := mkUser alice "" "token" tomorrow.
Definition aliceCtx : Ctx := mkCtx (Some aliceUser) None.

(** The record of box 1, as the API shows it. *)
Definition box1Record : gqlQRRecord :=
  mkGqlQRRecord box1 (mkGqlTea sencha "Sencha" "tea" "green") 80 tomorrow.
Definition exampleTod : gqlTeaOfTheDay := mkGqlTeaOfTheDay box1Record (exampleClock (w_tick exampleWorld)).

Section witnesses.
#[local] Instance exampleStore : Store World := PGStore_Store (NewPGStore 0%Z).

Lemma TeaOfTheDay_example : (TeaOfTheDay aliceCtx exampleWorld).1 = Ok exampleTod.
Proof. vm_compute. reflexivity. Qed.

Lemma TeaOfTheDay_is_a_best_choice_witness :
  (TeaOfTheDay aliceCtx exampleWorld).1 = Ok exampleTod ∧
  expires_first (cs_view exampleWorld) alice box1Record.
Proof.
  split; [exact TeaOfTheDay_example|].
  refine (proj1 (proj2 (TeaOfTheDay_is_a_best_choice aliceCtx aliceUser exampleWorld exampleTod
    (TeaOfTheDay aliceCtx exampleWorld).2 _ _ eq_refl _ _))).
  - exact exampleWorld_wf.
  - vm_compute. done.
  - vm_compute. reflexivity.
  - rewrite <-TeaOfTheDay_example. apply surjective_pairing.
Defined.

Definition servedWorld : World := (TeaOfTheDay aliceCtx exampleWorld).2.

Lemma servedWorld_run : TeaOfTheDay aliceCtx exampleWorld = (Ok exampleTod, servedWorld).
Proof. rewrite <-TeaOfTheDay_example. apply surjective_pairing. Qed.

(** The next request comes a moment later, and finds an empty database. *)
Lemma servedWorld_tick : w_tick (set_db empty_db servedWorld) = 26.
Proof. vm_compute. reflexivity. Qed.

Lemma servedWorld_cache i :
  w_cache (set_db empty_db servedWorld) !! i = w_cache servedWorld !! i.
Proof. generalize servedWorld. by intros []. Qed.

Lemma exampleWorld_cache : w_cache exampleWorld = ∅.
Proof. vm_compute. reflexivity. Qed.

Lemma same_day :
  civil_day Local_ (time_Now (w_tick (set_db empty_db servedWorld))) = civil_day Local_ (tod_Date exampleTod)
  ∧ (tod_Date exampleTod <= time_Now (w_tick (set_db empty_db servedWorld)))%Z.
Proof. rewrite servedWorld_tick. split; [vm_compute; reflexivity|]. apply Z.leb_le. vm_compute. reflexivity. Qed.

Lemma TeaOfTheDay_is_stable_witness :
  TeaOfTheDay aliceCtx (set_db empty_db servedWorld) = (Ok exampleTod, advance (set_db empty_db servedWorld)).
Proof.
  pose proof (TeaOfTheDay_is_stable aliceCtx aliceUser exampleWorld exampleTod servedWorld eq_refl) as Hs.
  rewrite exampleWorld_cache in Hs.
  specialize (Hs ltac:(intros e; by rewrite lookup_empty) servedWorld_run (set_db empty_db servedWorld) 0%Z
    (servedWorld_cache alice) (FixedZone_steady 0 _ (conj eq_refl eq_refl)) (FixedZone_steady 0 _ (conj eq_refl eq_refl))
    (proj2 same_day)).
  rewrite decide_True in Hs by exact (proj1 same_day). exact Hs.
Defined.
End witnesses.
