(* ===== verification/Api.v ===== *)
(** The operations of the GraphQL API as one type, and what a caller can do with
    them: which part of the database an operation can change, by the principal
    it runs as. *)

From stdpp Require Import base gmap sets list strings sorting.
From Stdlib Require Import ZArith Lia.
From S2P Require Import Prelude GoTime Common Models Consumption TodCache Env Schema Sql World Queries.
From S2P Require Import PgAdapter Interfaces PgStorage Managers PgConsumption EventLoop Frame Example.
From S2P Require Import StorageTheorems AuthLib Auth Weather Resolvers TeaOfTheDay.

(** The mutations and queries of the schema. *)
Inductive operation : Type :=
  | DoAuthApple (appleCode : string) (deviceID : UUID)
  | DoNewTea (tea : gqlTeaData)
  | DoUpdateTea (id : UUID) (tea : gqlTeaData)
  | DoAddTagToTea (teaID tagID : UUID)
  | DoDeleteTagFromTea (teaID tagID : UUID)
  | DoDeleteTea (id : UUID)
  | DoWriteToQR (id : UUID) (data : gqlQRRecordData)
  | DoCreateTagCategory (name : string)
  | DoUpdateTagCategory (id : UUID) (name : string)
  | DoDeleteTagCategory (id : UUID)
  | DoCreateTag (name color : string) (category : UUID)
  | DoUpdateTag (id : UUID) (name color : string)
  | DoChangeTagCategory (id category : UUID)
  | DoDeleteTag (id : UUID)
  | DoCreateCollection (name : string)
  | DoAddRecordsToCollection (id : UUID) (records : list UUID)
  | DoDeleteRecordsFromCollection (id : UUID) (records : list UUID)
  | DoDeleteCollection (id : UUID)
  | DoRegisterDeviceToken (deviceID : UUID) (deviceToken : string)
  | DoSend
  | DoTeaRecommendation (collectionID : UUID) (feelings : string)
  | DoMe
  | DoTeas (prefix : option string)
  | DoTea (id : UUID)
  | DoGenerateDescription (name : string)
  | DoQRRecord (id : UUID)
  | DoTag (id : UUID)
  | DoTagsCategories (name : option string)
  | DoCollections
  | DoTeaOfTheDay.

(** The operations that change the catalogue of teas and tags. *)
Definition admin_operation (op : operation) : bool :=
  match op with
  | DoNewTea _ | DoUpdateTea _ _ | DoAddTagToTea _ _ | DoDeleteTagFromTea _ _ | DoDeleteTea _
  | DoCreateTagCategory _ | DoUpdateTagCategory _ _ | DoDeleteTagCategory _
  | DoCreateTag _ _ _ | DoUpdateTag _ _ _ | DoChangeTagCategory _ _ | DoDeleteTag _ => true
  | _ => false
  end.

(** The operations on behalf of a user. *)
Definition user_operation (op : operation) : bool :=
  match op with
  | DoCreateCollection _ | DoAddRecordsToCollection _ _ | DoDeleteRecordsFromCollection _ _
  | DoDeleteCollection _ | DoSend | DoTeaRecommendation _ _ | DoMe | DoCollections | DoTeaOfTheDay => true
  | _ => false
  end.

(** The result of an operation, without its data. *)
Definition void {S E A} (m : M S E A) : M S E unit := let! _ := m in ret tt.

Section api.
Context `{Env, AuthLib, Services, Locale} (a : auth) (st : PGStore).

Definition api_store : Store World := PGStore_Store st.

Definition run_operation (op : operation) (ctx : Ctx) : M World GoError unit :=
  match op with
  | DoAuthApple appleCode deviceID => void (AuthApple a appleCode deviceID)
  | DoNewTea tea => void (NewTea ctx tea)
  | DoUpdateTea id tea => void (UpdateTea ctx id tea)
  | DoAddTagToTea teaID tagID => void (AddTagToTea ctx teaID tagID)
  | DoDeleteTagFromTea teaID tagID => void (DeleteTagFromTea ctx teaID tagID)
  | DoDeleteTea id => void (DeleteTea ctx id)
  | DoWriteToQR id data => void (WriteToQR id data)
  | DoCreateTagCategory name => void (CreateTagCategory ctx name)
  | DoUpdateTagCategory id name => void (UpdateTagCategory ctx id name)
  | DoDeleteTagCategory id => void (DeleteTagCategory ctx id)
  | DoCreateTag name color category => void (CreateTag ctx name color category)
  | DoUpdateTag id name color => void (UpdateTag ctx id name color)
  | DoChangeTagCategory id category => void (ChangeTagCategory ctx id category)
  | DoDeleteTag id => void (DeleteTag ctx id)
  | DoCreateCollection name => void (CreateCollection ctx name)
  | DoAddRecordsToCollection id records => void (AddRecordsToCollection ctx id records)
  | DoDeleteRecordsFromCollection id records => void (DeleteRecordsFromCollection ctx id records)
  | DoDeleteCollection id => void (DeleteCollection ctx id)
  | DoRegisterDeviceToken deviceID deviceToken => void (RegisterDeviceToken deviceID deviceToken)
  | DoSend => void (Send ctx)
  | DoTeaRecommendation collectionID feelings => void (TeaRecommendation ctx collectionID feelings)
  | DoMe => void (Me ctx)
  | DoTeas prefix => void (Teas prefix)
  | DoTea id => void (Query_Tea id)
  | DoGenerateDescription name => void (Query_GenerateDescription name)
  | DoQRRecord id => void (Query_QRRecord id)
  | DoTag id => void (Query_Tag id)
  | DoTagsCategories name => void (TagsCategories name)
  | DoCollections => void (Query_Collections ctx)
  | DoTeaOfTheDay => void (TeaOfTheDay (Store0 := api_store) ctx)
  end.
End api.

(** ** Frames of the operations *)
#[export] Hint Unfold void require_admin current_user AuthApple WriteToQR CreateCollection
  AddRecordsToCollection DeleteRecordsFromCollection DeleteCollection RegisterDeviceToken Send
  recommendation_input TeaRecommendation Me Teas Query_Tea Query_GenerateDescription Query_QRRecord
  Query_Tag TagsCategories Query_Collections
  TeaManager.Get TeaManager.List_ TagManager.Get TagManager.ListCategory
  CollectionManager.Create CollectionManager.AddRecords CollectionManager.DeleteRecords
  CollectionManager.Delete CollectionManager.List_ CollectionManager.ListRecords
  QRManager.Set_ QRManager.Get NotificationManager.BindDevice NotificationManager.RegisterDeviceToken
  Auth best_effort : go_preserves.

#[export] Hint Resolve keeps_db_keeps : go_preserves.
#[export] Hint Resolve GenerateDescription_keeps StartGenerateDescription_keeps RecommendTea_keeps
  RecommendTeaStream_keeps ContextScores_keeps CurrentCyprus_keeps Run_keeps : go_preserves.

(** The storage of the managers is the database adapter. *)
Ltac pg := cbn [ts_WriteRecord ts_ReadRecord ts_ReadAllRecords ts_Update ts_Delete Pg_TeaStorage
  gs_CreateTagCategory gs_UpdateTagCategory gs_DeleteTagCategory gs_GetTagCategory gs_ListTagCategories
  gs_CreateTag gs_UpdateTag gs_ChangeTagCategory gs_DeleteTag gs_GetTag gs_ListTags gs_AddTagToTea
  gs_DeleteTagFromTea gs_ListByTea Pg_TagStorage
  cs_CreateCollection cs_AddTeaToCollection cs_DeleteTeaFromCollection cs_DeleteCollection
  cs_Collections cs_Collection cs_CollectionRecords Pg_CollectionStorage
  store_Record store_Recent PGStore_Store api_store].
Ltac frame :=
  repeat (autounfold with go_preserves; pg; cbn beta iota zeta);
  repeat first
    [ progress intros
    | apply preserves_bind | apply preserves_map_err | apply preserves_for_range | apply preserves_try
    | case_match | solve [eauto 4 with go_preserves] ].

Section frames.
Context `{Env, AuthLib, ServicesLaws, Locale} (a : auth) (st : PGStore).

Lemma TeaOfTheDay_frame {T} (f : Database → T) x ctx :
  (∀ user tea ts, preserves (λ w, f (w_db w) = x) (PGStore_Record st user tea ts)) ->
  preserves (λ w, f (w_db w) = x) (TeaOfTheDay (Store0 := api_store st) ctx).
Proof.
  unfold TeaOfTheDay, chooseTea. pg. generalize (PGStore_Record st). intros record Hrec.
  assert (∀ user now, preserves (λ w, f (w_db w) = x) (todCache_Get user now)) as Hget.
  { intros user now w Hw. unfold todCache_Get. by destruct (cache_Get _ _ _). }
  assert (∀ user v now, preserves (λ w, f (w_db w) = x) (todCache_Set user v now)) as Hset by (by intros ? ? ? w).
  assert (∀ user cols g, preserves (λ w, f (w_db w) = x) (gather_collections user cols g)) as Hgather.
  { intros. apply keeps_db_keeps, gather_collections_keeps. }
  assert (∀ m s, preserves (λ w, f (w_db w) = x) (aiScoresOf m s)) as Hai by (by intros ? ? w).
  frame.
Qed.

Lemma run_operation_catalogue op ctx x :
  admin_operation op = false ->
  preserves (λ w, catalogue (w_db w) = x) (run_operation a st op ctx).
Proof.
  destruct op; intros Hop; try discriminate Hop; cbn [run_operation].
  all: try (frame; fail).
  apply preserves_bind; [|frame]. apply TeaOfTheDay_frame. intros. frame.
Qed.

(** The operations that do not deal in collections. *)
Definition collection_operation (op : operation) : bool :=
  match op with
  | DoCreateCollection _ | DoAddRecordsToCollection _ _ | DoDeleteRecordsFromCollection _ _
  | DoDeleteCollection _ => true
  | _ => false
  end.

Lemma run_operation_shelves op ctx x :
  admin_operation op = false -> collection_operation op = false ->
  preserves (λ w, shelves (w_db w) = x) (run_operation a st op ctx).
Proof.
  destruct op; intros Hop Hcol; try discriminate Hop; try discriminate Hcol; cbn [run_operation].
  all: try (frame; fail).
  apply preserves_bind; [|frame]. apply TeaOfTheDay_frame. intros. frame.
Qed.

Lemma run_operation_no_admin op ctx w :
  admin_operation op = true -> ctx_admin ctx = None ->
  run_operation a st op ctx w = (Err (EGql "unauthenticated" (Some (CodeName "UNAUTHENTICATED"))), w).
Proof.
  destruct op; intros Hop Hctx; try discriminate Hop; cbn [run_operation];
    unfold void, bind, map_err, NewTea, UpdateTea, AddTagToTea, DeleteTagFromTea, DeleteTea,
      CreateTagCategory, UpdateTagCategory, DeleteTagCategory, CreateTag, UpdateTag, ChangeTagCategory,
      DeleteTag, require_admin, of_sum, RequireAdmin, AdminPrincipalFrom; simpl; by rewrite Hctx.
Qed.

Lemma run_operation_no_user op ctx w :
  user_operation op = true -> ctx_user ctx = None ->
  run_operation a st op ctx w = (Err (EGql "user not found" (Some (CodeNumber GQLErrUserNotFound))), w).
Proof.
  destruct op; intros Hop Hctx; try discriminate Hop; cbn [run_operation];
    unfold void, bind, map_err, CreateCollection, AddRecordsToCollection, DeleteRecordsFromCollection,
      DeleteCollection, Send, TeaRecommendation, recommendation_input, Me, Query_Collections, TeaOfTheDay,
      current_user, of_sum, GetUser; by rewrite Hctx.
Qed.
End frames.

(** ** Other people's collections *)

(** The collections of everybody but [user], with their records, are as before. *)
Definition others_kept (user : option UUID) (v v' : CollectionView) : Prop :=
  ∀ id owner name, cv_collections v !! id = Some (owner, name) -> Some owner ≠ user ->
    cv_collections v' !! id = Some (owner, name) ∧
    ∀ q, (id, q) ∈ cv_items v' <-> (id, q) ∈ cv_items v.

Section others.
Context `{Env}.

Lemma others_kept_same user v v' :
  cv_collections v' = cv_collections v -> cv_items v' = cv_items v -> others_kept user v v'.
Proof. intros Hc Hi id owner name Hid _. by rewrite Hc, Hi. Qed.

Lemma shelves_others user w w' :
  shelves (w_db w') = shelves (w_db w) -> others_kept user (cs_view w) (cs_view w').
Proof. intros [= Hc Hi]. apply others_kept_same; simpl; [by rewrite Hc|done]. Qed.

Lemma AddRecords_others user id qrs w r w' :
  world_wf w -> CollectionManager.AddRecords user id qrs w = (r, w') ->
  others_kept (Some user) (cs_view w) (cs_view w').
Proof.
  intros Hw Hr. apply AddRecords_spec in Hr as [_ [(name & Hown & [Hv|Hv] & _)|[Hv _]]];
    [| |by rewrite Hv; apply others_kept_same|done]; rewrite Hv; [by apply others_kept_same|].
  intros id' owner name' Hid Hne. split; [done|]. intros q. simpl.
  unfold known_items. rewrite elem_of_union, elem_of_list_to_set, list_elem_of_fmap.
  split; [|by right]. intros [(q' & [= -> ->] & _)|?]; [|done]. congruence.
Qed.

Lemma DeleteRecords_others user id qrs w r w' :
  world_wf w -> CollectionManager.DeleteRecords user id qrs w = (r, w') ->
  others_kept (Some user) (cs_view w) (cs_view w').
Proof.
  intros Hw Hr. apply DeleteRecords_spec in Hr as [_ [(name & n & Hown & Hv & _)|[Hv _]]];
    [|by rewrite Hv; apply others_kept_same|done]. rewrite Hv.
  intros id' owner name' Hid Hne. split; [done|]. intros q. simpl. rewrite elem_of_filter. simpl.
  split; [by intros [_ ?]|]. intros Hq. split; [|done]. intros [-> _]. congruence.
Qed.

Lemma Delete_others user id w r w' :
  world_wf w -> CollectionManager.Delete user id w = (r, w') ->
  others_kept (Some user) (cs_view w) (cs_view w').
Proof.
  intros Hw Hr. apply (run_spec (OpDeleteCollection id user)) in Hr as [_ Hp]; [|done].
  assert (cs_view w' = cs_view w ∨ collection_effect (OpDeleteCollection id user) (cs_view w) tt (cs_view w'))
    as [->|Hv] by (destruct r as [[]|e| |]; [by right| |done..]; destruct Hp as [?|[[] ?]]; auto);
    [by apply others_kept_same|].
  cbn [collection_effect] in Hv. rewrite Hv. intros id' owner name' Hid Hne.
  destruct (cv_collections (cs_view w) !! id) as [[owner0 name0]|] eqn:E; [|done].
  destruct (decide (owner0 = user)) as [->|]; [|done]. simpl.
  assert (id ≠ id') by congruence. rewrite lookup_delete_ne by done. split; [done|].
  intros q. rewrite elem_of_filter. simpl. naive_solver.
Qed.

Lemma Create_others user name w r w' :
  world_wf w -> CollectionManager.Create user name w = (r, w') ->
  others_kept (Some user) (cs_view w) (cs_view w').
Proof.
  intros Hw Hr. unfold CollectionManager.Create, bind in Hr.
  destruct (cs_CreateCollection user name w) as [r1 w1] eqn:E.
  apply (run_spec (OpCreateCollection user name)) in E as [_ Hp]; [|done].
  assert (w1 = w') as -> by (destruct r1; unfold ret in Hr; by simplify_eq).
  assert (cs_view w' = cs_view w ∨ ∃ id, collection_effect (OpCreateCollection user name) (cs_view w) id (cs_view w'))
    as [->|(id & Hnone & _ & ->)] by (destruct r1 as [id|e| |]; [right; by exists id| |done..];
      destruct Hp as [?|[id ?]]; eauto); [by apply others_kept_same|].
  intros id' owner name' Hid Hne. simpl. split; [|done].
  rewrite lookup_insert_ne; [done|]. congruence.
Qed.
End others.

Section contained.
Context `{Env, AuthLib, ServicesLaws, Locale} (a : auth) (st : PGStore).

(** A run of a manager's method behind [castGQLError] and [void]. *)
Lemma void_cast_run {A} (m : M World GoError A) w r w' :
  void (map_err castGQLError m) w = (r, w') -> ∃ r0, m w = (r0, w').
Proof.
  unfold void, bind, map_err, ret. destruct (m w) as [[v|e| |] w1]; intros; simplify_eq; eauto.
Qed.

Lemma collection_operation_others op ctx u w r w' :
  world_wf w -> collection_operation op = true -> ctx_user ctx = Some u ->
  run_operation a st op ctx w = (r, w') ->
  others_kept (Some (usr_ID u)) (cs_view w) (cs_view w').
Proof.
  intros Hw Hop Hu Hrun.
  assert (∀ S, current_user (S := S) ctx = ret u) as Huser.
  { intros S. unfold current_user, GetUser. by rewrite Hu. }
  destruct op; try discriminate Hop; cbn [run_operation] in Hrun.
  - unfold CreateCollection in Hrun. rewrite Huser in Hrun. apply void_cast_run in Hrun as [r0 Hr].
    by eapply Create_others.
  - unfold AddRecordsToCollection in Hrun. rewrite Huser in Hrun. apply void_cast_run in Hrun as [r0 Hr].
    by eapply AddRecords_others.
  - unfold DeleteRecordsFromCollection in Hrun. rewrite Huser in Hrun.
    apply void_cast_run in Hrun as [r0 Hr]. by eapply DeleteRecords_others.
  - unfold DeleteCollection in Hrun. rewrite Huser in Hrun.
    unfold void, bind, map_err, ret in Hrun.
    destruct (CollectionManager.Delete (usr_ID u) id w) as [r0 w1] eqn:E.
    assert (w1 = w') as -> by (destruct r0; by simplify_eq). by eapply Delete_others.
Qed.
(** Without an admin the catalogue stays, *)
Lemma no_admin_keeps_catalogue op ctx w r w' :
  ctx_admin ctx = None -> run_operation a st op ctx w = (r, w') -> catalogue (w_db w') = catalogue (w_db w).
Proof.
  intros Hadmin Hrun. destruct (admin_operation op) eqn:Hop.
  { rewrite run_operation_no_admin in Hrun by done. by simplify_eq. }
  pose proof (run_operation_catalogue a st op ctx _ Hop w eq_refl) as Hc. by rewrite Hrun in Hc.
Qed.

(** and so do the collections of everybody but the user. *)
Lemma no_admin_keeps_others op ctx w r w' :
  world_wf w -> ctx_admin ctx = None -> run_operation a st op ctx w = (r, w') ->
  others_kept (usr_ID <$> ctx_user ctx) (cs_view w) (cs_view w').
Proof.
  intros Hw Hadmin Hrun. destruct (admin_operation op) eqn:Hop.
  { rewrite run_operation_no_admin in Hrun by done. simplify_eq. by apply others_kept_same. }
  destruct (collection_operation op) eqn:Hcol.
  - destruct (ctx_user ctx) as [u|] eqn:Hu; [by eapply collection_operation_others|].
    rewrite run_operation_no_user in Hrun by (by destruct op). simplify_eq. by apply others_kept_same.
  - apply shelves_others. pose proof (run_operation_shelves a st op ctx _ Hop Hcol w eq_refl) as Hs.
    by rewrite Hrun in Hs.
Qed.
End contained.

(** ** Collections in answers *)
Section answers.
Context `{Env}.

(** The collection of an answer is one of the user, under its name. *)
Definition shelf_of (user : UUID) (v : CollectionView) (c : gqlCollection) : Prop :=
  gcol_UserID c = user ∧ cv_collections v !! gcol_ID c = Some (user, gcol_Name c).

Lemma Create_answer user name w c w1 :
  world_wf w -> CollectionManager.Create user name w = (Ok c, w1) -> shelf_of user (cs_view w1) c.
Proof.
  intros Hw Hr. unfold CollectionManager.Create in Hr. inv_go Hr.
  apply (run_spec (OpCreateCollection user name)) in Hr0 as [_ (_ & _ & ->)]; [|done].
  split; [done|]. apply lookup_insert_eq.
Qed.

Lemma AddRecords_answer user id qrs w c w1 :
  world_wf w -> CollectionManager.AddRecords user id qrs w = (Ok c, w1) -> shelf_of user (cs_view w1) c.
Proof.
  intros Hw Hr. apply AddRecords_spec in Hr as [_ [(name & Hn & _ & -> & ->)|(_ & e & [=])]]; done.
Qed.

Lemma DeleteRecords_answer user id qrs w c w1 :
  world_wf w -> CollectionManager.DeleteRecords user id qrs w = (Ok c, w1) -> shelf_of user (cs_view w1) c.
Proof.
  intros Hw Hr. apply DeleteRecords_spec in Hr as [_ [(name & n & Hn & -> & -> & _)|(_ & e & [=])]]; done.
Qed.

Lemma List_answer user w l w1 c :
  world_wf w -> CollectionManager.List_ user w = (Ok l, w1) -> c ∈ l -> shelf_of user (cs_view w1) c.
Proof.
  intros Hw Hr Hc. unfold CollectionManager.List_ in Hr. inv_go Hr.
  apply (run_spec (OpCollections user)) in Hr0 as [_ (-> & _ & Hin)]; [|done].
  apply list_elem_of_fmap in Hc as (col & -> & Hcol). split; [done|]. by apply Hin.
Qed.
End answers.

(** The ways in which a request of [ctx] gets hold of a collection. *)
Inductive answered `{Env, Services} (ctx : Ctx) (w : World) : gqlCollection → World → Prop :=
  | by_create name c w1 : CreateCollection ctx name w = (Ok c, w1) -> answered ctx w c w1
  | by_add id qrs c w1 : AddRecordsToCollection ctx id qrs w = (Ok c, w1) -> answered ctx w c w1
  | by_delete id qrs c w1 : DeleteRecordsFromCollection ctx id qrs w = (Ok c, w1) -> answered ctx w c w1
  | by_query l c w1 : Query_Collections ctx w = (Ok l, w1) -> c ∈ l -> answered ctx w c w1
  | by_field l c w1 : User_Collections ctx w = (Ok l, w1) -> c ∈ l -> answered ctx w c w1.

Lemma answered_shelf `{Env, Services} ctx u w c w1 :
  world_wf w -> ctx_user ctx = Some u -> answered ctx w c w1 -> shelf_of (usr_ID u) (cs_view w1) c.
Proof.
  intros Hw Hu Ha. assert (current_user (S := World) ctx = ret u) as Huser by (unfold current_user, GetUser; by rewrite Hu).
  destruct Ha as [name c w1 Hr|id qrs c w1 Hr|id qrs c w1 Hr|l c w1 Hr Hc|l c w1 Hr Hc];
    unfold CreateCollection, AddRecordsToCollection, DeleteRecordsFromCollection, User_Collections, Query_Collections in Hr;
    rewrite Huser in Hr; inv_go Hr.
  - by eapply Create_answer.
  - by eapply AddRecords_answer.
  - by eapply DeleteRecords_answer.
  - by eapply List_answer.
  - by eapply List_answer.
Qed.

(** ** Properties *)

(** C11: what a request can change is bounded by who sent it. Without an admin
    token every operation on the catalogue fails with UNAUTHENTICATED and
    changes nothing at all, and no operation changes the teas, the tags, the
    categories or the tags of teas; without a user every operation on behalf of
    a user fails with code 3 and changes nothing; and no operation touches the
    collections of another user, or which records are in them. *)
Theorem unprivileged_operations_are_contained `{Env, AuthLib, ServicesLaws, Locale} a st op ctx w r w' :
  world_wf w -> ctx_admin ctx = None -> run_operation a st op ctx w = (r, w') ->
  (admin_operation op = true ->
     r = Err (EGql "unauthenticated" (Some (CodeName "UNAUTHENTICATED"))) ∧ w' = w) ∧
  (user_operation op = true -> ctx_user ctx = None ->
     r = Err (EGql "user not found" (Some (CodeNumber GQLErrUserNotFound))) ∧ w' = w) ∧
  catalogue (w_db w') = catalogue (w_db w) ∧
  others_kept (usr_ID <$> ctx_user ctx) (cs_view w) (cs_view w').
Proof.
  intros Hw Hadmin Hrun. split_and!.
  - intros Hop. rewrite run_operation_no_admin in Hrun by done. by simplify_eq.
  - intros Hop Hu. rewrite run_operation_no_user in Hrun by done. by simplify_eq.
  - by eapply no_admin_keeps_catalogue.
  - by eapply no_admin_keeps_others.
Qed.

(** The code of a GraphQL error. A missing or insufficient admin principal is
    recognised however often the error was wrapped; the six other errors with a
    code lose it as soon as they are wrapped, because the table is indexed by
    the error itself; and an error that passed through the GraphQL layer once
    has no code after it passed a second time. *)
Theorem castGQLError_codes `{Services} (prefixes : list string) (s : Sentinel) :
  let wrapped := foldr EWrap (ESentinel s) prefixes in
  castGQLError wrapped = EGql (GoError_Error gqlerror_text wrapped)
    (if decide (s = ErrUnauthorized) then Some (CodeName "UNAUTHENTICATED")
     else if decide (s = ErrNotAdmin) then Some (CodeName "FORBIDDEN")
     else if decide (prefixes = []) then CodeNumber <$> errorsMap s else None) ∧
  ∀ e, ∃ msg, castGQLError (castGQLError e) = EGql msg None.
Proof.
  cbv zeta. split; [|by eexists]. unfold castGQLError. f_equal.
  assert (∀ t, errors_Is (foldr EWrap (ESentinel s) prefixes) t = bool_decide (s = t)) as His.
  { intros t. by induction prefixes. }
  unfold errorCode. rewrite !His. repeat case_decide; repeat case_bool_decide; subst; try done.
  by destruct prefixes.
Qed.

(** Writing to a QR record needs no token at all: an anonymous request whose
    two round trips are answered replaces the tea, the temperature and the
    expiration date of any QR record, also of one that is in the collection of a
    user, by those of any tea there is. *)
Theorem WriteToQR_is_public `{Env, AuthLib, Services, Locale} a st id tea temp exp w :
  pg_fault (w_tick w) = None -> pg_fault (S (w_tick w)) = None -> is_Some (teas (w_db w) !! tea) ->
  ∃ w', run_operation a st (DoWriteToQR id (mkGqlQRRecordData tea temp exp)) Background w = (Ok tt, w') ∧
    cv_qrs (cs_view w') !! id = Some (mkQR tea (clamp_int32 temp) (pg_ts exp)) ∧
    cv_items (cs_view w') = cv_items (cs_view w) ∧ cv_collections (cs_view w') = cv_collections (cs_view w).
Proof.
  intros Hf1 Hf2 [t Ht].
  destruct (WriteQR_run id (mkQR tea temp exp) w Hf1 ltac:(by eexists)) as (row & Hrow & Hw).
  cbn [run_operation]. unfold WriteToQR, void, QRManager.Set_, TeaManager.Get. pg. cbn [gqd_Tea gqd_BowlingTemp gqd_ExpirationDate].
  unfold bind, map_err at 1. rewrite Hw. unfold map_err, ReadRecord, bind, Queries_GetTea.
  rewrite map_err_query_row_run by done. simpl. unfold getTea, queried. rewrite Ht. simpl.
  eexists. split; [reflexivity|]. simpl. split_and!; [|done..].
  rewrite lookup_fmap, lookup_insert_eq. simpl. by rewrite Hrow.
Qed.

(** C32: the schema gives every tag a category that is never null. For a tag a
    query answered the field finds it: in a consistent database an answered
    lookup yields the category the tag is stored under, with its name. The tags
    three mutations answer with break the promise: their category is null, in
    every world and without asking the database. *)
Theorem tag_category_is_there_except_after_mutations `{Env, AuthLib, Services} w g w1 :
  (∀ id, world_wf w -> Query_Tag id w = (Ok g, w1) -> pg_fault (w_tick w1) = None ->
     ∃ row name, tags (w_db w) !! id = Some row ∧ tag_categories (w_db w) !! tag_category_id row = Some name ∧
       Tag_Category g w1 = (Ok (Some (mkGqlTagCategory (tag_category_id row) name)), advance w1)) ∧
  (∀ ctx id name color category,
     CreateTag ctx name color category w = (Ok g, w1) ∨ UpdateTag ctx id name color w = (Ok g, w1) ∨
     ChangeTagCategory ctx id category w = (Ok g, w1) ->
     ∀ w2, Tag_Category g w2 = (Ok None, w2)).
Proof.
  split.
  - intros id Hw Hr Hf. unfold Query_Tag, TagManager.Get in Hr. cbn [gs_GetTag Pg_TagStorage] in Hr.
    inv_go Hr. unfold PgAdapter.GetTag, Queries_GetTag in Hr0. inv_go Hr0.
    apply (query_row_read (λ d, pair id <$> tags d !! id)) in Hr1 as [-> Hrow].
    apply fmap_Some in Hrow as (row & Hrow & ->).
    destruct (wf_tag_category _ Hw _ _ Hrow) as [name Hname]. exists row, name. split_and!; [done..|].
    unfold Tag_Category, tag_with_category_id. simpl. unfold TagManager.GetCategory.
    cbn [gs_GetTagCategory Pg_TagStorage]. unfold PgAdapter.GetTagCategory, Queries_GetTagCategory.
    unfold map_err at 1. unfold bind. rewrite map_err_query_row_run by done. simpl. unfold getTagCategory, queried. by rewrite Hname.
  - intros ctx id name color category Hr w2.
    assert (∃ tag, g = tag_without_category tag) as [tag ->]; [|done].
    unfold CreateTag, UpdateTag, ChangeTagCategory in Hr.
    destruct Hr as [Hr|[Hr|Hr]]; inv_go Hr; by eexists.
Qed.

(** C12: the records of a collection stay with its owner. The field that lists the
    records of a collection trusts the user id the collection carries, and that
    id is always the caller's: every collection a mutation or query answers with
    belongs to the user of the request, under the name it has in the database.
    Read later, the field changes nothing; it lists exactly the records of the
    collection, soonest to expire first, while the user still owns it, and fails
    afterwards. *)
Theorem collection_fields_stay_private `{Env, Services} ctx u w c w1 :
  world_wf w -> ctx_user ctx = Some u -> answered ctx w c w1 ->
  gcol_UserID c = usr_ID u ∧ cv_collections (cs_view w1) !! gcol_ID c = Some (usr_ID u, gcol_Name c) ∧
  ∀ w2 r w3, world_wf w2 -> Collection_Records c w2 = (r, w3) ->
    cs_view w3 = cs_view w2 ∧
    match r with
    | Ok l => owns (cs_view w2) (usr_ID u) (gcol_ID c) ∧
        ∃ recs, l = FromCollectionRecord <$> recs ∧ NoDup (cr_ID <$> recs) ∧
          StronglySorted (le_on cr_ExpirationDate) recs ∧ ∀ rec, rec ∈ recs <-> record_in (cs_view w2) (gcol_ID c) rec
    | Err _ => True
    | _ => False
    end.
Proof.
  intros Hw Hu Ha. destruct (answered_shelf ctx u w c w1 Hw Hu Ha) as [Huser Hc]. split_and!; [done..|].
  intros w2 r w3 Hw2 Hr. unfold Collection_Records in Hr. rewrite Huser in Hr.
  apply ListRecords_spec in Hr as (_ & Hv & Hr); [|done]. by split.
Qed.

(** ** Witnesses *)
#[local] Existing Instance exampleEnv.
#[local] Existing Instance exampleAuthLib.
#[local] Existing Instance exampleServices.
#[local] Existing Instance exampleLocale.

(** Bob tries to fill Alice's shelf, and an anonymous request to delete her tea. *)
Definition bobCtx : Ctx := mkCtx (Some (mkUser bob "" "token" tomorrow)) None.

Lemma unprivileged_operations_are_contained_witness :
  let run := run_operation exampleAuth (NewPGStore 0%Z) (DoAddRecordsToCollection shelf [box2]) bobCtx exampleWorld in
  let del := run_operation exampleAuth (NewPGStore 0%Z) (DoDeleteTea sencha) Background exampleWorld in
  is_Ok run.1 = false ∧ others_kept (Some bob) (cs_view exampleWorld) (cs_view run.2) ∧
  del.1 = Err (EGql "unauthenticated" (Some (CodeName "UNAUTHENTICATED"))).
Proof.
  cbv zeta. split; [vm_compute; reflexivity|]. split.
  - refine (proj2 (proj2 (proj2 (unprivileged_operations_are_contained exampleAuth (NewPGStore 0%Z)
      (DoAddRecordsToCollection shelf [box2]) bobCtx exampleWorld _ _ _ eq_refl (surjective_pairing _))))).
    exact exampleWorld_wf.
  - refine (proj1 (proj1 (unprivileged_operations_are_contained exampleAuth (NewPGStore 0%Z)
      (DoDeleteTea sencha) Background exampleWorld _ _ _ eq_refl (surjective_pairing _)) eq_refl)).
    exact exampleWorld_wf.
Defined.

Lemma WriteToQR_is_public_witness :
  ∃ w', run_operation exampleAuth (NewPGStore 0%Z) (DoWriteToQR box1 (mkGqlQRRecordData mint 100 tomorrow))
          Background exampleWorld = (Ok tt, w') ∧
    (shelf, box1) ∈ cv_items (cs_view exampleWorld) ∧
    cv_qrs (cs_view w') !! box1 = Some (mkQR mint (clamp_int32 100) (pg_ts tomorrow)).
Proof.
  destruct (WriteToQR_is_public exampleAuth (NewPGStore 0%Z) box1 mint 100 tomorrow exampleWorld)
    as (w' & Hrun & Hq & _); [reflexivity|reflexivity|vm_compute; by eexists|].
  exists w'. split; [exact Hrun|]. split; [|exact Hq]. apply (bool_decide_unpack _). vm_compute. done.
Defined.

(** Grassy, as a query and as a mutation of an editor answer it. *)
Definition editorCtx : Ctx := mkCtx None (Some (mkAdminPrincipal "j1" (exampleClock 0) (exampleClock 60))).

Lemma tag_category_is_there_except_after_mutations_witness :
  ∃ g w1 h w2, Query_Tag grassy exampleWorld = (Ok g, w1) ∧
    (Tag_Category g w1).1 = Ok (Some (mkGqlTagCategory flavour "flavour")) ∧
    UpdateTag editorCtx grassy "grassy" "#000" exampleWorld = (Ok h, w2) ∧ (Tag_Category h w2).1 = Ok None.
Proof.
  destruct (Query_Tag grassy exampleWorld) as [r w1] eqn:E.
  assert (∃ g, r = Ok g) as [g ->] by (change r with (r, w1).1; rewrite <-E; vm_compute; by eexists).
  destruct (UpdateTag editorCtx grassy "grassy" "#000" exampleWorld) as [r' w2] eqn:E'.
  assert (∃ h, r' = Ok h) as [h ->] by (change r' with (r', w2).1; rewrite <-E'; vm_compute; by eexists).
  exists g, w1, h, w2. split; [reflexivity|]. split_and!; [|reflexivity|].
  - destruct (proj1 (tag_category_is_there_except_after_mutations exampleWorld g w1) grassy
      exampleWorld_wf E eq_refl) as (row & name & Hrow & Hname & ->).
    vm_compute in Hrow. injection Hrow as <-. vm_compute in Hname. by injection Hname as <-.
  - by rewrite (proj2 (tag_category_is_there_except_after_mutations exampleWorld h w2) editorCtx grassy "grassy" "#000"
      flavour (or_intror (or_introl E')) w2).
Defined.

(** Alice asks for her collections, and then for the records of the first. *)
Definition aliceShelf : gqlCollection := mkGqlCollection shelf "shelf" alice.

Definition aliceRequest : Ctx := mkCtx (Some (mkUser alice "" "token" tomorrow)) None.

Lemma collection_fields_stay_private_witness :
  let w1 := (Query_Collections aliceRequest exampleWorld).2 in
  cv_collections (cs_view w1) !! shelf = Some (alice, "shelf") ∧
  (Collection_Records aliceShelf w1).1 = Ok [mkGqlQRRecord box1 (mkGqlTea sencha "Sencha" "tea" "green") 80 tomorrow].
Proof.
  cbv zeta. split; [|vm_compute; reflexivity].
  assert (Query_Collections aliceRequest exampleWorld = (Ok [aliceShelf], (Query_Collections aliceRequest exampleWorld).2))
    as Hq.
  { assert ((Query_Collections aliceRequest exampleWorld).1 = Ok [aliceShelf]) as Hr by (vm_compute; reflexivity).
    by rewrite <-Hr, <-surjective_pairing. }
  refine (proj1 (proj2 (collection_fields_stay_private aliceRequest _ exampleWorld aliceShelf _ exampleWorld_wf eq_refl
    (by_query _ _ _ _ _ Hq _)))). by apply list_elem_of_here.
Defined.
