(* ===== verification/Expiration.v ===== *)
(** The expiration alerter and the sender of push notifications:
    src/internal/expiration/alerter.go and src/internal/apns/sender.go. *)

From stdpp Require Import base gmap sets list strings.
From Stdlib Require Import ZArith Lia.
From S2P Require Import Prelude GoTime Common TodCache Env Schema Sql World Queries PgAdapter Interfaces.
From S2P Require Import PgStorage Managers Frame Example.

(** The APNS client (github.com/sideshow/apns2): the answer to a push says
    whether it was sent; and [t.String()] of Go's [time]. *)
Class ApnsClient : Type := {
  apns_Push : ApnsPush → nat → GoError + bool;
  Time_String : Time → string }.

Section alerter.
Context `{Env, ApnsClient} (topic : string).

(** ** The sender (src/internal/apns) *)

(** The notification is handed over; then the client answers. *)
Definition PushWithContext (notification : ApnsPush) : M World GoError bool :=
  do! modify (add_push notification) in ask (apns_Push notification).

Definition push_device (itemID : UUID) (title body device : string) : M World GoError unit :=
  let! now := clock_now in
  let notification := mkApnsPush device topic (Add now (15 * Minute)%Z) title body 1 "showCard" (uuid_String itemID) in
  do! wrapf "push apns" (PushWithContext notification) in
  ret tt.

Definition apns_Send (userID itemID : UUID) (title body : string) : M World GoError unit :=
  let! deviceTokens := wrapf "map user id to device id" (MapUserIDToDeviceID userID) in
  for_range (push_device itemID title body) deviceTokens.

(** ** The alerter (src/internal/expiration) *)
Definition alert_body (col : Collection) (record : CollectionRecord) : string :=
  "tea " +:+ td_Name (tea_Data (cr_Tea record)) +:+ " from collection " +:+ col_Name col
  +:+ " expired " +:+ Time_String (cr_ExpirationDate record).

Definition processRecord (userID : UUID) (col : Collection) (record : CollectionRecord) : M World GoError unit :=
  let! now := clock_now in
  if negb (Before (cr_ExpirationDate record) now) then ret tt
  else apns_Send userID (cr_ID record) "tea expired" (alert_body col record).

Definition processCollectionRecords (userID : UUID) (col : Collection) : M World GoError unit :=
  let! records := CollectionRecords (col_ID col) in
  for_range (processRecord userID col) records.

Definition processUserCollections (userID : UUID) : M World GoError unit :=
  let! collections := Collections userID in
  for_range (processCollectionRecords userID) collections.

Definition alerter_Run : M World GoError unit :=
  let! users := GetUsers in
  for_range (λ user, processUserCollections (usr_ID user)) users.
End alerter.

(** ** The alerter's goroutine

    [Start] spawns the loop once. The loop waits for the weekly tick or for a
    message on the unbuffered channel [stop]; on the message it ends and closes
    the channel. *)
Inductive LoopState : Type := NotStarted | Waiting | Ended.

Definition alerter_Start : M LoopState GoError unit := λ s,
  (Ok tt, match s with NotStarted => Waiting | _ => s end).

(** [a.stop <- struct\{\}\{\}]: parks without a receiver, panics on a closed channel. *)
Definition alerter_Stop : M LoopState GoError unit := λ s,
  match s with
  | NotStarted => (Blocked, s)
  | Waiting => (Ok tt, Ended)
  | Ended => (Panic, s)
  end.

(** A tick: the loop runs the alerter and logs its error. *)
Definition alerter_tick (run : M World GoError unit) : M (LoopState * World) GoError unit := λ s,
  match s.1 with
  | Waiting =>
      let '(r, w) := try run s.2 in
      (match r with Ok _ => Ok tt | Err e => Err e | Panic => Panic | Blocked => Blocked end, (Waiting, w))
  | _ => (Ok tt, s)
  end.

(** ** What a run sends *)

(** A record of a collection of a user, and the alert about it for a device at a
    time. *)
Abbreviation shelved := (UUID * Collection * CollectionRecord)%type.

Record alert : Type := mkAlert { al_shelved : shelved; al_device : string; al_now : Time }.

Section spec.
Context `{Env, ApnsClient} (topic : string).

Definition alert_push (al : alert) : ApnsPush :=
  let '(_, col, record) := al_shelved al in
  mkApnsPush (al_device al) topic (al_now al + 15 * Minute)%Z "tea expired" (alert_body col record) 1 "showCard"
    (uuid_String (cr_ID record)).

(** The devices of a user. *)
Definition device_of (d : Database) (user : UUID) (token : string) : Prop :=
  ∃ id row, devices d !! id = Some row ∧ dev_user_id row = user ∧ dev_token row = token.

Definition shelved_expiry (k : shelved) : Time := cr_ExpirationDate k.2.

(** From [w] to [w'] alerts were sent about the records [X]: only about expired
    ones, to devices of their owner; and about every one that had expired by
    the start, to every device. *)
Definition alerted (X : shelved → Prop) (w w' : World) : Prop :=
  w_db w' = w_db w ∧ w_tick w <= w_tick w' ∧
  ∃ l, w_pushes w' = w_pushes w ++ (alert_push <$> l) ∧
    (∀ al, al ∈ l -> X (al_shelved al) ∧ device_of (w_db w) (al_shelved al).1.1 (al_device al) ∧
       ∃ tick, w_tick w <= tick < w_tick w' ∧ (shelved_expiry (al_shelved al) < time_Now tick)%Z ∧
         ∃ tick', tick <= tick' < w_tick w' ∧ al_now al = time_Now tick') ∧
    (∀ k token, X k -> device_of (w_db w) k.1.1 token -> (shelved_expiry k < time_Now (w_tick w))%Z ->
       ∃ al, al ∈ l ∧ al_shelved al = k ∧ al_device al = token).
End spec.

(** The clock does not run backwards. *)
Class ClockLaws `{Env} : Type := {
  clock_mono : ∀ i j, (i <= j)%nat -> (time_Now i <= time_Now j)%Z }.

Section lemmas.
Context `{ClockLaws, ApnsClient} (topic : string).

Abbreviation alerted_ := (alerted topic).

Lemma alerted_none (X : shelved → Prop) w : (∀ k, ¬ X k) -> alerted_ X w w.
Proof.
  intros HX. split_and!; [done..|]. exists []. split_and!.
  - by rewrite app_nil_r.
  - by intros al ?%not_elem_of_nil.
  - intros k token Hk. by destruct (HX k).
Qed.

Lemma alerted_weaken (X Y : shelved → Prop) w w' : (∀ k, X k <-> Y k) -> alerted_ X w w' -> alerted_ Y w w'.
Proof.
  intros HXY (Hd & Ht & l & Hp & Hs & Hc). split_and!; [done..|]. exists l. split_and!; [done| |].
  - intros al Hal. rewrite <-HXY. by apply Hs.
  - intros k token Hk. apply Hc. by apply HXY.
Qed.

Lemma alerted_app (X Y : shelved → Prop) w w1 w2 :
  alerted_ X w w1 -> alerted_ Y w1 w2 -> alerted_ (λ k, X k ∨ Y k) w w2.
Proof.
  intros (Hd1 & Ht1 & l1 & Hp1 & Hs1 & Hc1) (Hd2 & Ht2 & l2 & Hp2 & Hs2 & Hc2).
  split; [congruence|]. split; [lia|]. exists (l1 ++ l2). split_and!.
  - by rewrite Hp2, Hp1, fmap_app, app_assoc.
  - intros al [Hal|Hal]%elem_of_app.
    + destruct (Hs1 al Hal) as (Hx & Hdev & tick & Hr & He & tick' & Hr' & Hn).
      split_and!; [by left|done|]. exists tick. split_and!; [lia..|done|]. exists tick'. split_and!; [lia..|done].
    + destruct (Hs2 al Hal) as (Hx & Hdev & tick & Hr & He & tick' & Hr' & Hn). rewrite Hd1 in Hdev.
      split_and!; [by right|done|]. exists tick. split_and!; [lia..|done|]. exists tick'. split_and!; [lia..|done].
  - intros k token [Hk|Hk] Hdev He.
    + destruct (Hc1 k token Hk Hdev He) as (al & Hal & ?). exists al. split; [by apply elem_of_app; left|done].
    + destruct (Hc2 k token Hk) as (al & Hal & ?); [by rewrite Hd1| |].
      { pose proof (clock_mono _ _ Ht1). lia. }
      exists al. split; [by apply elem_of_app; right|done].
Qed.

(** A call before or after that sends nothing. *)
Lemma alerted_before (X : shelved → Prop) w w1 w2 :
  w_db w1 = w_db w -> w_pushes w1 = w_pushes w -> w_tick w <= w_tick w1 -> alerted_ X w1 w2 -> alerted_ X w w2.
Proof.
  intros Hd Hp Ht Ha. refine (alerted_weaken (λ k, False ∨ X k) _ _ _ _ (alerted_app _ _ _ _ _ _ Ha)).
  - intros k. tauto.
  - split; [done|]. split; [done|]. exists []. rewrite app_nil_r. split; [done|].
    split; [by intros al ?%not_elem_of_nil|done].
Qed.

Lemma for_range_alerted {A} (f : A → M World GoError unit) (X : A → shelved → Prop) l w w' :
  (∀ x w1 w2, x ∈ l -> w_db w1 = w_db w -> f x w1 = (Ok tt, w2) -> alerted_ (X x) w1 w2) ->
  for_range f l w = (Ok tt, w') -> alerted_ (λ k, ∃ x, x ∈ l ∧ X x k) w w'.
Proof.
  intros Hf. apply (for_range_Ok_ind f (λ l1 w1, alerted_ (λ k, ∃ x, x ∈ l1 ∧ X x k) w w1)).
  - apply alerted_none. by intros k (x & ?%not_elem_of_nil & _).
  - intros l1 x w1 w2 Hx Hw1 Hrun. assert (w_db w1 = w_db w) as Hd by apply Hw1.
    refine (alerted_weaken _ _ _ _ _ (alerted_app _ _ _ _ _ Hw1 (Hf x w1 w2 Hx Hd Hrun))).
    intros k. setoid_rewrite elem_of_app. setoid_rewrite list_elem_of_singleton. naive_solver.
Qed.

(** A read of the adapter sends nothing. *)
Lemma read_run {A B} (s : Stmt A) p (f : A → B) w b w' :
  read_only s -> bind (wrapf p (exec s)) (λ a, ret (f a)) w = (Ok b, w') ->
  w_db w' = w_db w ∧ w_pushes w' = w_pushes w ∧ w_tick w <= w_tick w' ∧
  ∃ a now, s now (w_db w) = inr (a, w_db w) ∧ b = f a.
Proof.
  intros Hs Hrun. inv_go Hrun. apply exec_Ok_inv in Hrun0 as (d & Hr & -> & _).
  assert (d = w_db w) as -> by (by apply (Hs _ _ _ _ Hr)). simpl. split_and!; [done..|lia|]. eauto.
Qed.

(** The devices of a user, in the adapter's answer. *)
Lemma MapUserIDToDeviceID_Ok user w tokens w' :
  MapUserIDToDeviceID user w = (Ok tokens, w') ->
  w_db w' = w_db w ∧ w_pushes w' = w_pushes w ∧ w_tick w' = S (w_tick w) ∧
  ∀ token, token ∈ tokens <-> device_of (w_db w) user token.
Proof.
  unfold MapUserIDToDeviceID. intros Hrun%map_err_Ok_inv.
  apply exec_Ok_inv in Hrun as (d & Hr & -> & _). unfold listDeviceTokens, queried in Hr. simplify_eq/=.
  split_and!; [done..|]. intros token. rewrite list_elem_of_fmap. split.
  - intros ([id row] & -> & [Hrow Hu]%select_elem). by exists id, row.
  - intros (id & row & Hrow & Hu & <-). exists (id, row). split; [done|]. by apply select_elem.
Qed.

(** The loop over the devices, about the record [k]. *)
Definition pushed (k : shelved) (w : World) (tokens : list string) (w1 : World) : Prop :=
  w_db w1 = w_db w ∧ w_tick w <= w_tick w1 ∧
  ∃ l, w_pushes w1 = w_pushes w ++ (alert_push topic <$> l) ∧ al_device <$> l = tokens ∧
    ∀ al, al ∈ l -> al_shelved al = k ∧
      ∃ tick, w_tick w <= tick < w_tick w1 ∧ al_now al = time_Now tick.

Lemma push_device_run (k : shelved) w tokens device w1 w2 :
  pushed k w tokens w1 ->
  push_device topic (cr_ID k.2) "tea expired" (alert_body k.1.2 k.2) device w1 = (Ok tt, w2) ->
  pushed k w (tokens ++ [device]) w2.
Proof.
  intros (Hd & Ht & l & Hp & Hdev & Hal) Hrun. unfold push_device in Hrun. inv_go Hrun.
  unfold clock_now in Hrun0. simplify_eq. unfold PushWithContext, modify, bind, ask in Hrun1. simpl in Hrun1.
  destruct (apns_Push _ _) as [e|sent]; [done|]. simplify_eq.
  split; [done|]. split; [simpl; lia|].
  exists (l ++ [mkAlert k device (time_Now (w_tick w1))]). split_and!.
  - simpl. rewrite Hp, fmap_app, <-app_assoc. unfold alert_push. by destruct k as [[user col] record].
  - by rewrite fmap_app.
  - intros al. rewrite elem_of_app, list_elem_of_singleton. simpl. intros [Hin| ->].
    + destruct (Hal al Hin) as (Hk & tick & Hr & Hn). split; [done|]. exists tick. split; [lia|done].
    + split; [done|]. exists (w_tick w1). split; [lia|done].
Qed.

Lemma processRecord_alerted user col record w w' :
  processRecord topic user col record w = (Ok tt, w') ->
  alerted_ (λ k, k = (user, col, record)) w w'.
Proof.
  intros Hrun. unfold processRecord in Hrun. inv_go Hrun. unfold clock_now in Hrun0. simplify_eq.
  unfold Before in Hrun.
  destruct (Z.ltb_spec (cr_ExpirationDate record) (time_Now (w_tick w))) as [Hexp|Hfresh]; simpl in Hrun.
  2:{ unfold ret in Hrun. simplify_eq. split; [done|]. split; [simpl; lia|]. exists [].
      rewrite app_nil_r. split; [done|]. split; [by intros al ?%not_elem_of_nil|].
      intros k token -> _ He. unfold shelved_expiry in He. simpl in He. lia. }
  unfold apns_Send in Hrun. inv_go Hrun.
  apply MapUserIDToDeviceID_Ok in Hrun0 as (Hd & Hp & Ht & Hdev).
  set (k := (user, col, record)).
  apply (for_range_Ok_ind _ (λ l1 w1, pushed k s l1 w1)) in Hrun.
  2:{ split; [done|]. split; [lia|]. exists []. rewrite app_nil_r. split_and!; [done..|].
      by intros al ?%not_elem_of_nil. }
  2:{ intros l1 x w1 w2 _ Hpushed Hx. by eapply (push_device_run k). }
  destruct Hrun as (Hd' & Ht' & l & Hpl & Hl & Hal). simpl in *.
  split; [congruence|]. split; [lia|]. exists l. split_and!.
  - by rewrite Hpl, Hp.
  - intros al Hin. destruct (Hal al Hin) as (Hk & tick & Hr & Hn). rewrite Hk. split_and!; [done| |].
    { apply Hdev. rewrite <-Hl. by apply list_elem_of_fmap_2. }
    exists (w_tick w). split_and!; [lia..|done|]. exists tick. split_and!; [lia..|done].
  - intros k' token -> Htok _. apply Hdev in Htok. rewrite <-Hl, list_elem_of_fmap in Htok.
    destruct Htok as (al & -> & Hin). exists al. by destruct (Hal al Hin).
Qed.

Lemma processCollectionRecords_alerted user col w w' :
  world_wf w -> processCollectionRecords topic user col w = (Ok tt, w') ->
  alerted_ (λ k, ∃ record, record_in (cs_view w) (col_ID col) record ∧ k = (user, col, record)) w w'.
Proof.
  intros Hw Hrun. unfold processCollectionRecords in Hrun.
  apply bind_Ok_inv in Hrun as (records & w1 & Hr & Hrun).
  pose proof (run_spec (OpCollectionRecords (col_ID col)) w _ _ Hw Hr) as [_ (_ & _ & _ & Hrec)].
  apply read_run in Hr as (Hd & Hp & Ht & _); [|apply queried_read_only].
  apply (alerted_before _ _ _ _ Hd Hp Ht).
  apply (for_range_alerted _ (λ record k, k = (user, col, record))) in Hrun.
  - revert Hrun. apply alerted_weaken. intros k. by setoid_rewrite Hrec.
  - intros record w2 w3 _ _ Hx. by apply processRecord_alerted.
Qed.

Lemma processUserCollections_alerted user w w' :
  world_wf w -> processUserCollections topic user w = (Ok tt, w') ->
  alerted_ (λ k, k.1.1 = user ∧ cv_collections (cs_view w) !! col_ID k.1.2 = Some (user, col_Name k.1.2) ∧
                 record_in (cs_view w) (col_ID k.1.2) k.2) w w'.
Proof.
  intros Hw Hrun. unfold processUserCollections in Hrun.
  apply bind_Ok_inv in Hrun as (cols & w1 & Hr & Hrun).
  pose proof (run_spec (OpCollections user) w _ _ Hw Hr) as [_ (_ & _ & Hcols)].
  apply read_run in Hr as (Hd & Hp & Ht & _); [|apply queried_read_only].
  apply (alerted_before _ _ _ _ Hd Hp Ht).
  apply (for_range_alerted _ (λ col k, ∃ record, record_in (cs_view w) (col_ID col) record ∧ k = (user, col, record))) in Hrun.
  - revert Hrun. apply alerted_weaken. intros [[user' col] record]. simpl. setoid_rewrite Hcols. naive_solver.
  - intros col w2 w3 _ Hd2 Hx. assert (w_db w2 = w_db w) as Heq by congruence.
    apply processCollectionRecords_alerted in Hx; [|unfold world_wf; by rewrite Heq].
    assert (cs_view w2 = cs_view w) as Hv by exact (f_equal db_collections Heq). by rewrite Hv in Hx.
Qed.
End lemmas.

(** The records the alerter looks at: those in collections of users. *)
Definition user_shelved (d : Database) (k : shelved) : Prop :=
  is_Some (users d !! k.1.1) ∧
  cv_collections (db_collections d) !! col_ID k.1.2 = Some (k.1.1, col_Name k.1.2) ∧
  record_in (db_collections d) (col_ID k.1.2) k.2.

(** ** Properties *)

(** C25: a run of the alerter that succeeds changes no data and sends nothing but
    alerts about records that have expired, each to a device of the owner of
    the collection, naming the tea and the collection; and every record of
    every collection that had expired when the run started is announced on
    every device of its owner. *)
Theorem alerter_Run_alerts `{ClockLaws, ApnsClient} topic w w' :
  world_wf w -> alerter_Run topic w = (Ok tt, w') -> alerted topic (user_shelved (w_db w)) w w'.
Proof.
  intros Hw Hrun. unfold alerter_Run in Hrun. apply bind_Ok_inv in Hrun as (us & w1 & Hr & Hrun).
  apply read_run in Hr as (Hd & Hp & Ht & rows & now & Hrows & ->); [|apply queried_read_only].
  apply (alerted_before topic _ _ _ _ Hd Hp Ht).
  apply (for_range_alerted topic _ (λ u k, k.1.1 = usr_ID u ∧
    cv_collections (cs_view w) !! col_ID k.1.2 = Some (usr_ID u, col_Name k.1.2) ∧
    record_in (cs_view w) (col_ID k.1.2) k.2)) in Hrun.
  - revert Hrun. apply alerted_weaken. intros k. unfold user_shelved. unfold listUsers, queried in Hrows.
    simplify_eq. setoid_rewrite list_elem_of_fmap. split.
    + intros (u & ([i row] & -> & [Hrow _]%select_elem) & Hk & Hc & Hrec). simpl in *. rewrite Hk.
      split_and!; [by eexists|done..].
    + intros ([row Hrow] & Hc & Hrec). exists (mkUser k.1.1 (user_apple_id row) "" 0%Z).
      split_and!; [|done..]. exists (k.1.1, row). split; [done|]. by apply select_elem.
  - intros u w2 w3 _ Hd2 Hx. assert (w_db w2 = w_db w) as Heq by congruence.
    apply processUserCollections_alerted in Hx; [|unfold world_wf; by rewrite Heq].
    assert (cs_view w2 = cs_view w) as Hv by exact (f_equal db_collections Heq). by rewrite Hv in Hx.
Qed.

(** The alerter's goroutine. Starting again changes nothing; the first stop
    after a start ends the loop, and no tick runs the alerter after that; a
    second stop panics, and a stop before any start parks its caller. *)
Theorem alerter_lifecycle `{Env} (run : M World GoError unit) s w :
  (s ≠ NotStarted -> alerter_Start s = (Ok tt, s)) ∧
  alerter_Stop (alerter_Start NotStarted).2 = (Ok tt, Ended) ∧
  alerter_tick run (Ended, w) = (Ok tt, (Ended, w)) ∧
  (alerter_Start Ended).2 = Ended ∧
  (alerter_Stop Ended).1 = Panic ∧ (alerter_Stop NotStarted).1 = Blocked ∧
  (∀ e w1, run w = (Err e, w1) -> alerter_tick run (Waiting, w) = (Ok tt, (Waiting, w1))).
Proof.
  split_and!; try done; [by destruct s|]. intros e w1 Hrun. unfold alerter_tick, try. simpl. by rewrite Hrun.
Qed.

(** ** Witnesses *)
#[local] Existing Instance exampleEnv.

#[export] Instance exampleClockLaws : ClockLaws.
Proof. split. intros i j Hij. simpl. unfold exampleClock, Second, Nanosecond. lia. Qed.

Definition exampleApns : ApnsClient := {|
  apns_Push p _ := inr true;
  Time_String t := "yesterday" |}.
#[local] Existing Instance exampleApns.

(** Alice has a phone, and box 1 has expired. *)
Definition expiredWorld : World :=
  ((do! AddDeviceForUser alice 500%N in
    do! CreateOrUpdateDeviceToken 500%N "phone" in
    WriteQR box1 (mkQR sencha 80 (exampleClock 0))) exampleWorld).2.

Lemma expiredWorld_wf : world_wf expiredWorld.
Proof.
  assert (preserves world_wf (do! AddDeviceForUser alice 500%N in
    do! CreateOrUpdateDeviceToken 500%N "phone" in
    WriteQR box1 (mkQR sencha 80 (exampleClock 0)))) as Hp by walk.
  apply Hp, exampleWorld_wf.
Qed.

Lemma alerter_Run_alerts_witness :
  let w' := (alerter_Run "app" expiredWorld).2 in
  alerted "app" (user_shelved (w_db expiredWorld)) expiredWorld w' ∧
  push_AlertBody <$> w_pushes w' = ["tea Sencha from collection shelf expired yesterday"].
Proof.
  cbv zeta. split; [|vm_compute; reflexivity].
  apply (alerter_Run_alerts "app" expiredWorld); [exact expiredWorld_wf|].
  assert ((alerter_Run "app" expiredWorld).1 = Ok tt) as Hok by (vm_compute; reflexivity).
  rewrite <-Hok. apply surjective_pairing.
Defined.

Lemma alerter_lifecycle_witness :
  alerter_tick (throw (EForeign "down")) (Waiting, exampleWorld) = (Ok tt, (Waiting, exampleWorld)).
Proof.
  destruct (alerter_lifecycle (throw (EForeign "down")) Waiting exampleWorld) as (_ & _ & _ & _ & _ & _ & Ht).
  exact (Ht _ _ eq_refl).
Defined.
