(* ===== verification/Adviser.v ===== *)
(** The AI services: src/internal/adviser (prompts, recommendations, scores) and
    src/internal/descrgen (descriptions with a cache). *)

From Stdlib Require Import Floats.SpecFloat.
From stdpp Require Import base gmap list strings pretty.
From Stdlib Require Import ZArith Lia.
From S2P Require Import Prelude GoTime Common TodCache Env Schema Sql World Weather Queries PgAdapter Interfaces PgStorage Example.

Local Open Scope Z_scope.

(** A value of the JSON object the model answers with. *)
Inductive AnswerValue : Type :=
  | AvNumber (x : float64)
  | AvOther (text : string).

(** What the two packages take from outside: the OpenAI client
    (github.com/sashabaranov/go-openai), which answers a prompt with the contents
    of its choices, or with a stream of chunks that ends with an error or the
    end of file; [encoding/json]; [fmt.Sprint] of a [float64]; and the conversion
    of an out-of-range [float64] to [int], which Go leaves to the platform. *)
Class OpenAI : Type := {
  (** the names of the models *)
  GPT5 : string;
  GPT4oLatest : string;
  CreateChatCompletion : string → string → nat → GoError + list string;
  CreateChatCompletionStream : string → string → nat → GoError + list (GoError + list string);
  json_Unmarshal : string → GoError + gmap string AnswerValue;
  Sprint_float : float64 → string;
  int_overflow : float64 → Z }.

(** ** Prompts (prompt.gotpl, context_scoring.gotpl, model.go) *)
Definition newline : string := String (Ascii.ascii_of_nat 10) EmptyString.
Definition dquote : string := String (Ascii.ascii_of_nat 34) EmptyString.

(** [Template]. *)
Record Template : Type := mkTemplate {
  tp_Teas : list Tea;
  tp_Additives : list Tea;
  tp_Weather : Weather;
  tp_TimeOfDay : string;
  tp_Feelings : string }.

Definition Feelings_NotEmpty (f : string) : bool := negb (String.eqb f "").

(** Two decimal digits. *)
Definition two_digits (n : Z) : string := pretty (n / 10) +:+ pretty (n mod 10).

(** [t.Format(time.TimeOnly)], from the second of the local day. *)
Definition Format_TimeOnly (loc : Location) (t : Time) : string :=
  let s := (Unix t + zs_offset (lookup_zone loc (Unix t))) mod secondsPerDay in
  two_digits (s / 3600) +:+ ":" +:+ two_digits (s / 60 mod 60) +:+ ":" +:+ two_digits (s mod 60).

(** [day.String()] *)
Definition Weekday_String (day : Z) : string :=
  nth (Z.to_nat day) ["Sunday"; "Monday"; "Tuesday"; "Wednesday"; "Thursday"; "Friday"; "Saturday"] "".

Section adviser.
Context `{Env, OpenAI} (loc : Location).

Definition render_names (teas : list Tea) : string :=
  String.concat "" ((λ tea, td_Name (tea_Data tea) +:+ ",") <$> teas).

(** The prompt of prompt.gotpl. Its clouds are the temperature. *)
Definition execute (t : Template) : string :=
  let w := tp_Weather t in
  "I can choose only this teas:" +:+ render_names (tp_Teas t)
  +:+ " and mix them only with these additives:" +:+ render_names (tp_Additives t) +:+ newline
  +:+ "I have some criteria for choosing:" +:+ newline
  +:+ "    1. Current weather: " +:+ dquote +:+ "temperature is " +:+ Sprint_float (wt_Temperature w)
  +:+ " °C, clouds percent is " +:+ Sprint_float (wt_Temperature w) +:+ ", " +:+ Rain_String (wt_Rain w)
  +:+ ", humidity level is " +:+ pretty (wt_Humidity w) +:+ ", wind speed is "
  +:+ Sprint_float (wt_WindSpeed w) +:+ " meter/sec, visibility is " +:+ pretty (wt_Visibility w)
  +:+ " meters" +:+ dquote +:+ newline
  +:+ "    2. Current time of day: " +:+ tp_TimeOfDay t
  +:+ (if Feelings_NotEmpty (tp_Feelings t) then newline +:+ "    3. I’m feeling " +:+ tp_Feelings t else "")
  +:+ newline +:+ newline +:+ "Can you recommend tea for me?".

(** The prompt of context_scoring.gotpl. *)
Definition execute_context (teas : list string) (w : Weather) (day : string) : string :=
  "You are a tea sommelier. Score how suitable each tea is for " +:+ dquote +:+ "Tea of the Day" +:+ dquote
  +:+ " based ONLY on:" +:+ newline
  +:+ "- Current weather: temperature is " +:+ Sprint_float (wt_Temperature w) +:+ "°C, clouds "
  +:+ pretty (wt_Clouds w) +:+ "%, " +:+ Rain_String (wt_Rain w) +:+ ", humidity " +:+ pretty (wt_Humidity w)
  +:+ "%, wind " +:+ Sprint_float (wt_WindSpeed w) +:+ " m/s, visibility " +:+ pretty (wt_Visibility w)
  +:+ " m" +:+ newline
  +:+ "- Day of the week: " +:+ day +:+ newline +:+ newline
  +:+ "Teas:" +:+ String.concat "" ((λ tea, newline +:+ "- " +:+ tea) <$> teas) +:+ newline +:+ newline
  +:+ "Instructions:" +:+ newline
  +:+ "- Return a single JSON object where keys are EXACT tea names from the list and values are integers between 0 and 15 (inclusive)."
  +:+ newline
  +:+ "- Do not include any text before or after the JSON. No explanations, no markdown, no code fences."
  +:+ newline
  +:+ "- Example format: {" +:+ dquote +:+ "Tea A" +:+ dquote +:+ ": 12, " +:+ dquote +:+ "Tea B" +:+ dquote
  +:+ ": 4}" +:+ newline.

(** ** The adviser (src/internal/adviser/service.go) *)
Definition sortTeas_step (t : Template) (tea : Tea) : Template :=
  if bool_decide (td_Type (tea_Data tea) = TeaBeverageType)
  then mkTemplate (tp_Teas t ++ [tea]) (tp_Additives t) (tp_Weather t) (tp_TimeOfDay t) (tp_Feelings t)
  else if bool_decide (td_Type (tea_Data tea) = HerbBeverageType)
  then mkTemplate (tp_Teas t) (tp_Additives t ++ [tea]) (tp_Weather t) (tp_TimeOfDay t) (tp_Feelings t)
  else t.

Definition sortTeas (teas : list Tea) (weather : Weather) (feelings : string) : M World GoError Template :=
  let! now := clock_now in
  let t := mkTemplate [] [] weather (Format_TimeOnly loc (Add now (3 * Hour))) feelings in
  ret (fold_left sortTeas_step teas t).

(** [resp.Choices\[0\]] panics when there is no choice. *)
Definition first_choice {S} (choices : list string) : M S GoError string :=
  match choices with c :: _ => ret c | [] => panic end.

Definition RecommendTea (teas : list Tea) (weather : Weather) (feelings : string) : M World GoError string :=
  let! t := sortTeas teas weather feelings in
  let! choices := wrapf "create chat completion" (ask (CreateChatCompletion GPT5 (execute t))) in
  first_choice choices.

(** The goroutine of a stream: what it sends before it closes the channel, until
    the end of the stream or an error. *)
Fixpoint readStream {S} (stream : list (GoError + list string)) : M S GoError (list string) :=
  match stream with
  | [] | inl _ :: _ => ret []
  | inr choices :: stream' =>
      let! content := first_choice choices in
      let! rest := readStream stream' in
      ret (content :: rest)
  end.

(** The stream it starts to read. *)
Definition RecommendTeaStream (teas : list Tea) (weather : Weather) (feelings : string)
    : M World GoError (list (GoError + list string)) :=
  let! t := sortTeas teas weather feelings in
  wrapf "create chat completion stream" (ask (CreateChatCompletionStream GPT4oLatest (execute t))).

Definition getCompletion (content : string) : M World GoError string :=
  let! choices := wrapf "create chat completion" (ask (CreateChatCompletion GPT5 content)) in
  first_choice choices.

(** [int(x)] of a [float64] *)
Definition float_to_int (x : float64) : Z :=
  match x with
  | S754_zero _ => 0
  | S754_finite s m e =>
      let n := if 0 <=? e then Zpos m * 2 ^ e else Zpos m / 2 ^ (- e) in
      let z := if s then - n else n in
      if (int64_min <=? z) && (z <=? int64_max) then z else int_overflow x
  | _ => int_overflow x
  end.

Definition clamp_score (n : Z) : Z :=
  let n := if n <? 0 then 0 else n in if 15 <? n then 15 else n.

Definition answer_score (v : AnswerValue) : option Z :=
  match v with AvNumber x => Some (clamp_score (float_to_int x)) | AvOther _ => None end.

Definition ContextScores (teas : list string) (weather : Weather) (day : Z) : M World GoError (gmap string Z) :=
  let! resp := wrapf "get completion" (getCompletion (execute_context teas weather (Weekday_String day))) in
  let! raw := wrapf "unmarshal completion" (of_sum (json_Unmarshal resp)) in
  ret (omap answer_score raw).
End adviser.

(** ** The description generator (src/internal/descrgen)

    The cache (github.com/eko/gocache over ristretto) keeps the last value set
    under a name, but it may not take a value, and it may not find one it took. *)
Class GoCache : Type := {
  (** [cacheManager.Get]: an error, or whether it finds what it keeps *)
  gc_finds : string → nat → GoError + bool;
  (** [cacheManager.Set]: whether it takes the value *)
  gc_takes : string → string → nat → bool }.

Section generator.
Context `{Env, OpenAI, GoCache}.

Definition requestTemplate (name : string) : string :=
  "Опиши взвешенно и информативно без маркетинга напиток " +:+ name
  +:+ ", чтобы помочь сделать выбор человеку на основании вкусовых качеств, пользы для организма, стимуляции к деятельности".

Definition GenerateDescription (productName : string) : M World GoError string :=
  let! choices := ask (CreateChatCompletion GPT5 (requestTemplate productName)) in
  first_choice choices.

(** [None] is [store.NotFound]. *)
Definition cacheManager_Get (name : string) : M World GoError (option string) :=
  let! finds := ask (gc_finds name) in
  let! w := get in
  ret (if finds then w_descriptions w !! name else None).

(** An error of [Set] is only logged. *)
Definition cacheManager_Set (name res : string) : M World GoError unit :=
  let! takes := ask (λ n, inr (gc_takes name res n)) in
  if takes then modify (set_description name res) else ret tt.

(** The goroutine: what it sends before it closes the channel. *)
Definition generateDescription (name : string) : M World GoError (list string) :=
  let! r := try (GenerateDescription name) in
  let res := match r with inr res => res | inl _ => "" end in
  do! cacheManager_Set name res in
  ret [res].

(** What a caller gets: the cached description, or a goroutine that makes one. *)
Inductive delivery : Type :=
  | Delivered (messages : list string)
  | Spawned (name : string).

Definition StartGenerateDescription (name : string) : M World GoError delivery :=
  let! res := cacheManager_Get name in
  match res with
  | None => ret (Spawned name)
  | Some res => ret (Delivered [res])
  end.
End generator.

(** ** Lemmas *)
Lemma clamp_score_bounds n : 0 <= clamp_score n <= 15.
Proof. unfold clamp_score. destruct (Z.ltb_spec n 0); [done|]. destruct (Z.ltb_spec 15 n); lia. Qed.

Lemma sortTeas_fold teas t :
  tp_Teas (fold_left sortTeas_step teas t) =
    tp_Teas t ++ filter (λ tea, td_Type (tea_Data tea) = TeaBeverageType) teas ∧
  tp_Additives (fold_left sortTeas_step teas t) =
    tp_Additives t ++ filter (λ tea, td_Type (tea_Data tea) = HerbBeverageType) teas ∧
  tp_Weather (fold_left sortTeas_step teas t) = tp_Weather t ∧
  tp_TimeOfDay (fold_left sortTeas_step teas t) = tp_TimeOfDay t ∧
  tp_Feelings (fold_left sortTeas_step teas t) = tp_Feelings t.
Proof.
  revert t. induction teas as [|tea teas IH]; intros t; simpl; [by rewrite !app_nil_r|].
  destruct (IH (sortTeas_step t tea)) as (-> & -> & -> & -> & ->).
  rewrite !filter_cons. unfold sortTeas_step.
  destruct (decide (td_Type (tea_Data tea) = TeaBeverageType)) as [Ht|Ht].
  - rewrite bool_decide_true, (decide_False (P := _ = HerbBeverageType)) by (done || by rewrite Ht).
    simpl. by rewrite <-app_assoc.
  - rewrite bool_decide_false by done.
    destruct (decide (td_Type (tea_Data tea) = HerbBeverageType)) as [Hh|Hh].
    + rewrite bool_decide_true by done. simpl. by rewrite <-app_assoc.
    + by rewrite bool_decide_false.
Qed.

(** ** Properties *)

(** Whatever the model answers, the scores are between 0 and 15, and exactly
    the keys of its JSON object with a number have one. The call panics only
    when the answer has no choice at all. *)
Theorem ContextScores_bounded `{Env, OpenAI} teas weather day w r w' :
  ContextScores teas weather day w = (r, w') ->
  w' = advance w ∧
  let answer := CreateChatCompletion GPT5 (execute_context teas weather (Weekday_String day)) (w_tick w) in
  match r with
  | Ok scores => ∃ text rest raw, answer = inr (text :: rest) ∧ json_Unmarshal text = inr raw ∧
      (∀ name s, scores !! name = Some s -> 0 <= s <= 15) ∧
      (∀ name, is_Some (scores !! name) <-> ∃ x, raw !! name = Some (AvNumber x))
  | Err _ => True
  | Panic => answer = inr []
  | Blocked => False
  end.
Proof.
  unfold ContextScores, getCompletion, bind, map_err, ask. cbv zeta.
  destruct (CreateChatCompletion _ _ _) as [e|[|text rest]]; simpl; [by intros [= <- <-]..|].
  unfold of_sum. destruct (json_Unmarshal text) as [e|raw] eqn:Ej; simpl; intros [= <- <-]; [done|].
  split; [done|]. exists text, rest, raw. split_and!; [done..| |].
  - intros name s. rewrite lookup_omap, bind_Some. intros ([x|t] & Hx & [= <-]). apply clamp_score_bounds.
  - intros name. rewrite lookup_omap. split.
    + intros [s Hs]. apply bind_Some in Hs as ([x|t] & Hx & Hv); [by exists x|done].
    + intros [x Hx]. rewrite Hx. by eexists.
Qed.

(** ** A concrete model

    Asked for scores it gives Sencha 100.5 and Mint a text; a description it
    fails to give. The cache keeps everything. *)
Definition exampleOpenAI : OpenAI := {|
  GPT5 := "gpt-5";
  GPT4oLatest := "chatgpt-4o-latest";
  CreateChatCompletion _ prompt _ :=
    if String.prefix "You are" prompt then inr ["answer"] else inl (EForeign "timeout");
  CreateChatCompletionStream _ _ _ := inr [];
  json_Unmarshal _ := inr {["Sencha" := AvNumber float_100_5; "Mint" := AvOther "a few"]};
  Sprint_float := Sprintf_f;
  int_overflow _ := 0 |}.

Definition exampleGoCache : GoCache := {| gc_finds _ _ := inr true; gc_takes _ _ _ := true |}.

#[local] Existing Instance exampleEnv.
#[local] Existing Instance exampleOpenAI.
#[local] Existing Instance exampleGoCache.

Lemma exampleScores_run :
  ContextScores ["Sencha"; "Mint"] noWeather 1 exampleWorld = (Ok {["Sencha" := 15]}, advance exampleWorld).
Proof. apply (pair_equal_spec _ _ _ _). split; [|reflexivity]. vm_compute. reflexivity. Qed.

Lemma ContextScores_bounded_witness : map_Forall (λ _ s, 0 <= s <= 15) ({["Sencha" := 15]} : gmap string Z).
Proof.
  destruct (ContextScores_bounded ["Sencha"; "Mint"] noWeather 1 exampleWorld _ _ exampleScores_run)
    as (_ & text & rest & raw & _ & _ & Hb & _).
  exact Hb.
Defined.

(** A recommendation asks about exactly the black and green teas, as teas, and
    the herbs, as additives, of the collection, in their order; and the prompt
    does not depend on the clouds, whose place the temperature has taken. *)
Theorem recommendation_prompt `{Env, OpenAI} loc teas weather feelings w clouds :
  ∃ t, sortTeas loc teas weather feelings w = (Ok t, advance w) ∧
    tp_Teas t = filter (λ tea, td_Type (tea_Data tea) = TeaBeverageType) teas ∧
    tp_Additives t = filter (λ tea, td_Type (tea_Data tea) = HerbBeverageType) teas ∧
    execute t = execute (mkTemplate (tp_Teas t) (tp_Additives t)
      (mkWeather (wt_Temperature weather) clouds (wt_Rain weather) (wt_Humidity weather)
         (wt_WindSpeed weather) (wt_Visibility weather)) (tp_TimeOfDay t) feelings).
Proof.
  eexists. split; [reflexivity|]. set (t0 := mkTemplate [] [] weather _ feelings).
  destruct (sortTeas_fold teas t0) as (E1 & E2 & E3 & E4 & E5).
  split; [by rewrite E1|]. split; [by rewrite E2|].
  unfold execute. simpl. by rewrite E3, E5.
Qed.

(** A failed description is kept. When the model does not answer, the
    goroutine sends the empty description; and if the cache takes it, then as
    long as it finds the name, the next request is answered with the empty
    description and the model is not asked again. *)
Theorem failed_description_is_cached `{Env, OpenAI, GoCache} name w e n :
  CreateChatCompletion GPT5 (requestTemplate name) (w_tick w) = inl e ->
  gc_takes name "" (S (w_tick w)) = true ->
  let w' := set_description name "" (advance (advance w)) in
  generateDescription name w = (Ok [""], w') ∧
  (gc_finds name (n + w_tick w')%nat = inr true ->
   StartGenerateDescription name (Nat.iter n advance w') = (Ok (Delivered [""]), Nat.iter (S n) advance w')).
Proof.
  intros He Ht w'. split.
  - unfold generateDescription, try, bind, GenerateDescription, bind, ask. simpl. rewrite He.
    unfold cacheManager_Set, bind, ask. simpl. by rewrite Ht.
  - intros Hf. unfold StartGenerateDescription, cacheManager_Get, bind, ask, get.
    assert (∀ m, w_tick (Nat.iter m advance w') = (m + w_tick w')%nat ∧
      w_descriptions (Nat.iter m advance w') = w_descriptions w') as Hiter.
    { intros m. induction m as [|m [IHt IHd]]; [done|]. simpl. split; [|done]. simpl in *. lia. }
    rewrite (proj1 (Hiter n)), Hf. simpl. rewrite (proj2 (Hiter n)). simpl.
    by rewrite lookup_insert_eq.
Qed.

Lemma failed_description_is_cached_witness :
  let w' := (generateDescription "Sencha" exampleWorld).2 in
  StartGenerateDescription "Sencha" w' = (Ok (Delivered [""]), advance w').
Proof.
  assert (CreateChatCompletion GPT5 (requestTemplate "Sencha") (w_tick exampleWorld) = inl (EForeign "timeout"))
    as He by (vm_compute; reflexivity).
  pose proof (failed_description_is_cached "Sencha" exampleWorld _ 0 He) as Hf.
  destruct (Hf ltac:(reflexivity)) as [Hg Hs].
  rewrite Hg. simpl snd. exact (Hs ltac:(reflexivity)).
Defined.
