(* ===== verification/Envconfig.v ===== *)
(** Configuration from the environment: what the program takes from
    github.com/kelseyhightower/envconfig, and the structures it fills
    (src/cmd/server/main.go, src/internal/auth/cfg.go,
    src/internal/openweather/config.go), with the tags they carry.

    The library is a parameter, in the class [Process] of the server; its
    documented behaviour is [process_fields], and a law says so. *)

From Stdlib Require Import Ascii.
From stdpp Require Import base list strings.
From S2P Require Import Prelude Common.

(** [strings.ToUpper] on the ASCII names of fields and variables. *)
Definition upper_ascii (c : ascii) : ascii :=
  if (N_of_ascii "a" <=? N_of_ascii c)%N && (N_of_ascii c <=? N_of_ascii "z")%N
  then ascii_of_N (N_of_ascii c - 32) else c.

Fixpoint upper_string (s : string) : string :=
  match s with
  | EmptyString => EmptyString
  | String c s' => String (upper_ascii c) (upper_string s')
  end.

(** A field of a structure [S]: its name, its tags, and how it is set from a
    text, which fails for a text that is no value of the field's type. *)
Record StructField (S : Type) : Type := mkField {
  sf_Name : string;
  sf_Tags : list (string * string);
  sf_Set : string → S → GoError + S }.
Arguments mkField {S}.
Arguments sf_Name {S}.
Arguments sf_Tags {S}.
Arguments sf_Set {S}.

(** [StructTag.Get] *)
Fixpoint Tag_Get (key : string) (tags : list (string * string)) : string :=
  match tags with
  | [] => ""
  | (k, v) :: tags' => if String.eqb k key then v else Tag_Get key tags'
  end.

(** [strconv.ParseBool], an error counting as false. *)
Definition isTrue (v : string) : bool :=
  bool_decide (v ∈ ["1"; "t"; "T"; "true"; "TRUE"; "True"]).

Section envconfig.
Context (LookupEnv : string → option string).

(** The documented name of a field's variable: the tag [envconfig] or else the
    field's own name, after the prefix. *)
Definition field_key {S} (prefix : string) (f : StructField S) : string :=
  let alt := Tag_Get "envconfig" (sf_Tags f) in
  upper_string ((if String.eqb prefix "" then "" else prefix +:+ "_") +:+
                (if String.eqb alt "" then sf_Name f else alt)).

(** The text a field is set from: that variable's, or of the one the tag names
    alone, or the default; an empty default is none. *)
Definition field_text {S} (prefix : string) (f : StructField S) : option string :=
  let alt := upper_string (Tag_Get "envconfig" (sf_Tags f)) in
  let def := Tag_Get "default" (sf_Tags f) in
  match LookupEnv (field_key prefix f) with
  | Some v => Some v
  | None =>
      match (if String.eqb alt "" then None else LookupEnv alt) with
      | Some v => Some v
      | None => if String.eqb def "" then None else Some def
      end
  end.

(** The fields are set in order; the tag [required] makes a field without text an
    error, any other tag does not. *)
Fixpoint process_fields {S} (prefix : string) (fields : list (StructField S)) (s : S) : option S :=
  match fields with
  | [] => Some s
  | f :: fields' =>
      match field_text prefix f with
      | Some v =>
          match sf_Set f v s with
          | inr s' => process_fields prefix fields' s'
          | inl _ => None
          end
      | None => if isTrue (Tag_Get "required" (sf_Tags f)) then None else process_fields prefix fields' s
      end
  end.
End envconfig.

(** A field that holds its text. *)
Definition setString {S} (set : string → S → S) (v : string) (s : S) : GoError + S := inr (set v s).

(** ** The structures *)
Record configuration : Type := mk_configuration {
  LoggerLevel : Z;
  OpenAIToken : string;
  PGDSN : string }.

(** [configuration] of cmd/server; [ParseLevel] is logrus's. *)
Definition configuration_fields (ParseLevel : string → GoError + Z) : list (StructField configuration) :=
  [mkField "LoggerLevel" [("envconfig", "LOG_LEVEL"); ("default", "info")]
     (λ v c, match ParseLevel v with
             | inl e => inl e
             | inr l => inr (mk_configuration l (OpenAIToken c) (PGDSN c))
             end);
   mkField "OpenAIToken" [("envconfig", "OPEN_AI_TOKEN"); ("require", "true")]
     (setString (λ v c, mk_configuration (LoggerLevel c) v (PGDSN c)));
   mkField "PGDSN" [("envconfig", "PG_DSN"); ("default", "")]
     (setString (λ v c, mk_configuration (LoggerLevel c) (OpenAIToken c) v))].

(** The variables of [auth.Config]. *)
Record appleCfg : Type := mkAppleCfg {
  apple_SecretPath : string;
  apple_TeamID : string;
  apple_ClientID : string;
  apple_KeyID : string }.

Definition appleCfg_fields : list (StructField appleCfg) :=
  [mkField "SecretPath" [("envconfig", "SECRET_PATH"); ("default", "AuthKey_39D5B439QV.p8")]
     (setString (λ v c, mkAppleCfg v (apple_TeamID c) (apple_ClientID c) (apple_KeyID c)));
   mkField "TeamID" [("envconfig", "TEAM_ID"); ("required", "true")]
     (setString (λ v c, mkAppleCfg (apple_SecretPath c) v (apple_ClientID c) (apple_KeyID c)));
   mkField "ClientID" [("envconfig", "CLIENT_ID"); ("required", "true")]
     (setString (λ v c, mkAppleCfg (apple_SecretPath c) (apple_TeamID c) v (apple_KeyID c)));
   mkField "KeyID" [("envconfig", "KEY_ID"); ("required", "true")]
     (setString (λ v c, mkAppleCfg (apple_SecretPath c) (apple_TeamID c) (apple_ClientID c) v))].

(** [adminCfg] and the weather service's [Configuration] have one field each. *)
Definition adminCfg_fields : list (StructField string) :=
  [mkField "AdminPublicKeyPath"
     [("envconfig", "ADMIN_PUBLIC_KEY_PATH"); ("default", "/keys/admin/admin_public_key.pem")]
     (setString (λ v _, v))].

Definition openweather_fields : list (StructField string) :=
  [mkField "ApiKey" [("require", "true")] (setString (λ v _, v))].

(** Compute the names of the variables in the goal. *)
Ltac name_variables f :=
  repeat match goal with
  | |- context [f ?k] => let k' := eval vm_compute in k in progress change (f k) with (f k')
  end; simpl.

(** A configuration that is refused on both sides of an equivalence. *)
Ltac refute := split; [done|by intros (_ & ? & ? & ?)].

(** ** The process *)

(** [os.LookupEnv]; [logrus.ParseLevel]; [envconfig.Process]; [sql.Open] and
    [PingContext]; [token.AuthKeyFromFile] of apns2; and [ParseFS] on the
    embedded templates. *)
Class Process : Type := {
  LookupEnv : string → option string;
  ParseLevel : string → GoError + Z;
  envconfig_Process : ∀ {S}, string → list (StructField S) → S → GoError + S;
  sql_Open : string → GoError + unit;
  sql_Ping : string → nat → GoError + unit;
  AuthKeyFromFile : string → nat → GoError + unit;
  ParseFS : GoError + unit;
  (** the [Error] method of [*gqlerror.Error] *)
  gqlerror_Error : string → option GqlCode → string }.

(** [envconfig.Process] sets the fields as documented, or fails. *)
Class ProcessLaws `{Process} : Type := {
  envconfig_documented : ∀ S prefix (fields : list (StructField S)) s,
    match process_fields LookupEnv prefix fields s with
    | Some s' => envconfig_Process prefix fields s = inr s'
    | None => ∃ e, envconfig_Process prefix fields s = inl e
    end }.

(** The library over a given environment. *)
Definition process_with (env : string → option string) {S} (prefix : string)
    (fields : list (StructField S)) (s : S) : GoError + S :=
  match process_fields env prefix fields s with
  | Some s' => inr s'
  | None => inl (EForeign "required key missing value")
  end.

Section structures.
Context `{Process}.

Definition envconfig_main : GoError + configuration :=
  envconfig_Process "" (configuration_fields ParseLevel) (mk_configuration 0 "" "").
Definition envconfig_apple : GoError + appleCfg :=
  envconfig_Process "APPLE_AUTH" appleCfg_fields (mkAppleCfg "" "" "" "").
Definition envconfig_admin : GoError + string := envconfig_Process "" adminCfg_fields "".
Definition envconfig_openweather : GoError + string := envconfig_Process "OPENWEATHER" openweather_fields "".

(** A variable with a prefix, or without when that one is not set. *)
Definition prefixed (prefix name : string) : option string :=
  match LookupEnv (prefix +:+ "_" +:+ name) with Some v => Some v | None => LookupEnv name end.

Context `{!ProcessLaws}.

Lemma envconfig_result {S} prefix (fields : list (StructField S)) s s' :
  envconfig_Process prefix fields s = inr s' <-> process_fields LookupEnv prefix fields s = Some s'.
Proof.
  pose proof (envconfig_documented S prefix fields s) as Hl.
  destruct (process_fields _ _ _ _) as [s1|]; [rewrite Hl; naive_solver|].
  destruct Hl as [e ->]. naive_solver.
Qed.

Lemma envconfig_main_iff cfg :
  envconfig_main = inr cfg <->
  ParseLevel (default "info" (LookupEnv "LOG_LEVEL")) = inr (LoggerLevel cfg) ∧
  OpenAIToken cfg = default "" (LookupEnv "OPEN_AI_TOKEN") ∧ PGDSN cfg = default "" (LookupEnv "PG_DSN").
Proof.
  unfold envconfig_main. rewrite envconfig_result. simpl. unfold field_text, field_key. simpl. name_variables LookupEnv.
  destruct cfg as [level token dsn]. simpl.
  destruct (LookupEnv "LOG_LEVEL") as [text|]; simpl;
    (destruct (ParseLevel _) as [e|l]; simpl; [by split; [|intros (? & _)]|]);
    destruct (LookupEnv "OPEN_AI_TOKEN"), (LookupEnv "PG_DSN"); simpl;
    (split; [intros [= <- <- <-]|intros ([= ->] & -> & ->)]); done.
Qed.

Lemma envconfig_apple_iff ac :
  envconfig_apple = inr ac <->
  apple_SecretPath ac = default "AuthKey_39D5B439QV.p8" (prefixed "APPLE_AUTH" "SECRET_PATH") ∧
  prefixed "APPLE_AUTH" "TEAM_ID" = Some (apple_TeamID ac) ∧
  prefixed "APPLE_AUTH" "CLIENT_ID" = Some (apple_ClientID ac) ∧
  prefixed "APPLE_AUTH" "KEY_ID" = Some (apple_KeyID ac).
Proof.
  unfold envconfig_apple. rewrite envconfig_result. simpl. unfold field_text, field_key, prefixed. simpl. name_variables LookupEnv.
  destruct ac as [path team client key]. simpl.
  destruct (LookupEnv "APPLE_AUTH_SECRET_PATH"), (LookupEnv "SECRET_PATH"); simpl;
    (destruct (LookupEnv "APPLE_AUTH_TEAM_ID"), (LookupEnv "TEAM_ID"); simpl; try solve [refute]);
    (destruct (LookupEnv "APPLE_AUTH_CLIENT_ID"), (LookupEnv "CLIENT_ID"); simpl; try solve [refute]);
    (destruct (LookupEnv "APPLE_AUTH_KEY_ID"), (LookupEnv "KEY_ID"); simpl; try solve [refute]);
    (split; [intros [= <- <- <- <-]|intros (-> & [= ->] & [= ->] & [= ->])]); done.
Qed.

Lemma envconfig_admin_iff path :
  envconfig_admin = inr path <->
  path = default "/keys/admin/admin_public_key.pem" (LookupEnv "ADMIN_PUBLIC_KEY_PATH").
Proof.
  unfold envconfig_admin. rewrite envconfig_result. simpl. unfold field_text, field_key. simpl. name_variables LookupEnv.
  destruct (LookupEnv "ADMIN_PUBLIC_KEY_PATH"); simpl; naive_solver.
Qed.

Lemma envconfig_openweather_iff key :
  envconfig_openweather = inr key <-> key = default "" (LookupEnv "OPENWEATHER_APIKEY").
Proof.
  unfold envconfig_openweather. rewrite envconfig_result. simpl. unfold field_text, field_key. simpl. name_variables LookupEnv.
  destruct (LookupEnv "OPENWEATHER_APIKEY"); simpl; naive_solver.
Qed.
End structures.
