(* ===== verification/Server.v ===== *)
(** The server: src/cmd/server/main.go, which builds the components and wires
    them, and the requests src/internal/server/server.go serves, each
    authenticated and then run. *)

From stdpp Require Import base gmap sets list strings relations.
From Stdlib Require Import ZArith Lia.
From S2P Require Import Prelude GoTime Common Models Subscribers Consumption TodCache Env Schema Sql World.
From S2P Require Import Queries PgAdapter Interfaces PgStorage Example Managers PgConsumption StorageTheorems.
From S2P Require Import EventLoop Frame AuthLib Auth Weather Resolvers TeaOfTheDay Api Expiration Adviser Envconfig.

(** [if err != nil \{ panic(err) \}] *)
Definition must {S A} (m : M S GoError A) : M S GoError A :=
  let! r := try m in match r with inr a => ret a | inl _ => panic end.

Lemma must_Ok {S A} (m : M S GoError A) s a s' : must m s = (Ok a, s') -> m s = (Ok a, s').
Proof. unfold must, bind, try. destruct (m s) as [[x|e| |] s1]; naive_solver. Qed.

(** ** The services of the resolvers *)
Section wiring.
Context `{Env, AuthLib, OpenAI, GoCache, OpenWeather, ApnsClient, Locale, Process}.

(** The messages of a description stream: the cached one, or those of the
    goroutine the generator spawned. *)
Definition description_messages (name : string) : M World GoError (list string) :=
  let! d := Adviser.StartGenerateDescription name in
  match d with
  | Delivered messages => ret messages
  | Spawned name => generateDescription name
  end.

(** The messages of the goroutine that reads a recommendation. *)
Definition recommendation_messages (teas : list Tea) (weather : Weather) (feelings : string)
    : M World GoError (list string) :=
  let! stream := Adviser.RecommendTeaStream Local_ teas weather feelings in
  readStream stream.

(** [topic] is the client id, [key] the key of the weather service. *)
Definition program_services (topic key : string) : Services := {|
  Resolvers.GenerateDescription := Adviser.GenerateDescription;
  Resolvers.StartGenerateDescription := description_messages;
  Resolvers.RecommendTea := Adviser.RecommendTea Local_;
  Resolvers.RecommendTeaStream := recommendation_messages;
  Resolvers.ContextScores := Adviser.ContextScores;
  Services_CurrentCyprus := CurrentCyprus key;
  Run := alerter_Run topic;
  gqlerror_text := gqlerror_Error |}.
End wiring.

(** ** main.go *)
Section startup.
Context `{Env, AuthLib, Process}.

(** [auth.Config]: it panics when a variable or the key file is missing. *)
Definition Config : M World GoError Configuration :=
  let! ac := must (of_sum envconfig_apple) in
  let! adminKeyPath := must (of_sum envconfig_admin) in
  let! data := must (ask (ReadFile (apple_SecretPath ac))) in
  ret (mkConfiguration (apple_SecretPath ac) data (apple_TeamID ac) (apple_ClientID ac) (apple_KeyID ac)
         adminKeyPath).

(** [LoadPrompt] *)
Definition LoadPrompt : M World GoError unit := wrapf "parse templates" (of_sum ParseFS).

(** [authM.Start()], on the service [NewAuth] made. *)
Definition start_auth (cfg : Configuration) : M World GoError auth := λ w,
  match Start (NewAuth cfg, w) with
  | (Ok _, (a, w')) => (Ok a, w')
  | (Err e, (_, w')) => (Err e, w')
  | (Panic, (_, w')) => (Panic, w')
  | (Blocked, (_, w')) => (Blocked, w')
  end.

(** What the handlers hold. *)
Record Server : Type := mkServer {
  sv_auth : auth;
  sv_store : PGStore;
  sv_topic : string;
  sv_weatherKey : string;
  sv_openAIToken : string }.

(** main.go up to [s.Run()]. It starts the alerter and the loops of the two
    managers, which are in their first state then. *)
Definition main : M World GoError Server :=
  let! cfg := must (of_sum envconfig_main) in
  if bool_decide (PGDSN cfg = "") then panic
  else
    do! must (of_sum (sql_Open (PGDSN cfg))) in
    do! must (ask (sql_Ping (PGDSN cfg))) in
    let! authCfg := Config in
    let! authM := must (start_auth authCfg) in
    do! must (ask (AuthKeyFromFile (cfg_SecretPath authCfg))) in
    let! weatherKey := must (of_sum envconfig_openweather) in
    do! must LoadPrompt in
    ret (mkServer authM (NewPGStore 0%Z) (cfg_ClientID authCfg) weatherKey (OpenAIToken cfg)).
End startup.

(** ** A request *)
Section requests.
Context `{Env, AuthLib, OpenAI, GoCache, OpenWeather, ApnsClient, Locale, Process}.

(** The answer: what the operation returned or its error, and the errors the
    middleware added. *)
Definition answer (sv : Server) (header : option string) (ctx : Ctx) (op : operation)
    : M World GoError ((GoError + unit) * list GoError) :=
  InterceptResponse (sv_auth sv) header ctx (λ ctx,
    try (run_operation (H1 := program_services (sv_topic sv) (sv_weatherKey sv))
           (sv_auth sv) (sv_store sv) op ctx)).

(** A request of its own starts without a principal. *)
Definition handle_request (sv : Server) (header : option string) (op : operation)
    : M World GoError ((GoError + unit) * list GoError) :=
  answer sv header Background op.

(** A websocket connection: the context its handshake made and the Authorization
    header of the request that was upgraded, empty when it had none. Every
    operation sent over it starts in this context and passes the middleware with
    this header. *)
Record Conn : Type := mkConn {
  conn_ctx : Ctx;
  conn_header : string }.

Definition connect (sv : Server) (header payload : string) : M World GoError Conn :=
  let! ctx := WsInitFunc (sv_auth sv) Background payload in
  ret (mkConn ctx header).

Definition handle_message (sv : Server) (conn : Conn) (op : operation)
    : M World GoError ((GoError + unit) * list GoError) :=
  answer sv (Some (conn_header conn)) (conn_ctx conn) op.
End requests.

(** ** The wired services keep their promises *)
Create HintDb go_frame.
#[export] Hint Unfold alerter_Run processUserCollections processCollectionRecords processRecord apns_Send
  push_device PushWithContext CurrentCyprus getCompletion Adviser.ContextScores Adviser.RecommendTea
  Adviser.RecommendTeaStream sortTeas Adviser.GenerateDescription generateDescription cacheManager_Get
  cacheManager_Set Adviser.StartGenerateDescription description_messages recommendation_messages
  GetUsers Collections CollectionRecords MapUserIDToDeviceID : go_frame.

Lemma modify_keeps_db f d : (∀ w, w_db (f w) = w_db w) -> preserves (λ w, w_db w = d) (modify f : M World GoError unit).
Proof. intros Hf w Hw. simpl. by rewrite Hf. Qed.

Lemma first_choice_keeps choices d : preserves (λ w, w_db w = d) (first_choice choices : M World GoError string).
Proof. by destruct choices; intros w. Qed.

Lemma readStream_keeps stream d : preserves (λ w, w_db w = d) (readStream stream : M World GoError (list string)).
Proof.
  induction stream as [|[e|choices] stream IH]; [by intros w|by intros w|].
  simpl. apply preserves_bind; [apply first_choice_keeps|]. intros content.
  apply preserves_bind; [done|]. by intros rest w.
Qed.

#[export] Hint Resolve modify_keeps_db first_choice_keeps readStream_keeps : go_preserves.

Section laws.
Context `{Env, AuthLib, OpenAI, GoCache, OpenWeather, ApnsClient, Locale, Process}.

#[export] Instance program_services_laws topic key : @ServicesLaws (program_services topic key).
Proof.
  split; intros; intros d; cbn [Resolvers.GenerateDescription Resolvers.StartGenerateDescription
    Resolvers.RecommendTea Resolvers.RecommendTeaStream Resolvers.ContextScores Services_CurrentCyprus
    Run program_services]; repeat autounfold with go_frame; walk.
Qed.
End laws.

(** ** Requests and their tokens *)
Section tokens.
Context `{Env, AuthLib}.

Definition bearer (header : option string) : string := remove_first bearerPrefix (default "" header).

(** The request that arrives in [w] carries an admin token for [key], or a token
    of user [u] signed with the server's key. *)
Definition carries_admin (key : ecdsaPublic) (header : option string) (w : World) : Prop :=
  ∃ tick tok mc, w_tick w < tick <= w_tick w + 2 ∧ admin_token key (bearer header) (time_Now tick) tok mc.
Definition carries_user (a : auth) (header : option string) (w : World) (u : User) : Prop :=
  ∃ secret, getSecret a = inr secret ∧ user_token secret (bearer header) (time_Now (w_tick w)) u.

(** The one admin key of the service is the one in the configured file. *)
Definition admin_key (a : auth) (key : ecdsaPublic) : Prop :=
  au_adminKeys a = Some {["" := Some key]} ∧
  ∃ tick pem bytes, ReadFile (cfg_AdminPublicKeyPath (au_cfg a)) tick = inr pem ∧
    pem_Decode pem = Some bytes ∧ ParsePKIXPublicKey bytes = inr (KPublic key).
End tokens.

(** A collection, with the set of its records, is as before. *)
Definition collection_kept (id : UUID) (v v' : CollectionView) : Prop :=
  cv_collections v' !! id = cv_collections v !! id ∧ ∀ q, (id, q) ∈ cv_items v' <-> (id, q) ∈ cv_items v.

Section main_lemmas.
Context `{Env, AuthLib, Process}.

Lemma start_auth_inv cfg w a w' :
  start_auth cfg w = (Ok a, w') ->
  au_cfg a = cfg ∧ w' = advance (advance w) ∧ ∃ key, admin_key a key.
Proof.
  unfold start_auth. destruct (Start (NewAuth cfg, w)) as [[[]|e| |] [a1 w1]] eqn:E; [|done..].
  intros [= <- <-]. apply Start_inv in E as (pem & bytes & key & Hcfg & Hf & Hd & Hp & Hk & Hdb).
  split_and!; [done..|]. exists key. split; [done|]. rewrite Hcfg. by eexists _, pem, bytes.
Qed.

Lemma start_auth_made cfg w a w' :
  start_auth cfg w = (Ok a, w') ->
  ∃ clientSecret pem bytes key,
    apple_GenerateClientSecret (cfg_Secret cfg) (cfg_TeamID cfg) (cfg_ClientID cfg) (cfg_KeyID cfg) (w_tick w)
      = inr clientSecret ∧
    ReadFile (cfg_AdminPublicKeyPath cfg) (S (w_tick w)) = inr pem ∧ pem_Decode pem = Some bytes ∧
    ParsePKIXPublicKey bytes = inr (KPublic key) ∧ a = mkAuth cfg clientSecret (Some {["" := Some key]}).
Proof.
  unfold start_auth, Start, loadAdminKeys, on_auth, on_world, zoom, bind, map_err, modify, ask, get. simpl.
  destruct (apple_GenerateClientSecret _ _ _ _ _) as [e|secret] eqn:Es; [done|].
  unfold loadPublicKeyFromFile, bind, map_err, ask. simpl.
  destruct (ReadFile _ _) as [e|pem] eqn:Ef; [done|].
  destruct (pem_Decode pem) as [bytes|] eqn:Ed; [|done].
  destruct (ParsePKIXPublicKey bytes) as [e|[k|k|]] eqn:Ep; simpl; intros; simplify_eq/=.
  eauto 10.
Qed.

Lemma must_of_sum_Ok {S A} (r : GoError + A) (s : S) a s' :
  must (of_sum r) s = (Ok a, s') -> r = inr a ∧ s' = s.
Proof. intros Hr%must_Ok. by apply of_sum_Ok_inv in Hr. Qed.

Lemma must_ask_Ok {A} (f : nat → GoError + A) w a w' :
  must (ask f) w = (Ok a, w') -> f (w_tick w) = inr a ∧ w' = advance w.
Proof. intros Hr%must_Ok. by apply ask_Ok_inv in Hr. Qed.

(** What the start needs, from the environment, the files and the database, and
    the server it makes of that. *)
Definition starts_as (w : World) (sv : Server) : Prop :=
  let tick := w_tick w in
  let secretPath := default "AuthKey_39D5B439QV.p8" (prefixed "APPLE_AUTH" "SECRET_PATH") in
  let adminPath := default "/keys/admin/admin_public_key.pem" (LookupEnv "ADMIN_PUBLIC_KEY_PATH") in
  ∃ level dsn team client keyID secretKey clientSecret pem bytes key,
    ParseLevel (default "info" (LookupEnv "LOG_LEVEL")) = inr level ∧
    LookupEnv "PG_DSN" = Some dsn ∧ dsn ≠ "" ∧ sql_Open dsn = inr tt ∧ sql_Ping dsn tick = inr tt ∧
    prefixed "APPLE_AUTH" "TEAM_ID" = Some team ∧ prefixed "APPLE_AUTH" "CLIENT_ID" = Some client ∧
    prefixed "APPLE_AUTH" "KEY_ID" = Some keyID ∧
    ReadFile secretPath (S tick) = inr secretKey ∧
    apple_GenerateClientSecret secretKey team client keyID (S (S tick)) = inr clientSecret ∧
    ReadFile adminPath (S (S (S tick))) = inr pem ∧ pem_Decode pem = Some bytes ∧
    ParsePKIXPublicKey bytes = inr (KPublic key) ∧
    AuthKeyFromFile secretPath (S (S (S (S tick)))) = inr tt ∧ ParseFS = inr tt ∧
    sv = mkServer
      (mkAuth (mkConfiguration secretPath secretKey team client keyID adminPath) clientSecret
         (Some {["" := Some key]}))
      (mkPGStore true defaultRetention) client
      (default "" (LookupEnv "OPENWEATHER_APIKEY")) (default "" (LookupEnv "OPEN_AI_TOKEN")).

Lemma must_of_sum_run {S A} (r : GoError + A) a (s : S) : r = inr a -> must (of_sum r) s = (Ok a, s).
Proof. by intros ->. Qed.

Lemma must_ask_run {A} (f : nat → GoError + A) w a : f (w_tick w) = inr a -> must (ask f) w = (Ok a, advance w).
Proof. intros Hf. unfold must, bind, try, ask. by rewrite Hf. Qed.

Lemma Config_run w ac path data :
  envconfig_apple = inr ac -> envconfig_admin = inr path ->
  ReadFile (apple_SecretPath ac) (w_tick w) = inr data ->
  Config w = (Ok (mkConfiguration (apple_SecretPath ac) data (apple_TeamID ac) (apple_ClientID ac)
                    (apple_KeyID ac) path), advance w).
Proof.
  intros Ha Hp Hf. unfold Config. rewrite (bind_Ok _ _ _ _ _ (must_of_sum_run _ _ _ Ha)).
  rewrite (bind_Ok _ _ _ _ _ (must_of_sum_run _ _ _ Hp)). by rewrite (bind_Ok _ _ _ _ _ (must_ask_run _ _ _ Hf)).
Qed.

Lemma start_auth_run cfg w clientSecret pem bytes key :
  apple_GenerateClientSecret (cfg_Secret cfg) (cfg_TeamID cfg) (cfg_ClientID cfg) (cfg_KeyID cfg) (w_tick w)
    = inr clientSecret ->
  ReadFile (cfg_AdminPublicKeyPath cfg) (S (w_tick w)) = inr pem -> pem_Decode pem = Some bytes ->
  ParsePKIXPublicKey bytes = inr (KPublic key) ->
  must (start_auth cfg) w = (Ok (mkAuth cfg clientSecret (Some {["" := Some key]})), advance (advance w)).
Proof.
  intros Hs Hf Hd Hp. unfold must, start_auth, Start, loadAdminKeys, on_auth, on_world, zoom, bind, try, map_err,
    modify, get, ask. simpl.
  rewrite Hs. simpl. unfold loadPublicKeyFromFile, bind, map_err, ask. simpl. rewrite Hf. simpl. rewrite Hd. simpl. by rewrite Hp.
Qed.

Lemma main_run `{!ProcessLaws} w sv : starts_as w sv -> main w = (Ok sv, Nat.iter 5 advance w).
Proof.
  intros (level & dsn & team & client & keyID & secretKey & clientSecret & pem & bytes & key & Hlevel & Hdsn
    & Hne & Hopen & Hping & Hteam & Hclient & Hkey & Hfile & Hsecret & Hpem & Hdecode & Hparse & Happns & Hfs & ->).
  set (cfg := mk_configuration level (default "" (LookupEnv "OPEN_AI_TOKEN")) dsn).
  assert (envconfig_main = inr cfg) as Hcfg by (apply envconfig_main_iff; by rewrite Hdsn).
  set (ac := mkAppleCfg (default "AuthKey_39D5B439QV.p8" (prefixed "APPLE_AUTH" "SECRET_PATH")) team client keyID).
  assert (envconfig_apple = inr ac) as Hac by (by apply envconfig_apple_iff).
  pose proof (proj2 (envconfig_admin_iff _) eq_refl) as Hadmin.
  pose proof (proj2 (envconfig_openweather_iff _) eq_refl) as Hweather.
  unfold main. rewrite (bind_Ok _ _ _ _ _ (must_of_sum_run _ _ _ Hcfg)).
  rewrite bool_decide_false by exact Hne.
  rewrite (bind_Ok _ _ _ _ _ (must_of_sum_run _ _ _ Hopen)), (bind_Ok _ _ _ _ _ (must_ask_run _ _ _ Hping)).
  rewrite (bind_Ok _ _ _ _ _ (Config_run (advance w) ac _ secretKey Hac Hadmin Hfile)).
  rewrite (bind_Ok _ _ _ _ _ (start_auth_run (mkConfiguration _ secretKey team client keyID _)
    (advance (advance w)) _ _ _ _ Hsecret Hpem Hdecode Hparse)).
  cbn [cfg_SecretPath apple_SecretPath ac].
  rewrite (bind_Ok _ _ _ _ _ (must_ask_run _ (advance (advance (advance (advance w)))) _ Happns)).
  rewrite (bind_Ok _ _ _ _ _ (must_of_sum_run _ _ _ Hweather)).
  unfold LoadPrompt. by rewrite Hfs.
Qed.

Lemma Config_inv w cfg w' :
  Config w = (Ok cfg, w') -> ∃ ac data path, envconfig_apple = inr ac ∧ envconfig_admin = inr path ∧
    ReadFile (apple_SecretPath ac) (w_tick w) = inr data ∧ w' = advance w ∧
    cfg = mkConfiguration (apple_SecretPath ac) data (apple_TeamID ac) (apple_ClientID ac) (apple_KeyID ac) path.
Proof.
  unfold Config. intros Hr. inv_go Hr. apply must_of_sum_Ok in Hr0 as [Ha ->], Hr1 as [Hp ->].
  apply must_ask_Ok in Hr2 as [Hf ->]. eauto 10.
Qed.

(** What [main] has found when it gets through. *)
Lemma main_passes w sv w' :
  main w = (Ok sv, w') ->
  ∃ cfg authCfg a weatherKey, w' = Nat.iter 5 advance w ∧
    envconfig_main = inr cfg ∧ PGDSN cfg ≠ "" ∧ sql_Open (PGDSN cfg) = inr tt ∧
    sql_Ping (PGDSN cfg) (w_tick w) = inr tt ∧ Config (advance w) = (Ok authCfg, advance (advance w)) ∧
    start_auth authCfg (advance (advance w)) = (Ok a, Nat.iter 4 advance w) ∧
    AuthKeyFromFile (cfg_SecretPath authCfg) (S (S (S (S (w_tick w))))) = inr tt ∧ ParseFS = inr tt ∧
    envconfig_openweather = inr weatherKey ∧
    sv = mkServer a (NewPGStore 0%Z) (cfg_ClientID authCfg) weatherKey (OpenAIToken cfg).
Proof.
  unfold main. intros Hr. inv_go Hr. apply must_of_sum_Ok in Hr0 as [Hcfg ->].
  case_bool_decide as Hdsn; [done|]. inv_go Hr.
  apply must_of_sum_Ok in Hr0 as [Ho ->]. apply must_ask_Ok in Hr1 as [Hp ->].
  pose proof Hr2 as (ac & data & path & _ & _ & _ & -> & _)%Config_inv.
  apply must_Ok in Hr3. pose proof Hr3 as (_ & -> & _)%start_auth_inv.
  apply must_ask_Ok in Hr4 as [Hk ->]. apply must_of_sum_Ok in Hr5 as [Hw ->].
  apply must_Ok in Hr6. unfold LoadPrompt in Hr6. apply map_err_Ok_inv, of_sum_Ok_inv in Hr6 as [Hfs ->].
  destruct a0, a1, a4, a6. exists a, a2, a3, a5. by split_and!.
Qed.

Lemma main_starts `{!ProcessLaws} w sv w' : main w = (Ok sv, w') -> starts_as w sv.
Proof.
  intros (cfg & authCfg & a & weatherKey & _ & Hcfg & Hdsn & Hopen & Hping & Hc & Ha & Hk & Hfs & Hw & ->)%main_passes.
  apply envconfig_main_iff in Hcfg as (Hlevel & Htoken & Henv).
  apply Config_inv in Hc as (ac & data & path & Happle & Hadmin & Hf & _ & ->).
  apply envconfig_apple_iff in Happle as (Hpath & Hteam & Hclient & Hkey).
  apply envconfig_admin_iff in Hadmin as ->. apply envconfig_openweather_iff in Hw as ->.
  apply start_auth_made in Ha as (clientSecret & pem & bytes & key & Hsecret & Hpem & Hd & Hparse & ->).
  simpl in *. unfold starts_as. rewrite Hpath in *. rewrite Htoken.
  exists (LoggerLevel cfg), (PGDSN cfg), (apple_TeamID ac), (apple_ClientID ac), (apple_KeyID ac), data,
    clientSecret, pem, bytes, key.
  split_and!; [done| |done..]. destruct (LookupEnv "PG_DSN"); simpl in Henv; congruence.
Qed.

(** What the other properties use of a start. *)
Lemma main_inv w sv w' :
  main w = (Ok sv, w') -> w' = Nat.iter 5 advance w ∧ (∃ key, admin_key (sv_auth sv) key) ∧
    envconfig_admin = inr (cfg_AdminPublicKeyPath (au_cfg (sv_auth sv))) ∧
    sv_store sv = mkPGStore true defaultRetention ∧ sv_topic sv = cfg_ClientID (au_cfg (sv_auth sv)).
Proof.
  intros (cfg & authCfg & a & weatherKey & -> & _ & _ & _ & _ & Hc & Ha & _ & _ & _ & ->)%main_passes.
  apply start_auth_inv in Ha as (Hau & _ & Hkey). apply Config_inv in Hc as (ac & data & path & _ & Hadmin & _ & _ & ->).
  split; [done|]. simpl. rewrite Hau. by split_and!.
Qed.
End main_lemmas.

Section request_lemmas.
Context `{Env, AuthLib, OpenAI, GoCache, OpenWeather, ApnsClient, Locale, Process}.

(** An operation that was reached, and the context it ran in. *)
Lemma answer_cases sv header ctx0 op w r w' :
  answer sv header ctx0 op w = (r, w') ->
  (w_db w' = w_db w ∧ ∀ a, r ≠ Ok a) ∨
  ∃ ctx errs w1 r1, InterceptResponse (sv_auth sv) header ctx0 ret w = (Ok (ctx, errs), w1) ∧
    run_operation (H1 := program_services (sv_topic sv) (sv_weatherKey sv)) (sv_auth sv) (sv_store sv) op ctx w1
      = (r1, w').
Proof.
  unfold answer. rewrite InterceptResponse_factors. unfold bind at 1.
  destruct (InterceptResponse _ _ _ ret w) as [[[ctx errs]|e| |] w1] eqn:E.
  2-4: intros [= <- <-]; left; split; [|done]; by rewrite (InterceptResponse_keeps _ _ _ _ _ _ E).
  intros Hr. right. exists ctx, errs, w1. unfold bind, try in Hr. simpl in Hr.
  destruct (run_operation _ _ op ctx w1) as [r1 w2]. exists r1. split; [done|].
  destruct r1; unfold ret in Hr; by simplify_eq.
Qed.

(** Who can change what with one operation: the principals of its context and
    those its header names. *)
Lemma answer_authorized `{!AuthLibLaws} sv key header ctx0 op w r w' :
  admin_key (sv_auth sv) key -> world_wf w -> answer sv header ctx0 op w = (r, w') ->
  (catalogue (w_db w') = catalogue (w_db w) ∨ is_Some (ctx_admin ctx0) ∨ carries_admin key header w) ∧
  ∀ id owner name, cv_collections (cs_view w) !! id = Some (owner, name) ->
    collection_kept id (cs_view w) (cs_view w') ∨ is_Some (ctx_admin ctx0) ∨ carries_admin key header w ∨
    ∃ u, usr_ID u = owner ∧ (ctx_user ctx0 = Some u ∨ carries_user (sv_auth sv) header w u).
Proof.
  intros [Hkeys _] Hw Hr. apply answer_cases in Hr as [[Hdb _]|(ctx & errs & w1 & r1 & Hc & Hop)].
  { unfold cs_view, collection_kept. simpl. rewrite Hdb. split; [by left|]. intros. by left. }
  pose proof (InterceptResponse_keeps _ _ _ _ _ _ Hc) as Hdb.
  apply (InterceptResponse_context _ key) in Hc as (Hadmin & Huser); [|done].
  destruct (ctx_admin ctx) as [p|] eqn:Hp.
  { assert (is_Some (ctx_admin ctx0) ∨ carries_admin key header w) as Ha
      by (destruct (Hadmin p eq_refl) as [->|Ha]; [by left|by right]).
    split; [by right|]. intros. right. naive_solver. }
  assert (world_wf w1) as Hw1 by (unfold world_wf; by rewrite Hdb).
  split.
  { left. rewrite <-Hdb. by unshelve (eapply no_admin_keeps_catalogue; [exact Hp|exact Hop]); apply _. }
  intros id owner name Hcol.
  pose proof (no_admin_keeps_others _ _ _ _ _ _ _ Hw1 Hp Hop id owner name) as Hkept.
  assert (cs_view w1 = cs_view w) as Hv by (unfold cs_view; simpl; by rewrite Hdb). rewrite Hv in Hkept.
  destruct (decide (Some owner = usr_ID <$> ctx_user ctx)) as [Heq|Hne].
  - do 3 right. destruct (ctx_user ctx) as [u|] eqn:Hu; simplify_eq/=. exists u. auto.
  - left. destruct (Hkept Hcol Hne) as [Hc' Hi]. split; [by rewrite Hc', Hcol|done].
Qed.

(** A request of its own: only its header counts. *)
Lemma request_authorized `{!AuthLibLaws} sv key header op w r w' :
  admin_key (sv_auth sv) key -> world_wf w -> handle_request sv header op w = (r, w') ->
  (catalogue (w_db w') = catalogue (w_db w) ∨ carries_admin key header w) ∧
  ∀ id owner name, cv_collections (cs_view w) !! id = Some (owner, name) ->
    collection_kept id (cs_view w) (cs_view w') ∨ carries_admin key header w ∨
    ∃ u, usr_ID u = owner ∧ carries_user (sv_auth sv) header w u.
Proof.
  intros Hkey Hw Hr. apply (answer_authorized _ key) in Hr as [Hcat Hcol]; [|done..].
  split; [destruct Hcat as [?|[[? ?]|?]]; auto; done|]. intros id owner name Hid.
  destruct (Hcol id owner name Hid) as [?|[[? ?]|[?|(u & ? & [?|?])]]]; eauto; done.
Qed.

(** A connection's principals are those its payload named during the handshake,
    which changes no data. *)
Lemma connect_Ok `{!AuthLibLaws} sv key header payload w conn w' :
  admin_key (sv_auth sv) key -> connect sv header payload w = (Ok conn, w') ->
  conn_header conn = header ∧
  (is_Some (ctx_admin (conn_ctx conn)) -> carries_admin key (Some payload) w) ∧
  (∀ u, ctx_user (conn_ctx conn) = Some u -> carries_user (sv_auth sv) (Some payload) w u).
Proof.
  intros [Hkeys _] Hr. unfold connect, bind in Hr. rewrite WsInitFunc_intercepts in Hr. unfold bind in Hr.
  destruct (InterceptResponse _ _ _ ret w) as [[[ctx [|e errs]]|e| |] w1] eqn:E; cbn in Hr; try discriminate Hr.
  injection Hr as <- <-.
  apply (InterceptResponse_context _ key) in E as (Hadmin & Huser); [|done].
  split; [done|]. split.
  - intros [p Hp]. by destruct (Hadmin p Hp).
  - intros u Hu. by destruct (Huser u Hu).
Qed.

Lemma connect_keeps sv header payload w r w' : connect sv header payload w = (r, w') -> w_db w' = w_db w.
Proof.
  unfold connect, bind. rewrite WsInitFunc_intercepts. unfold bind.
  destruct (InterceptResponse _ _ _ ret w) as [[[ctx [|e errs]]|e| |] w1] eqn:E;
    intros [= <- <-]; by rewrite (InterceptResponse_keeps _ _ _ _ _ _ E).
Qed.
End request_lemmas.
