(* ===== verification/Announce.v ===== *)
(** What an operation announces: every event it puts on a channel tells of a
    change it made, and a successful change of the catalogue is told in full.
    The theorems of the managers, carried from the managers to the resolvers and
    from there to a request with its token, and what a request that parked on a
    full channel has still to send. *)

From stdpp Require Import base gmap sets list strings relations.
From Stdlib Require Import ZArith Lia.
From S2P Require Import Prelude GoTime Common Models Subscribers Consumption TodCache Env Schema Sql World.
From S2P Require Import Queries PgAdapter Interfaces PgStorage Example Managers PgConsumption StorageTheorems.
From S2P Require Import EventLoop Frame AuthLib Auth Weather Resolvers TeaOfTheDay Api Expiration Adviser.
From S2P Require Import Envconfig Server.

(** ** What an operation has to tell *)

(** [es] is what the manager tells of [op], which took the teas of [d] to those
    of [d']; the same for the tags. *)
Definition told_tea {A} (op : tea_op A) (d d' : Database) (es : list Event) : Prop :=
  ∃ a, tea_effect op (db_teas d) a (db_teas d') ∧ es = tea_events op a.
Definition told_tag {A} (op : tag_op A) (d d' : Database) (es : list Event) : Prop :=
  ∃ a, tag_effect op (db_tags d) a (db_tags d') ∧ es = tag_events op a.

(** The events of an operation that took [d] to [d']. *)
Definition announces (op : operation) (d d' : Database) (es : list Event) : Prop :=
  match op with
  | DoNewTea tea => told_tea (OpWriteRecord (ToCommonTeaData tea)) d d' es
  | DoUpdateTea id tea => told_tea (OpUpdate id (ToCommonTeaData tea)) d d' es
  | DoDeleteTea id => told_tea (OpDelete id) d d' es
  | DoAddTagToTea tea tag => told_tag (OpAddTagToTea tea tag) d d' es
  | DoDeleteTagFromTea tea tag => told_tag (OpDeleteTagFromTea tea tag) d d' es
  | DoCreateTagCategory name => told_tag (OpCreateTagCategory name) d d' es
  | DoUpdateTagCategory id name => told_tag (OpUpdateTagCategory id name) d d' es
  | DoDeleteTagCategory id => told_tag (OpDeleteTagCategory id) d d' es
  | DoCreateTag name color category => told_tag (OpCreateTag name color category) d d' es
  | DoUpdateTag id name color => told_tag (OpUpdateTag id name color) d d' es
  | DoChangeTagCategory id category => told_tag (OpChangeTagCategory id category) d d' es
  | DoDeleteTag id => told_tag (OpDeleteTag id) d d' es
  | _ => es = []
  end.

(** ** What a parked goroutine still has to send

    A goroutine that parks on a full channel goes on when the receiver has taken
    an event. Its code from there on is found by running the same code over
    channels that are never full: every event is taken as soon as it is sent, and
    noted. *)
Record Heeded : Type := mkHeeded {
  he_world : World;
  he_taken : list Event }.

#[export] Instance Heeded_EventBus : EventBus Heeded := {
  bus_events _ := [];
  bus_put l h := mkHeeded (he_world h) (he_taken h ++ l) }.

Definition on_heeded {A} (m : M World GoError A) : M Heeded GoError A :=
  zoom he_world (λ w h, mkHeeded w (he_taken h)) m.

Section heeded.
Context `{Env}.

#[export] Instance Heeded_TeaStorage : TeaStorage Heeded := {
  ts_WriteRecord data := on_heeded (ts_WriteRecord data);
  ts_ReadRecord id := on_heeded (ts_ReadRecord id);
  ts_ReadAllRecords prefix := on_heeded (ts_ReadAllRecords prefix);
  ts_Update id data := on_heeded (ts_Update id data);
  ts_Delete id := on_heeded (ts_Delete id) }.

#[export] Instance Heeded_TagStorage : TagStorage Heeded := {
  gs_CreateTagCategory name := on_heeded (gs_CreateTagCategory name);
  gs_UpdateTagCategory id name := on_heeded (gs_UpdateTagCategory id name);
  gs_DeleteTagCategory id := on_heeded (gs_DeleteTagCategory id);
  gs_GetTagCategory id := on_heeded (gs_GetTagCategory id);
  gs_ListTagCategories search := on_heeded (gs_ListTagCategories search);
  gs_CreateTag name color category := on_heeded (gs_CreateTag name color category);
  gs_UpdateTag id name color := on_heeded (gs_UpdateTag id name color);
  gs_ChangeTagCategory id category := on_heeded (gs_ChangeTagCategory id category);
  gs_DeleteTag id := on_heeded (gs_DeleteTag id);
  gs_GetTag id := on_heeded (gs_GetTag id);
  gs_ListTags name category := on_heeded (gs_ListTags name category);
  gs_AddTagToTea tea tag := on_heeded (gs_AddTagToTea tea tag);
  gs_DeleteTagFromTea tea tag := on_heeded (gs_DeleteTagFromTea tea tag);
  gs_ListByTea id := on_heeded (gs_ListByTea id) }.

Lemma Heeded_tea_run {A} (op : tea_op A) : tea_run (S := Heeded) op = on_heeded (tea_run op).
Proof. by destruct op. Qed.
Lemma Heeded_tag_run {A} (op : tag_op A) : tag_run (S := Heeded) op = on_heeded (tag_run op).
Proof. by destruct op. Qed.

(** All a manager's method sends in a world. *)
Definition sends {A} (m : M Heeded GoError A) (w : World) : list Event := he_taken (m (mkHeeded w [])).2.

(** All the method behind an operation sends; the others send nothing. *)
Definition tells (op : operation) (w : World) : list Event :=
  match op with
  | DoNewTea tea => sends (TeaManager.Create (ToCommonTeaData tea)) w
  | DoUpdateTea id tea => sends (TeaManager.Update id (ToCommonTeaData tea)) w
  | DoDeleteTea id => sends (TeaManager.Delete id) w
  | DoAddTagToTea tea tag => sends (TagManager.AddTagToTea tea tag) w
  | DoDeleteTagFromTea tea tag => sends (TagManager.DeleteTagFromTea tea tag) w
  | DoCreateTagCategory name => sends (TagManager.CreateCategory name) w
  | DoUpdateTagCategory id name => sends (TagManager.UpdateCategory id name) w
  | DoDeleteTagCategory id => sends (TagManager.DeleteCategory id) w
  | DoCreateTag name color category => sends (TagManager.Create name color category) w
  | DoUpdateTag id name color => sends (TagManager.Update id name color) w
  | DoChangeTagCategory id category => sends (TagManager.ChangeCategory id category) w
  | DoDeleteTag id => sends (TagManager.Delete id) w
  | _ => []
  end.
End heeded.

(** What the answer to an operation that parked has still to send: what its
    method sends, started where the middleware handed over, without what it has
    sent. *)
Definition owed `{Env, AuthLib, OpenAI, GoCache, OpenWeather, ApnsClient, Locale, Process}
    (sv : Server) (header : option string) (ctx : Ctx) (op : operation) (w : World) : list Event :=
  match answer sv header ctx op w with
  | (Blocked, w') =>
      let w1 := (InterceptResponse (sv_auth sv) header ctx ret w).2 in
      drop (length (w_events w') - length (w_events w)) (tells op w1)
  | _ => []
  end.

(** ** Calls and what they tell *)

(** What a call that ended in [r] put on the channels, and what it has still to
    send: all there is to tell if it succeeded, a proper beginning of it if it is
    parked, everything or nothing if it failed or crashed. *)
Definition told {A} (Ann : Database → Database → list Event → Prop) (r : outcome GoError A) (d d' : Database)
    (es rest : list Event) : Prop :=
  match r with
  | Ok _ => Ann d d' es
  | Blocked => rest ≠ [] ∧ Ann d d' (es ++ rest)
  | Err _ | Panic => es = [] ∨ Ann d d' es
  end.

Definition reports `{Env} {A} (Ann : Database → Database → list Event → Prop) (all : World → list Event)
    (m : M World GoError A) : Prop :=
  ∀ w r w', world_wf w -> m w = (r, w') ->
    ∃ es, w_events w' = w_events w ++ es ∧ told Ann r (w_db w) (w_db w') es (drop (length es) (all w)).

(** A call that does not park its goroutine. *)
Definition proceeds {A} (m : M World GoError A) : Prop := ∀ w, (m w).1 ≠ Blocked.

(** A call that leaves database and channels alone and does not park. *)
Definition silent {A} (m : M World GoError A) : Prop :=
  ∀ w r w', m w = (r, w') -> w_db w' = w_db w ∧ w_events w' = w_events w ∧ r ≠ Blocked.

Lemma silent_of {A} (m : M World GoError A) :
  keeps_db m -> (∀ l, preserves (λ w, w_events w = l) m) -> proceeds m -> silent m.
Proof.
  intros Hd He Hp w r w' E. specialize (Hd _ w eq_refl). specialize (He _ w eq_refl). specialize (Hp w).
  by rewrite E in *.
Qed.

Section reports.
Context `{Env} (Ann : Database → Database → list Event → Prop) (all : World → list Event).

Lemma reports_map_err {A} f (m : M World GoError A) : reports Ann all m -> reports Ann all (map_err f m).
Proof.
  intros Hm w r w' Hw. unfold map_err. destruct (m w) as [r0 w0] eqn:E.
  destruct (Hm _ _ _ Hw E) as (es & Hev & Ht). destruct r0; intros [= <- <-]; by exists es.
Qed.

(** After it has told everything a call may go on silently. *)
Lemma reports_then {A B} (m : M World GoError A) (k : A → M World GoError B) :
  reports Ann all m -> (∀ a, silent (k a)) -> reports Ann all (bind m k).
Proof.
  intros Hm Hk w r w' Hw. unfold bind. destruct (m w) as [r0 w0] eqn:E.
  destruct (Hm _ _ _ Hw E) as (es & Hev & Ht).
  destruct r0 as [a| | |]; [|intros [= <- <-]; by exists es..].
  intros Hr. destruct (Hk a _ _ _ Hr) as (Hdb & Hev' & Hp). exists es. rewrite Hev', Hdb. split; [done|].
  destruct r; simpl; [done|by right..|done].
Qed.

(** A guard comes first. *)
Lemma reports_guarded {A B} (m : M World GoError A) (k : A → M World GoError B) :
  (∀ w, (m w).2 = w) -> proceeds m -> (∀ a, reports Ann all (k a)) -> reports Ann all (bind m k).
Proof.
  intros Hm Hp Hk w r w' Hw. specialize (Hm w). specialize (Hp w). unfold bind.
  destruct (m w) as [r0 w0]. simpl in *. subst w0.
  destruct r0 as [a| | |]; [by apply Hk|intros [= <- <-]; exists []; rewrite app_nil_r; split; [done|by left]..|done].
Qed.

(** A call with nothing to tell. *)
Lemma reports_events {A} (m : M World GoError A) :
  (∀ d d', Ann d d' []) -> (∀ l, preserves (λ w, w_events w = l) m) -> proceeds m -> reports Ann all m.
Proof.
  intros Hnil Hm Hp w r w' _ E. specialize (Hm _ w eq_refl). specialize (Hp w). rewrite E in *. exists [].
  rewrite app_nil_r. split; [done|]. destruct r; [apply Hnil|by left..|done].
Qed.
End reports.

(** ** The managers *)
Section managers.
Context `{Env}.

Lemma heeded_sends (l : list Event) h :
  for_range send_event l h = (Ok tt, mkHeeded (he_world h) (he_taken h ++ l)).
Proof.
  revert h. induction l as [|e l IH]; intros [w taken]; simpl; [by rewrite app_nil_r|].
  unfold bind, send_event. rewrite decide_True by (simpl; unfold defaultChanSize; lia). simpl. rewrite IH. simpl.
  by rewrite <-app_assoc.
Qed.

(** A storage call and its announcement, started in any world: what it told and
    what is left are together what it tells when it is heeded. *)
Lemma announcing_reports {V A B} (view : Database → V) (promise : V → outcome GoError A → V → Prop)
    (eff : V → A → V → Prop) (m : M World GoError A) (events_of : A → list Event) (ans : A → B) :
  (∀ w r w1, world_wf w -> m w = (r, w1) ->
     w_events w1 = w_events w ∧ promise (view (w_db w)) r (view (w_db w1)) ∧ r ≠ Panic ∧ r ≠ Blocked) ->
  (∀ v a v', promise v (Ok a) v' -> eff v a v') ->
  reports (λ d d' es, ∃ a, eff (view d) a (view d') ∧ es = events_of a)
    (sends (announcing (on_heeded m) events_of ans)) (announcing m events_of ans).
Proof.
  intros Hm Hp w r w' Hw. unfold sends, announcing, on_heeded, zoom, bind at 1 3. simpl.
  destruct (m w) as [[a|e| |] w1] eqn:E; destruct (Hm _ _ _ Hw E) as (Hev & Hpr & Hnp & Hnb); [| |done..].
  - apply Hp in Hpr. unfold bind. rewrite heeded_sends. simpl.
    destruct (for_range send_event (events_of a) w1) as [r1 w2] eqn:Es.
    apply send_events_spec in Es as [[-> ->]|(-> & sent & e & rest & Hl & -> & _)];
      intros [= <- <-]; simpl; rewrite Hev.
    + exists (events_of a). split; [done|]. by exists a.
    + exists sent. split; [done|]. rewrite Hl, drop_app_length. split; [done|]. by exists a.
  - intros [= <- <-]. exists []. rewrite Hev, app_nil_r. split; [done|by left].
Qed.

Lemma reports_eq {A} Ann (all all' : World → list Event) (m m' : M World GoError A) :
  (∀ w, m w = m' w) -> (∀ w, all w = all' w) -> reports Ann all' m' -> reports Ann all m.
Proof. intros Hm Hall Hr w r w' Hw E. rewrite Hm in E. rewrite Hall. by apply Hr. Qed.

Lemma tea_manager_reports {A} (op : tea_op A) :
  reports (told_tea op) (sends (tea_manager op)) (tea_manager op : M World GoError A).
Proof.
  eapply (reports_eq _ _ (sends (announcing (on_heeded (tea_run op)) (tea_events op) (λ a, a))));
    [apply tea_manager_shape| |].
  - intros w. unfold sends. by rewrite tea_manager_shape, Heeded_tea_run.
  - apply (announcing_reports db_teas (atomic (tea_effect op))); [|done]. intros w r w1 Hw Hr.
    apply (ts_spec (S := World)) in Hr as (_ & Hev & Hp); [|exact Hw].
    split_and!; [done..| |]; by eapply atomic_returns.
Qed.

Lemma tag_promise_Ok {A} (op : tag_op A) v a v' : tag_promise op v (Ok a) v' -> tag_effect op v a v'.
Proof. destruct op; try exact (λ He, He). intros [He|(e & ? & _)]; [exact He|done]. Qed.

Lemma tag_manager_reports {A} (op : tag_op A) :
  reports (told_tag op) (sends (tag_manager op)) (tag_manager op : M World GoError (tag_answer op)).
Proof.
  eapply (reports_eq _ _ (sends (announcing (on_heeded (tag_run op)) (tag_events op) (tag_answer_of op))));
    [apply tag_manager_shape| |].
  - intros w. unfold sends. by rewrite tag_manager_shape, Heeded_tag_run.
  - apply (announcing_reports db_tags (tag_promise op)); [|apply tag_promise_Ok]. intros w r w1 Hw Hr.
    apply (gs_spec (S := World)) in Hr as (_ & Hev & Hp); [|exact Hw].
    split_and!; [done..| |]; by eapply tag_promise_returns.
Qed.
End managers.

(** ** Calls that put nothing on a channel *)
Section quiet.
Context `{Env} (l : list Event).

Lemma exec_events {A} (s : Stmt A) : preserves (λ w, w_events w = l) (exec s).
Proof.
  intros w Hw. unfold exec, World_PgClient, World_exec. destruct (pg_fault (w_tick w)) as [[?|?]|]; [done| |]; by destruct (s _ _) as [?|[??]].
Qed.
Lemma query_row_events {A} (s : Stmt (option A)) : preserves (λ w, w_events w = l) (query_row s).
Proof. apply preserves_bind; [apply exec_events|]. by intros [v|]; auto with go_preserves. Qed.
Lemma ask_events {A} (service : nat → GoError + A) : preserves (λ w, w_events w = l) (ask service).
Proof. intros w Hw. unfold ask. by destruct (service (w_tick w)). Qed.
Lemma new_uuid_events : preserves (λ w, w_events w = l) new_uuid.
Proof. by intros w. Qed.
Lemma clock_now_events : preserves (λ w, w_events w = l) clock_now.
Proof. by intros w. Qed.
Lemma modify_events f :
  (∀ w, w_events (f w) = w_events w) -> preserves (λ w, w_events w = l) (modify f : M World GoError unit).
Proof. intros Hf w Hw. simpl. by rewrite Hf. Qed.
Lemma first_choice_events choices :
  preserves (λ w, w_events w = l) (first_choice choices : M World GoError string).
Proof. by destruct choices; intros w. Qed.
Lemma readStream_events stream :
  preserves (λ w, w_events w = l) (readStream stream : M World GoError (list string)).
Proof.
  induction stream as [|[e|choices] stream IH]; [by intros w|by intros w|].
  simpl. apply preserves_bind; [apply first_choice_events|]. intros content.
  apply preserves_bind; [done|]. by intros rest w.
Qed.
End quiet.

#[export] Hint Resolve exec_events query_row_events ask_events new_uuid_events clock_now_events modify_events
  first_choice_events readStream_events : go_preserves.

(** ** Calls that do not park *)
Section proceeds.
Lemma proceeds_ret {A} (v : A) : proceeds (ret v).
Proof. by intros w. Qed.
Lemma proceeds_throw {A} e : proceeds (throw e : M World GoError A).
Proof. by intros w. Qed.
Lemma proceeds_panic {A} : proceeds (panic : M World GoError A).
Proof. by intros w. Qed.
Lemma proceeds_get : proceeds get.
Proof. by intros w. Qed.
Lemma proceeds_modify f : proceeds (modify f).
Proof. by intros w. Qed.
Lemma proceeds_of_sum {A} (r : GoError + A) : proceeds (of_sum r).
Proof. by intros w; destruct r. Qed.
Lemma proceeds_bind {A B} (m : M World GoError A) (k : A → M World GoError B) :
  proceeds m -> (∀ a, proceeds (k a)) -> proceeds (bind m k).
Proof.
  intros Hm Hk w. specialize (Hm w). unfold bind. destruct (m w) as [[a|e| |] w']; simpl in *; [apply Hk|done..].
Qed.
Lemma proceeds_try {A} (m : M World GoError A) : proceeds m -> proceeds (try m).
Proof. intros Hm w. specialize (Hm w). unfold try. by destruct (m w) as [[a|e| |] w']. Qed.
Lemma proceeds_map_err {A} f (m : M World GoError A) : proceeds m -> proceeds (map_err f m).
Proof. intros Hm w. specialize (Hm w). unfold map_err. by destruct (m w) as [[a|e| |] w']. Qed.
Lemma proceeds_for_range {A} (f : A → M World GoError unit) l : (∀ x, proceeds (f x)) -> proceeds (for_range f l).
Proof. intros Hf. induction l as [|x l IH]; [apply proceeds_ret|]. simpl. by apply proceeds_bind. Qed.

Context `{Env}.
Lemma exec_proceeds {A} (s : Stmt A) : proceeds (exec s).
Proof. intros w. unfold exec, World_PgClient, World_exec. repeat case_match; by simplify_eq/=. Qed.
Lemma query_row_proceeds {A} (s : Stmt (option A)) : proceeds (query_row s).
Proof. apply proceeds_bind; [apply exec_proceeds|]. intros [v|]; by intros w. Qed.
Lemma ask_proceeds {A} (service : nat → GoError + A) : proceeds (ask service).
Proof. intros w. unfold ask. by destruct (service (w_tick w)). Qed.
Lemma new_uuid_proceeds : proceeds new_uuid.
Proof. by intros w. Qed.
Lemma clock_now_proceeds : proceeds clock_now.
Proof. by intros w. Qed.
Lemma first_choice_proceeds choices : proceeds (first_choice choices : M World GoError string).
Proof. by destruct choices; intros w. Qed.
Lemma readStream_proceeds stream : proceeds (readStream stream : M World GoError (list string)).
Proof.
  induction stream as [|[e|choices] stream IH]; [by intros w|by intros w|].
  simpl. apply proceeds_bind; [apply first_choice_proceeds|]. intros content.
  apply proceeds_bind; [done|]. by intros rest w.
Qed.
End proceeds.

Create HintDb go_proceeds.
#[export] Hint Resolve proceeds_ret proceeds_throw proceeds_panic proceeds_get proceeds_modify proceeds_of_sum
  exec_proceeds query_row_proceeds ask_proceeds new_uuid_proceeds clock_now_proceeds first_choice_proceeds
  readStream_proceeds : go_proceeds.

Ltac proceed :=
  repeat (autounfold with go_preserves go_frame; pg; cbn beta iota zeta);
  repeat first
    [ progress intros
    | apply proceeds_bind | apply proceeds_map_err | apply proceeds_for_range | apply proceeds_try
    | case_match | solve [eauto 4 with go_proceeds] ].

Section operations.
Context `{Env, AuthLib, OpenAI, GoCache, OpenWeather, ApnsClient, Locale, Process} (sv : Server).

#[local] Abbreviation services := (program_services (sv_topic sv) (sv_weatherKey sv)).

Ltac events_walk := repeat autounfold with go_frame; frame.

Lemma alerter_Run_events topic l : preserves (λ w, w_events w = l) (alerter_Run topic).
Proof. events_walk. Qed.

Lemma gather_collections_events `{Services} user cols st l :
  preserves (λ w, w_events w = l) (gather_collections user cols st).
Proof.
  revert st. induction cols as [|c cols IH]; intros st; [apply preserves_ret|]. simpl.
  apply preserves_bind; [frame|].
  intros records. apply preserves_bind; [|done]. intros w Hw. by rewrite gather_records_keeps.
Qed.

Lemma TeaOfTheDay_events st ctx l :
  preserves (λ w, w_events w = l) (TeaOfTheDay (H1 := services) (Store0 := api_store st) ctx).
Proof.
  unfold TeaOfTheDay, chooseTea. pg.
  assert (∀ user now, preserves (λ w, w_events w = l) (todCache_Get user now)) as Hget.
  { intros user now w Hw. unfold todCache_Get. by destruct (cache_Get _ _ _). }
  assert (∀ user v now, preserves (λ w, w_events w = l) (todCache_Set user v now)) as Hset by (by intros ? ? ? w).
  pose proof (@gather_collections_events services) as Hgather.
  assert (∀ m s, preserves (λ w, w_events w = l) (aiScoresOf m s)) as Hai by (by intros ? ? w).
  cbn [Services_CurrentCyprus Resolvers.ContextScores program_services]. events_walk.
Qed.

Lemma alerter_Run_proceeds topic : proceeds (alerter_Run topic).
Proof. proceed. Qed.

Lemma gather_records_proceeds records st : proceeds (gather_records records st).
Proof.
  revert st. induction records as [|rec records IH]; intros st; [apply proceeds_ret|]. simpl.
  apply proceeds_bind; [|done]. intros w. unfold gather, bind, ret, panic. repeat (case_match; simplify_eq/=); done.
Qed.

Lemma gather_collections_proceeds `{Services} user cols st : proceeds (gather_collections user cols st).
Proof.
  revert st. induction cols as [|c cols IH]; intros st; [apply proceeds_ret|]. simpl.
  apply proceeds_bind; [proceed|].
  intros records. apply proceeds_bind; [|done]. intros w. apply gather_records_proceeds.
Qed.

Lemma TeaOfTheDay_proceeds st ctx :
  proceeds (TeaOfTheDay (H1 := services) (Store0 := api_store st) ctx).
Proof.
  unfold TeaOfTheDay, chooseTea. pg.
  assert (∀ user now, proceeds (todCache_Get user now)) as Hget.
  { intros user now w. unfold todCache_Get. by destruct (cache_Get _ _ _). }
  assert (∀ user v now, proceeds (todCache_Set user v now)) as Hset by (by intros ? ? ? w).
  pose proof (@gather_collections_proceeds services) as Hgather.
  assert (∀ m s, proceeds (aiScoresOf m s)) as Hai by (by intros ? ? w).
  cbn [Services_CurrentCyprus Resolvers.ContextScores program_services]. proceed.
Qed.

Lemma run_operation_proceeds a st op ctx :
  admin_operation op = false -> proceeds (run_operation (H1 := services) a st op ctx).
Proof.
  destruct op; intros Hop; try discriminate Hop; cbn [run_operation];
    try (proceed; cbn [Resolvers.GenerateDescription Resolvers.RecommendTea Run
           Services_CurrentCyprus program_services]; proceed; fail).
  apply proceeds_bind; [apply TeaOfTheDay_proceeds|proceed].
Qed.

Lemma run_operation_events a st op ctx l :
  admin_operation op = false ->
  preserves (λ w, w_events w = l) (run_operation (H1 := services) a st op ctx).
Proof.
  destruct op; intros Hop; try discriminate Hop; cbn [run_operation];
    try (events_walk; cbn [Resolvers.GenerateDescription Resolvers.RecommendTea Run
           Services_CurrentCyprus program_services]; events_walk; fail).
  apply preserves_bind; [apply TeaOfTheDay_events|frame].
Qed.

Lemma require_admin_world ctx w : (require_admin (H1 := services) ctx w : _ * World).2 = w.
Proof. unfold require_admin, RequireAdmin. by destruct (AdminPrincipalFrom ctx).2. Qed.
Lemma require_admin_proceeds ctx : proceeds (require_admin (H1 := services) ctx).
Proof. proceed. Qed.
Lemma ret_silent {A} (a : A) : silent (ret a).
Proof. by intros w r w' [= <- <-]. Qed.
Lemma tea_answer_silent id : silent (let! t := map_err (castGQLError (H1 := services)) (TeaManager.Get id) in ret (FromCommonTea t)).
Proof. apply silent_of; [intros ?; frame..|proceed]. Qed.

(** An operation tells the truth, and a success tells all of it. *)
Lemma run_operation_reports a st op ctx :
  reports (announces op) (tells op) (run_operation (H1 := services) a st op ctx).
Proof.
  destruct (admin_operation op) eqn:Hop;
    [|apply reports_events; [by destruct op|intros l; by apply run_operation_events|by apply run_operation_proceeds]].
  destruct op; try discriminate Hop; cbn [run_operation];
    (apply reports_then; [|intros ?; apply ret_silent]);
    (apply reports_guarded; [apply require_admin_world|apply require_admin_proceeds|intros _]);
    (apply reports_then; [apply reports_map_err|intros ?; first [apply ret_silent|apply tea_answer_silent]]).
  - exact (tea_manager_reports (OpWriteRecord _)).
  - exact (tea_manager_reports (OpUpdate _ _)).
  - exact (tag_manager_reports (OpAddTagToTea _ _)).
  - exact (tag_manager_reports (OpDeleteTagFromTea _ _)).
  - exact (tea_manager_reports (OpDelete _)).
  - exact (tag_manager_reports (OpCreateTagCategory _)).
  - exact (tag_manager_reports (OpUpdateTagCategory _ _)).
  - exact (tag_manager_reports (OpDeleteTagCategory _)).
  - exact (tag_manager_reports (OpCreateTag _ _ _)).
  - exact (tag_manager_reports (OpUpdateTag _ _ _)).
  - exact (tag_manager_reports (OpChangeTagCategory _ _)).
  - exact (tag_manager_reports (OpDeleteTag _)).
Qed.
End operations.

(** ** Requests and connections *)
Section requests.
Context `{Env, AuthLib, OpenAI, GoCache, OpenWeather, ApnsClient, Locale, Process} (sv : Server).

Lemma Validate_proceeds a token : proceeds (Validate a token).
Proof.
  intros w. unfold Validate, bind, map_err. rewrite parse_jwt_run.
  destruct (jwt_Parse _ _ _ _) as [e|tok]; [done|].
  unfold extractValidClaims, bind, map_err, of_sum, clock_now.
  destruct (tok_Claims tok) as [mc|]; [|done]. destruct (tok_Valid tok); [|done].
  destruct (GetExpirationTime mc) as [e|[exp|]]; [done| |done]. simpl.
  destruct (After _ _); [done|]. simpl. by destruct (issuerUUID mc).
Qed.
Lemma ValidateAdmin_proceeds a token : proceeds (ValidateAdmin a token).
Proof.
  intros w. unfold ValidateAdmin, bind, map_err. rewrite parse_jwt_run.
  destruct (jwt_Parse _ _ _ _) as [e|tok]; [done|].
  destruct (tok_Claims tok) as [mc|]; [|done]. destruct (tok_Valid tok); [|done].
  destruct (negb _); [done|]. unfold of_sum.
  destruct (GetIssuedAt mc) as [e|[iat|]]; try done; by destruct (GetExpirationTime mc) as [e|[exp|]].
Qed.

Lemma Validate_silent a token : silent (Validate a token).
Proof.
  intros w r w' E. pose proof (Validate_proceeds a token w) as Hp. pose proof (Validate_ticks a token w) as Ht.
  rewrite E in *. by destruct Ht as [? | ?]; simplify_eq/=.
Qed.
Lemma ValidateAdmin_silent a token : silent (ValidateAdmin a token).
Proof.
  intros w r w' E. pose proof (ValidateAdmin_proceeds a token w) as Hp.
  pose proof (ValidateAdmin_run a token w) as Ht. rewrite E in *. by simplify_eq/=.
Qed.

Lemma silent_bind {A B} (m : M World GoError A) (k : A → M World GoError B) :
  silent m -> (∀ x, silent (k x)) -> silent (bind m k).
Proof.
  intros Hm Hk w r w' E. unfold bind in E. destruct (m w) as [r0 w0] eqn:E0.
  destruct (Hm _ _ _ E0) as (Hd & He & Hp). destruct r0; [|by simplify_eq..].
  destruct (Hk _ _ _ _ E) as (Hd' & He' & Hp'). by rewrite Hd', He'.
Qed.
Lemma silent_try {A} (m : M World GoError A) : silent m -> silent (try m).
Proof.
  intros Hm w r w' E. unfold try in E. destruct (m w) as [r0 w0] eqn:E0. specialize (Hm _ _ _ E0).
  destruct Hm as (Hd & He & Hp). destruct r0; injection E as <- <-; by split_and!.
Qed.

Lemma InterceptResponse_silent a header ctx : silent (InterceptResponse a header ctx ret).
Proof.
  unfold InterceptResponse.
  repeat first [case_match | apply ret_silent | apply silent_bind; [|intros ?]
    | apply silent_try, Validate_silent | apply silent_try, ValidateAdmin_silent].
Qed.

Lemma connect_silent header payload : silent (connect sv header payload).
Proof.
  apply silent_bind; [|intros ?; apply ret_silent]. intros w r w'. rewrite WsInitFunc_intercepts. revert w r w'.
  apply silent_bind; [apply InterceptResponse_silent|]. intros [ctx [|e errs]]; [apply ret_silent|].
  by intros w r w' [= <- <-].
Qed.

(** What an answered operation put on the channels, and what it left for later. *)
Lemma answer_reports header ctx op w r w' :
  world_wf w -> answer sv header ctx op w = (r, w') ->
  ∃ es, w_events w' = w_events w ++ es ∧
    match r with
    | Ok (inr _, _) => announces op (w_db w) (w_db w') es ∧ owed sv header ctx op w = []
    | Blocked => owed sv header ctx op w ≠ [] ∧ announces op (w_db w) (w_db w') (es ++ owed sv header ctx op w)
    | _ => (es = [] ∨ announces op (w_db w) (w_db w') es) ∧ owed sv header ctx op w = []
    end.
Proof.
  intros Hw Hans. pose proof Hans as Hr. unfold answer in Hr. rewrite InterceptResponse_factors in Hr.
  unfold bind at 1 in Hr. unfold owed. rewrite Hans.
  destruct (InterceptResponse _ _ _ ret w) as [r0 w1] eqn:E.
  destruct (InterceptResponse_silent _ _ _ _ _ _ E) as (Hdb & Hev & Hp).
  destruct r0 as [[ctx' errs]|e| |];
    [|injection Hr as <- <-; exists []; rewrite app_nil_r; split; [done|split; [by left|done]]..|done].
  unfold bind, try in Hr. destruct (run_operation _ _ op (ctx', errs).1 w1) as [r1 w2] eqn:Hop.
  apply (run_operation_reports sv) in Hop as (es & Hes & Ht); [|unfold world_wf; by rewrite Hdb].
  rewrite Hdb, Hev in *. destruct r1 as [[]|e| |]; unfold ret in Hr; injection Hr as <- <-; exists es;
    try by (split; [done|]; split). simpl in Ht. cbn zeta.
  rewrite Hes, length_app, Nat.add_comm, Nat.add_sub. by split.
Qed.
End requests.

(** ** Properties *)

(** C8: an operation announces what it did. Whatever it puts on the channels
    tells of the change it made to the database, from the request with its token
    on. An operation that answers with success has told all of it: the created or
    changed tea, tag or category as it is stored, each deleted one, each tag that
    a deleted category took with it, each new or removed link. One that fails has
    told all or nothing; one whose caller is parked has told a beginning, and what
    the goroutine sends when it goes on is the rest of it. Every other operation
    puts nothing on a channel. *)
Theorem operations_announce_what_they_did
  `{Env, AuthLib, OpenAI, GoCache, OpenWeather, ApnsClient, Locale, Process} sv header ctx op w r w' :
  world_wf w -> answer sv header ctx op w = (r, w') ->
  ∃ es, w_events w' = w_events w ++ es ∧
    match r with
    | Ok (inr _, _) => announces op (w_db w) (w_db w') es ∧ owed sv header ctx op w = []
    | Blocked => owed sv header ctx op w ≠ [] ∧ announces op (w_db w) (w_db w') (es ++ owed sv header ctx op w)
    | _ => (es = [] ∨ announces op (w_db w) (w_db w') es) ∧ owed sv header ctx op w = []
    end.
Proof. apply answer_reports. Qed.

(** ** Witnesses *)
#[local] Existing Instance exampleEnv.
#[local] Existing Instance exampleAuthLib.
#[local] Existing Instance exampleLocale.
#[local] Existing Instance exampleOpenAI.
#[local] Existing Instance exampleGoCache.
#[local] Existing Instance exampleApns.
Definition exampleOpenWeather : OpenWeather := {|
  owm_Query := unit;
  owm_NewCurrent _ _ _ := inr tt;
  owm_CurrentByName _ _ _ := inl (EForeign "timeout") |}.
#[local] Existing Instance exampleOpenWeather.

(** The variables of the process. *)
Definition exampleVariables : list (string * string) :=
  [("PG_DSN", "postgres://tea"); ("OPEN_AI_TOKEN", "token"); ("APPLE_AUTH_SECRET_PATH", "AuthKey.p8");
   ("APPLE_AUTH_TEAM_ID", "team"); ("CLIENT_ID", "client"); ("APPLE_AUTH_KEY_ID", "key");
   ("ADMIN_PUBLIC_KEY_PATH", "/keys/admin.pem"); ("OPENWEATHER_APIKEY", "weather")].

Definition environment (variables : list (string * string)) (name : string) : option string :=
  (list_to_map variables : gmap string string) !! name.

Definition process_in (env : string → option string) : Process := {|
  LookupEnv := env;
  ParseLevel level := if String.eqb level "info" then inr 4%Z else inl (EForeign "not a valid logrus Level");
  envconfig_Process S := @process_with env S;
  sql_Open _ := inr tt;
  sql_Ping _ _ := inr tt;
  AuthKeyFromFile _ _ := inr tt;
  ParseFS := inr tt;
  gqlerror_Error m _ := m |}.

#[export] Instance process_in_laws env : @ProcessLaws (process_in env).
Proof.
  split. intros S prefix fields s. simpl. unfold process_with.
  destruct (process_fields _ _ _ _); [done|by eexists].
Qed.

Definition exampleProcess : Process := process_in (environment exampleVariables).
#[local] Existing Instance exampleProcess.

Definition exampleServer : Server :=
  mkServer
    (mkAuth (mkConfiguration "AuthKey.p8" "PEM" "team" "client" "key" "/keys/admin.pem") "client-secret"
       (Some {["" := Some 7%N]}))
    (NewPGStore 0%Z) "client" "weather" "token".

Definition emptyWorld : World := Nat.iter 5 advance (initial_world empty_db).

Lemma exampleServer_boots : main (initial_world empty_db) = (Ok exampleServer, emptyWorld).
Proof. reflexivity. Qed.

(** The editor adds a tea. *)
Definition addTea : operation := DoNewTea (mkGqlTeaData "Sencha" TypeTea "green").
Definition editor : option string := Some (bearerPrefix +:+ exampleAdminToken true).

Lemma operations_announce_what_they_did_witness :
  let run := answer exampleServer editor Background addTea emptyWorld in
  run.1 = Ok (inr tt, []) ∧
  ∃ es, w_events run.2 = w_events emptyWorld ++ es ∧ announces addTea (w_db emptyWorld) (w_db run.2) es.
Proof.
  cbv zeta. assert ((answer exampleServer editor Background addTea emptyWorld).1 = Ok (inr tt, [])) as Hok
    by (vm_compute; reflexivity).
  split; [exact Hok|].
  destruct (operations_announce_what_they_did exampleServer editor Background addTea emptyWorld _ _
    empty_db_wf (surjective_pairing _)) as (es & Hes & Ht).
  exists es. split; [exact Hes|]. rewrite Hok in Ht. exact (proj1 Ht).
Defined.
