(* ===== verification/System.v ===== *)
(** The whole system as a labelled step relation: requests, websocket connections
    and the operations sent over them, completed turns of the two event loops,
    sends of goroutines that were parked on a full channel, ticks of the alerter,
    new subscriptions and the passing of time, in any order. A request or a turn
    is one step: what of it happens between two round trips to the database is not
    interleaved with others. *)

From stdpp Require Import base gmap sets list strings.
From Stdlib Require Import ZArith Lia.
From S2P Require Import Prelude GoTime Common Models Subscribers Consumption TodCache Env Schema Sql World.
From S2P Require Import Queries PgAdapter Interfaces PgStorage Example Managers PgConsumption StorageTheorems.
From S2P Require Import EventLoop Frame AuthLib Auth Weather Resolvers TeaOfTheDay Api Expiration Adviser Envconfig Server.
From S2P Require Import Announce.

(** ** The invariant of the shared state *)

Section sound.
Context `{Env}.

(** The database is consistent and no channel holds more than its buffer. *)
Definition sound (w : World) : Prop :=
  world_wf w ∧ ∀ c, length (buffered c (w_events w)) <= defaultChanSize.

Lemma sound_same w w' : w_db w' = w_db w -> w_events w' = w_events w -> sound w -> sound w'.
Proof. intros Hd He [Hw Hb]. split; [unfold world_wf; by rewrite Hd|by rewrite He]. Qed.

Lemma exec_sound {A} (s : Stmt A) : stmt_wf s -> preserves sound (exec s).
Proof.
  intros Hs w [Hw Hb]. split; [by apply exec_wf|].
  unfold exec, World_PgClient, World_exec. destruct (pg_fault (w_tick w)) as [[?|?]|]; [done| |]; by destruct (s _ _) as [?|[??]].
Qed.

Lemma query_row_sound {A} (s : Stmt (option A)) : stmt_wf s -> preserves sound (query_row s).
Proof. intros Hs. apply preserves_bind; [by apply exec_sound|]. by intros [v|]; auto with go_preserves. Qed.

Lemma ask_sound {A} (service : nat → GoError + A) : preserves sound (ask service).
Proof. intros w Hw. unfold ask. by destruct (service (w_tick w)). Qed.
Lemma new_uuid_sound : preserves sound new_uuid.
Proof. by intros w. Qed.
Lemma clock_now_sound : preserves sound clock_now.
Proof. by intros w. Qed.
Lemma send_event_sound e : preserves sound (send_event e).
Proof.
  intros w [Hw Hb]. split; [by apply send_event_wf|]. intros c.
  unfold send_event. case_decide as Hlt; [|apply Hb]. simpl in *. rewrite buffered_app, length_app, buffered_cons.
  specialize (Hb c). destruct (decide (event_chan e = c)) as [<-|]; simpl in *; lia.
Qed.
Lemma modify_sound f :
  (∀ w, w_db (f w) = w_db w) -> (∀ w, w_events (f w) = w_events w) ->
  preserves sound (modify f : M World GoError unit).
Proof. intros Hd He w Hw. simpl. eapply sound_same; [apply Hd|apply He|done]. Qed.
Lemma first_choice_sound choices : preserves sound (first_choice choices : M World GoError string).
Proof. by destruct choices; intros w. Qed.
Lemma readStream_sound stream : preserves sound (readStream stream : M World GoError (list string)).
Proof.
  induction stream as [|[e|choices] stream IH]; [by intros w|by intros w|].
  simpl. apply preserves_bind; [apply first_choice_sound|]. intros content.
  apply preserves_bind; [done|]. by intros rest w.
Qed.
End sound.

#[export] Hint Resolve exec_sound query_row_sound ask_sound new_uuid_sound clock_now_sound send_event_sound
  modify_sound first_choice_sound readStream_sound : go_preserves.

(** ** Operations keep it *)
#[export] Hint Unfold NewTea UpdateTea Resolvers.AddTagToTea Resolvers.DeleteTagFromTea DeleteTea
  Resolvers.CreateTagCategory Resolvers.UpdateTagCategory Resolvers.DeleteTagCategory Resolvers.CreateTag
  Resolvers.UpdateTag Resolvers.ChangeTagCategory Resolvers.DeleteTag
  TeaManager.Create TeaManager.Update TeaManager.Delete
  TagManager.AddTagToTea TagManager.DeleteTagFromTea TagManager.CreateCategory TagManager.UpdateCategory
  TagManager.DeleteCategory TagManager.Create TagManager.Update TagManager.ChangeCategory TagManager.Delete
  : go_preserves.

Section operations.
Context `{Env, AuthLib, OpenAI, GoCache, OpenWeather, ApnsClient, Locale, Process}.

Ltac sound_walk := repeat autounfold with go_frame; frame.

Lemma alerter_Run_sound topic : preserves sound (alerter_Run topic).
Proof. sound_walk. Qed.

Lemma gather_collections_sound `{Services} user cols st : preserves sound (gather_collections user cols st).
Proof.
  revert st. induction cols as [|c cols IH]; intros st; [apply preserves_ret|]. simpl.
  apply preserves_bind; [frame|].
  intros records. apply preserves_bind; [|done]. intros w Hw. by rewrite gather_records_keeps.
Qed.

Lemma TeaOfTheDay_sound topic key st ctx :
  preserves sound (TeaOfTheDay (H1 := program_services topic key) (Store0 := api_store st) ctx).
Proof.
  unfold TeaOfTheDay, chooseTea. pg.
  assert (∀ user now, preserves sound (todCache_Get user now)) as Hget.
  { intros user now w Hw. unfold todCache_Get. by destruct (cache_Get _ _ _). }
  assert (∀ user v now, preserves sound (todCache_Set user v now)) as Hset by (by intros ? ? ? w).
  pose proof (@gather_collections_sound (program_services topic key)) as Hgather.
  assert (∀ m s, preserves sound (aiScoresOf m s)) as Hai by (by intros ? ? w).
  cbn [Services_CurrentCyprus Resolvers.ContextScores program_services]. sound_walk.
Qed.

Lemma run_operation_sound topic key a st op ctx :
  preserves sound (run_operation (H1 := program_services topic key) a st op ctx).
Proof.
  destruct op; cbn [run_operation];
    try (sound_walk; cbn [Resolvers.GenerateDescription Resolvers.RecommendTea Run
           Services_CurrentCyprus program_services]; sound_walk; fail).
  apply preserves_bind; [apply TeaOfTheDay_sound|frame].
Qed.
End operations.

Section request.
Context `{Env, AuthLib, OpenAI, GoCache, OpenWeather, ApnsClient, Locale, Process}.

Lemma advance_sound w : sound w -> sound (advance w).
Proof. by apply sound_same. Qed.

Lemma Validate_sound a token : preserves sound (Validate a token).
Proof. intros w Hw. destruct (Validate_ticks a token w) as [-> | ->]; by repeat apply advance_sound. Qed.

Lemma ValidateAdmin_keeps_sound a token : preserves sound (ValidateAdmin a token).
Proof. intros w Hw. rewrite ValidateAdmin_run. by apply advance_sound. Qed.

Lemma answer_sound sv header ctx0 op : preserves sound (answer sv header ctx0 op).
Proof.
  pose proof (λ ctx, run_operation_sound (sv_topic sv) (sv_weatherKey sv) (sv_auth sv) (sv_store sv) op ctx) as Hop.
  pose proof (Validate_sound (sv_auth sv)) as Hv. pose proof (ValidateAdmin_keeps_sound (sv_auth sv)) as Ha.
  unfold answer, InterceptResponse. revert Hv Ha.
  generalize (Validate (sv_auth sv)) (ValidateAdmin (sv_auth sv)). intros validate validateAdmin Hv Ha.
  frame.
Qed.

Lemma answer_sound_of sv header ctx0 op w r w' : answer sv header ctx0 op w = (r, w') -> sound w -> sound w'.
Proof. intros Hr Hw. pose proof (answer_sound sv header ctx0 op w Hw) as Hs. by rewrite Hr in Hs. Qed.

Lemma connect_sound sv header payload : preserves sound (connect sv header payload).
Proof.
  pose proof (Validate_sound (sv_auth sv)) as Hv. pose proof (ValidateAdmin_keeps_sound (sv_auth sv)) as Ha.
  unfold connect, WsInitFunc. revert Hv Ha.
  generalize (Validate (sv_auth sv)) (ValidateAdmin (sv_auth sv)). intros validate validateAdmin Hv Ha.
  frame.
Qed.
End request.

(** ** Subscriptions

    The eleven subscription resolvers that register a channel. *)
Inductive subscription : Type :=
  | SubCreateTea | SubUpdateTea | SubDeleteTea
  | SubCreateTag | SubUpdateTag | SubDeleteTag
  | SubCreateTagCategory | SubUpdateTagCategory | SubDeleteTagCategory
  | SubAddTagToTea | SubDeleteTagFromTea.

Definition on_teaHubs {A} (m : M TeaHubs GoError A) : M (TeaHubs * TagHubs) GoError A :=
  zoom fst (λ x p, (x, p.2)) m.
Definition on_tagHubs {A} (m : M TagHubs GoError A) : M (TeaHubs * TagHubs) GoError A :=
  zoom snd (λ x p, (p.1, x)) m.

Definition subscribe `{Services} (k : subscription) (ctx ch : nat) : M (TeaHubs * TagHubs) GoError nat :=
  match k with
  | SubCreateTea => on_teaHubs (OnCreateTea ctx ch)
  | SubUpdateTea => on_teaHubs (OnUpdateTea ctx ch)
  | SubDeleteTea => on_teaHubs (OnDeleteTea ctx ch)
  | SubCreateTag => on_tagHubs (OnCreateTag ctx ch)
  | SubUpdateTag => on_tagHubs (OnUpdateTag ctx ch)
  | SubDeleteTag => on_tagHubs (OnDeleteTag ctx ch)
  | SubCreateTagCategory => on_tagHubs (OnCreateTagCategory ctx ch)
  | SubUpdateTagCategory => on_tagHubs (OnUpdateTagCategory ctx ch)
  | SubDeleteTagCategory => on_tagHubs (OnDeleteTagCategory ctx ch)
  | SubAddTagToTea => on_tagHubs (OnAddTagToTea ctx ch)
  | SubDeleteTagFromTea => on_tagHubs (OnDeleteTagFromTea ctx ch)
  end.

(** A channel no set has seen, as [make] returns. *)
Definition new_to {T} (ch : nat) (h : Hub T) : Prop := ch ∉ h_closed h ∧ ch ∉ sub_ch <$> h_subs h.
Definition new_chan (ch : nat) (p : TeaHubs * TagHubs) : Prop :=
  (new_to ch (th_create p.1) ∧ new_to ch (th_update p.1) ∧ new_to ch (th_delete p.1)) ∧
  new_to ch (gh_create p.2) ∧ new_to ch (gh_update p.2) ∧ new_to ch (gh_delete p.2) ∧
  new_to ch (gh_createCategory p.2) ∧ new_to ch (gh_updateCategory p.2) ∧ new_to ch (gh_deleteCategory p.2) ∧
  new_to ch (gh_addTagToTea p.2) ∧ new_to ch (gh_deleteTagToTea p.2).

Lemma Push_open {T} ctx ch (h : Hub T) : channels_open h -> new_to ch h -> channels_open (Push ctx ch h).2.
Proof.
  intros [Hnd Hopen] [Hc Hs]. split; simpl.
  - rewrite fmap_app. apply NoDup_app. split; [done|]. split; [set_solver|]. apply NoDup_singleton.
  - intros s [Hin|Hin]%elem_of_app; [by apply Hopen|]. by apply list_elem_of_singleton in Hin as ->.
Qed.

Lemma subscribe_open `{Services} k ctx ch p :
  tea_hubs_open p.1 -> tag_hubs_open p.2 -> new_chan ch p ->
  (subscribe k ctx ch p).1 = Ok ch ∧
  tea_hubs_open (subscribe k ctx ch p).2.1 ∧ tag_hubs_open (subscribe k ctx ch p).2.2.
Proof.
  intros (?&?&?) (?&?&?&?&?&?&?&?) ((?&?&?)&?&?&?&?&?&?&?&?).
  destruct k; (split; [done|]); unfold tea_hubs_open, tag_hubs_open; split_and!;
    first [assumption|
      match goal with Ho : channels_open ?h, Hn : new_to ch ?h |- _ => exact (Push_open ctx ch h Ho Hn) end].
Qed.

(** ** The system *)
Record System : Type := mkSystem {
  sy_world : World;
  sy_teaHubs : TeaHubs;
  sy_tagHubs : TagHubs;
  sy_alerter : LoopState;
  (** the open websocket connections, by a number the model gives them *)
  sy_conns : gmap nat Conn;
  (** what the goroutines that parked on a channel have still to send, the event
      they wait with first; nothing for those that went on to the end *)
  sy_parked : list (list Event) }.

Definition put_world (w : World) (s : System) : System :=
  mkSystem w (sy_teaHubs s) (sy_tagHubs s) (sy_alerter s) (sy_conns s) (sy_parked s).
Definition put_hubs (p : TeaHubs * TagHubs) (s : System) : System :=
  mkSystem (sy_world s) p.1 p.2 (sy_alerter s) (sy_conns s) (sy_parked s).
Definition put_conns (conns : gmap nat Conn) (s : System) : System :=
  mkSystem (sy_world s) (sy_teaHubs s) (sy_tagHubs s) (sy_alerter s) conns (sy_parked s).
Definition put_parked (parked : list (list Event)) (s : System) : System :=
  mkSystem (sy_world s) (sy_teaHubs s) (sy_tagHubs s) (sy_alerter s) (sy_conns s) parked.

(** The goroutine of a request that has to send [rest] yet joins the parked. *)
Definition park (rest : list Event) (s : System) : System :=
  match rest with [] => s | _ => put_parked (sy_parked s ++ [rest]) s end.

Inductive label : Type :=
  | LRequest (header : option string) (op : operation)
  | LConnect (id : nat) (header payload : string)
  | LMessage (id : nat) (op : operation)
  | LDisconnect (id : nat)
  | LTeaTurn (e : Event)
  | LTagTurn (e : Event)
  | LResume (e : Event)
  | LAlerter
  | LSubscribe (k : subscription)
  | LTime.

(** The channels the tea manager's loop selects on; the others are the tag
    manager's. *)
Definition tea_channel (c : Chan) : bool :=
  match c with ch_tea_create | ch_tea_update | ch_tea_delete => true | _ => false end.

Section system.
Context `{Env, AuthLib, OpenAI, GoCache, OpenWeather, ApnsClient, Locale, Process} (sv : Server).

(** A turn of a loop is a step when it completes; which subscribers have a
    reader and which contexts are done is up to the clients. A request that
    parked goes on with its sends, whatever became of its client, when a channel
    has room again: any parked goroutine may be the next. *)
Inductive step : System → label → System → Prop :=
  | st_request s header op r w' :
      handle_request sv header op (sy_world s) = (r, w') ->
      step s (LRequest header op) (park (owed sv header Background op (sy_world s)) (put_world w' s))
  | st_connect s id header payload conn w' :
      sy_conns s !! id = None -> connect sv header payload (sy_world s) = (Ok conn, w') ->
      step s (LConnect id header payload) (put_conns (<[id := conn]> (sy_conns s)) (put_world w' s))
  | st_refuse s id header payload r w' :
      connect sv header payload (sy_world s) = (r, w') -> (∀ conn, r ≠ Ok conn) ->
      step s (LConnect id header payload) (put_world w' s)
  | st_message s id conn op r w' :
      sy_conns s !! id = Some conn -> handle_message sv conn op (sy_world s) = (r, w') ->
      step s (LMessage id op)
        (park (owed sv (Some (conn_header conn)) (conn_ctx conn) op (sy_world s)) (put_world w' s))
  | st_disconnect s id :
      step s (LDisconnect id) (put_conns (delete id (sy_conns s)) s)
  | st_tea s c e w' ready done h' :
      tea_channel c = true -> receive c (sy_world s) = Some (e, w') ->
      TeaLoop.iteration ready done e (sy_teaHubs s) = (Ok tt, h') ->
      step s (LTeaTurn e) (mkSystem w' h' (sy_tagHubs s) (sy_alerter s) (sy_conns s) (sy_parked s))
  | st_tag s c e w' ready done w'' h' :
      tea_channel c = false -> receive c (sy_world s) = Some (e, w') ->
      TagLoop.iteration ready done e (w', sy_tagHubs s) = (Ok tt, (w'', h')) ->
      step s (LTagTurn e) (mkSystem w'' (sy_teaHubs s) h' (sy_alerter s) (sy_conns s) (sy_parked s))
  | st_resume s n e rest w' :
      sy_parked s !! n = Some (e :: rest) -> send_event e (sy_world s) = (Ok tt, w') ->
      step s (LResume e) (put_parked (<[n := rest]> (sy_parked s)) (put_world w' s))
  | st_alerter s r al w' :
      alerter_tick (alerter_Run (sv_topic sv)) (sy_alerter s, sy_world s) = (r, (al, w')) ->
      step s LAlerter (mkSystem w' (sy_teaHubs s) (sy_tagHubs s) al (sy_conns s) (sy_parked s))
  | st_subscribe s k ctx ch :
      new_chan ch (sy_teaHubs s, sy_tagHubs s) ->
      step s (LSubscribe k)
        (put_hubs (subscribe (H := program_services (sv_topic sv) (sv_weatherKey sv)) k ctx ch
                     (sy_teaHubs s, sy_tagHubs s)).2 s)
  | st_time s : step s LTime (put_world (advance (sy_world s)) s).

(** A run, with the labels of its steps. *)
Inductive run : System → list label → System → Prop :=
  | run_nil s : run s [] s
  | run_cons s l s1 ls s' : step s l s1 -> run s1 ls s' -> run s (l :: ls) s'.

(** The system when [main] serves. *)
Definition booted (w : World) : System :=
  mkSystem w TeaLoop.NewManager_hubs TagLoop.NewManager_hubs (alerter_Start NotStarted).2 ∅ [].

Definition system_ok (s : System) : Prop :=
  sound (sy_world s) ∧ tea_hubs_open (sy_teaHubs s) ∧ tag_hubs_open (sy_tagHubs s) ∧ sy_alerter s = Waiting.

(** Parking changes nothing else. *)
Lemma park_spec rest s :
  park rest s = put_parked (sy_parked s ++ match rest with [] => [] | _ => [rest] end) s.
Proof. destruct rest; [|done]. simpl. rewrite app_nil_r. by destruct s. Qed.

Lemma receive_sound c w e w' : receive c w = Some (e, w') -> sound w -> sound w' ∧ w_db w' = w_db w.
Proof.
  unfold receive. simpl. destruct (take_event c (w_events w)) as [[e' rest]|] eqn:E; [|done].
  intros [= -> <-] [Hw Hb]. split; [|done]. split; [done|]. intros c'.
  apply take_event_spec in E as (Hc & Hsame & Hother). simpl. specialize (Hb c').
  destruct (decide (c' = c)) as [->|Hne]; [rewrite Hsame in Hb; simpl in Hb; lia|by rewrite Hother].
Qed.

Lemma send_event_world e w w' :
  send_event e w = (Ok tt, w') ->
  w_db w' = w_db w ∧ w_events w' = w_events w ++ [e] ∧ length (buffered (event_chan e) (w_events w)) < defaultChanSize.
Proof. unfold send_event. case_decide; [|done]. by intros [= <-]. Qed.

Lemma tag_turn_world ready done e w h w' h' :
  tag_hubs_open h -> TagLoop.iteration ready done e (w, h) = (Ok tt, (w', h')) ->
  w_db w' = w_db w ∧ w_events w' = w_events w ∧ tag_hubs_open h'.
Proof.
  intros Ho Hr. pose proof (tag_iteration ready done e w h Ho) as Ht. rewrite Hr in Ht.
  destruct Ht as (Hdb & Hev & Hall). split_and!; [done..|].
  destruct Hall as (H1'&H2'&H3'&H4'&H5'&H6'&H7'&H8').
  split_and!; match goal with Hs : hub_served _ _ ?h _ |- channels_open ?h => apply Hs end.
Qed.

Lemma alerter_tick_run al w r al' w' :
  alerter_tick (alerter_Run (sv_topic sv)) (al, w) = (r, (al', w')) ->
  al' = al ∧ (sound w -> sound w') ∧ w_db w' = w_db w.
Proof.
  unfold alerter_tick, try. simpl. destruct al; [by intros [= <- <- <-]| |by intros [= <- <- <-]].
  pose proof (alerter_Run_sound (sv_topic sv) w) as Hs.
  pose proof (@Run_keeps (program_services (sv_topic sv) (sv_weatherKey sv)) _ (w_db w) w eq_refl) as Hk.
  cbn [Run program_services] in Hk.
  destruct (alerter_Run (sv_topic sv) w) as [[[]|e| |] w1]; intros [= <- <- <-]; by split_and!.
Qed.

Lemma step_ok s l s' : step s l s' -> system_ok s -> system_ok s'.
Proof.
  intros Hstep (Hw & Ht & Hg & Ha). destruct Hstep as [s header op r w' Hr|s id header payload conn w' _ Hr
    |s id header payload r w' Hr _|s id conn op r w' _ Hr|s id|s c e w' ready done h' Hc Hr Hi
    |s c e w' ready done w'' h' Hc Hr Hi|s n e rest w' _ Hr|s r al w' Hr|s k ctx ch Hn|s];
    unfold system_ok; rewrite ?park_spec; simpl.
  - split_and!; [|done..]. by apply (answer_sound_of _ _ _ _ _ _ _ Hr).
  - split_and!; [|done..]. pose proof (connect_sound sv header payload _ Hw) as Hs. by rewrite Hr in Hs.
  - split_and!; [|done..]. pose proof (connect_sound sv header payload _ Hw) as Hs. by rewrite Hr in Hs.
  - split_and!; [|done..]. by apply (answer_sound_of _ _ _ _ _ _ _ Hr).
  - by split_and!.
  - apply receive_sound in Hr as [Hw' _]; [|done].
    pose proof (tea_iteration ready done e _ Ht) as Hi'. rewrite Hi in Hi'. by destruct Hi' as (_ & _ & _ & Ho).
  - apply receive_sound in Hr as [Hw' _]; [|done].
    apply tag_turn_world in Hi as (Hdb & Hev & Ho); [|done]. split_and!; [by eapply sound_same|done..].
  - split_and!; [|done..]. pose proof (send_event_sound e _ Hw) as Hs. by rewrite Hr in Hs.
  - apply alerter_tick_run in Hr as (-> & Hs & _). split_and!; auto.
  - destruct (subscribe_open (H := program_services (sv_topic sv) (sv_weatherKey sv)) k ctx ch
      (sy_teaHubs s, sy_tagHubs s) Ht Hg Hn) as (_ & Ho1 & Ho2). done.
  - split_and!; [by apply advance_sound|done..].
Qed.

Lemma run_ok s ls s' : run s ls s' -> system_ok s -> system_ok s'.
Proof. induction 1; eauto using step_ok. Qed.

Lemma booted_ok d w : db_wf d -> main (initial_world d) = (Ok sv, w) -> system_ok (booted w).
Proof.
  intros Hd [-> _]%main_inv. split_and!; [|by repeat split; try constructor; set_solver..|done].
  simpl. repeat apply advance_sound. split; [done|]. intros c. unfold defaultChanSize. simpl. lia.
Qed.

(** ** What a run without an admin token leaves alone *)

(** The headers and payloads a step presents. *)
Definition presented (l : label) : list (option string) :=
  match l with
  | LRequest header _ => [header]
  | LConnect _ header payload => [Some header; Some payload]
  | _ => []
  end.

(** Nothing presented during the run is an admin's token at any time. *)
Definition never_admin (key : ecdsaPublic) (header : option string) : Prop :=
  ∀ now tok mc, ¬ admin_token key (bearer header) now tok mc.
Definition no_admin_token (key : ecdsaPublic) (ls : list label) : Prop :=
  ∀ l header, l ∈ ls -> header ∈ presented l -> never_admin key header.

Lemma never_admin_carries key header w : never_admin key header -> ¬ carries_admin key header w.
Proof. intros Hno (tick & tok & mc & _ & Htok). by eapply Hno. Qed.

(** The open connections are nobody's who is an admin. *)
Definition no_admin_conn (key : ecdsaPublic) (s : System) : Prop :=
  ∀ id conn, sy_conns s !! id = Some conn ->
    ctx_admin (conn_ctx conn) = None ∧ never_admin key (Some (conn_header conn)).

(** Where a connection after a step comes from. *)
Lemma step_conn s l s' id conn :
  step s l s' -> sy_conns s' !! id = Some conn ->
  (sy_conns s !! id = Some conn ∧ l ≠ LDisconnect id) ∨
  ∃ header payload w, l = LConnect id header payload ∧ connect sv header payload (sy_world s) = (Ok conn, w).
Proof.
  intros Hstep Hconn. destruct Hstep as [| s id' header payload conn' w' _ Hr| | |s id'| | | | | |];
    rewrite ?park_spec in Hconn; try (left; split; [exact Hconn|done]); simpl in Hconn.
  - apply lookup_insert_Some in Hconn as [[-> ->]|[_ Hconn]]; [by right; eauto|by left].
  - apply lookup_delete_Some in Hconn as [Hne Hconn]. left. split; [done|]. by intros [= ->].
Qed.

(** The handshake that made a connection, and the run before it. *)
Lemma conn_origin s ls s' id conn :
  run s ls s' -> sy_conns s' !! id = Some conn ->
  (sy_conns s !! id = Some conn ∧ LDisconnect id ∉ ls) ∨
  ∃ ls1 header payload s1 w ls2, ls = ls1 ++ LConnect id header payload :: ls2 ∧ LDisconnect id ∉ ls2 ∧
    run s ls1 s1 ∧ connect sv header payload (sy_world s1) = (Ok conn, w).
Proof.
  induction 1 as [s|s l s1 ls s' Hstep _ IH]; intros Hconn; [left; set_solver|].
  destruct (IH Hconn) as [[Hs1 Hls]|(ls1 & header & payload & s2 & w & ls2 & -> & Hls2 & Hrun & Hc)].
  - destruct (step_conn _ _ _ _ _ Hstep Hs1) as [[Hs Hl]|(header & payload & w & -> & Hc)].
    + left. split; [done|]. by intros [?|?]%elem_of_cons.
    + right. exists [], header, payload, s, w, ls. by repeat (split || constructor).
  - right. exists (l :: ls1), header, payload, s2, w, ls2. split_and!; [done..|by eapply run_cons|done].
Qed.

Lemma step_message_inv s id op s' :
  step s (LMessage id op) s' ->
  ∃ conn r w', sy_conns s !! id = Some conn ∧
    answer sv (Some (conn_header conn)) (conn_ctx conn) op (sy_world s) = (r, w') ∧ sy_world s' = w'.
Proof. inversion 1; subst. rewrite park_spec. eauto 10. Qed.

Lemma step_no_admin_conn `{!AuthLibLaws} key s l s' :
  admin_key (sv_auth sv) key -> no_admin_token key [l] -> step s l s' -> no_admin_conn key s -> no_admin_conn key s'.
Proof.
  intros Hkey Hno Hstep Hconns id conn Hconn.
  destruct (step_conn _ _ _ _ _ Hstep Hconn) as [[Hs _]|(header & payload & w & -> & Hc)]; [by eapply Hconns|].
  assert (∀ h, h ∈ [Some header; Some payload] -> never_admin key h) as Hpres by (intros h Hh; eapply Hno; [by left|exact Hh]).
  apply (connect_Ok _ key) in Hc as (-> & Hadmin & _); [|done]. split; [|apply Hpres; by left].
  apply eq_None_not_Some. intros Ha%Hadmin. eapply never_admin_carries; [|exact Ha]. apply Hpres. by right; left.
Qed.

Lemma step_catalogue `{!AuthLibLaws} key s l s' :
  admin_key (sv_auth sv) key -> no_admin_token key [l] -> system_ok s -> no_admin_conn key s -> step s l s' ->
  catalogue (w_db (sy_world s')) = catalogue (w_db (sy_world s)).
Proof.
  intros Hkey Hno (Hw & Ht & Hg & _) Hconns Hstep.
  destruct Hstep as [s header op r w' Hr|s id header payload conn w' _ Hr
    |s id header payload r w' Hr _|s id conn op r w' Hc Hr|s id|s c e w' ready done h' _ Hr _
    |s c e w' ready done w'' h' _ Hr Hi|s n e rest w' _ Hr|s r al w' Hr|s k ctx ch _|s];
    rewrite ?park_spec; simpl.
  - apply (request_authorized sv key) in Hr as [[Hc|Ha] _]; [done| |done|apply Hw].
    exfalso. eapply never_admin_carries; [|exact Ha]. eapply Hno; by left.
  - by apply connect_keeps in Hr as ->.
  - by apply connect_keeps in Hr as ->.
  - destruct (Hconns _ _ Hc) as [Hctx Hhead].
    unfold handle_message in Hr.
    apply (answer_authorized sv key) in Hr as [[Hcat|[[? Ha]|Ha]] _]; [done|congruence| |done|apply Hw].
    exfalso. by eapply never_admin_carries.
  - reflexivity.
  - by apply receive_sound in Hr as [_ ->].
  - apply receive_sound in Hr as [_ <-]; [|done]. by apply tag_turn_world in Hi as (-> & _ & _).
  - by apply send_event_world in Hr as (-> & _).
  - by apply alerter_tick_run in Hr as (_ & _ & ->).
  - reflexivity.
  - reflexivity.
Qed.

Lemma run_catalogue `{!AuthLibLaws} key s ls s' :
  admin_key (sv_auth sv) key -> run s ls s' -> no_admin_token key ls -> system_ok s -> no_admin_conn key s ->
  catalogue (w_db (sy_world s')) = catalogue (w_db (sy_world s)).
Proof.
  intros Hkey Hrun. induction Hrun as [s|s l s1 ls s' Hstep _ IH]; intros Hno Hok Hconns; [done|].
  assert (no_admin_token key [l]) as Hl by (intros l' header ->%list_elem_of_singleton Hh; eapply Hno; [by left|exact Hh]).
  rewrite IH; [by eapply step_catalogue| |by eapply step_ok|by eapply step_no_admin_conn].
  intros l' header Hin Hh. eapply Hno; [by right|exact Hh].
Qed.

(** ** Turns of the loops *)
Definition is_turn (l : label) : Prop :=
  match l with LTeaTurn _ | LTagTurn _ => True | _ => False end.
(** What the loops do, and the goroutines that wait for them. *)
Definition is_progress (l : label) : Prop :=
  match l with LTeaTurn _ | LTagTurn _ | LResume _ => True | _ => False end.

Definition pending (s : System) : list Event := w_events (sy_world s).
(** What the parked goroutines have still to send. *)
Definition unsent (s : System) : list Event := concat (sy_parked s).
(** An event still to be sent takes a send and a turn. *)
Definition debt (s : System) : nat := length (pending s) + 2 * length (unsent s).

Lemma debt_paid s : debt s = 0 -> pending s = [] ∧ unsent s = [].
Proof. unfold debt. intros Hd. split; apply nil_length_inv; lia. Qed.

Lemma concat_insert_tail {A} (ll : list (list A)) n x l :
  ll !! n = Some (x :: l) -> concat ll ≡ₚ x :: concat (<[n := l]> ll).
Proof.
  revert n. induction ll as [|l0 ll IH]; intros [|n]; simpl; intros Hn; [done..|by simplify_eq|].
  rewrite (IH n Hn). by rewrite Permutation_middle.
Qed.

Lemma concat_nonempty {A} (ll : list (list A)) : concat ll ≠ [] -> ∃ n x l, ll !! n = Some (x :: l).
Proof.
  induction ll as [|[|x l] ll IH]; simpl; intros Hne; [done| |by exists 0, x, l].
  destruct (IH Hne) as (n & x & l & Hn). by exists (S n), x, l.
Qed.

Lemma take_event_length c l e rest : take_event c l = Some (e, rest) -> length l = S (length rest).
Proof.
  revert rest. induction l as [|e0 l IH]; intros rest; simpl; [done|].
  destruct (decide _); [by intros [= _ <-]|].
  destruct (take_event c l) as [[e' rest']|]; [|done]. intros [= -> <-]. simpl. by rewrite (IH rest' eq_refl).
Qed.

Lemma receive_length c w e w' : receive c w = Some (e, w') -> length (w_events w) = S (length (w_events w')).
Proof.
  unfold receive. simpl. destruct (take_event c (w_events w)) as [[e' rest]|] eqn:E; [|done].
  intros [= _ <-]. by apply take_event_length in E.
Qed.

Lemma progress_debt s l s' : system_ok s -> is_progress l -> step s l s' -> debt s = S (debt s').
Proof.
  intros (_ & _ & Hg & _) Hl Hstep. unfold debt, pending, unsent.
  destruct Hstep as [| | | | |s c e w' ready done h' _ Hr _|s c e w' ready done w'' h' _ Hr Hi
    |s n e rest w' Hn Hr| | |]; try destruct Hl; simpl.
  - apply receive_length in Hr. lia.
  - apply receive_length in Hr. apply tag_turn_world in Hi as (_ & Hev & _); [|done]. rewrite Hev. lia.
  - apply send_event_world in Hr as (_ & Hev & _). rewrite Hev, length_app, (concat_insert_tail _ _ _ _ Hn).
    simpl. lia.
Qed.

Lemma progress_length s ls s' :
  run s ls s' -> system_ok s -> Forall is_progress ls -> debt s = length ls + debt s'.
Proof.
  induction 1 as [s|s l s1 ls s' Hstep _ IH]; intros Hok; [done|]. intros [Hl Hls]%Forall_cons.
  rewrite (progress_debt _ _ _ Hok Hl Hstep). simpl. f_equal. apply IH; [by eapply step_ok|done].
Qed.

(** While an event waits, a loop can take it if its subscribers read. *)
Lemma turn_possible s :
  system_ok s -> pending s ≠ [] -> ∃ l s', is_turn l ∧ step s l s'.
Proof.
  intros (_ & Ht & Hg & _) Hne. unfold pending in Hne.
  destruct (w_events (sy_world s)) as [|e rest] eqn:Ev; [done|].
  assert (receive (event_chan e) (sy_world s) = Some (e, set_events rest (sy_world s))) as Hr.
  { unfold receive. simpl. rewrite Ev. simpl. by rewrite decide_True. }
  destruct (tea_channel (event_chan e)) eqn:Hc.
  - pose proof (tea_iteration (λ _, true) (λ _, false) e _ Ht) as Hi.
    destruct (TeaLoop.iteration _ _ e _) as [[[]|err| |] h'] eqn:E; [|done..|by destruct Hi as (? & _ & ?)].
    exists (LTeaTurn e). eexists. split; [done|]. by eapply st_tea.
  - pose proof (tag_iteration (λ _, true) (λ _, false) e (set_events rest (sy_world s)) _ Hg) as Hi.
    destruct (TagLoop.iteration _ _ e _) as [[[]|err| |] [w'' h']] eqn:E; [|done..|by destruct Hi as (_ & ? & _ & ?)].
    exists (LTagTurn e). eexists. split; [done|]. by eapply st_tag.
Qed.

(** Once the channels are empty a parked goroutine can go on. *)
Lemma resume_possible s :
  pending s = [] -> unsent s ≠ [] -> ∃ e s', step s (LResume e) s'.
Proof.
  intros Hp (n & e & rest & Hn)%concat_nonempty. exists e. eexists. eapply st_resume; [exact Hn|].
  unfold send_event. simpl. unfold pending in Hp. rewrite Hp.
  by rewrite decide_True by (simpl; unfold defaultChanSize; lia).
Qed.

Lemma progress_possible s : system_ok s -> debt s ≠ 0 -> ∃ l s', is_progress l ∧ step s l s'.
Proof.
  intros Hok Hd. destruct (decide (pending s = [])) as [Hp|Hp].
  - destruct (resume_possible s Hp) as (e & s' & Hstep); [|by exists (LResume e), s'].
    intros Hu. apply Hd. unfold debt. by rewrite Hp, Hu.
  - destruct (turn_possible s Hok Hp) as (l & s' & Hl & Hstep). exists l, s'. split; [by destruct l|done].
Qed.

Lemma progress_drains n s :
  debt s = n -> system_ok s -> ∃ ls s', run s ls s' ∧ Forall is_progress ls ∧ debt s' = 0.
Proof.
  revert s. induction n as [|n IH]; intros s Hn Hok.
  { exists [], s. split; [constructor|]. by split; [constructor|]. }
  destruct (progress_possible s Hok) as (l & s1 & Hl & Hstep); [lia|].
  pose proof (progress_debt _ _ _ Hok Hl Hstep) as Hlen.
  destruct (IH s1) as (ls & s' & Hrun & Hls & Hp); [lia|by eapply step_ok|].
  exists (l :: ls), s'. split; [by eapply run_cons|]. split; [by constructor|done].
Qed.
End system.

(** ** Start-up *)
Section fail_fast.
Context `{Env, AuthLib, Process}.

(** A call that changes no data and does not wait; one that does not fail with
    an error either. *)
Definition quiet {A} (m : M World GoError A) : Prop :=
  ∀ w, w_db (m w).2 = w_db w ∧ match (m w).1 with Blocked => False | _ => True end.
Definition fast {A} (m : M World GoError A) : Prop :=
  ∀ w, w_db (m w).2 = w_db w ∧ match (m w).1 with Err _ | Blocked => False | _ => True end.

Lemma must_fast {A} (m : M World GoError A) : quiet m -> fast (must m).
Proof. intros Hm w. specialize (Hm w). unfold must, bind, try. by destruct (m w) as [[a|e| |] w']. Qed.

Lemma bind_fast {A B} (m : M World GoError A) (k : A → M World GoError B) :
  fast m -> (∀ a, fast (k a)) -> fast (bind m k).
Proof.
  intros Hm Hk w. specialize (Hm w). unfold bind. destruct (m w) as [[a|e| |] w']; simpl in *; try done.
  destruct (Hk a w') as [Hdb Hout]. split; [|done]. rewrite Hdb. apply Hm.
Qed.

Lemma of_sum_quiet {A} (r : GoError + A) : quiet (of_sum r).
Proof. intros w. by destruct r. Qed.
Lemma ask_quiet {A} (f : nat → GoError + A) : quiet (ask f).
Proof. intros w. unfold ask. by destruct (f (w_tick w)). Qed.
Lemma LoadPrompt_quiet : quiet LoadPrompt.
Proof. intros w. unfold LoadPrompt, map_err. by destruct ParseFS. Qed.

Lemma start_auth_quiet cfg : quiet (start_auth cfg).
Proof.
  intros w. unfold start_auth, Start, loadAdminKeys, on_auth, Auth.on_world, zoom, bind, map_err, modify, ask, get.
  simpl. destruct (apple_GenerateClientSecret _ _ _ _ _) as [e|secret]; [done|].
  unfold loadPublicKeyFromFile, bind, map_err, ask. simpl.
  destruct (ReadFile _ _) as [e|pem]; [done|].
  destruct (pem_Decode pem) as [bytes|]; [|done].
  by destruct (ParsePKIXPublicKey bytes) as [e|[k|k|]].
Qed.

Lemma ret_fast {A} (a : A) : fast (ret a).
Proof. by intros w. Qed.
Lemma panic_fast {A} : fast (panic : M World GoError A).
Proof. by intros w. Qed.

Lemma main_fast : fast main.
Proof.
  unfold main, Config. repeat first
    [ apply must_fast | apply bind_fast; [|intros ?] | apply of_sum_quiet | apply ask_quiet
    | apply LoadPrompt_quiet | apply start_auth_quiet | apply ret_fast | apply panic_fast | case_match ].
Qed.
End fail_fast.

(** ** Properties *)

(** C4: a server that has booted from a consistent database stays sound, whatever
    requests arrive, with whatever tokens, whatever the clients read or cancel,
    whatever round trips fail and in whatever order the loops and the alerter
    run: the database satisfies every constraint of the schema, no channel holds
    more than its hundred events, every set of subscribers is fit for the next
    turn, and the alerter waits. *)
Theorem system_stays_sound
  `{Env, AuthLib, OpenAI, GoCache, OpenWeather, ApnsClient, Locale, Process} d sv w ls s :
  db_wf d -> main (initial_world d) = (Ok sv, w) -> run sv (booted w) ls s ->
  db_wf (w_db (sy_world s)) ∧
  (∀ c, length (buffered c (w_events (sy_world s))) <= defaultChanSize) ∧
  tea_hubs_open (sy_teaHubs s) ∧ tag_hubs_open (sy_tagHubs s) ∧ sy_alerter s = Waiting.
Proof.
  intros Hd Hm Hrun. pose proof (run_ok _ _ _ _ Hrun (booted_ok _ _ _ Hd Hm)) as ([Hw Hb] & Ht & Hg & Ha).
  by split_and!.
Qed.

(** C5: the catalogue changes by the hand of an admin only. The booted server
    knows one admin key, that of the configured file; in every run in which no
    request and no websocket handshake carries an admin token signed for it, the teas, tags, categories
    and the tags of teas at the end are those at the start. *)
Theorem catalogue_changes_need_an_admin
  `{AuthLibLaws, OpenAI, GoCache, OpenWeather, ApnsClient, Locale, Process} d sv w :
  db_wf d -> main (initial_world d) = (Ok sv, w) ->
  ∃ key, admin_key (sv_auth sv) key ∧
    ∀ ls s, run sv (booted w) ls s -> no_admin_token key ls -> catalogue (w_db (sy_world s)) = catalogue d.
Proof.
  intros Hd Hm. destruct (main_inv _ _ _ Hm) as [Hw ((key & Hkey) & _)]. exists key. split; [done|].
  intros ls s Hrun Hno. rewrite (run_catalogue sv key _ _ _ Hkey Hrun Hno (booted_ok _ _ _ Hd Hm) ltac:(done)).
  simpl. by rewrite Hw.
Qed.

(** C6: what one request can change, from its Authorization header to the
    database. The catalogue is the same afterwards unless the header carries an
    admin token for the server's key; and every collection keeps its name, its
    owner and its records unless the header carries an admin token or an
    unexpired token of the collection's owner signed with the server's secret. *)
Theorem request_changes_are_authorized
  `{AuthLibLaws, OpenAI, GoCache, OpenWeather, ApnsClient, Locale, Process} w0 sv w1 :
  main w0 = (Ok sv, w1) ->
  ∃ key, admin_key (sv_auth sv) key ∧
  ∀ header op w r w', world_wf w -> handle_request sv header op w = (r, w') ->
    (catalogue (w_db w') = catalogue (w_db w) ∨ carries_admin key header w) ∧
    ∀ id owner name, cv_collections (cs_view w) !! id = Some (owner, name) ->
      collection_kept id (cs_view w) (cs_view w') ∨ carries_admin key header w ∨
      ∃ u, usr_ID u = owner ∧ carries_user (sv_auth sv) header w u.
Proof.
  intros [_ ((key & Hkey) & _)]%main_inv. exists key. split; [done|]. intros. by eapply request_authorized.
Qed.

(** C7: what an operation over a websocket can change, from the handshake to the
    database. In every run of the booted server, the connection it came over was
    made by a handshake of that run and not closed since; the catalogue is the
    same afterwards unless the payload of the handshake carried an admin token at
    that time or the request that was upgraded carries one now; and a collection
    changes only if one of the two names its owner, likewise, or an admin. *)
Theorem message_changes_are_authorized
  `{AuthLibLaws, OpenAI, GoCache, OpenWeather, ApnsClient, Locale, Process} d sv w :
  db_wf d -> main (initial_world d) = (Ok sv, w) ->
  ∃ key, admin_key (sv_auth sv) key ∧
  ∀ ls s id op s', run sv (booted w) ls s -> step sv s (LMessage id op) s' ->
  ∃ ls1 header payload s1 ls2,
    ls = ls1 ++ LConnect id header payload :: ls2 ∧ LDisconnect id ∉ ls2 ∧ run sv (booted w) ls1 s1 ∧
    let admin := carries_admin key (Some payload) (sy_world s1) ∨ carries_admin key (Some header) (sy_world s) in
    let user u := carries_user (sv_auth sv) (Some payload) (sy_world s1) u ∨
                  carries_user (sv_auth sv) (Some header) (sy_world s) u in
    (catalogue (w_db (sy_world s')) = catalogue (w_db (sy_world s)) ∨ admin) ∧
    ∀ cid owner name, cv_collections (cs_view (sy_world s)) !! cid = Some (owner, name) ->
      collection_kept cid (cs_view (sy_world s)) (cs_view (sy_world s')) ∨ admin ∨
      ∃ u, usr_ID u = owner ∧ user u.
Proof.
  intros Hd Hm. destruct (main_inv _ _ _ Hm) as [_ ((key & Hkey) & _)]. exists key. split; [done|].
  intros ls s id op s' Hrun Hstep.
  pose proof (run_ok _ _ _ _ Hrun (booted_ok _ _ _ Hd Hm)) as ([Hw _] & _).
  apply step_message_inv in Hstep as (conn & r & w' & Hconn & Hr & <-).
  destruct (conn_origin _ _ _ _ _ _ Hrun Hconn) as [[? _]|(ls1 & header & payload & s1 & w1 & ls2 & ? & ? & ? & Hc)];
    [done|].
  exists ls1, header, payload, s1, ls2. split_and!; [done..|].
  apply (connect_Ok _ key) in Hc as (<- & Hadmin & Huser); [|done].
  apply (answer_authorized _ key) in Hr as [Hcat Hcol]; [|done..]. simpl.
  split; [destruct Hcat as [?|[?|?]]; tauto|].
  intros cid owner name Hid. destruct (Hcol cid owner name Hid) as [?|[?|[?|(u & ? & Hu)]]]; [tauto..|].
  right. right. exists u. split; [done|]. destruct Hu as [Hu|?]; [left; by apply Huser|by right].
Qed.

(** C30: the event loops terminate and nothing that was announced is lost. Each
    event that waits costs a turn, each that a parked goroutine has still to send
    a resumption and a turn, and turns and resumptions alone cannot go on for
    longer than that. And if the subscribers read, they need not stop before:
    while anything is left a turn or a resumption is possible, and some run of
    them leaves all channels empty and no goroutine parked. *)
Theorem loops_drain
  `{Env, AuthLib, OpenAI, GoCache, OpenWeather, ApnsClient, Locale, Process} sv s :
  system_ok s ->
  (∀ ls s', run sv s ls s' -> Forall is_progress ls -> debt s = length ls + debt s') ∧
  (debt s ≠ 0 -> ∃ l s', is_progress l ∧ step sv s l s') ∧
  ∃ ls s', run sv s ls s' ∧ Forall is_progress ls ∧ pending s' = [] ∧ unsent s' = [].
Proof.
  intros Hok. split; [intros ls s' Hrun; by apply (progress_length sv)|].
  split; [by apply progress_possible|].
  destruct (progress_drains sv _ s eq_refl Hok) as (ls & s' & Hrun & Hls & [Hp Hu]%debt_paid).
  by exists ls, s'.
Qed.

(** C31: the process fails fast, and exactly for these reasons. [main] returns a
    server if and only if the log level is one, [PG_DSN] is set, not empty and
    names a database that answers a ping, the team, client and key id of Apple
    are set, the two key files can be read, the client secret can be made, the
    admin's public key is an ECDSA key and the templates parse; the server holds
    just what was found, and keeps consumptions for thirty days. In every other
    case [main] panics. The token of OpenAI and the key of the weather service
    are not among the reasons, although their fields are tagged as required: the
    library does not know the tag [require], and without the variables the
    server starts with empty ones. Starting touches no data. *)
Theorem main_fails_fast `{Env, AuthLib, ProcessLaws} w r w' :
  main w = (r, w') ->
  w_db w' = w_db w ∧ (∀ sv, r = Ok sv <-> starts_as w sv) ∧ (r = Panic <-> ∀ sv, ¬ starts_as w sv).
Proof.
  intros Hr. pose proof (main_fast w) as [Hdb Hout]. rewrite Hr in Hdb, Hout. split; [done|].
  assert (∀ sv, r = Ok sv <-> starts_as w sv) as Hiff.
  { intros sv. split; [intros ->; by eapply main_starts|]. intros Hs%main_run. congruence. }
  split; [done|]. destruct r as [sv|e| |]; [|done| |done].
  - split; [done|]. intros Hno. by destruct (Hno sv), (Hiff sv); auto.
  - split; [|done]. intros _ sv Hs%Hiff. done.
Qed.

(** ** Witnesses *)
#[local] Existing Instance exampleEnv.
#[local] Existing Instance exampleAuthLib.
#[local] Existing Instance exampleLocale.
#[local] Existing Instance exampleOpenAI.
#[local] Existing Instance exampleGoCache.
#[local] Existing Instance exampleApns.

#[local] Existing Instance exampleOpenWeather.
#[local] Existing Instance exampleProcess.

(** The system after a request. *)
Definition after_request (sv : Server) (header : option string) (op : operation) (s : System) : System :=
  park (owed sv header Background op (sy_world s)) (put_world (handle_request sv header op (sy_world s)).2 s).

Lemma request_step sv header op s : step sv s (LRequest header op) (after_request sv header op s).
Proof. eapply st_request, surjective_pairing. Qed.

(** The editor adds a tea. *)
Definition withTea : System := after_request exampleServer editor addTea (booted emptyWorld).

Lemma withTea_run : run exampleServer (booted emptyWorld) [LRequest editor addTea] withTea.
Proof. eapply run_cons; [exact (request_step exampleServer editor addTea (booted emptyWorld))|constructor]. Qed.

Lemma withTea_pending : length (pending withTea) = 1.
Proof. vm_compute. reflexivity. Qed.

Lemma system_stays_sound_witness :
  length (pending withTea) = 1 ∧ db_wf (w_db (sy_world withTea)) ∧ sy_alerter withTea = Waiting.
Proof.
  split; [exact withTea_pending|].
  destruct (system_stays_sound empty_db exampleServer emptyWorld [LRequest editor addTea] withTea
    empty_db_wf exampleServer_boots withTea_run) as (Hw & _ & _ & _ & Ha).
  split; [exact Hw|exact Ha].
Defined.

(** A stranger tries the same with a token that is none. *)
Definition stranger : option string := Some (bearerPrefix +:+ "open sesame").
Definition withoutTea : System := after_request exampleServer stranger addTea (booted emptyWorld).

Lemma withoutTea_run : run exampleServer (booted emptyWorld) [LRequest stranger addTea] withoutTea.
Proof. eapply run_cons; [exact (request_step exampleServer stranger addTea (booted emptyWorld))|constructor]. Qed.

Lemma stranger_is_no_admin key : no_admin_token key [LRequest stranger addTea].
Proof.
  intros l header ->%list_elem_of_singleton Hh now tok mc (_ & Hv & _).
  apply list_elem_of_singleton in Hh as ->. simpl in Hv.
  unfold example_verifies in Hv.
  assert (token_payload (bearer stranger) = None) as Hn by (vm_compute; reflexivity).
  by rewrite Hn in Hv.
Qed.

Lemma catalogue_changes_need_an_admin_witness :
  catalogue (w_db (sy_world withoutTea)) = catalogue empty_db.
Proof.
  destruct (catalogue_changes_need_an_admin empty_db exampleServer emptyWorld empty_db_wf exampleServer_boots)
    as (key & _ & Hkept).
  exact (Hkept _ _ withoutTea_run (stranger_is_no_admin key)).
Defined.

Lemma request_changes_are_authorized_witness :
  ∃ key, admin_key (sv_auth exampleServer) key ∧
    carries_admin key editor emptyWorld.
Proof.
  destruct (request_changes_are_authorized (initial_world empty_db) exampleServer emptyWorld exampleServer_boots)
    as (key & Hkey & Hreq).
  exists key. split; [exact Hkey|].
  destruct (Hreq editor addTea emptyWorld _ _ empty_db_wf (surjective_pairing _)) as [[Hsame|Hadmin] _];
    [|exact Hadmin].
  exfalso.
  assert (size (catalogue (w_db (handle_request exampleServer editor addTea emptyWorld).2)).1.1.1 = 1) as Hone
    by (vm_compute; reflexivity).
  rewrite Hsame in Hone. by vm_compute in Hone.
Defined.

(** The editor opens a connection, and adds the tea over it when the token of the
    handshake is long out of date. *)
Definition editorConn : Conn :=
  mkConn (mkCtx None (Some (mkAdminPrincipal "j1" (exampleClock 0) (exampleClock 60)))) "".
Definition connected : System :=
  put_conns {[0 := editorConn]} (put_world (Nat.iter 3 advance emptyWorld) (booted emptyWorld)).
Definition muchLater : World := Nat.iter 1000 advance (sy_world connected).
Definition withTeaByWs : System :=
  park (owed exampleServer (Some (conn_header editorConn)) (conn_ctx editorConn) addTea muchLater)
    (put_world (handle_message exampleServer editorConn addTea muchLater).2 (put_world muchLater connected)).

Lemma time_passes sv n s : run sv s (replicate n LTime) (put_world (Nat.iter n advance (sy_world s)) s).
Proof.
  revert s. induction n as [|n IH]; intros s; [by destruct s; constructor|].
  eapply run_cons; [constructor|]. specialize (IH (put_world (advance (sy_world s)) s)).
  cbn [sy_world put_world] in IH. rewrite <-Nat.iter_succ_r in IH. exact IH.
Qed.

Definition connected_labels : list label := LConnect 0 "" (default "" editor) :: replicate 1000 LTime.

Lemma connected_run :
  run exampleServer (booted emptyWorld) connected_labels (put_world muchLater connected).
Proof.
  eapply run_cons; [|exact (time_passes _ 1000 connected)].
  exact (st_connect exampleServer (booted emptyWorld) 0 "" (default "" editor) editorConn _ eq_refl eq_refl).
Qed.

(** A connection outlives the token it was opened with: the same token is refused
    by a new handshake, and the tea is there. *)
Lemma connection_outlives_its_token :
  step exampleServer (put_world muchLater connected) (LMessage 0 addTea) withTeaByWs ∧
  (connect exampleServer "" (default "" editor) muchLater).1 = Err (ESentinel ErrJwtIncorrect) ∧
  size (catalogue (w_db (sy_world withTeaByWs))).1.1.1 = 1.
Proof.
  split; [|split; vm_compute; reflexivity].
  by eapply (st_message exampleServer (put_world muchLater connected)), surjective_pairing.
Qed.

Lemma message_changes_are_authorized_witness :
  ∃ key, admin_key (sv_auth exampleServer) key ∧
    ∃ w, carries_admin key editor w ∨ carries_admin key (Some "") w.
Proof.
  destruct (message_changes_are_authorized empty_db exampleServer emptyWorld empty_db_wf exampleServer_boots)
    as (key & Hkey & Hmsg).
  exists key. split; [exact Hkey|].
  destruct (Hmsg _ _ 0 addTea withTeaByWs connected_run (proj1 connection_outlives_its_token))
    as (ls1 & header & payload & s1 & ls2 & Hls & _ & _ & [Hsame|Hadmin] & _).
  - exfalso. pose proof (proj2 (proj2 connection_outlives_its_token)) as Hone. rewrite Hsame in Hone.
    by vm_compute in Hone.
  - assert (LConnect 0 header payload ∈ connected_labels) as Hin by (rewrite Hls; set_solver).
    apply elem_of_cons in Hin as [Heq|Hin]; [|by apply elem_of_replicate in Hin as [? _]].
    injection Heq as -> ->. destruct Hadmin as [Ha|Ha]; eexists; [left|right]; exact Ha.
Defined.

(** The editor adds the tea while a hundred announcements wait: the request parks
    with its own. *)
Definition crowded : System :=
  put_world (set_events (replicate 100 (EvTeaCreate (mkTea 1%N (mkTeaData "Sencha" TeaBeverageType "")))) emptyWorld)
    (booted emptyWorld).
Definition parked : System := after_request exampleServer editor addTea crowded.

Lemma crowded_ok : system_ok crowded.
Proof.
  destruct (booted_ok exampleServer _ _ empty_db_wf exampleServer_boots) as ([Hw _] & Hrest).
  split; [|exact Hrest]. split; [exact Hw|]. intros []; vm_compute; lia.
Qed.

Lemma loops_drain_witness :
  length (sy_parked parked) = 1 ∧
  ∃ ls s', run exampleServer parked ls s' ∧ length ls = 102 ∧ pending s' = [] ∧ unsent s' = [].
Proof.
  split; [vm_compute; reflexivity|].
  assert (system_ok parked) as Hok by exact (step_ok _ _ _ _ (request_step exampleServer editor addTea crowded) crowded_ok).
  assert (debt parked = 102) as Hd by (vm_compute; reflexivity).
  destruct (loops_drain exampleServer parked Hok) as (Hlen & _ & ls & s' & Hrun & Hls & Hp & Hu).
  exists ls, s'. split; [exact Hrun|]. split; [|split; [exact Hp|exact Hu]].
  pose proof (Hlen ls s' Hrun Hls) as Hl. rewrite Hd in Hl. unfold debt in Hl. rewrite Hp, Hu in Hl. simpl in Hl. lia.
Defined.

(** A process without a token for OpenAI and a key for the weather service. *)
Definition bareProcess : Process :=
  process_in (environment
    [("PG_DSN", "postgres://tea"); ("TEAM_ID", "team"); ("CLIENT_ID", "client"); ("KEY_ID", "key")]).

Definition bareServer : Server :=
  mkServer
    (mkAuth (mkConfiguration "AuthKey_39D5B439QV.p8" "PEM" "team" "client" "key"
       "/keys/admin/admin_public_key.pem") "client-secret" (Some {["" := Some 7%N]}))
    (NewPGStore 0%Z) "client" "" "".

Lemma main_fails_fast_witness :
  main (H1 := bareProcess) (initial_world empty_db) = (Ok bareServer, emptyWorld) ∧
  starts_as (H1 := bareProcess) (initial_world empty_db) bareServer ∧ w_db emptyWorld = empty_db.
Proof.
  assert (main (H1 := bareProcess) (initial_world empty_db) = (Ok bareServer, emptyWorld)) as Hrun by reflexivity.
  destruct (main_fails_fast (H1 := bareProcess) (initial_world empty_db) _ _ Hrun) as (Hdb & Hs & _).
  split; [exact Hrun|]. split; [exact (proj1 (Hs bareServer) eq_refl)|exact Hdb].
Defined.
