(* ===== verification/Delivery.v ===== *)
(** From an operation to its subscribers: in every run of the system, what a
    subscriber has heard and what still waits for it is what was sent on the
    channels, in its order; nothing is sent that no operation announced, nothing
    an operation announced is lost, and what it announced has happened. *)

From stdpp Require Import base gmap sets list strings relations.
From Stdlib Require Import ZArith Lia.
From S2P Require Import Prelude GoTime Common Models Subscribers Consumption TodCache Env Schema Sql World.
From S2P Require Import Queries PgAdapter Interfaces PgStorage Example Managers PgConsumption StorageTheorems.
From S2P Require Import EventLoop Frame AuthLib Auth Weather Resolvers TeaOfTheDay Api Expiration Adviser.
From S2P Require Import Envconfig Server Announce System.

(** ** The sets of subscribers *)
Definition message (k : subscription) : Type :=
  match k with
  | SubCreateTea | SubUpdateTea | SubAddTagToTea | SubDeleteTagFromTea => gqlTea
  | SubDeleteTea | SubDeleteTag | SubDeleteTagCategory => UUID
  | SubCreateTag | SubUpdateTag => gqlTag
  | SubCreateTagCategory | SubUpdateTagCategory => gqlTagCategory
  end.

(** The set that a subscription registers in. *)
Definition hub_of (k : subscription) (s : System) : Hub (message k) :=
  match k with
  | SubCreateTea => th_create (sy_teaHubs s)
  | SubUpdateTea => th_update (sy_teaHubs s)
  | SubDeleteTea => th_delete (sy_teaHubs s)
  | SubCreateTag => gh_create (sy_tagHubs s)
  | SubUpdateTag => gh_update (sy_tagHubs s)
  | SubDeleteTag => gh_delete (sy_tagHubs s)
  | SubCreateTagCategory => gh_createCategory (sy_tagHubs s)
  | SubUpdateTagCategory => gh_updateCategory (sy_tagHubs s)
  | SubDeleteTagCategory => gh_deleteCategory (sy_tagHubs s)
  | SubAddTagToTea => gh_addTagToTea (sy_tagHubs s)
  | SubDeleteTagFromTea => gh_deleteTagToTea (sy_tagHubs s)
  end.

(** The channel its events come from. *)
Definition chan_of (k : subscription) : Chan :=
  match k with
  | SubCreateTea => ch_tea_create
  | SubUpdateTea => ch_tea_update
  | SubDeleteTea => ch_tea_delete
  | SubCreateTag => ch_tag_create
  | SubUpdateTag => ch_tag_update
  | SubDeleteTag => ch_tag_delete
  | SubCreateTagCategory => ch_createCategory
  | SubUpdateTagCategory => ch_updateCategory
  | SubDeleteTagCategory => ch_deleteCategory
  | SubAddTagToTea => ch_addTagToTea
  | SubDeleteTagFromTea => ch_deleteTagFromTea
  end.

(** What a turn of a loop with the event [t.2] has for the subscribers of a set,
    in the world [t.1] it found. The tag loop looks the category of a tag, or the
    tea of a link, up at that moment: it has no message when the database does
    not answer or the row is gone. *)
Definition told `{Env} (k : subscription) (t : World * Event) : list (message k) :=
  let ok := db_answers t.1 in
  let d := w_db t.1 in
  match k with
  | SubCreateTea => tea_created t.2
  | SubUpdateTea => tea_updated t.2
  | SubDeleteTea => tea_deleted t.2
  | SubCreateTag => if ok then tag_created d t.2 else []
  | SubUpdateTag => if ok then tag_updated d t.2 else []
  | SubDeleteTag => tag_deleted t.2
  | SubCreateTagCategory => category_created t.2
  | SubUpdateTagCategory => category_updated t.2
  | SubDeleteTagCategory => category_deleted t.2
  | SubAddTagToTea => if ok then tag_added d t.2 else []
  | SubDeleteTagFromTea => if ok then tag_removed d t.2 else []
  end.

(** ** What one subscriber hears *)
Section heard.
Context {T : Type}.
Implicit Types (h : Hub T) (msgs : list T).

Definition heard (ch : nat) h : list T := (filter (λ p, p.1 = ch) (h_delivered h)).*2.

Lemma broadcast_to_one subs sub (m : T) :
  NoDup (sub_ch <$> subs) -> sub ∈ subs ->
  (filter (λ p, p.1 = sub_ch sub) ((λ s, (sub_ch s, m)) <$> subs)).*2 = [m].
Proof.
  induction subs as [|s subs IH]; simpl; intros Hnd Hin; [by apply not_elem_of_nil in Hin|].
  apply NoDup_cons in Hnd as [Hs Hnd]. rewrite filter_cons. simpl. case_decide as Heq.
  - simpl. f_equal. clear IH Hin Hnd. rewrite Heq in Hs. induction subs as [|s' subs IH]; [done|].
    rewrite fmap_cons, not_elem_of_cons in Hs. destruct Hs as [Hne Hs]. simpl.
    rewrite filter_cons, decide_False by (simpl; congruence). by apply IH.
  - apply IH; [done|]. by apply elem_of_cons in Hin as [->|?].
Qed.

Lemma heard_served done h h' msgs sub :
  channels_open h -> sub ∈ h_subs h -> hub_served done h h' msgs ->
  heard (sub_ch sub) h' = heard (sub_ch sub) h ++ msgs.
Proof.
  intros [Hnd _] Hin (Hd & _). unfold heard. rewrite Hd, filter_app, fmap_app. f_equal. clear Hd.
  induction msgs as [|m msgs IH]; [done|]. rewrite bind_cons, filter_app, fmap_app, IH.
  by rewrite broadcast_to_one.
Qed.

(** A subscriber leaves a set for good: its channel is closed. *)
Lemma served_leaves done h h' msgs sub :
  sub ∈ h_subs h -> hub_served done h h' msgs -> sub ∈ h_subs h' ∨ sub_ch sub ∈ h_closed h'.
Proof.
  intros Hin (_ & Hs & Hc & _). destruct (decide (cancelled done sub)) as [Hd|Hd].
  - right. rewrite Hc, elem_of_app. right. apply list_elem_of_fmap_2. by apply list_elem_of_filter.
  - left. rewrite Hs. by apply list_elem_of_filter.
Qed.

(** A set that nobody served: it may have a new subscriber. *)
Definition joined h h' : Prop :=
  h_delivered h' = h_delivered h ∧ h_closed h' = h_closed h ∧ ∃ new, h_subs h' = h_subs h ++ new.

Lemma joined_refl h : joined h h.
Proof. split_and!; [done..|]. exists []. by rewrite app_nil_r. Qed.
Lemma joined_push ctx ch h : joined h (Push ctx ch h).2.
Proof. split_and!; [done..|]. by eexists. Qed.

Lemma idle_served h : channels_open h -> hub_served (λ _, false) h h [].
Proof.
  intros Ho. assert (∀ subs, filter (λ s, ¬ cancelled (λ _, false) s) subs = subs ∧
    filter (cancelled (λ _, false)) subs = []) as Hf.
  { induction subs as [|s subs [IH1 IH2]]; [done|]. rewrite !filter_cons.
    rewrite decide_True, decide_False by (by unfold cancelled). by rewrite IH1, IH2. }
  destruct (Hf (h_subs h)) as [Hkept Hgone]. split_and!; [by rewrite app_nil_r|by rewrite Hkept| |done].
  by rewrite Hgone, app_nil_r.
Qed.
End heard.

(** ** The steps of a run *)
Definition turn_of (l : label) : option Event :=
  match l with LTeaTurn e | LTagTurn e => Some e | _ => None end.
Definition operation_of (l : label) : option operation :=
  match l with LRequest _ op | LMessage _ op => Some op | _ => None end.

(** The events [es] of a step that took [d] to [d'] are all there is to tell of
    what its operation did, or there are none. *)
Definition truthful (l : label) (d d' : Database) (es : list Event) : Prop :=
  es = [] ∨ ∃ op, operation_of l = Some op ∧ announces op d d' es.

Section steps.
Context `{Env, AuthLib, OpenAI, GoCache, OpenWeather, ApnsClient, Locale, Process} (sv : Server).
#[local] Abbreviation services := (program_services (sv_topic sv) (sv_weatherKey sv)).

(** A run with everything that was sent in it, in this order, everything its
    operations announced, which is what they sent themselves and what they left to
    their parked goroutines, and the turns of the loops, each with the world it
    found and the event it received. *)
Inductive history :
    System → list label → list Event → list Event → list (World * Event) → System → Prop :=
  | hi_nil s : history s [] [] [] [] s
  | hi_turn s l e s1 ls sent ann turns s' :
      step sv s l s1 -> turn_of l = Some e -> history s1 ls sent ann turns s' ->
      history s (l :: ls) sent ann ((sy_world s, e) :: turns) s'
  | hi_resume s e s1 ls sent ann turns s' :
      step sv s (LResume e) s1 -> pending s1 = pending s ++ [e] -> unsent s ≡ₚ e :: unsent s1 ->
      history s1 ls sent ann turns s' -> history s (LResume e :: ls) (e :: sent) ann turns s'
  | hi_step s l es rest s1 ls sent ann turns s' :
      step sv s l s1 -> turn_of l = None -> pending s1 = pending s ++ es -> unsent s1 = unsent s ++ rest ->
      truthful l (w_db (sy_world s)) (w_db (sy_world s1)) (es ++ rest) ->
      history s1 ls sent ann turns s' -> history s (l :: ls) (es ++ sent) ((es ++ rest) ++ ann) turns s'.

Lemma history_run s ls sent ann turns s' : history s ls sent ann turns s' -> run sv s ls s'.
Proof. induction 1; [constructor|by eapply run_cons..]. Qed.

Lemma turn_unsent s l s' e : step sv s l s' -> turn_of l = Some e -> unsent s' = unsent s.
Proof. intros Hstep Hl. by destruct Hstep. Qed.

(** What was announced has been sent or is still to be sent. *)
Lemma history_balance s ls sent ann turns s' :
  history s ls sent ann turns s' -> unsent s ++ ann ≡ₚ sent ++ unsent s'.
Proof.
  induction 1 as [s|s l e s1 ls sent ann turns s' Hstep Hl _ IH|s e s1 ls sent ann turns s' _ _ Hu _ IH
    |s l es rest s1 ls sent ann turns s' _ _ _ Hu _ _ IH].
  - by rewrite app_nil_r.
  - by rewrite <-(turn_unsent _ _ _ _ Hstep Hl).
  - rewrite Hu. simpl. by rewrite IH.
  - rewrite Hu in IH. rewrite <-!app_assoc, <-IH, <-!app_assoc. solve_Permutation.
Qed.

Lemma hub_of_open k s : system_ok s -> channels_open (hub_of k s).
Proof.
  intros (_ & (Ht1 & Ht2 & Ht3) & (Hg1 & Hg2 & Hg3 & Hg4 & Hg5 & Hg6 & Hg7 & Hg8) & _).
  by destruct k.
Qed.

(** A turn takes the first event of its channel. *)
Lemma turn_pending s l s' e c :
  system_ok s -> step sv s l s' -> turn_of l = Some e ->
  buffered c (pending s) = (if decide (event_chan e = c) then [e] else []) ++ buffered c (pending s').
Proof.
  intros (_ & _ & Hg & _) Hstep Hl. unfold pending.
  assert (∀ c' w', receive c' (sy_world s) = Some (e, w') ->
    buffered c (w_events (sy_world s)) = (if decide (event_chan e = c) then [e] else []) ++ buffered c (w_events w'))
    as Hrec.
  { intros c' w' Hr. unfold receive in Hr. simpl in Hr.
    destruct (take_event c' (w_events (sy_world s))) as [[e' rest]|] eqn:E; simplify_eq/=.
    apply take_event_spec in E as (<- & Hb & Hother). case_decide as Hc; [by subst|].
    by rewrite Hother. }
  destruct Hstep as [| | | | |s c' e' w' ready done h' _ Hr _|s c' e' w' ready done w'' h' _ Hr Hi| | | |];
    try discriminate Hl; injection Hl as ->.
  - exact (Hrec _ _ Hr).
  - apply tag_turn_world in Hi as (_ & Hev & _); [|done]. simpl. rewrite Hev. exact (Hrec _ _ Hr).
Qed.

(** A turn serves every set with what its event has for it. *)
Lemma turn_serves k s l s' e :
  system_ok s -> step sv s l s' -> turn_of l = Some e ->
  ∃ done, hub_served done (hub_of k s) (hub_of k s') (told k (sy_world s, e)).
Proof.
  intros Hok Hstep Hl. pose proof (hub_of_open k s Hok) as Hopen. destruct Hok as (_ & Ht & Hg & _).
  destruct Hstep as [| | | | |s c e' w' ready done h' Hc Hr Hi|s c e' w' ready done w'' h' Hc Hr Hi| | | |];
    try discriminate Hl; injection Hl as ->.
  all: assert (event_chan e = c ∧ w_db w' = w_db (sy_world s) ∧ db_answers w' = db_answers (sy_world s)) as (<- & Hdb & Hans)
         by (unfold receive in Hr; simpl in Hr;
         destruct (take_event c (w_events (sy_world s))) as [[e' rest]|] eqn:E; simplify_eq/=;
         by apply take_event_spec in E as [? _]).
  - pose proof (tea_iteration ready done e _ Ht) as Hs. rewrite Hi in Hs. destruct Hs as (S1 & S2 & S3 & _).
    destruct k; try (exists done; assumption);
      exists (λ _, false); clear Hans; unfold told; simpl; try destruct (db_answers _); destruct e; try discriminate Hc;
      exact (idle_served _ Hopen).
  - pose proof (tag_iteration ready done e w' _ Hg) as Hs. rewrite Hi in Hs.
    destruct Hs as (_ & _ & S1 & S2 & S3 & S4 & S5 & S6 & S7 & S8). rewrite Hdb, Hans in *.
    destruct k; try (exists done; assumption);
      exists (λ _, false); destruct e; try discriminate Hc; exact (idle_served _ Hopen).
Qed.

Lemma park_unsent rest s : unsent (park rest s) = unsent s ++ rest.
Proof.
  unfold unsent. rewrite park_spec. simpl. rewrite concat_app. f_equal. destruct rest; [done|]. simpl.
  by rewrite app_nil_r.
Qed.

Lemma park_hub k rest s : hub_of k (park rest s) = hub_of k s.
Proof. rewrite park_spec. by destruct k. Qed.

(** What an answered operation sent and left. *)
Lemma answer_tells l header ctx op s r w' :
  system_ok s -> operation_of l = Some op -> answer sv header ctx op (sy_world s) = (r, w') ->
  let s' := park (owed sv header ctx op (sy_world s)) (put_world w' s) in
  ∃ es rest, pending s' = pending s ++ es ∧ unsent s' = unsent s ++ rest ∧
    truthful l (w_db (sy_world s)) (w_db (sy_world s')) (es ++ rest).
Proof.
  intros ([Hw _] & _) Hl Hr. apply answer_reports in Hr as (es & Hev & Ht); [|exact Hw].
  exists es, (owed sv header ctx op (sy_world s)). split_and!.
  - unfold pending. rewrite park_spec. exact Hev.
  - rewrite park_unsent. done.
  - rewrite park_spec. simpl.
    destruct r as [[[e|[]] errs]|e| |]; [destruct Ht as [[->|?] ->]|destruct Ht as [? ->]
      |destruct Ht as [[->|?] ->]..|destruct Ht as [_ ?]];
      rewrite ?app_nil_r; first [by left|right; by exists op].
Qed.

(** Any other step leaves the sets to the subscribers, and tells the truth. *)
Lemma step_tells s l s' :
  system_ok s -> step sv s l s' -> turn_of l = None ->
  (∀ k, joined (hub_of k s) (hub_of k s')) ∧
  ((∃ e, l = LResume e ∧ pending s' = pending s ++ [e] ∧ unsent s ≡ₚ e :: unsent s') ∨
   ∃ es rest, pending s' = pending s ++ es ∧ unsent s' = unsent s ++ rest ∧
     truthful l (w_db (sy_world s)) (w_db (sy_world s')) (es ++ rest)).
Proof.
  intros Hok Hstep Hl.
  assert (∀ s' : System, pending s' = pending s -> unsent s' = unsent s ->
    ∃ es rest, pending s' = pending s ++ es ∧ unsent s' = unsent s ++ rest ∧
      truthful l (w_db (sy_world s)) (w_db (sy_world s')) (es ++ rest)) as Hquiet.
  { intros s1 -> ->. exists [], []. rewrite !app_nil_r. split_and!; [done..|by left]. }
  destruct Hstep as [s header op r w' Hr|s id header payload conn w' _ Hr|s id header payload r w' Hr _
    |s id conn op r w' _ Hr|s id|s c e w' ready done h' _ Hr _|s c e w' ready done w'' h' _ Hr Hi
    |s n e rest w' Hn Hr|s r al w' Hr|s k ctx ch _|s]; try discriminate Hl.
  - split; [intros k; rewrite park_hub; destruct k; apply joined_refl|]. right. by eapply answer_tells.
  - split; [by intros []; apply joined_refl|]. right. apply Hquiet; [|done].
    by destruct (connect_silent sv header payload _ _ _ Hr) as (_ & ? & _).
  - split; [by intros []; apply joined_refl|]. right. apply Hquiet; [|done].
    by destruct (connect_silent sv header payload _ _ _ Hr) as (_ & ? & _).
  - split; [intros k; rewrite park_hub; destruct k; apply joined_refl|]. right. by eapply answer_tells.
  - split; [by intros []; apply joined_refl|]. right. by apply Hquiet.
  - split; [by intros []; apply joined_refl|]. left. exists e. apply send_event_world in Hr as (_ & Hev & _).
    split_and!; [done..|]. exact (concat_insert_tail _ _ _ _ Hn).
  - split; [by intros []; apply joined_refl|]. right. apply Hquiet; [|done].
    pose proof (alerter_Run_events (sv_topic sv) (w_events (sy_world s)) (sy_world s) eq_refl) as He.
    unfold alerter_tick, try in Hr. simpl in Hr. unfold pending. simpl.
    destruct (sy_alerter s); simplify_eq/=; try done.
    destruct (alerter_Run (sv_topic sv) (sy_world s)) as [[[]|?| |] ?]; by simplify_eq/=.
  - split; [by intros []; destruct k; first [apply joined_refl|apply joined_push]|]. right. by apply Hquiet.
  - split; [by intros []; apply joined_refl|]. right. by apply Hquiet.
Qed.

Lemma run_history s ls s' : run sv s ls s' -> system_ok s -> ∃ sent ann turns, history s ls sent ann turns s'.
Proof.
  induction 1 as [s|s l s1 ls s' Hstep _ IH]; intros Hok; [exists [], [], []; constructor|].
  destruct (IH (step_ok _ _ _ _ Hstep Hok)) as (sent & ann & turns & Hh).
  destruct (turn_of l) as [e|] eqn:Hl; [exists sent, ann, ((sy_world s, e) :: turns); by eapply hi_turn|].
  destruct (step_tells _ _ _ Hok Hstep Hl) as (_ & [(e & -> & Hp & Hu)|(es & rest & Hp & Hu & Ht)]).
  - exists (e :: sent), ann, turns. by eapply hi_resume.
  - exists (es ++ sent), ((es ++ rest) ++ ann), turns. by eapply hi_step.
Qed.

(** A subscriber that leaves a set does not come back. *)
Lemma step_set k s l s' :
  system_ok s -> step sv s l s' ->
  (∃ done msgs, hub_served done (hub_of k s) (hub_of k s') msgs) ∨ joined (hub_of k s) (hub_of k s').
Proof.
  intros Hok Hstep. destruct (turn_of l) as [e|] eqn:Hl.
  - left. destruct (turn_serves k _ _ _ _ Hok Hstep Hl) as (gone & Hs). by exists gone, (told k (sy_world s, e)).
  - right. by destruct (step_tells _ _ _ Hok Hstep Hl) as [Hj _].
Qed.

Lemma step_stays k sub s l s' :
  system_ok s -> step sv s l s' -> sub ∈ h_subs (hub_of k s) ->
  sub ∈ h_subs (hub_of k s') ∨ sub_ch sub ∈ h_closed (hub_of k s').
Proof.
  intros Hok Hstep Hin. destruct (step_set k _ _ _ Hok Hstep) as [(gone & msgs & Hs)|(_ & _ & new & ->)].
  - by eapply served_leaves.
  - left. apply elem_of_app. by left.
Qed.

Lemma step_closed k ch s l s' :
  system_ok s -> step sv s l s' -> ch ∈ h_closed (hub_of k s) -> ch ∈ h_closed (hub_of k s').
Proof.
  intros Hok Hstep Hin. destruct (step_set k _ _ _ Hok Hstep) as [(gone & msgs & _ & _ & -> & _)|(_ & -> & _)];
    [apply elem_of_app; by left|done].
Qed.

Lemma run_closed k ch s ls s' :
  run sv s ls s' -> system_ok s -> ch ∈ h_closed (hub_of k s) -> ch ∈ h_closed (hub_of k s').
Proof. induction 1; eauto using step_ok, step_closed. Qed.

Lemma stays_between k sub s l s1 ls s' :
  system_ok s -> step sv s l s1 -> run sv s1 ls s' ->
  sub ∈ h_subs (hub_of k s) -> sub ∈ h_subs (hub_of k s') -> sub ∈ h_subs (hub_of k s1).
Proof.
  intros Hok Hstep Hrun Hs Hs'. destruct (step_stays k sub _ _ _ Hok Hstep Hs) as [?|Hc]; [done|].
  pose proof (step_ok _ _ _ _ Hstep Hok) as Hok1.
  apply (run_closed k _ _ _ _ Hrun Hok1) in Hc.
  destruct (hub_of_open k s' (run_ok _ _ _ _ Hrun Hok1)) as [_ Hopen]. by destruct (Hopen _ Hs').
Qed.

(** Every event that was sent is received by one turn, in the order of its
    channel, or waits. *)
Lemma history_turns c s ls sent ann turns s' :
  history s ls sent ann turns s' -> system_ok s ->
  buffered c (pending s ++ sent) = buffered c turns.*2 ++ buffered c (pending s').
Proof.
  induction 1 as [s|s l e s1 ls sent ann turns s' Hstep Hl _ IH|s e s1 ls sent ann turns s' Hstep Hp _ _ IH
    |s l es rest s1 ls sent ann turns s' Hstep Hl Hp _ _ _ IH]; intros Hok.
  1: by rewrite app_nil_r.
  all: specialize (IH (step_ok _ _ _ _ Hstep Hok)).
  - rewrite buffered_app, (turn_pending _ _ _ _ c Hok Hstep Hl), <-app_assoc, <-buffered_app, IH. simpl.
    rewrite buffered_cons. by case_decide.
  - by rewrite <-IH, Hp, <-app_assoc.
  - by rewrite <-IH, Hp, <-app_assoc.
Qed.

(** A subscriber hears what the turns have for it. *)
Lemma history_heard k sub s ls sent ann turns s' :
  history s ls sent ann turns s' -> system_ok s -> sub ∈ h_subs (hub_of k s) -> sub ∈ h_subs (hub_of k s') ->
  heard (sub_ch sub) (hub_of k s') = heard (sub_ch sub) (hub_of k s) ++ (turns ≫= told k).
Proof.
  induction 1 as [s|s l e s1 ls sent ann turns s' Hstep Hl Hh IH|s e s1 ls sent ann turns s' Hstep Hp _ Hh IH
    |s l es rest s1 ls sent ann turns s' Hstep Hl Hp _ _ Hh IH]; intros Hok Hs Hs'.
  1: by rewrite app_nil_r.
  all: pose proof (step_ok _ _ _ _ Hstep Hok) as Hok1.
  all: pose proof (stays_between k sub _ _ _ _ _ Hok Hstep (history_run _ _ _ _ _ _ Hh) Hs Hs') as Hs1.
  all: rewrite (IH Hok1 Hs1 Hs').
  - destruct (turn_serves k _ _ _ _ Hok Hstep Hl) as (gone & Hserved).
    rewrite (heard_served _ _ _ _ _ (hub_of_open k s Hok) Hs Hserved), bind_cons. by rewrite app_assoc.
  - destruct (step_tells _ _ _ Hok Hstep eq_refl) as (Hj & _). destruct (Hj k) as (Hd & _).
    unfold heard. by rewrite Hd.
  - destruct (step_tells _ _ _ Hok Hstep Hl) as (Hj & _). destruct (Hj k) as (Hd & _). unfold heard. by rewrite Hd.
Qed.
End steps.

(** Lists with the same events on every channel have the same events. *)
Lemma buffered_count (e : Event) l : count_occ (decide_rel eq) l e = count_occ (decide_rel eq) (buffered (event_chan e) l) e.
Proof.
  induction l as [|e' l IH]; [done|]. rewrite buffered_cons. simpl.
  destruct (decide_rel eq e' e) as [->|Hne].
  - rewrite decide_True by done. simpl. destruct (decide_rel eq e e); [by rewrite IH|done].
  - rewrite IH. case_decide; [|done]. simpl. by destruct (decide_rel eq e' e).
Qed.

Lemma buffered_Permutation l l' : (∀ c, buffered c l = buffered c l') -> l ≡ₚ l'.
Proof.
  intros Hl. apply (Permutation_count_occ (decide_rel eq)). intros e. by rewrite (buffered_count e l), Hl, <-buffered_count.
Qed.

(** ** Properties *)

(** C9: subscribers hear what happened. In every run of the booted server and from
    any point of it on, there is a list of the events [sent] on the channels, one
    of those [announced] and one of the [turns] of the loops, such that every step
    of an operation announced all there is to tell of what it did, or nothing; what
    was announced was sent or is still to be sent by a parked goroutine; and what
    was waiting or was sent was received by one turn, in the order of its channel,
    or waits still, so that when nothing waits and nobody is parked the turns are
    those of what was announced. Whoever stays subscribed has heard, in order and
    each once, exactly what these turns have for it: the event itself, or, for a
    created or changed tag and a tea whose tags changed, the row the turn looked
    up, unless the database did not answer or the row was gone. *)
Theorem subscribers_hear_what_happened
  `{Env, AuthLib, OpenAI, GoCache, OpenWeather, ApnsClient, Locale, Process} d sv w ls0 s0 ls s :
  db_wf d -> main (initial_world d) = (Ok sv, w) -> run sv (booted w) ls0 s0 -> run sv s0 ls s ->
  ∃ sent announced turns, history sv s0 ls sent announced turns s ∧
    unsent s0 ++ announced ≡ₚ sent ++ unsent s ∧
    (∀ c, buffered c (pending s0 ++ sent) = buffered c turns.*2 ++ buffered c (pending s)) ∧
    (debt s = 0 -> turns.*2 ≡ₚ pending s0 ++ unsent s0 ++ announced) ∧
    ∀ k sub, sub ∈ h_subs (hub_of k s0) -> sub ∈ h_subs (hub_of k s) ->
      heard (sub_ch sub) (hub_of k s) = heard (sub_ch sub) (hub_of k s0) ++ (turns ≫= told k).
Proof.
  intros Hd Hm Hrun0 Hrun. pose proof (run_ok _ _ _ _ Hrun0 (booted_ok _ _ _ Hd Hm)) as Hok.
  destruct (run_history _ _ _ _ Hrun Hok) as (sent & ann & turns & Hh). exists sent, ann, turns. split; [done|].
  pose proof (history_balance _ _ _ _ _ _ _ Hh) as Hb. split; [done|].
  pose proof (λ c, history_turns _ c _ _ _ _ _ _ Hh Hok) as Ht. split; [done|]. split.
  - intros [Hp Hu]%debt_paid. rewrite Hb, Hu, app_nil_r. symmetry. apply buffered_Permutation. intros c.
    by rewrite Ht, Hp, app_nil_r.
  - intros k sub. by apply (history_heard _ _ _ _ _ _ _ _ _ Hh).
Qed.

(** ** Witnesses *)
#[local] Existing Instance exampleEnv.
#[local] Existing Instance exampleAuthLib.
#[local] Existing Instance exampleLocale.
#[local] Existing Instance exampleOpenAI.
#[local] Existing Instance exampleGoCache.
#[local] Existing Instance exampleApns.
#[local] Existing Instance exampleOpenWeather.
#[local] Existing Instance exampleProcess.

(** Somebody subscribes to new teas, the editor adds one and the loop takes a
    turn. *)
Definition reader : Subscriber := mkSubscriber 1 10.
Definition subscribed : System :=
  put_hubs (mkTeaHubs (Push 1 10 NewSubscribers).2 NewSubscribers NewSubscribers, TagLoop.NewManager_hubs)
    (booted emptyWorld).
Definition teaAdded : System := after_request exampleServer editor addTea subscribed.
Definition newTea : Tea := mkTea 1008%N (mkTeaData "Sencha" TeaBeverageType "green").
Definition teaHeard : System :=
  mkSystem (set_events [] (sy_world teaAdded))
    (TeaLoop.iteration (λ _, true) (λ _, false) (EvTeaCreate newTea) (sy_teaHubs teaAdded)).2
    (sy_tagHubs teaAdded) (sy_alerter teaAdded) (sy_conns teaAdded) (sy_parked teaAdded).

Lemma reader_is_new : new_chan 10 (sy_teaHubs (booted emptyWorld), sy_tagHubs (booted emptyWorld)).
Proof. repeat split; apply not_elem_of_nil. Qed.

Lemma subscribed_run : run exampleServer (booted emptyWorld) [LSubscribe SubCreateTea] subscribed.
Proof.
  eapply run_cons; [|constructor].
  exact (st_subscribe exampleServer (booted emptyWorld) SubCreateTea 1 10 reader_is_new).
Qed.

Lemma teaHeard_run :
  run exampleServer subscribed [LRequest editor addTea; LTeaTurn (EvTeaCreate newTea)] teaHeard.
Proof.
  eapply run_cons; [exact (request_step exampleServer editor addTea subscribed)|].
  eapply run_cons; [|constructor].
  apply (st_tea exampleServer teaAdded ch_tea_create _ _ (λ _, true) (λ _, false)); vm_compute; reflexivity.
Qed.

Lemma subscribers_hear_what_happened_witness :
  heard 10 (hub_of SubCreateTea teaHeard) = [FromCommonTea newTea] ∧
  ∃ sent announced turns,
    history exampleServer subscribed [LRequest editor addTea; LTeaTurn (EvTeaCreate newTea)] sent announced turns teaHeard ∧
    turns.*2 ≡ₚ announced ∧ [FromCommonTea newTea] = turns ≫= told SubCreateTea.
Proof.
  assert (heard 10 (hub_of SubCreateTea teaHeard) = [FromCommonTea newTea]) as Hh by (vm_compute; reflexivity).
  split; [exact Hh|].
  destruct (subscribers_hear_what_happened empty_db exampleServer emptyWorld _ _ _ _ empty_db_wf
    exampleServer_boots subscribed_run teaHeard_run) as (sent & ann & turns & Hist & _ & _ & Hpaid & Hall).
  exists sent, ann, turns. split; [exact Hist|]. split; [apply Hpaid; vm_compute; reflexivity|].
  specialize (Hall SubCreateTea reader).
  change (heard (sub_ch reader) (hub_of SubCreateTea teaHeard)) with (heard 10 (hub_of SubCreateTea teaHeard)) in Hall.
  rewrite Hh in Hall. apply Hall; [by left|vm_compute; by left].
Defined.
