(* ===== verification/Footprint.v ===== *)
(** Which tables an operation can change: the footprint of every operation of the
    API, cascades included, from the statements it runs up to whole runs of the
    system. *)

From stdpp Require Import base gmap sets list strings.
From Stdlib Require Import ZArith Lia.
From S2P Require Import Prelude GoTime Common Models Subscribers Consumption TodCache Env Schema Sql World.
From S2P Require Import Queries PgAdapter Interfaces PgStorage Example Managers PgConsumption StorageTheorems.
From S2P Require Import EventLoop Frame AuthLib Auth Weather Resolvers TeaOfTheDay Api Expiration Adviser.
From S2P Require Import Envconfig Server Announce System Delivery.

(** ** Tables *)
Inductive table : Type :=
  | TUsers | TTeas | TTagCategories | TTags | TTeaTags | TQrRecords | TCollections | TCollectionItems
  | TDevices | TNotifications | TConsumptions.

#[export] Instance table_eq_dec : EqDecision table.
Proof. solve_decision. Defined.

Definition rows_of (t : table) : Type :=
  match t with
  | TUsers => gmap UUID UserRow
  | TTeas => gmap UUID TeaRow
  | TTagCategories => gmap UUID string
  | TTags => gmap UUID TagRow
  | TTeaTags | TCollectionItems => gset (UUID * UUID)
  | TQrRecords => gmap UUID QRRow
  | TCollections => gmap UUID CollectionRow
  | TDevices => gmap UUID DeviceRow
  | TNotifications => gmap UUID NotificationRow
  | TConsumptions => gset (UUID * Time * UUID)
  end.

Definition contents (t : table) (d : Database) : rows_of t :=
  match t with
  | TUsers => users d
  | TTeas => teas d
  | TTagCategories => tag_categories d
  | TTags => tags d
  | TTeaTags => tea_tags d
  | TQrRecords => qr_records d
  | TCollections => collections d
  | TCollectionItems => collection_qr_items d
  | TDevices => devices d
  | TNotifications => notifications d
  | TConsumptions => consumptions d
  end.

(** The tables an operation may change. The reads, the requests to the AI and
    weather services and the run of the alerter change none; the tea of the day
    is noted as consumed. *)
Definition footprint (op : operation) : list table :=
  match op with
  | DoAuthApple _ _ => [TUsers; TDevices]
  | DoNewTea _ | DoUpdateTea _ _ => [TTeas]
  | DoDeleteTea _ => [TTeas; TTeaTags; TQrRecords; TCollectionItems; TConsumptions]
  | DoAddTagToTea _ _ | DoDeleteTagFromTea _ _ => [TTeaTags]
  | DoWriteToQR _ _ => [TQrRecords]
  | DoCreateTagCategory _ | DoUpdateTagCategory _ _ => [TTagCategories]
  | DoDeleteTagCategory _ => [TTagCategories; TTags; TTeaTags]
  | DoCreateTag _ _ _ | DoUpdateTag _ _ _ | DoChangeTagCategory _ _ => [TTags]
  | DoDeleteTag _ => [TTags; TTeaTags]
  | DoCreateCollection _ => [TCollections]
  | DoAddRecordsToCollection _ _ | DoDeleteRecordsFromCollection _ _ => [TCollectionItems]
  | DoDeleteCollection _ => [TCollections; TCollectionItems]
  | DoRegisterDeviceToken _ _ => [TDevices]
  | DoTeaOfTheDay => [TConsumptions]
  | DoSend | DoTeaRecommendation _ _ | DoMe | DoTeas _ | DoTea _ | DoGenerateDescription _ | DoQRRecord _
  | DoTag _ | DoTagsCategories _ | DoCollections => []
  end.

(** ** Statements *)
Section statements.
Context `{Env} (t : table).

Ltac statement :=
  let now := fresh in let d := fresh in let r := fresh in let d' := fresh in
  intros now d r d'; unfold upsertUser, insertTea, updateTea, deleteTea, insertTagCategory, updateTagCategory,
    deleteTagCategory, deleteTagsByCategory, insertTag, updateTag, changeTagCategory, deleteTag, addTagToTea,
    deleteTagFromTea, upsertQR, insertCollection, insertCollectionItem, insertCollectionItems,
    deleteCollectionItem, deleteCollection, insertDevice, updateDeviceToken, insertConsumption,
    deleteConsumptionsBefore, store_tag;
  repeat case_match; intros; simplify_eq; by destruct t.

Lemma upsertUser_touches id apple_id : t ≠ TUsers -> stmt_keeps (contents t) (upsertUser id apple_id).
Proof. intros Ht. statement. Qed.
Lemma insertTea_touches id name ty descr : t ≠ TTeas -> stmt_keeps (contents t) (insertTea id name ty descr).
Proof. intros Ht. statement. Qed.
Lemma updateTea_touches id name ty descr : t ≠ TTeas -> stmt_keeps (contents t) (updateTea id name ty descr).
Proof. intros Ht. statement. Qed.
Lemma deleteTea_touches id :
  t ≠ TTeas -> t ≠ TTeaTags -> t ≠ TQrRecords -> t ≠ TCollectionItems -> t ≠ TConsumptions ->
  stmt_keeps (contents t) (deleteTea id).
Proof. intros. statement. Qed.
Lemma insertTagCategory_touches id name : t ≠ TTagCategories -> stmt_keeps (contents t) (insertTagCategory id name).
Proof. intros Ht. statement. Qed.
Lemma updateTagCategory_touches id name : t ≠ TTagCategories -> stmt_keeps (contents t) (updateTagCategory id name).
Proof. intros Ht. statement. Qed.
Lemma deleteTagCategory_touches id : t ≠ TTagCategories -> stmt_keeps (contents t) (deleteTagCategory id).
Proof. intros Ht. statement. Qed.
Lemma deleteTagsByCategory_touches id :
  t ≠ TTags -> t ≠ TTeaTags -> stmt_keeps (contents t) (deleteTagsByCategory id).
Proof. intros. statement. Qed.
Lemma insertTag_touches id name color category : t ≠ TTags -> stmt_keeps (contents t) (insertTag id name color category).
Proof. intros Ht. statement. Qed.
Lemma updateTag_touches id name color : t ≠ TTags -> stmt_keeps (contents t) (updateTag id name color).
Proof. intros Ht. statement. Qed.
Lemma changeTagCategory_touches id category : t ≠ TTags -> stmt_keeps (contents t) (changeTagCategory id category).
Proof. intros Ht. statement. Qed.
Lemma deleteTag_touches id : t ≠ TTags -> t ≠ TTeaTags -> stmt_keeps (contents t) (deleteTag id).
Proof. intros. statement. Qed.
Lemma addTagToTea_touches tea tag : t ≠ TTeaTags -> stmt_keeps (contents t) (addTagToTea tea tag).
Proof. intros Ht. statement. Qed.
Lemma deleteTagFromTea_touches tea tag : t ≠ TTeaTags -> stmt_keeps (contents t) (deleteTagFromTea tea tag).
Proof. intros Ht. statement. Qed.
Lemma upsertQR_touches id tea temp expiration : t ≠ TQrRecords -> stmt_keeps (contents t) (upsertQR id tea temp expiration).
Proof. intros Ht. statement. Qed.
Lemma insertCollection_touches id user name : t ≠ TCollections -> stmt_keeps (contents t) (insertCollection id user name).
Proof. intros Ht. statement. Qed.
Lemma insertCollectionItems_touches id qrs : t ≠ TCollectionItems -> stmt_keeps (contents t) (insertCollectionItems id qrs).
Proof. intros Ht. statement. Qed.
Lemma deleteCollectionItem_touches id qr : t ≠ TCollectionItems -> stmt_keeps (contents t) (deleteCollectionItem id qr).
Proof. intros Ht. statement. Qed.
Lemma deleteCollection_touches id user :
  t ≠ TCollections -> t ≠ TCollectionItems -> stmt_keeps (contents t) (deleteCollection id user).
Proof. intros. statement. Qed.
Lemma insertDevice_touches id user token : t ≠ TDevices -> stmt_keeps (contents t) (insertDevice id user token).
Proof. intros Ht. statement. Qed.
Lemma updateDeviceToken_touches id token : t ≠ TDevices -> stmt_keeps (contents t) (updateDeviceToken id token).
Proof. intros Ht. statement. Qed.
Lemma insertConsumption_touches user ts tea : t ≠ TConsumptions -> stmt_keeps (contents t) (insertConsumption user ts tea).
Proof. intros Ht. statement. Qed.
Lemma deleteConsumptionsBefore_touches user cutoff :
  t ≠ TConsumptions -> stmt_keeps (contents t) (deleteConsumptionsBefore user cutoff).
Proof. intros Ht. statement. Qed.
End statements.

#[export] Hint Resolve upsertUser_touches insertTea_touches updateTea_touches deleteTea_touches
  insertTagCategory_touches updateTagCategory_touches deleteTagCategory_touches deleteTagsByCategory_touches
  insertTag_touches updateTag_touches changeTagCategory_touches deleteTag_touches addTagToTea_touches
  deleteTagFromTea_touches upsertQR_touches insertCollection_touches insertCollectionItems_touches
  deleteCollectionItem_touches deleteCollection_touches insertDevice_touches updateDeviceToken_touches
  insertConsumption_touches deleteConsumptionsBefore_touches : go_preserves.

(** ** Operations *)
Section operations.
Context `{Env, AuthLib, ServicesLaws, Locale} (a : auth) (st : PGStore).

Lemma run_operation_footprint op ctx t x :
  t ∉ footprint op -> preserves (λ w, contents t (w_db w) = x) (run_operation a st op ctx).
Proof.
  intros Ht. destruct op; cbn [footprint] in Ht; rewrite ?not_elem_of_cons in Ht; destruct_and? Ht;
    cbn [run_operation].
  all: try (frame; fail).
  apply preserves_bind; [|frame]. apply TeaOfTheDay_frame. intros. frame.
Qed.
End operations.

(** ** Runs *)
Section runs.
Context `{Env, AuthLib, OpenAI, GoCache, OpenWeather, ApnsClient, Locale, Process} (sv : Server) (t : table).

Lemma answer_footprint header ctx op w r w' :
  t ∉ footprint op -> answer sv header ctx op w = (r, w') -> contents t (w_db w') = contents t (w_db w).
Proof.
  intros Ht Hr. apply answer_cases in Hr as [[Hdb _]|(ctx' & errs & w1 & r1 & Hc & Hop)]; [by rewrite Hdb|].
  apply InterceptResponse_keeps in Hc as <-.
  pose proof (run_operation_footprint (H1 := program_services (sv_topic sv) (sv_weatherKey sv))
    (sv_auth sv) (sv_store sv) op ctx' t _ Ht w1 eq_refl) as Hkept.
  by rewrite Hop in Hkept.
Qed.

(** The step is none of an operation that can change the table. *)
Definition spares (l : label) : Prop := ∀ op, operation_of l = Some op -> t ∉ footprint op.

Lemma step_footprint s l s' :
  system_ok s -> spares l -> step sv s l s' -> contents t (w_db (sy_world s')) = contents t (w_db (sy_world s)).
Proof.
  intros (Hw & _ & Hg & _) Hl Hstep.
  destruct Hstep as [s header op r w' Hr|s id header payload conn w' _ Hr
    |s id header payload r w' Hr _|s id conn op r w' _ Hr|s id|s c e w' ready done h' _ Hr _
    |s c e w' ready done w'' h' _ Hr Hi|s n e rest w' _ Hr|s r al w' Hr|s k ctx ch _|s];
    rewrite ?park_spec; simpl; try reflexivity.
  - exact (answer_footprint _ _ _ _ _ _ (Hl op eq_refl) Hr).
  - by apply connect_keeps in Hr as ->.
  - by apply connect_keeps in Hr as ->.
  - exact (answer_footprint _ _ _ _ _ _ (Hl op eq_refl) Hr).
  - by apply receive_sound in Hr as [_ ->].
  - apply receive_sound in Hr as [_ <-]; [|done]. by apply tag_turn_world in Hi as (-> & _ & _).
  - by apply send_event_world in Hr as (-> & _).
  - by apply alerter_tick_run in Hr as (_ & _ & ->).
Qed.

Lemma run_footprint s ls s' :
  run sv s ls s' -> system_ok s -> Forall spares ls ->
  contents t (w_db (sy_world s')) = contents t (w_db (sy_world s)).
Proof.
  induction 1 as [s|s l s1 ls s' Hstep _ IH]; intros Hok Hls; [done|].
  apply Forall_cons in Hls as [Hl Hls].
  rewrite (IH (step_ok _ _ _ _ Hstep Hok) Hls). exact (step_footprint _ _ _ Hok Hl Hstep).
Qed.
End runs.

(** ** Properties *)

(** C13: operations change their own tables only. Through any run of the system a
    table keeps every row as it was unless the run has a request or a message
    with an operation whose footprint names it, whoever sent it and however it
    ended; the loops, the alerter, handshakes and subscriptions change no row.
    No operation has the notifications in its footprint: nothing the server does
    ever writes one. *)
Theorem operations_change_their_footprint
  `{Env, AuthLib, OpenAI, GoCache, OpenWeather, ApnsClient, Locale, Process} sv s ls s' :
  system_ok s -> run sv s ls s' ->
  (∀ t, Forall (spares t) ls -> contents t (w_db (sy_world s')) = contents t (w_db (sy_world s))) ∧
  notifications (w_db (sy_world s')) = notifications (w_db (sy_world s)).
Proof.
  intros Hok Hrun. assert (∀ t, Forall (spares t) ls ->
    contents t (w_db (sy_world s')) = contents t (w_db (sy_world s))) as Hall by (intros t; by apply (run_footprint sv t)).
  split; [exact Hall|]. apply (Hall TNotifications), Forall_forall. intros l _ op _.
  destruct op; repeat (apply not_elem_of_cons; split; [done|]); apply not_elem_of_nil.
Qed.

(** ** Witnesses *)
#[local] Existing Instance exampleEnv.
#[local] Existing Instance exampleAuthLib.
#[local] Existing Instance exampleLocale.
#[local] Existing Instance exampleOpenAI.
#[local] Existing Instance exampleGoCache.
#[local] Existing Instance exampleApns.
#[local] Existing Instance exampleOpenWeather.
#[local] Existing Instance exampleProcess.

Lemma operations_change_their_footprint_witness :
  contents TCollections (w_db (sy_world withTea)) = contents TCollections (w_db (sy_world (booted emptyWorld))) ∧
  size (teas (w_db (sy_world withTea))) = 1.
Proof.
  split; [|vm_compute; reflexivity].
  refine (proj1 (operations_change_their_footprint exampleServer (booted emptyWorld) [LRequest editor addTea] withTea
    (booted_ok _ _ _ empty_db_wf exampleServer_boots) withTea_run) TCollections _).
  apply Forall_singleton. intros op [= <-].
  apply not_elem_of_cons. split; [discriminate|apply not_elem_of_nil].
Defined.
