(* ===== verification/Effects.v ===== *)
(** What a successful request has done: the effect every operation of the API
    promises on the database, and that an answer without an error means that it
    has happened, for the principal that authentication found, and nothing else. *)

From stdpp Require Import base gmap sets list strings.
From Stdlib Require Import ZArith Lia.
From S2P Require Import Prelude GoTime Common Models Subscribers Consumption TodCache Env Schema Sql World.
From S2P Require Import Queries PgAdapter Interfaces PgStorage Example Managers PgConsumption StorageTheorems.
From S2P Require Import EventLoop Frame AuthLib Auth Weather Resolvers TeaOfTheDay Api Expiration Adviser.
From S2P Require Import Envconfig Server Announce System Delivery Footprint.

(** ** Effects *)

(** Somebody signs in with the identity [apple] on a device: the user with this
    identity, who may be new, and the device, which stays whose it was. *)
Definition signed_in `{Env} (apple : string) (device : UUID) (d d' : Database) : Prop :=
  ∃ user row created, user_apple_id row = apple ∧ users d' = <[user := row]> (users d) ∧
    (∀ row0, users d !! user = Some row0 -> user_apple_id row0 = apple) ∧
    devices d' = match devices d !! device with
                 | Some _ => devices d
                 | None => <[device := mkDeviceRow user (uuid_String device) created]> (devices d)
                 end.

Definition put_token (token : string) (row : DeviceRow) : DeviceRow :=
  mkDeviceRow (dev_user_id row) token (dev_created_at row).

Section effects.
Context `{Env, AuthLib} (a : auth).

(** What [op] does to the database when it succeeds in the context [ctx]. *)
Definition effect (op : operation) (ctx : Ctx) (d d' : Database) : Prop :=
  match op with
  | DoAuthApple code device => ∃ resp tick apple,
      apple_VerifyAppToken (mkAppValidationTokenRequest (cfg_ClientID (au_cfg a)) (au_secret a) code) tick = inr resp ∧
      apple_GetUniqueID (vr_IDToken resp) = inr apple ∧ signed_in apple device d d'
  | DoNewTea _ | DoUpdateTea _ _ | DoDeleteTea _ | DoAddTagToTea _ _ | DoDeleteTagFromTea _ _
  | DoCreateTagCategory _ | DoUpdateTagCategory _ _ | DoDeleteTagCategory _ | DoCreateTag _ _ _
  | DoUpdateTag _ _ _ | DoChangeTagCategory _ _ | DoDeleteTag _ =>
      is_Some (ctx_admin ctx) ∧ ∃ events, announces op d d' events
  | DoWriteToQR id data => ∃ created,
      is_Some (teas d !! gqd_Tea data) ∧
      qr_records d' = <[id := mkQRRow (gqd_Tea data) (clamp_int32 (gqd_BowlingTemp data))
                                (pg_ts (gqd_ExpirationDate data)) created]> (qr_records d)
  | DoCreateCollection name => ∃ u id, ctx_user ctx = Some u ∧
      collection_effect (OpCreateCollection (usr_ID u) name) (db_collections d) id (db_collections d')
  | DoAddRecordsToCollection id records => ∃ u, ctx_user ctx = Some u ∧ owns (db_collections d) (usr_ID u) id ∧
      collection_effect (OpAddTeaToCollection id records) (db_collections d) tt (db_collections d')
  | DoDeleteRecordsFromCollection id records => ∃ u, ctx_user ctx = Some u ∧ owns (db_collections d) (usr_ID u) id ∧
      collection_effect (OpDeleteTeaFromCollection id records) (db_collections d) tt (db_collections d')
  | DoDeleteCollection id => ∃ u, ctx_user ctx = Some u ∧
      collection_effect (OpDeleteCollection id (usr_ID u)) (db_collections d) tt (db_collections d')
  | DoRegisterDeviceToken device token =>
      devices d' = alter (put_token token) device (devices d) ∧
      (is_Some (devices d !! device) -> ∀ other row, devices d !! other = Some row -> dev_token row = token -> other = device)
  | DoTeaOfTheDay => ∃ u, ctx_user ctx = Some u ∧
      ∀ c, c.1.1 ≠ usr_ID u -> c ∈ consumptions d' <-> c ∈ consumptions d
  | DoSend | DoTeaRecommendation _ _ | DoMe | DoCollections => is_Some (ctx_user ctx)
  | DoTeas _ | DoTea _ | DoGenerateDescription _ | DoQRRecord _ | DoTag _ | DoTagsCategories _ => True
  end.

(** Nothing but the tables the operation may change is changed. *)
Definition kept_outside (op : operation) (d d' : Database) : Prop :=
  ∀ t, t ∉ footprint op -> contents t d' = contents t d.

(** The operations that only read leave the database as it is. *)
Lemma kept_all d d' : (∀ t, contents t d' = contents t d) -> d' = d.
Proof.
  intros Hall. destruct d, d'.
  pose proof (Hall TUsers). pose proof (Hall TTeas). pose proof (Hall TTagCategories). pose proof (Hall TTags).
  pose proof (Hall TTeaTags). pose proof (Hall TQrRecords). pose proof (Hall TCollections).
  pose proof (Hall TCollectionItems). pose proof (Hall TDevices). pose proof (Hall TNotifications).
  pose proof (Hall TConsumptions). simpl in *. congruence.
Qed.
End effects.

(** ** The tea of the day is noted for its user only *)
Section consumptions.
Context `{Env, AuthLib, ServicesLaws, Locale}.

(** The consumptions of everybody else. *)
Definition others_consumptions (user : UUID) (d : Database) : gset (UUID * Time * UUID) :=
  filter (λ c, c.1.1 ≠ user) (consumptions d).

Lemma Record_others st user tea ts x :
  preserves (λ w, others_consumptions user (w_db w) = x) (PGStore_Record st user tea ts).
Proof.
  unfold PGStore_Record, Queries_InsertConsumption, Queries_DeleteConsumptionsBefore.
  destruct (negb _); [by intros w|].
  assert (∀ (st : Stmt unit), (∀ t d d', st t d = inr (tt, d') ->
    others_consumptions user d' = others_consumptions user d) ->
    preserves (λ w, others_consumptions user (w_db w) = x) (exec st)) as Hexec.
  { intros s Hs w Hw. destruct (exec_returns s w) as [([] & w1 & E)|(e & w1 & E)]; rewrite E; simpl.
    - apply exec_Ok_inv in E as (d & Hd & -> & _). simpl. by rewrite (Hs _ _ _ Hd).
    - apply exec_Err_inv in E as [->|([] & d & Hd & ->)]; [done|]. simpl. by rewrite (Hs _ _ _ Hd). }
  apply preserves_bind; [|intros _]; apply preserves_map_err, Hexec; intros t d d'.
  - unfold insertConsumption. destruct (bool_decide _); [by intros [= <-]|].
    destruct (users d !! user), (teas d !! tea); intros; simplify_eq. unfold others_consumptions. simpl.
    apply set_eq. intros c. rewrite !elem_of_filter, elem_of_union, elem_of_singleton. naive_solver.
  - intros [= <-]. unfold others_consumptions. simpl. apply set_eq. intros c. rewrite !elem_of_filter. naive_solver.
Qed.

Lemma TeaOfTheDay_others st ctx u x :
  ctx_user ctx = Some u ->
  preserves (λ w, others_consumptions (usr_ID u) (w_db w) = x) (TeaOfTheDay (Store0 := api_store st) ctx).
Proof.
  intros Hu. unfold TeaOfTheDay, chooseTea. pg. pose proof (Record_others st (usr_ID u)) as Hrec.
  unfold current_user, GetUser. rewrite Hu. unfold bind at 1, map_err at 1, of_sum, ret at 1.
  revert Hrec. generalize (PGStore_Record st (usr_ID u)). intros record Hrec.
  assert (∀ user now, preserves (λ w, others_consumptions (usr_ID u) (w_db w) = x) (todCache_Get user now)) as Hget.
  { intros user now w Hw. unfold todCache_Get. by destruct (cache_Get _ _ _). }
  assert (∀ user v now, preserves (λ w, others_consumptions (usr_ID u) (w_db w) = x) (todCache_Set user v now)) as Hset
    by (by intros ? ? ? w).
  assert (∀ user cols g, preserves (λ w, others_consumptions (usr_ID u) (w_db w) = x)
    (gather_collections user cols g)) as Hgather.
  { intros. apply keeps_db_keeps, gather_collections_keeps. }
  assert (∀ m s, preserves (λ w, others_consumptions (usr_ID u) (w_db w) = x) (aiScoresOf m s)) as Hai by (by intros ? ? w).
  frame.
Qed.
End consumptions.

(** ** Every operation has its effect *)
Section success.
Context `{Env, AuthLib, OpenAI, GoCache, OpenWeather, ApnsClient, Locale, Process} (sv : Server).
#[local] Abbreviation services := (program_services (sv_topic sv) (sv_weatherKey sv)).

Lemma void_Ok {A} (m : M World GoError A) w w' : void m w = (Ok tt, w') -> ∃ v, m w = (Ok v, w').
Proof. unfold void, bind, ret. destruct (m w) as [[v|e| |] w1]; intros; simplify_eq; eauto. Qed.

Lemma current_user_Ok ctx w u w' :
  (current_user (H1 := services) ctx w : outcome GoError User * World) = (Ok u, w') -> ctx_user ctx = Some u ∧ w' = w.
Proof. unfold current_user, GetUser, map_err, of_sum. destruct (ctx_user ctx); intros; by simplify_eq/=. Qed.

Lemma user_operation_user a st op ctx w w' :
  user_operation op = true -> run_operation (H1 := services) a st op ctx w = (Ok tt, w') -> is_Some (ctx_user ctx).
Proof.
  intros Hop Hr. destruct (ctx_user ctx) eqn:Hu; [done|]. by rewrite run_operation_no_user in Hr.
Qed.

Lemma admin_operation_admin a st op ctx w w' :
  admin_operation op = true -> run_operation (H1 := services) a st op ctx w = (Ok tt, w') -> is_Some (ctx_admin ctx).
Proof.
  intros Hop Hr. destruct (ctx_admin ctx) eqn:Hu; [done|]. by rewrite run_operation_no_admin in Hr.
Qed.

(** The collection managers, when they answer. *)
Lemma Create_effect user name w c w' :
  world_wf w -> CollectionManager.Create user name w = (Ok c, w') ->
  ∃ id, collection_effect (OpCreateCollection user name) (cs_view w) id (cs_view w').
Proof.
  intros Hw Hr. unfold CollectionManager.Create in Hr. inv_go Hr. exists a.
  apply (run_spec (OpCreateCollection user name)) in Hr0 as [_ Hp]; [|done]. done.
Qed.

Lemma AddRecords_effect user id qrs w c w' :
  world_wf w -> CollectionManager.AddRecords user id qrs w = (Ok c, w') ->
  owns (cs_view w) user id ∧ collection_effect (OpAddTeaToCollection id qrs) (cs_view w) tt (cs_view w').
Proof.
  intros Hw Hr. apply AddRecords_spec in Hr as [_ [(name & Hn & _ & _ & Hv)|[_ [e ?]]]]; [|done..].
  split; [by exists name|exact Hv].
Qed.

Lemma DeleteRecords_effect user id qrs w c w' :
  world_wf w -> CollectionManager.DeleteRecords user id qrs w = (Ok c, w') ->
  owns (cs_view w) user id ∧ collection_effect (OpDeleteTeaFromCollection id qrs) (cs_view w) tt (cs_view w').
Proof.
  intros Hw Hr. apply DeleteRecords_spec in Hr as [_ [(name & n & Hn & Hv & _ & Ht)|[_ [e ?]]]]; [|done..].
  rewrite Ht in Hv. split; [by exists name|exact Hv].
Qed.

Lemma Delete_effect user id w w' :
  world_wf w -> CollectionManager.Delete user id w = (Ok tt, w') ->
  collection_effect (OpDeleteCollection id user) (cs_view w) tt (cs_view w').
Proof. intros Hw Hr. by apply (run_spec (OpDeleteCollection id user)) in Hr as [_ Hp]. Qed.

Lemma WriteQR_effect id data w w' :
  WriteQR id data w = (Ok tt, w') ->
  ∃ created, is_Some (teas (w_db w) !! qr_Tea data) ∧
    qr_records (w_db w') = <[id := mkQRRow (qr_Tea data) (clamp_int32 (qr_BowlingTemp data))
                                    (pg_ts (qr_ExpirationDate data)) created]> (qr_records (w_db w)).
Proof.
  intros Hr. unfold WriteQR, Queries_UpsertQR in Hr. inv_go Hr.
  apply exec_Ok_inv in Hr as (d & Hs & -> & _). unfold upsertQR in Hs.
  rewrite clamp_int32_wrap, clamp_int32_range in Hs. simpl in Hs.
  destruct (teas (w_db w) !! qr_Tea data) as [t|]; [|done]. injection Hs as <-. by eexists.
Qed.

Lemma RegisterDeviceToken_effect device token w w' :
  CreateOrUpdateDeviceToken device token w = (Ok tt, w') ->
  devices (w_db w') = alter (put_token token) device (devices (w_db w)) ∧
  (is_Some (devices (w_db w) !! device) ->
   ∀ other row, devices (w_db w) !! other = Some row -> dev_token row = token -> other = device).
Proof.
  intros Hr. unfold CreateOrUpdateDeviceToken, Queries_UpdateDeviceToken in Hr. inv_go Hr.
  apply exec_Ok_inv in Hr0 as (d & Hs & -> & _). unfold updateDeviceToken in Hs. simpl.
  destruct (devices (w_db w) !! device) as [row|] eqn:Hd.
  - destruct (taken _ _ _ _) eqn:Ht; [done|]. simplify_eq. simpl. split.
    + apply map_eq. intros i. destruct (decide (i = device)) as [->|Hne].
      * by rewrite lookup_insert_eq, lookup_alter_eq, Hd.
      * by rewrite lookup_insert_ne, lookup_alter_ne by done.
    + intros _ other row' Ho Htok. destruct (decide (other = device)) as [|Hne]; [done|].
      exfalso. by eapply taken_false in Ht; [apply Ht|exact Ho|congruence].
  - simplify_eq. split; [|by intros [??]]. apply map_eq. intros i. destruct (decide (i = device)) as [->|Hne].
    + by rewrite lookup_alter_eq, Hd.
    + by rewrite lookup_alter_ne.
Qed.

(** Signing in. *)
Lemma GetOrCreateUser_effect unique w u w' :
  GetOrCreateUser unique w = (Ok u, w') ->
  ∃ row, user_apple_id row = unique ∧ users (w_db w') = <[u := row]> (users (w_db w)) ∧
    devices (w_db w') = devices (w_db w) ∧ ∀ row0, users (w_db w) !! u = Some row0 -> user_apple_id row0 = unique.
Proof.
  unfold GetOrCreateUser. intros Hr. inv_go Hr. rewrite new_uuid_run in Hr0. simplify_eq.
  apply query_row_Ok_inv in Hr1 as (d & Hs & -> & _). unfold upsertUser in Hs. simpl in Hs.
  destruct (find_row _ _) as [[i r]|] eqn:Hf.
  - apply find_row_Some in Hf as [Hi Hk]. simplify_eq. simpl. eexists. split_and!; [|done|done|]; [done|].
    intros row0 Hrow. by simplify_eq.
  - destruct (users (w_db w) !! _) eqn:Hnone; simplify_eq. simpl. eexists. split_and!; [|done|done|]; [done|].
    intros row0 Hrow. simplify_eq.
Qed.

Lemma BindDevice_effect user device w w' :
  AddDeviceForUser user device w = (Ok tt, w') ->
  ∃ created, users (w_db w') = users (w_db w) ∧
    devices (w_db w') = match devices (w_db w) !! device with
      | Some _ => devices (w_db w)
      | None => <[device := mkDeviceRow user (uuid_String device) created]> (devices (w_db w))
      end.
Proof.
  unfold AddDeviceForUser, Queries_InsertDevice. intros Hr. inv_go Hr.
  apply exec_Ok_inv in Hr as (d & Hs & -> & _). unfold insertDevice in Hs. exists (pg_now (w_tick w)).
  destruct (devices (w_db w) !! device); [by simplify_eq|].
  destruct (taken _ _ _ _); [done|]. destruct (users (w_db w) !! user); by simplify_eq.
Qed.

Lemma Auth_effect a code w ses w1 :
  Auth a code w = (Ok ses, w1) ->
  ∃ resp tick apple row,
    apple_VerifyAppToken (mkAppValidationTokenRequest (cfg_ClientID (au_cfg a)) (au_secret a) code) tick = inr resp ∧
    apple_GetUniqueID (vr_IDToken resp) = inr apple ∧ user_apple_id row = apple ∧
    users (w_db w1) = <[usr_ID (ses_User ses) := row]> (users (w_db w)) ∧ devices (w_db w1) = devices (w_db w) ∧
    ∀ row0, users (w_db w) !! usr_ID (ses_User ses) = Some row0 -> user_apple_id row0 = apple.
Proof.
  unfold Auth. intros Hrun. inv_go Hrun.
  apply ask_Ok_inv in Hrun0 as [Hresp ->]. case_bool_decide; [done|]. unfold ret in Hrun1. simplify_eq.
  apply of_sum_Ok_inv in Hrun2 as [_ ->]. apply of_sum_Ok_inv in Hrun3 as [Happle ->].
  apply GetOrCreateUser_effect in Hrun4 as (row & Hrow & Hu & Hd & Hold).
  unfold clock_now in Hrun5. rewrite new_uuid_run in Hrun6. simplify_eq.
  apply of_sum_Ok_inv in Hrun7 as [_ ->]. apply ask_Ok_inv in Hrun8 as [_ ->].
  by eexists _, _, _, row.
Qed.

Lemma AuthApple_effect a code device ctx w s w' :
  Resolvers.AuthApple (H1 := services) a code device w = (Ok s, w') ->
  effect a (DoAuthApple code device) ctx (w_db w) (w_db w').
Proof.
  unfold Resolvers.AuthApple. intros Hr.
  apply bind_Ok_inv in Hr as (ses & w1 & Hauth%map_err_Ok_inv & Hr).
  apply bind_Ok_inv in Hr as ([] & w2 & Hbind & [= _ <-]).
  apply Auth_effect in Hauth as (resp & tick & apple & row & Hresp & Happle & Hrow & Hu & Hd & Hold).
  apply BindDevice_effect in Hbind as (created & Hu' & Hd'). exists resp, tick, apple. split_and!; [done..|].
  exists (usr_ID (ses_User ses)), row, created. rewrite Hu', Hd', Hd. by split_and!.
Qed.


Lemma manager_run {A} (m : M World GoError A) w v w' :
  map_err (castGQLError (H1 := services)) m w = (Ok v, w') -> m w = (Ok v, w').
Proof. apply map_err_Ok_inv. Qed.

Lemma read_keeps id w t w' : TeaManager.Get id w = (Ok t, w') -> w_db w' = w_db w.
Proof.
  intros Hr. assert (keeps_db (TeaManager.Get id)) as Hk by (intros d; frame).
  specialize (Hk _ w eq_refl). by rewrite Hr in Hk.
Qed.

(** The operations on collections. *)
Lemma collection_operation_effect a st op ctx w w' :
  world_wf w -> collection_operation op = true ->
  run_operation (H1 := services) a st op ctx w = (Ok tt, w') -> effect a op ctx (w_db w) (w_db w').
Proof.
  intros Hw Hop Hr. destruct op; try discriminate Hop; cbn [run_operation] in Hr; apply void_Ok in Hr as [v Hr];
    apply bind_Ok_inv in Hr as (u & w1 & Hu & Hr); apply current_user_Ok in Hu as [Hu ->]; cbn [effect].
  - apply manager_run, Create_effect in Hr as [id Hr]; [|done]. by exists u, id.
  - apply manager_run, AddRecords_effect in Hr as [Hown Hr]; [|done]. by exists u.
  - apply manager_run, DeleteRecords_effect in Hr as [Hown Hr]; [|done]. by exists u.
  - apply bind_Ok_inv in Hr as ([] & w2 & Hr & [= _ <-]). apply manager_run, Delete_effect in Hr; [|done]. by exists u.
Qed.

(** Every operation. *)
Lemma operation_takes_effect op ctx w w' :
  world_wf w -> run_operation (H1 := services) (sv_auth sv) (sv_store sv) op ctx w = (Ok tt, w') ->
  effect (sv_auth sv) op ctx (w_db w) (w_db w').
Proof.
  intros Hw Hr. destruct (admin_operation op) eqn:Hadmin.
  { pose proof (admin_operation_admin _ _ _ _ _ _ Hadmin Hr) as Hctx.
    apply (run_operation_reports sv) in Hr as (es & _ & Ht); [|done].
    destruct op; try discriminate Hadmin; (split; [exact Hctx|by exists es]). }
  destruct (collection_operation op) eqn:Hcol; [by eapply collection_operation_effect|].
  destruct (user_operation op) eqn:Huser.
  { pose proof (user_operation_user _ _ _ _ _ _ Huser Hr) as Hctx.
    destruct op; try discriminate Huser; try discriminate Hcol; try exact Hctx.
    destruct Hctx as [u Hu]. exists u. split; [done|]. cbn [run_operation] in Hr. apply void_Ok in Hr as [v Hr].
    pose proof (TeaOfTheDay_others (H1 := services) (sv_store sv) ctx u _ Hu w eq_refl) as Hsame.
    rewrite Hr in Hsame. simpl in Hsame. intros c Hc. unfold others_consumptions in Hsame.
    pose proof (proj1 (set_eq (C := gset (UUID * Time * UUID)) _ _) Hsame c) as Hiff.
    rewrite !elem_of_filter in Hiff. tauto. }
  destruct op; try discriminate Hadmin; try discriminate Hcol; try discriminate Huser; try exact I;
    cbn [run_operation] in Hr; apply void_Ok in Hr as [v Hr].
  - by eapply AuthApple_effect.
  - unfold WriteToQR in Hr. apply bind_Ok_inv in Hr as ([] & w1 & Hset%manager_run & Hr).
    apply bind_Ok_inv in Hr as (t & w2 & Hget%manager_run%read_keeps & [= _ <-]).
    apply WriteQR_effect in Hset as (created & Ht & Hq). cbn [effect]. rewrite Hget. by exists created.
  - unfold Resolvers.RegisterDeviceToken in Hr. apply bind_Ok_inv in Hr as ([] & w1 & Hset%manager_run & [= _ <-]).
    by apply RegisterDeviceToken_effect.
Qed.
End success.

(** ** Properties *)

(** C10: a success has taken effect. When an operation is answered without an
    error, it has done to the database what it promises, in the context that
    authentication made of its token, and has changed no table outside its
    footprint; an operation with an empty footprint has changed nothing. What it
    promises is, for an admin's operation, what it announces and that the context
    is an admin's; for the operations on collections, the effect on the caller's
    own; for a QR record, the record as it was sent, its temperature clamped; for
    a sign-in, the user of the Apple identity and the device, unless it is known
    already; for a device token, the token on a known device, which no other
    device has; for the tea of the day, consumptions of the caller only. *)
Theorem success_takes_effect
  `{Env, AuthLib, OpenAI, GoCache, OpenWeather, ApnsClient, Locale, Process} sv header ctx0 op w errs w' :
  world_wf w -> answer sv header ctx0 op w = (Ok (inr tt, errs), w') ->
  ∃ ctx w1, InterceptResponse (sv_auth sv) header ctx0 ret w = (Ok (ctx, errs), w1) ∧
    effect (sv_auth sv) op ctx (w_db w) (w_db w') ∧ kept_outside op (w_db w) (w_db w') ∧
    (footprint op = [] -> w_db w' = w_db w).
Proof.
  intros Hw Hr. assert (kept_outside op (w_db w) (w_db w')) as Hkept by (intros t Ht; by eapply answer_footprint).
  unfold answer in Hr. rewrite InterceptResponse_factors in Hr. unfold bind at 1 in Hr.
  destruct (InterceptResponse _ _ _ ret w) as [[[ctx errs']|e| |] w1] eqn:E; [|done..].
  pose proof (InterceptResponse_keeps _ _ _ _ _ _ E) as Hdb. exists ctx, w1.
  unfold bind, try in Hr. simpl in Hr. destruct (run_operation _ _ op ctx w1) as [[[]|e| |] w2] eqn:Hop; try discriminate Hr.
  injection Hr as <- <-. apply operation_takes_effect in Hop; [|unfold world_wf; by rewrite Hdb].
  rewrite Hdb in Hop. split_and!; [done..|]. intros Hf. apply kept_all. intros t. apply Hkept. rewrite Hf.
  apply not_elem_of_nil.
Qed.

(** ** Witnesses *)
#[local] Existing Instance exampleEnv.
#[local] Existing Instance exampleAuthLib.
#[local] Existing Instance exampleLocale.
#[local] Existing Instance exampleOpenAI.
#[local] Existing Instance exampleGoCache.
#[local] Existing Instance exampleApns.
#[local] Existing Instance exampleOpenWeather.
#[local] Existing Instance exampleProcess.

(** Somebody without a token writes the record of a box. *)
Definition writeBox : operation := DoWriteToQR box1 (mkGqlQRRecordData sencha 3000000000 tomorrow).

Lemma success_takes_effect_witness :
  (answer exampleServer None Background writeBox exampleWorld).1 = Ok (inr tt, []) ∧
  ∃ created, qr_records (w_db (answer exampleServer None Background writeBox exampleWorld).2) !! box1
    = Some (mkQRRow sencha int32_max (pg_ts tomorrow) created).
Proof.
  assert ((answer exampleServer None Background writeBox exampleWorld).1 = Ok (inr tt, [])) as Hok by (vm_compute; reflexivity).
  split; [exact Hok|].
  assert (answer exampleServer None Background writeBox exampleWorld
    = (Ok (inr tt, []), (answer exampleServer None Background writeBox exampleWorld).2)) as Hr
    by (rewrite <-Hok; apply surjective_pairing).
  destruct (success_takes_effect exampleServer None Background writeBox exampleWorld [] _ exampleWorld_wf Hr)
    as (ctx & w1 & _ & (created & _ & Hq) & _).
  exists created. rewrite Hq. exact (lookup_insert_eq _ _ _).
Defined.
