(* ===== verification/Http.v ===== *)
(** The HTTP server, src/internal/server/server.go: the router and its routes, the
    GraphQL handler with its transports, and which requests reach an operation.

    The router of gorilla/mux, the CORS handler and the transports of gqlgen are
    parameters with their documented behaviour. *)

From Stdlib Require Import Ascii.
From stdpp Require Import base gmap sets list strings.
From Stdlib Require Import ZArith Lia.
From S2P Require Import Prelude GoTime Common Models Subscribers Consumption TodCache Env Schema Sql World.
From S2P Require Import Queries PgAdapter Interfaces PgStorage Example Managers PgConsumption StorageTheorems.
From S2P Require Import EventLoop Frame AuthLib Auth Weather Resolvers TeaOfTheDay Api Expiration Adviser.
From S2P Require Import Envconfig Server Announce System Delivery Footprint.

(** ** Requests and answers *)
Record HttpRequest : Type := mkHttpRequest {
  hr_Method : string;
  hr_Path : string;
  hr_Authorization : option string;
  hr_Upgrade : string;
  hr_ContentType : string;
  hr_Payload : string }.

(** The transports of gqlgen the server adds. *)
Inductive Transport : Type := Websocket | Options | GET | POST | MultipartForm.

Inductive HttpResponse : Type :=
  | WriteHeader (status : Z)
  | File (path : string)
  | PlaygroundPage (title endpoint : string)
  | MetricsPage
  | SwitchingProtocols
  | Errors (e : GoError)
  | Data (result : (GoError + unit) * list GoError)
  | Foreign (text : string).

(** What the libraries do with a request. *)
Class HttpLib : Type := {
  (** the template of a route of mux and a path *)
  mux_Match : string → string → bool;
  (** no route: not found, or a redirection to the clean path *)
  mux_NotFound : HttpRequest → HttpResponse;
  (** [handlers.CORS(handlers.AllowedOrigins(origins))]: a preflight it answers itself *)
  cors_answer : list string → HttpRequest → option HttpResponse;
  transport_Supports : Transport → HttpRequest → bool;
  (** the operation a transport reads from the request, parsed and validated *)
  transport_operation : Transport → HttpRequest → GoError + operation }.

(** The mutations of the schema: the methods of [mutationResolver]. *)
Definition is_mutation (op : operation) : bool :=
  match op with
  | DoMe | DoTeas _ | DoTea _ | DoGenerateDescription _ | DoQRRecord _ | DoTag _ | DoTagsCategories _
  | DoCollections | DoTeaOfTheDay => false
  | _ => true
  end.

(** A template without a variable. *)
Fixpoint plain (template : string) : bool :=
  match template with
  | EmptyString => true
  | String c t => negb (Ascii.eqb c "{") && plain t
  end.

Class HttpLibLaws `{HttpLib} : Prop := {
  mux_Match_plain : ∀ t p, plain t = true -> mux_Match t p = String.eqb t p;
  (** GET requests only allow query operations. *)
  GET_runs_queries : ∀ rq op, transport_operation GET rq = inr op -> is_mutation op = false;
  POST_method : ∀ rq, transport_Supports POST rq = true -> hr_Method rq = "POST";
  MultipartForm_method : ∀ rq, transport_Supports MultipartForm rq = true -> hr_Method rq = "POST" }.

(** ** The server *)
Definition v2QueryPath : string := "/v2/query".
Definition staticIndexPath : string := "./static/index.html".

(** What a route leads to. *)
Inductive Handler : Type :=
  | GraphQL (transports : list Transport)
  | Respond (r : HttpResponse).

Section server.
Context `{AuthLib}.

(** [services] stands for the resolvers, the middlewares and the websocket
    handshake, which main.go makes of the services it wires. *)
Record HttpServer : Type := mkHttpServer {
  srv_services : Server;
  srv_router : list (string * Handler) }.

Definition NewServer (services : Server) : HttpServer := mkHttpServer services [].

(** [s.router.Handle(path, handler)]: routes are tried in the order they were
    added. *)
Definition Handle (path : string) (h : Handler) (s : HttpServer) : HttpServer :=
  mkHttpServer (srv_services s) (srv_router s ++ [(path, h)]).

Definition InitV2Api (s : HttpServer) : HttpServer :=
  let srv := GraphQL [Websocket; Options; GET; POST; MultipartForm] in
  let s := Handle "/v2/" (Respond (PlaygroundPage "GraphQL playground" v2QueryPath)) s in
  let s := Handle v2QueryPath srv s in
  let s := Handle "/health" (Respond (WriteHeader 200)) s in
  let s := Handle "/metrics" (Respond MetricsPage) s in
  let s := Handle "/.well-known/apple-app-site-association" (Respond (File "./static/apple-app-site-association")) s in
  let s := Handle "/index.html" (Respond (File staticIndexPath)) s in
  Handle "/" (Respond (File staticIndexPath)) s.
End server.

Section serving.
Context `{Env, AuthLib, OpenAI, GoCache, OpenWeather, ApnsClient, Locale, Process, HttpLib}.

(** The GraphQL handler: the first transport that supports the request serves it.
    [Options] takes [OPTIONS], which it answers with the methods, and [HEAD],
    which it refuses. An upgrade starts a connection, whose handshake and messages
    come later. *)
Definition serve_graphql (sv : Server) (transports : list Transport) (rq : HttpRequest)
    : M World GoError HttpResponse :=
  match find (λ t, transport_Supports t rq) transports with
  | None => ret (WriteHeader 400)
  | Some Websocket => ret SwitchingProtocols
  | Some Options => ret (WriteHeader (if String.eqb (hr_Method rq) "HEAD" then 405 else 200))
  | Some t =>
      match transport_operation t rq with
      | inl e => ret (Errors e)
      | inr op => let! result := handle_request sv (hr_Authorization rq) op in ret (Data result)
      end
  end.

(** The router. *)
Definition ServeHTTP (s : HttpServer) (rq : HttpRequest) : M World GoError HttpResponse :=
  match find (λ route, mux_Match route.1 (hr_Path rq)) (srv_router s) with
  | None => ret (mux_NotFound rq)
  | Some (_, Respond r) => ret r
  | Some (_, GraphQL transports) => serve_graphql (srv_services s) transports rq
  end.

(** The handler [Run] listens with. *)
Definition Run (s : HttpServer) (rq : HttpRequest) : M World GoError HttpResponse :=
  match cors_answer ["*"] rq with
  | Some r => ret r
  | None => ServeHTTP s rq
  end.

(** ** Lemmas *)

(** A request that does anything reaches an operation through one of three
    transports. *)
Lemma serve_graphql_cases sv ts rq w r w' :
  serve_graphql sv ts rq w = (r, w') ->
  w' = w ∨ ∃ t op r1, In t ts ∧ transport_Supports t rq = true ∧ transport_operation t rq = inr op ∧
    (t = GET ∨ t = POST ∨ t = MultipartForm) ∧ handle_request sv (hr_Authorization rq) op w = (r1, w').
Proof.
  unfold serve_graphql. destruct (find _ ts) as [t|] eqn:Hf; [|intros [= <- <-]; by left].
  apply find_some in Hf as [Hin Hs]. intros Hr.
  destruct t; try (left; by injection Hr); destruct (transport_operation _ rq) as [e|op] eqn:Ho;
    try (left; by injection Hr); right;
    unfold bind in Hr; destruct (handle_request _ _ op w) as [r1 w1] eqn:Hh;
    eexists _, op, r1; (split_and!; [exact Hin|done|done|tauto|]); rewrite Hh; by destruct r1; injection Hr as <- <-.
Qed.

(** Only the path of the API leads to the GraphQL handler. *)
Lemma routes_lead `{!HttpLibLaws} sv rq p h :
  find (λ route, mux_Match route.1 (hr_Path rq)) (srv_router (InitV2Api (NewServer sv))) = Some (p, h) ->
  (∃ r, h = Respond r) ∨ hr_Path rq = v2QueryPath.
Proof.
  intros [Hin Hm]%find_some. simpl in Hin, Hm.
  repeat (destruct Hin as [Heq|Hin]; [injection Heq as <- <-; first [left; by eexists|right]|]); [|done].
  rewrite mux_Match_plain in Hm by reflexivity. by apply String.eqb_eq in Hm.
Qed.

Lemma Run_cases `{!HttpLibLaws} sv rq w r w' :
  Run (InitV2Api (NewServer sv)) rq w = (r, w') ->
  w' = w ∨ hr_Path rq = v2QueryPath ∧ ∃ op r1, (hr_Method rq = "POST" ∨ is_mutation op = false) ∧
    handle_request sv (hr_Authorization rq) op w = (r1, w').
Proof.
  unfold Run. destruct (cors_answer _ rq); [intros [= <- <-]; by left|]. unfold ServeHTTP.
  destruct (find _ _) as [[p h]|] eqn:Hf; [|intros [= <- <-]; by left].
  apply routes_lead in Hf as [[r0 ->]|Hp]; [intros [= <- <-]; by left|].
  destruct h as [ts|r0]; [|intros [= <- <-]; by left].
  intros [->|(t & op & r1 & _ & Hs & Ho & Ht & Hh)]%serve_graphql_cases; [by left|right].
  split; [done|]. exists op, r1. split; [|exact Hh].
  destruct Ht as [->| [->| ->]]; [right; by eapply GET_runs_queries|left; by apply POST_method|left; by apply MultipartForm_method].
Qed.

(** A query writes consumptions at most: those of the tea of the day. *)
Lemma query_footprint op t : is_mutation op = false -> t ≠ TConsumptions -> t ∉ footprint op.
Proof.
  intros Hq Ht. destruct op; try discriminate Hq; cbn [footprint]; try apply not_elem_of_nil.
  apply not_elem_of_cons. split; [done|apply not_elem_of_nil].
Qed.

(** The tables other than the consumptions hold the catalogue and the
    collections. *)
Lemma contents_kept d d' :
  (∀ t, t ≠ TConsumptions -> contents t d' = contents t d) ->
  catalogue d' = catalogue d ∧ ∀ id, cv_collections (db_collections d') !! id = cv_collections (db_collections d) !! id ∧
    ∀ q, (id, q) ∈ cv_items (db_collections d') <-> (id, q) ∈ cv_items (db_collections d).
Proof.
  intros Hq. assert (teas d' = teas d) as Ht by exact (Hq TTeas ltac:(done)).
  assert (tags d' = tags d) as Hg by exact (Hq TTags ltac:(done)).
  assert (tag_categories d' = tag_categories d) as Hc by exact (Hq TTagCategories ltac:(done)).
  assert (tea_tags d' = tea_tags d) as Htt by exact (Hq TTeaTags ltac:(done)).
  assert (collections d' = collections d) as Hcol by exact (Hq TCollections ltac:(done)).
  assert (collection_qr_items d' = collection_qr_items d) as Hi by exact (Hq TCollectionItems ltac:(done)).
  unfold catalogue, db_collections. rewrite Ht, Hg, Hc, Htt, Hcol, Hi. done.
Qed.
End serving.

(** ** Properties *)

(** C14: what HTTP lets in. Of the requests that reach the server only those for
    /v2/query change anything at all; a request that is not a POST changes no
    table but the consumptions, where the tea of the day is noted; and whatever
    the request, the catalogue changes only if its Authorization header carries
    an admin token for the configured key, a collection only if it carries an
    admin token or a token of its owner. *)
Theorem http_requests_are_contained
    `{Env, AuthLib, OpenAI, GoCache, OpenWeather, ApnsClient, Locale, Process, !AuthLibLaws, HttpLibLaws}
    sv key rq w r w' :
  admin_key (sv_auth sv) key -> world_wf w -> Run (InitV2Api (NewServer sv)) rq w = (r, w') ->
  (hr_Path rq ≠ v2QueryPath -> w' = w) ∧
  (hr_Method rq ≠ "POST" -> ∀ t, t ≠ TConsumptions -> contents t (w_db w') = contents t (w_db w)) ∧
  (catalogue (w_db w') = catalogue (w_db w) ∨
   hr_Method rq = "POST" ∧ carries_admin key (hr_Authorization rq) w) ∧
  ∀ id owner name, cv_collections (cs_view w) !! id = Some (owner, name) ->
    collection_kept id (cs_view w) (cs_view w') ∨
    hr_Method rq = "POST" ∧ (carries_admin key (hr_Authorization rq) w ∨
      ∃ u, usr_ID u = owner ∧ carries_user (sv_auth sv) (hr_Authorization rq) w u).
Proof.
  intros Hkey Hw [->|(Hp & op & r1 & Hm & Hh)]%Run_cases.
  { split_and!; [done|done|by left|]. intros. left. by unfold collection_kept. }
  assert (hr_Method rq = "POST" ∨ ∀ t, t ≠ TConsumptions -> contents t (w_db w') = contents t (w_db w)) as Hcases.
  { destruct Hm as [?|Hq]; [by left|right]. intros t Ht. eapply answer_footprint; [by apply query_footprint|exact Hh]. }
  pose proof (request_authorized _ _ _ _ _ _ _ Hkey Hw Hh) as [Hcat Hcol].
  split_and!; [done|by destruct Hcases| |].
  - destruct Hcases as [Hpost|[-> _]%contents_kept]; [destruct Hcat; auto|by left].
  - intros id owner name Hid. destruct Hcases as [Hpost|[_ Hv]%contents_kept]; [destruct (Hcol id owner name Hid); auto|left].
    exact (Hv id).
Qed.

(** ** Witnesses *)
#[local] Existing Instance exampleEnv.
#[local] Existing Instance exampleAuthLib.
#[local] Existing Instance exampleLocale.
#[local] Existing Instance exampleOpenAI.
#[local] Existing Instance exampleGoCache.
#[local] Existing Instance exampleApns.
#[local] Existing Instance exampleOpenWeather.
#[local] Existing Instance exampleProcess.

(** Transports told apart as gqlgen does; the payload names one of two
    operations. *)
Definition exampleHttpLib : HttpLib := {|
  mux_Match := String.eqb;
  mux_NotFound _ := WriteHeader 404;
  cors_answer _ _ := None;
  transport_Supports t rq :=
    match t with
    | Websocket => negb (String.eqb (hr_Upgrade rq) "")
    | Options => String.eqb (hr_Method rq) "OPTIONS" || String.eqb (hr_Method rq) "HEAD"
    | GET => String.eqb (hr_Upgrade rq) "" && String.eqb (hr_Method rq) "GET"
    | POST => String.eqb (hr_Upgrade rq) "" && String.eqb (hr_Method rq) "POST"
              && String.eqb (hr_ContentType rq) "application/json"
    | MultipartForm => String.eqb (hr_Upgrade rq) "" && String.eqb (hr_Method rq) "POST"
              && String.eqb (hr_ContentType rq) "multipart/form-data"
    end;
  transport_operation t rq :=
    if String.eqb (hr_Payload rq) "{ collections { id } }" then inr DoCollections
    else if String.eqb (hr_Payload rq) "mutation { newTea }" then
      match t with
      | GET => inl (EForeign "GET requests only allow query operations")
      | _ => inr addTea
      end
    else inl (EForeign "syntax error") |}.
#[local] Existing Instance exampleHttpLib.

#[local] Instance exampleHttpLibLaws : HttpLibLaws.
Proof.
  split; simpl.
  - done.
  - intros rq op. repeat case_match; intros [= <-]; done.
  - intros rq. rewrite !andb_true_iff. intros [[_ Hm] _]. by apply String.eqb_eq.
  - intros rq. rewrite !andb_true_iff. intros [[_ Hm] _]. by apply String.eqb_eq.
Qed.

(** The editor posts a tea; the same text at another path, or with GET, does
    nothing. *)
Definition posted (method path : string) : HttpRequest :=
  mkHttpRequest method path editor "" "application/json" "mutation { newTea }".

Lemma http_requests_are_contained_witness :
  let run rq := Run (InitV2Api (NewServer exampleServer)) rq emptyWorld in
  (run (posted "POST" v2QueryPath)).1 = Ok (Data (inr tt, [])) ∧
  size (teas (w_db (run (posted "POST" v2QueryPath)).2)) = 1 ∧
  (run (posted "POST" "/v2/")).2 = emptyWorld ∧
  teas (w_db (run (posted "GET" v2QueryPath)).2) = teas (w_db emptyWorld).
Proof.
  cbv zeta. split_and!; [vm_compute; reflexivity|vm_compute; reflexivity|..].
  - refine (proj1 (http_requests_are_contained exampleServer 7%N (posted "POST" "/v2/") emptyWorld _ _
      _ empty_db_wf (surjective_pairing _)) _); [|discriminate].
    split; [reflexivity|]. by exists 0, "PEM", "PEM".
  - refine (proj1 (proj2 (http_requests_are_contained exampleServer 7%N (posted "GET" v2QueryPath) emptyWorld _ _
      _ empty_db_wf (surjective_pairing _))) _ TTeas _); [|discriminate..].
    split; [reflexivity|]. by exists 0, "PEM", "PEM".
Defined.
