(* ===== verification/PrintQr.v ===== *)
(** QR labels on paper: src/printqr and the command src/cmd/qr_gen. It draws
    fresh ids, renders each as a QR code and lays the codes out in a two-column
    table, six to a page. *)

From stdpp Require Import base gmap list strings.
From Stdlib Require Import ZArith Lia.
From S2P Require Import Prelude GoTime Common Env Schema Sql World Queries PgAdapter Interfaces PgStorage Example Envconfig.

(** github.com/skip2/go-qrcode, which encodes a text and renders the code as a
    PNG, and github.com/unidoc/unipdf, which reads an image, draws a table on a
    document, saves it, and wants a license key checked; and the length of the
    longest slice of byte slices the Go runtime makes, which depends on the
    platform. *)
Class QrLib : Type := {
  makeslice_max : Z;
  QRCode : Type;
  Image : Type;
  qrcode_New : string → GoError + QRCode;
  (** [code.PNG(size)] without border, white on black *)
  QRCode_PNG : QRCode → Z → GoError + string;
  SetMeteredKey : string → nat → GoError + unit;
  NewImageFromData : string → GoError + Image;
  (** [cell.SetContent] and [creator.Draw], of a table with so many columns *)
  SetContent : Image → GoError + unit;
  Draw : nat → list Image → GoError + unit;
  WriteToFile : string → nat → GoError + unit }.

(** ** The constants *)
Definition marginRight : Z := 80.
Definition marginEmpty : Z := 0.
Definition codesOnList : nat := 6.
Definition cols : nat := 2.

Section printqr.
Context `{Env, QrLib}.

(** A cell holds an image with its margins, left, right, top and bottom, fitted
    to the width, on black. *)
Record Cell : Type := mkCell {
  cell_image : Image;
  cell_margins : Z * Z * Z * Z }.

Record Table : Type := mkTable { tbl_cols : nat; tbl_cells : list Cell }.

(** The document: its page margins and what was drawn on it. *)
Record Creator : Type := mkCreator {
  cr_margins : Z * Z * Z * Z;
  cr_drawn : list Table }.

Definition creator_New : Creator := mkCreator (0, 0, 0, 0)%Z [].

(** ** creator.go *)
Definition qrMarginTable : list (Z * Z * Z * Z) :=
  [(0, 7, 0, 7); (7, 0, 0, 7); (0, 7, 7, 7); (7, 0, 7, 7); (0, 7, 7, 0); (7, 0, 7, 0)]%Z.

(** An index out of range panics. *)
Definition qrMargins {S} (indexOnList : nat) : M S GoError (Z * Z * Z * Z) :=
  match qrMarginTable !! indexOnList with Some m => ret m | None => panic end.

Abbreviation Drawing := (World * Creator)%type.

Definition on_creator {A} (m : M Creator GoError A) : M Drawing GoError A := zoom snd (λ c s, (s.1, c)) m.
Definition in_world {A} (m : M World GoError A) : M Drawing GoError A := zoom fst (λ w s, (w, s.2)) m.

(** The new cell joins the table before its content is set; when that fails the
    table is not drawn. *)
Definition addQRCode {S} (table : Table) (data : string) (index : nat) : M S GoError Table :=
  let! image := wrapf "failed to create image" (of_sum (NewImageFromData data)) in
  let! margins := qrMargins (index mod codesOnList) in
  do! wrapf "failed to set image" (of_sum (SetContent image)) in
  ret (mkTable (tbl_cols table) (tbl_cells table ++ [mkCell image margins])).

Fixpoint addQRCodes {S} (table : Table) (images : list string) (i : nat) : M S GoError Table :=
  match images with
  | [] => ret table
  | image :: images' => let! table' := addQRCode table image i in addQRCodes table' images' (Datatypes.S i)
  end.

Definition creator_Draw (table : Table) : M Creator GoError unit :=
  do! of_sum (Draw (tbl_cols table) (cell_image <$> tbl_cells table)) in
  modify (λ c, mkCreator (cr_margins c) (cr_drawn c ++ [table])).

Definition writeQRCodes (images : list string) : M Creator GoError unit :=
  let! table := addQRCodes (mkTable cols []) images 0 in
  creator_Draw table.

Definition generatePdf (images : list string) : M Drawing GoError unit :=
  do! on_creator (writeQRCodes images) in
  in_world (ask (WriteToFile "qr_codes.pdf")).

(** ** qr_builder.go *)
Definition NewQR : M World GoError string :=
  let! id := new_uuid in
  let! code := wrapf "failed to generate QR code" (of_sum (qrcode_New (uuid_String id))) in
  wrapf "failed to generate png" (of_sum (QRCode_PNG code (-5))).

(** ** generator.go *)
Record generator : Type := mkGenerator { gen_key : string }.

Definition GenerateQRPdf (g : generator) (images : list string) : M Drawing GoError unit :=
  do! in_world (wrapf "failed to set metered key" (ask (SetMeteredKey (gen_key g)))) in
  do! on_creator (modify (λ _, creator_New)) in
  do! on_creator (modify (λ c, mkCreator (marginEmpty, marginRight, marginEmpty, marginEmpty) (cr_drawn c))) in
  generatePdf images.

(** The loop that fills [n] slots. *)
Fixpoint newQRs (n : nat) : M World GoError (list string) :=
  match n with
  | O => ret []
  | Datatypes.S n' => let! item := NewQR in let! items := newQRs n' in ret (item :: items)
  end.

(** [make] panics on a negative length and on one that is too large; the product
    wraps around. *)
Definition GenerateAndSave (g : generator) (lists : Z) : M Drawing GoError unit :=
  let n := wrap_int64 (lists * Z.of_nat codesOnList) in
  if (n <? 0)%Z || (makeslice_max <? n)%Z then panic
  else
    let! items := in_world (newQRs (Z.to_nat n)) in
    GenerateQRPdf g items.

(** cmd/qr_gen: its one variable, and ten pages; an error panics. *)
Definition qr_gen_fields : list (StructField string) :=
  [mkField "UnidocLicenseAPIKey" [("required", "true")] (setString (λ v _, v))].

Definition qr_gen `{Process} : M Drawing GoError unit :=
  match envconfig_Process "" qr_gen_fields "" with
  | inl _ => panic
  | inr key => let! r := try (GenerateAndSave (mkGenerator key) 10) in match r with inr _ => ret tt | inl _ => panic end
  end.

(** ** Lemmas *)

(** The label printed for the id drawn at tick [n]. *)
Definition label_png (n : nat) : GoError + string :=
  match qrcode_New (uuid_String (uuid_New n)) with
  | inl e => inl e
  | inr code => QRCode_PNG code (-5)
  end.

Lemma NewQR_run w :
  ∃ r, NewQR w = (r, advance w) ∧
  match r with
  | Ok png => label_png (w_tick w) = inr png
  | Err _ => ∃ e, label_png (w_tick w) = inl e
  | Panic | Blocked => False
  end.
Proof.
  unfold NewQR, label_png, bind, new_uuid, map_err. simpl.
  destruct (qrcode_New _) as [e|code]; simpl; [eexists; split; [reflexivity|simpl; eauto]|].
  destruct (QRCode_PNG _ _); simpl; eexists; (split; [reflexivity|simpl; eauto]).
Qed.

Lemma newQRs_run n w r w' :
  newQRs n w = (r, w') ->
  w_db w' = w_db w ∧
  match r with
  | Ok items => w_tick w' = w_tick w + n ∧ length items = n ∧
      ∀ i png, items !! i = Some png -> label_png (w_tick w + i) = inr png
  | Err _ => ∃ i e, i < n ∧ label_png (w_tick w + i) = inl e
  | Panic | Blocked => False
  end.
Proof.
  revert w r w'. induction n as [|n IH]; intros w r w'; simpl.
  { intros [= <- <-]. split_and!; [done|lia|done|done]. }
  unfold bind at 1. destruct (NewQR_run w) as ([png|e| |] & -> & Hq); [| |done..].
  - unfold bind. destruct (newQRs n (advance w)) as [r1 w1] eqn:En. apply IH in En as [Hdb Hr]. simpl in *.
    assert (∀ i, w_tick w + S i = S (w_tick w) + i) as Hs by lia.
    destruct r1 as [items|e| |]; [| |done..]; intros [= <- <-]; (split; [done|]).
    + destruct Hr as (Ht & Hl & Hi). split_and!; [lia|simpl; lia|].
      intros [|i] png'; simpl; [intros [= <-]; by rewrite Nat.add_0_r|]. rewrite Hs. apply Hi.
    + destruct Hr as (i & e' & Hi & He). exists (S i), e'. rewrite Hs. split; [lia|done].
  - intros [= <- <-]. split; [done|]. destruct Hq as [e' He]. exists 0, e'. rewrite Nat.add_0_r. split; [lia|done].
Qed.

Lemma qrMargins_in_range {S} i (s : S) : ∃ m, qrMargins (i mod codesOnList) s = (Ok m, s) ∧
  qrMarginTable !! (i mod codesOnList) = Some m.
Proof.
  unfold qrMargins. destruct (qrMarginTable !! (i mod codesOnList)) as [m|] eqn:E; [by exists m|].
  apply lookup_ge_None in E. simpl in E. pose proof (Nat.mod_upper_bound i codesOnList). unfold codesOnList in *. lia.
Qed.

(** The cell of an image at a position. *)
Definition cell_of (i : nat) (data : string) (c : Cell) : Prop :=
  NewImageFromData data = inr (cell_image c) ∧ qrMarginTable !! (i mod codesOnList) = Some (cell_margins c).

Lemma addQRCode_run {S} table data i (s : S) :
  (∃ c, addQRCode table data i s = (Ok (mkTable (tbl_cols table) (tbl_cells table ++ [c])), s) ∧ cell_of i data c) ∨
  (∃ e, addQRCode table data i s = (Err e, s)).
Proof.
  unfold addQRCode, bind, map_err, of_sum. destruct (NewImageFromData data) as [e|image] eqn:Ei; unfold throw, ret.
  - right. by eexists.
  - destruct (qrMargins_in_range i s) as (m & E & Hm). rewrite E.
    destruct (SetContent image) as [e|[]]; [right; by eexists|left; by exists (mkCell image m)].
Qed.

Lemma addQRCodes_run {S} (images : list string) table i (s : S) r s' :
  addQRCodes table images i s = (r, s') ->
  s' = s ∧
  match r with
  | Ok t => tbl_cols t = tbl_cols table ∧ ∃ cells, tbl_cells t = tbl_cells table ++ cells ∧
      length cells = length images ∧
      ∀ j data c, images !! j = Some data -> cells !! j = Some c -> cell_of (i + j) data c
  | Err _ => True
  | Panic | Blocked => False
  end.
Proof.
  revert table i. induction images as [|data images IH]; intros table i; simpl.
  { intros [= <- <-]. split; [done|]. split; [done|]. exists []. by rewrite app_nil_r. }
  unfold bind at 1. destruct (addQRCode_run table data i s) as [(c & -> & Hc)|(e & ->)]; [|by intros [= <- <-]].
  intros [-> Hr]%IH. split; [done|]. destruct r as [t|e| |]; [|done..].
  - destruct Hr as (Hcols & cells & Hcells & Hl & Hj). split; [done|]. simpl in Hcells.
    exists (c :: cells). split; [by rewrite Hcells, <-app_assoc|]. split; [simpl; lia|].
    intros [|j] data' c'; simpl; [intros [= <-] [= <-]; rewrite Nat.add_0_r; done|].
    intros Hd Hcj. specialize (Hj j data' c' Hd Hcj). by replace (i + Datatypes.S j) with (Datatypes.S i + j) by lia.
Qed.

Lemma GenerateQRPdf_run g images s r s' :
  GenerateQRPdf g images s = (r, s') ->
  w_db s'.1 = w_db s.1 ∧
  match r with
  | Ok _ => ∃ cells, cr_drawn s'.2 = [mkTable cols cells] ∧ cr_margins s'.2 = (0, 80, 0, 0)%Z ∧
      length cells = length images ∧
      ∀ i png c, images !! i = Some png -> cells !! i = Some c -> cell_of i png c
  | Err _ => True
  | Panic | Blocked => False
  end.
Proof.
  unfold GenerateQRPdf, generatePdf, writeQRCodes, creator_Draw, in_world, on_creator, zoom, bind, map_err, modify, ask.
  destruct (SetMeteredKey _ _) as [e|[]]; simpl; [by intros [= <- <-]|].
  destruct (addQRCodes _ images 0 _) as [r1 c1] eqn:Ea. apply addQRCodes_run in Ea as [-> Ha].
  destruct r1 as [t|e| |]; simpl; [|by intros [= <- <-]|done..].
  destruct Ha as (Hcols & cells & Hcells & Hl & Hj). simpl in *.
  destruct (Draw _ _) as [e|[]]; simpl; [by intros [= <- <-]|].
  destruct (WriteToFile _ _) as [e|[]]; simpl; intros [= <- <-]; (split; [done|]); [done|].
  exists cells. split_and!; [|done..]. simpl. destruct t as [k l]. simpl in *. by subst.
Qed.
End printqr.

(** ** Properties *)

(** C40: printing [lists] pages draws six ids a page, fresh and in order, and
    either fails with an error or saves one two-column table whose cell [i] is
    the code of the [i]-th id with the margins of its place on the page. The
    margins are never looked up out of range. A negative number of pages, or one
    whose number of codes overflows to a negative or is more than the runtime can
    make room for, panics. *)
Theorem GenerateAndSave_labels `{Env, QrLib} g lists w c r w' c' :
  GenerateAndSave g lists (w, c) = (r, (w', c')) ->
  let n := wrap_int64 (lists * 6) in
  w_db w' = w_db w ∧
  ((n < 0)%Z ∨ (makeslice_max < n)%Z -> r = Panic) ∧
  ((0 <= n <= makeslice_max)%Z ->
   match r with
   | Ok _ => ∃ cells, cr_drawn c' = [mkTable cols cells] ∧ cr_margins c' = (0, 80, 0, 0)%Z ∧
       Z.of_nat (length cells) = n ∧
       ∀ i cell, cells !! i = Some cell -> ∃ png, label_png (w_tick w + i) = inr png ∧ cell_of i png cell
   | Err _ => True
   | Panic | Blocked => False
   end).
Proof.
  unfold GenerateAndSave. change (Z.of_nat codesOnList) with 6%Z. cbv zeta.
  destruct (Z.ltb_spec (wrap_int64 (lists * 6)) 0) as [Hneg|Hpos];
    [|destruct (Z.ltb_spec makeslice_max (wrap_int64 (lists * 6))) as [Hlarge|Hsmall]]; simpl.
  1, 2: intros [= <- <- <-]; split_and!; [done..|lia].
  unfold bind at 1, in_world at 1, zoom at 1. simpl.
  destruct (newQRs _ w) as [r1 w1] eqn:En. apply newQRs_run in En as [Hdb Hr1].
  destruct r1 as [items|e| |]; [| |done..].
  2: { intros [= <- <- <-]. simpl. split_and!; [done|lia|done]. }
  destruct Hr1 as (_ & Hlen & Hitems). intros Hr. apply GenerateQRPdf_run in Hr as [Hdb' Hr].
  split; [simpl in Hdb'; congruence|]. split; [lia|]. intros _.
  destruct r as [[]|e| |]; [|done..]. destruct Hr as (cells & Hd & Hm & Hl & Hcells).
  exists cells. split_and!; [done..|lia|]. intros i cell Hc.
  destruct (lookup_lt_is_Some_2 items i) as [png Hpng]; [rewrite <-Hl; by eapply lookup_lt_Some|].
  exists png. split; [by apply Hitems|by apply Hcells].
Qed.

(** ** Witness *)
Definition exampleQrLib : QrLib := {|
  makeslice_max := 2 ^ 48 / 24; QRCode := string; Image := string;
  qrcode_New s := inr s; QRCode_PNG s _ := inr s; SetMeteredKey _ _ := inr tt;
  NewImageFromData s := inr s; SetContent _ := inr tt; Draw _ _ := inr tt; WriteToFile _ _ := inr tt |}.
#[local] Existing Instance exampleEnv.
#[local] Existing Instance exampleQrLib.

(** One page. *)
Lemma GenerateAndSave_labels_witness :
  ∃ w' c' cells, GenerateAndSave (mkGenerator "license") 1 (exampleWorld, creator_New) = (Ok tt, (w', c')) ∧
    cr_drawn c' = [mkTable cols cells] ∧ length cells = 6.
Proof.
  destruct (GenerateAndSave (mkGenerator "license") 1 (exampleWorld, creator_New)) as [r [w' c']] eqn:E.
  assert (r = Ok tt) as -> by (change r with (r, (w', c')).1; rewrite <-E; vm_compute; reflexivity).
  destruct (GenerateAndSave_labels (mkGenerator "license") 1 exampleWorld creator_New _ w' c' E) as (_ & _ & Hp).
  destruct (Hp ltac:(split; vm_compute; discriminate)) as (cells & Hd & _ & Hl & _).
  exists w', c', cells. split; [reflexivity|]. split; [exact Hd|].
  change (Z.of_nat (length cells) = 6%Z) in Hl. lia.
Defined.
