(* ===== verification/Interference.v ===== *)
(** Requests between the round trips of a request.

    Everywhere else a request is one step. Here other requests run before and
    after every round trip a manager's method makes to the database, as given
    functions on the world; the managers and the adapter are the same code, over
    another database client. What is proved holds for all such functions that
    keep a promise (rely), and says what the method's own steps promise the
    others (guarantee). *)

From stdpp Require Import base gmap sets list strings.
From Stdlib Require Import ZArith Lia.
From S2P Require Import Prelude GoTime Common Models Env Schema Sql World Queries PgAdapter Interfaces PgStorage.
From S2P Require Import Example Managers StorageTheorems Frame AuthLib Auth Weather Resolvers TeaOfTheDay Api.

(** ** Shared worlds

    A world, and what the others will do at the gaps to come. *)
Record Shared : Type := mkShared {
  sh_world : World;
  sh_others : list (World → World) }.

(** The others run, if they have anything left to do. *)
Definition gap (s : Shared) : Shared :=
  match sh_others s with
  | [] => s
  | f :: fs => mkShared (f (sh_world s)) fs
  end.

Definition put_sh_world (w : World) (s : Shared) : Shared := mkShared w (sh_others s).

(** A round trip with a gap on both sides. *)
Definition interleaved {A} (m : M World GoError A) : M Shared GoError A := λ s,
  let '(r, w) := m (sh_world (gap s)) in (r, gap (put_sh_world w (gap s))).

Section instances.
Context `{Env}.

#[export] Instance Shared_PgClient : PgClient Shared := {
  exec A st := interleaved (exec st);
  new_uuid := zoom sh_world put_sh_world new_uuid }.

#[export] Instance Shared_EventBus : EventBus Shared := {
  bus_events s := w_events (sh_world s);
  bus_put l s := put_sh_world (set_events l (sh_world s)) s }.

#[export] Instance Shared_EventBusLaws : EventBusLaws Shared.
Proof. split; [done|by intros [[]]|done]. Defined.

Lemma Shared_exec {A} (st : Stmt A) : exec (S := Shared) st = interleaved (exec st).
Proof. done. Qed.
End instances.

(** An operation that makes one round trip, and nothing else. *)
Ltac one_round_trip :=
  intros; cbn [Pg_TeaStorage Pg_CollectionStorage ts_Update cs_AddTeaToCollection cs_DeleteCollection cs_Collections
    cs_Collection cs_CollectionRecords];
  autounfold with go_preserves; unfold bind, map_err, query_row, ret, throw, interleaved;
  rewrite ?Shared_exec; unfold bind, interleaved;
  match goal with |- context [exec ?st (sh_world ?w)] => destruct (exec st (sh_world w)) as [[]] end;
  repeat case_match; by simplify_eq/=.

Section round_trips.
Context `{Env} (s : Shared).

Lemma Shared_query_row {A} (st : Stmt (option A)) : query_row st s = interleaved (query_row st) s.
Proof. one_round_trip. Qed.
Lemma Shared_Update id rec : ts_Update id rec s = interleaved (ts_Update id rec) s.
Proof. one_round_trip. Qed.
Lemma Shared_Collection id user : cs_Collection id user s = interleaved (cs_Collection id user) s.
Proof. one_round_trip. Qed.
Lemma Shared_Collections user : cs_Collections user s = interleaved (cs_Collections user) s.
Proof. one_round_trip. Qed.
Lemma Shared_CollectionRecords id : cs_CollectionRecords id s = interleaved (cs_CollectionRecords id) s.
Proof. one_round_trip. Qed.
Lemma Shared_DeleteCollection id user : cs_DeleteCollection id user s = interleaved (cs_DeleteCollection id user) s.
Proof. one_round_trip. Qed.
Lemma Shared_AddTeaToCollection id qrs :
  qrs ≠ [] -> cs_AddTeaToCollection id qrs s = interleaved (cs_AddTeaToCollection id qrs) s.
Proof.
  intros Hne. cbn [Pg_CollectionStorage cs_AddTeaToCollection]. unfold AddTeaToCollection, interleaved.
  rewrite !bool_decide_eq_false_2 by done. one_round_trip.
Qed.
End round_trips.

(** A history: own steps, in the relation [G], and the steps of the others. *)
Inductive interleaving (G : World → World → Prop) : World → list (World → World) → World → Prop :=
  | il_done w : interleaving G w [] w
  | il_own w w1 fs w' : G w w1 -> interleaving G w1 fs w' -> interleaving G w fs w'
  | il_other w f fs w' : interleaving G (f w) fs w' -> interleaving G w (f :: fs) w'.

Lemma interleaving_app G w fs w1 fs' w' :
  interleaving G w fs w1 -> interleaving G w1 fs' w' -> interleaving G w (fs ++ fs') w'.
Proof. induction 1; [done|..]; intros; [eapply il_own; eauto|]. apply il_other. auto. Qed.

Lemma gap_history G s :
  ∃ fs, sh_others s = fs ++ sh_others (gap s) ∧ interleaving G (sh_world s) fs (sh_world (gap s)).
Proof.
  unfold gap. destruct (sh_others s) as [|f fs] eqn:E.
  - exists []. rewrite E. split; [done|constructor].
  - exists [f]. split; [done|]. apply il_other, il_done.
Qed.

(** ** A calculus for methods among others

    [guided R G P m Q]: the method started where [P] holds makes own steps in
    [G], whatever the others do within their promise [R], and a success ends where
    [Q] holds of its answer. It neither panics nor parks. *)
Section guided.
Context `{Env} (R : World → World → Prop).

(** What the others promise: the database stays consistent, and [R]. *)
Definition respects (f : World → World) : Prop := ∀ w, world_wf w -> world_wf (f w) ∧ R w (f w).

Definition stable (P : World → Prop) : Prop := ∀ f w, respects f -> world_wf w -> P w -> P (f w).

Lemma stable_const (P : Prop) : stable (λ _, P).
Proof. by intros ? ? _ _. Qed.

Definition ends {A} (Q : A → World → Prop) (r : outcome GoError A) (w : World) : Prop :=
  match r with
  | Ok a => Q a w
  | Err _ => True
  | Panic | Blocked => False
  end.

Context (G : World → World → Prop).

Definition guided {A} (P : World → Prop) (m : M Shared GoError A) (Q : A → World → Prop) : Prop :=
  ∀ s r s', Forall respects (sh_others s) -> world_wf (sh_world s) -> P (sh_world s) -> m s = (r, s') ->
  ∃ fs, sh_others s = fs ++ sh_others s' ∧ interleaving G (sh_world s) fs (sh_world s') ∧
    world_wf (sh_world s') ∧ ends Q r (sh_world s').

Lemma guided_ret {A} (P : World → Prop) (a : A) (Q : A → World → Prop) :
  (∀ w, P w -> Q a w) -> guided P (ret a) Q.
Proof.
  intros HPQ s r s' _ Hw HP [= <- <-]. exists []. split_and!; [done|constructor|done|]. by apply HPQ.
Qed.

Lemma guided_bind {A B} P (m : M Shared GoError A) (Q : A → World → Prop) (k : A → M Shared GoError B) Q' :
  guided P m Q -> (∀ a, guided (Q a) (k a) Q') -> guided P (bind m k) Q'.
Proof.
  intros Hm Hk s r s' Hfs Hw HP Hr. unfold bind in Hr. destruct (m s) as [r1 s1] eqn:E.
  destruct (Hm _ _ _ Hfs Hw HP E) as (fs & Heq & Hil & Hw1 & HQ).
  destruct r1 as [a|e| |]; [|injection Hr as <- <-; exists fs; by split_and!|done..].
  rewrite Heq in Hfs. apply Forall_app in Hfs as [_ Hfs].
  destruct (Hk a _ _ _ Hfs Hw1 HQ Hr) as (fs' & Heq' & Hil' & Hw' & HQ').
  exists (fs ++ fs'). split_and!; [by rewrite Heq, Heq', app_assoc|by eapply interleaving_app|done..].
Qed.

Lemma guided_map_err {A} P f (m : M Shared GoError A) (Q : A → World → Prop) :
  guided P m Q -> guided P (map_err f m) Q.
Proof.
  intros Hm s r s' Hfs Hw HP Hr. unfold map_err in Hr. destruct (m s) as [r1 s1] eqn:E.
  destruct (Hm _ _ _ Hfs Hw HP E) as (fs & ? & ? & ? & He).
  destruct r1; injection Hr as <- <-; by exists fs.
Qed.

Lemma guided_for_range {A} P (f : A → M Shared GoError unit) l :
  (∀ x, guided P (f x) (λ _, P)) -> guided P (for_range f l) (λ _, P).
Proof.
  intros Hf. induction l as [|x l IH]; [by apply guided_ret|]. by apply (guided_bind _ _ (λ _, P)).
Qed.

(** A fresh UUID takes a tick of the surroundings. *)
Lemma guided_new_uuid P :
  (∀ w, P w -> P (advance w)) -> (∀ w, G w (advance w)) -> guided P new_uuid (λ _, P).
Proof.
  intros HP HG s r s' Hfs Hw Hs Hr. unfold new_uuid, Shared_PgClient, zoom in Hr. rewrite new_uuid_run in Hr.
  injection Hr as <- <-. exists []. split_and!; [done| |exact Hw|by apply HP].
  eapply il_own; [apply HG|constructor].
Qed.

Lemma guided_eq {A} P (m m' : M Shared GoError A) Q : (∀ s, m s = m' s) -> guided P m' Q -> guided P m Q.
Proof. intros He Hm s r s' Hfs Hw HP Hr. rewrite He in Hr. by eapply Hm. Qed.

(** What follows a call that cannot succeed does not matter. *)
Lemma guided_false {A B} P (m : M Shared GoError A) (k : A → M Shared GoError B) Q :
  guided P m (λ _ _, False) -> guided P (bind m k) Q.
Proof. intros Hm. eapply guided_bind; [exact Hm|]. by intros a s r s' _ _ []. Qed.

Lemma guided_weaken {A} (P P' : World → Prop) (m : M Shared GoError A) (Q Q' : A → World → Prop) :
  (∀ w, P' w -> P w) -> (∀ a w, Q a w -> Q' a w) -> guided P m Q -> guided P' m Q'.
Proof.
  intros HP HQ Hm s r s' Hfs Hw Hs Hr. destruct (Hm _ _ _ Hfs Hw (HP _ Hs) Hr) as (fs & Heq & Hil & Hw' & He).
  exists fs. split_and!; [done..|]. destruct r; simpl in *; auto.
Qed.

Lemma gap_stable P s :
  stable P -> Forall respects (sh_others s) -> world_wf (sh_world s) -> P (sh_world s) ->
  Forall respects (sh_others (gap s)) ∧ world_wf (sh_world (gap s)) ∧ P (sh_world (gap s)).
Proof.
  intros HP Hfs Hw Hs. unfold gap. destruct (sh_others s) as [|f fs] eqn:E; [by rewrite E|].
  apply Forall_cons in Hfs as [Hf Hfs]. simpl. split_and!; [done|by apply Hf|by apply HP].
Qed.

Lemma guided_interleaved {A} P (m : M World GoError A) (Q : A → World → Prop) :
  stable P -> (∀ a, stable (Q a)) ->
  (∀ w r w', world_wf w -> P w -> m w = (r, w') -> world_wf w' ∧ G w w' ∧ ends Q r w') ->
  guided P (interleaved m) Q.
Proof.
  intros HP HQ Hm s r s' Hfs Hw Hs Hr. unfold interleaved in Hr.
  destruct (gap_history G s) as (fs1 & Hfs1 & Hil1).
  destruct (gap_stable P s HP Hfs Hw Hs) as (Hfs' & Hw1 & Hs1).
  destruct (m (sh_world (gap s))) as [r1 w1] eqn:E. injection Hr as <- <-.
  destruct (Hm _ _ _ Hw1 Hs1 E) as (Hw2 & HG & HQ1).
  set (s2 := put_sh_world w1 (gap s)) in *.
  destruct (gap_history G s2) as (fs2 & Hfs2 & Hil2).
  exists (fs1 ++ fs2). split; [by rewrite Hfs1, <-app_assoc, <-Hfs2|].
  split; [eapply interleaving_app; [done|]; eapply il_own; [exact HG|exact Hil2]|].
  split; [by apply (gap_stable (λ _, True) s2); [by intros ? ? _ _ _|..]|].
  destruct r1; simpl in *; [|done..]. by apply (gap_stable (Q a) s2).
Qed.
End guided.

(** ** The collection operations in this calculus *)
Section collections.
Context `{Env} (user id : UUID).

(** The owner of the collection. *)
Definition owner (w : World) : option UUID := fst <$> cv_collections (cs_view w) !! id.

(** What the others promise: the collection keeps its owner until it is deleted,
    and does not come back. *)
Definition keeps_owner (w w' : World) : Prop := owner w' = owner w ∨ owner w' = None.

(** What a step of the method promises: the collections of everybody else are
    as before. *)
Definition own_step (w w' : World) : Prop := others_kept (Some user) (cs_view w) (cs_view w').

(** A step that changes no tea, QR record or collection. *)
Definition idle_step (w w' : World) : Prop := cs_view w' = cs_view w.

(** Nobody else owns the collection. *)
Definition mine (w : World) : Prop := owner w = Some user ∨ owner w = None.

Definition not_mine (w : World) : Prop := owner w ≠ Some user.

Lemma stable_mine : stable keeps_owner mine.
Proof. intros f w Hf Hw Hm. destruct (Hf w Hw) as [_ [E|E]]; unfold mine; rewrite E; auto. Qed.

Lemma stable_not_mine : stable keeps_owner not_mine.
Proof. intros f w Hf Hw Hm. destruct (Hf w Hw) as [_ [E|E]]; unfold not_mine; by rewrite E. Qed.

Lemma owner_Some w u : owner w = Some u <-> owns (cs_view w) u id.
Proof.
  unfold owner, owns. rewrite fmap_Some. split; [|by intros [name ->]; by exists (u, name)].
  intros [[u' name] [-> ->]]. by exists name.
Qed.

(** An answered lookup found the user's collection, and no lookup changes anything. *)
Lemma check_step w r w' :
  world_wf w -> cs_Collection id user w = (r, w') ->
  world_wf w' ∧ idle_step w w' ∧ ends (λ _ w', owner w' = Some user) r w'.
Proof.
  intros Hw Hr. apply (guard_spec id user) in Hr as (Hw' & Hv & Hc); [|done]. split_and!; [done..|].
  destruct r; simpl; [|done..]. destruct Hc as [_ Hc]. unfold owner. by rewrite Hv, Hc.
Qed.

Lemma idle_own w w' : idle_step w w' -> own_step w w'.
Proof. intros Hv. unfold own_step. rewrite Hv. by apply others_kept_same. Qed.

(** A list of records of a collection nobody else owns is the user's to change. *)
Lemma items_own w w' items :
  mine w -> cs_view w' = put_items items (cs_view w) ->
  (∀ id' q, id' ≠ id -> (id', q) ∈ items <-> (id', q) ∈ cv_items (cs_view w)) ->
  own_step w w' ∧ mine w'.
Proof.
  intros Hm Hv Hitems. split; [|by unfold mine, owner; rewrite Hv].
  intros id' u name Hid Hne. rewrite Hv. split; [done|]. intros q. apply Hitems.
  intros ->. unfold mine, owner in Hm. rewrite Hid in Hm. simpl in Hm. naive_solver.
Qed.

Lemma add_step qrs w r w' :
  world_wf w -> mine w -> cs_AddTeaToCollection id qrs w = (r, w') ->
  world_wf w' ∧ own_step w w' ∧ ends (λ _, mine) r w'.
Proof.
  intros Hw Hm Hr. apply (run_spec (OpAddTeaToCollection id qrs)) in Hr as [Hw' Hp]; [|done].
  cut (own_step w w' ∧ mine w' ∧ r ≠ Panic ∧ r ≠ Blocked);
    [intros (? & ? & ? & ?); by destruct r|].
  assert ((cs_view w' = cs_view w ∨ cs_view w' = put_items (known_items id qrs (cs_view w) ∪ cv_items (cs_view w)) (cs_view w))
    ∧ r ≠ Panic ∧ r ≠ Blocked) as ([Hv|Hv] & ? & ?)
    by (destruct r as [?|?| |]; simpl in Hp; [|destruct Hp as [?|[_ ?]]|done..]; auto).
  - split_and!; [by apply idle_own|by unfold mine, owner; rewrite Hv|done..].
  - destruct (items_own _ _ _ Hm Hv) as [? ?]; [|done]. intros id' q Hne. unfold known_items.
    rewrite elem_of_union, elem_of_list_to_set, list_elem_of_fmap. naive_solver.
Qed.

Lemma remove_step qrs w r w' :
  world_wf w -> mine w -> cs_DeleteTeaFromCollection id qrs w = (r, w') ->
  world_wf w' ∧ own_step w w' ∧ ends (λ _, mine) r w'.
Proof.
  intros Hw Hm Hr. apply (run_spec (OpDeleteTeaFromCollection id qrs)) in Hr as [Hw' Hp]; [|done].
  assert ((∃ qrs', cs_view w' = drop_items id qrs' (cs_view w)) ∧ r ≠ Panic ∧ r ≠ Blocked) as ([qrs' Hv] & ? & ?)
    by (destruct r as [?|?| |]; simpl in Hp; [|destruct Hp as [n ?]|done..]; split_and!; eauto).
  destruct (items_own _ _ _ Hm Hv) as [? ?]; [|by destruct r].
  intros id' q Hne. rewrite elem_of_filter. simpl. naive_solver.
Qed.

Lemma remove_item_step q w r w' :
  world_wf w -> mine w -> exec (deleteCollectionItem id q) w = (r, w') ->
  world_wf w' ∧ own_step w w' ∧ ends (λ _, mine) r w'.
Proof.
  intros Hw Hm Hr.
  assert (∃ r', cs_DeleteTeaFromCollection id [q] w = (r', w')) as [r' Hr'].
  { simpl. unfold DeleteTeaFromCollection, for_range, bind, map_err, Queries_DeleteCollectionItem. rewrite Hr.
    destruct r as [[]|?| |]; by eexists. }
  destruct (remove_step [q] w r' w' Hw Hm Hr') as (? & ? & He). split_and!; [done..|].
  simpl in Hr'. unfold DeleteTeaFromCollection, for_range, bind, map_err, Queries_DeleteCollectionItem in Hr'.
  rewrite Hr in Hr'. by destruct r as [[]|?| |]; injection Hr' as <-.
Qed.

(** A collection that is created under a fresh id is the user's own. *)
Lemma insert_step new name w r w' :
  world_wf w -> query_row (insertCollection new user name) w = (r, w') ->
  world_wf w' ∧ own_step w w' ∧ ends (λ _ _, True) r w'.
Proof.
  intros Hw Hr. split; [|split].
  - pose proof (query_row_wf (insertCollection new user name) ltac:(eauto with go_preserves) w Hw) as H0.
    by rewrite Hr in H0.
  - assert (cs_view w' = cs_view w ∨ (cv_collections (cs_view w) !! new = None ∧
      cs_view w' = put_collections (<[new := (user, name)]> (cv_collections (cs_view w))) (cs_view w))) as Hv.
    { assert (∀ t a d, insertCollection new user name t (w_db w) = inr (a, d) ->
        cv_collections (cs_view w) !! new = None ∧
        db_collections d = put_collections (<[new := (user, name)]> (cv_collections (cs_view w))) (cs_view w)) as Hs.
      { intros t a d. unfold insertCollection. simpl. rewrite lookup_fmap.
        destruct (collections (w_db w) !! new), (users (w_db w) !! user); intros; simplify_eq. split; [done|].
        unfold db_collections, put_collections. simpl. by rewrite fmap_insert. }
      destruct (query_row_returns (insertCollection new user name) w) as [(a & w1 & E)|(e & w1 & E)];
        rewrite E in Hr; injection Hr as <- <-.
      - apply query_row_Ok_inv in E as (d & Hd & -> & _). right. by eapply Hs.
      - apply query_row_Err_inv in E as [->|(a & d & Hd & ->)]; [by left|]. right. by eapply Hs. }
    unfold own_step. destruct Hv as [->|[Hnone ->]]; [by apply others_kept_same|].
    intros id' u name' Hid Hne. simpl. split; [|done]. rewrite lookup_insert_ne; [done|]. congruence.
  - destruct (query_row_returns (insertCollection new user name) w) as [(a & w1 & E)|(e & w1 & E)];
      rewrite E in Hr; by injection Hr as <- <-.
Qed.

Lemma records_step w r w' :
  world_wf w -> cs_CollectionRecords id w = (r, w') ->
  world_wf w' ∧ idle_step w w' ∧ ends (λ _ _, True) r w'.
Proof.
  intros Hw Hr. apply (run_spec (OpCollectionRecords id)) in Hr as [Hw' Hp]; [|done].
  split; [done|]. destruct r; simpl in Hp; split; try done; [by destruct Hp|].
  destruct Hp as [?|[? [? _]]]; done.
Qed.

Lemma list_step w r w' :
  world_wf w -> cs_Collections user w = (r, w') ->
  world_wf w' ∧ idle_step w w' ∧ ends (λ _ _, True) r w'.
Proof.
  intros Hw Hr. apply (run_spec (OpCollections user)) in Hr as [Hw' Hp]; [|done].
  split; [done|]. destruct r; simpl in Hp; split; try done; [by destruct Hp|].
  destruct Hp as [?|[? [? _]]]; done.
Qed.
End collections.

(** ** The methods *)
Section methods.
Context `{Env} (user id : UUID).

(** The lookup that guards a method, and the method behind it. *)
Lemma guided_check {A} (k : Collection → M Shared GoError A) :
  (∀ c, guided (keeps_owner id) (own_step user) (mine user id) (k c) (λ _ _, True)) ->
  guided (keeps_owner id) (own_step user) (λ _, True) (let! c := cs_Collection id user in k c) (λ _ _, True).
Proof.
  intros Hk. apply (guided_bind _ _ _ _ (λ _, mine user id)); [|done].
  eapply guided_eq; [intros s; apply Shared_Collection|].
  apply guided_interleaved; [apply stable_const|intros _; apply stable_mine|].
  intros w r w' Hw _ Hr. destruct (check_step user id w r w' Hw Hr) as (? & ? & ?).
  split_and!; [done|by apply idle_own|]. destruct r; [by left|done..].
Qed.

Lemma guided_reload {A} (f : Collection → A) :
  guided (keeps_owner id) (own_step user) (mine user id)
    (let! c := cs_Collection id user in ret (f c)) (λ _ _, True).
Proof.
  apply (guided_weaken _ _ (λ _, True) _ _ (λ _ _, True)); [done..|]. apply guided_check. intros c. by apply guided_ret.
Qed.

(** A user who does not own the collection fails at the lookup. *)
Lemma guided_refused {A} (k : Collection → M Shared GoError A) :
  guided (keeps_owner id) idle_step (not_mine user id) (let! c := cs_Collection id user in k c) (λ _ _, False).
Proof.
  apply guided_false. eapply guided_eq; [intros s; apply Shared_Collection|].
  apply guided_interleaved; [apply stable_not_mine|intros _; apply stable_const|].
  intros w r w' Hw Hn Hr. destruct (check_step user id w r w' Hw Hr) as (? & Hidle & He).
  split_and!; [done..|]. destruct r; [|done..]. apply Hn. unfold owner in *. by rewrite <-Hidle.
Qed.

(** The guarded methods, in one step each. *)
Lemma guided_step {A} G P (m : M World GoError A) :
  stable (keeps_owner id) P -> (∀ w w', idle_step w w' -> G w w') ->
  (∀ w r w', world_wf w -> m w = (r, w') -> world_wf w' ∧ idle_step w w' ∧ ends (λ _ _, True) r w') ->
  guided (keeps_owner id) G P (interleaved m) (λ _ _, True).
Proof.
  intros HP HG Hm. apply guided_interleaved; [done|intros _; apply stable_const|].
  intros w r w' Hw _ Hr. destruct (Hm w r w' Hw Hr) as (? & ? & ?). split_and!; auto.
Qed.

Lemma guided_AddRecords qrs :
  guided (keeps_owner id) (own_step user) (λ _, True) (CollectionManager.AddRecords user id qrs) (λ _ _, True).
Proof.
  apply guided_check. intros _. apply (guided_bind _ _ _ _ (λ _, mine user id)); [|intros _; apply guided_reload].
  destruct (decide (qrs = [])) as [->|Hne]; [by apply guided_ret|].
  eapply guided_eq; [intros s; by apply Shared_AddTeaToCollection|].
  apply guided_interleaved; [apply stable_mine|intros _; apply stable_mine|]. apply add_step.
Qed.

Lemma guided_DeleteRecords qrs :
  guided (keeps_owner id) (own_step user) (λ _, True) (CollectionManager.DeleteRecords user id qrs) (λ _ _, True).
Proof.
  apply guided_check. intros _. apply (guided_bind _ _ _ _ (λ _, mine user id)); [|intros _; apply guided_reload].
  apply guided_for_range. intros q. apply guided_map_err.
  apply guided_interleaved; [apply stable_mine|intros _; apply stable_mine|]. apply remove_item_step.
Qed.

Lemma guided_ListRecords :
  guided (keeps_owner id) (own_step user) (λ _, True) (CollectionManager.ListRecords id user) (λ _ _, True).
Proof.
  apply guided_check. intros _. apply (guided_bind _ _ _ _ (λ _ _, True)); [|intros rs; by apply guided_ret].
  eapply guided_eq; [intros s; apply Shared_CollectionRecords|].
  apply guided_step; [apply stable_mine|apply idle_own|apply records_step].
Qed.

Lemma guided_List :
  guided (keeps_owner id) (own_step user) (λ _, True) (CollectionManager.List_ user) (λ _ _, True).
Proof.
  apply (guided_bind _ _ _ _ (λ _ _, True)); [|intros l; by apply guided_ret].
  eapply guided_eq; [intros s; apply Shared_Collections|].
  apply guided_step; [apply stable_const|apply idle_own|apply list_step].
Qed.

Lemma guided_Delete :
  guided (keeps_owner id) (own_step user) (λ _, True) (CollectionManager.Delete user id) (λ _ _, True).
Proof.
  eapply guided_eq; [intros s; apply Shared_DeleteCollection|].
  apply guided_interleaved; [apply stable_const|intros _; apply stable_const|].
  intros w r w' Hw _ Hr. pose proof (Delete_others user id w r w' Hw Hr) as Ho.
  apply (run_spec (OpDeleteCollection id user)) in Hr as [Hw' Hp]; [|done].
  split_and!; [done..|by destruct r].
Qed.

Lemma guided_Create name :
  guided (keeps_owner id) (own_step user) (λ _, True) (CollectionManager.Create user name) (λ _ _, True).
Proof.
  apply (guided_bind _ _ _ _ (λ _ _, True)); [|intros c; by apply guided_ret].
  apply (guided_bind _ _ _ _ (λ _ _, True)); [apply guided_new_uuid; [done|intros w; by apply others_kept_same]|].
  intros new. apply (guided_bind _ _ _ _ (λ _ _, True)); [|intros c; by apply guided_ret].
  apply guided_map_err. eapply guided_eq; [intros s; apply Shared_query_row|].
  apply guided_interleaved; [apply stable_const|intros _; apply stable_const|].
  intros w r w' Hw _ Hr. by eapply insert_step.
Qed.
End methods.

(** The requests on collections keep the promise themselves, whoever sends them
    and whichever collection they name. *)
Section others_respect.
Context `{Env} (id : UUID).

Lemma respects_view (f : World → World) :
  preserves world_wf (λ w, (Ok (E := GoError) tt, f w)) ->
  (∀ w, world_wf w -> cv_collections (cs_view (f w)) !! id = cv_collections (cs_view w) !! id ∨
     cv_collections (cs_view (f w)) !! id = None) ->
  respects (keeps_owner id) f.
Proof.
  intros Hwf Hv w Hw. split; [exact (Hwf w Hw)|]. unfold keeps_owner, owner.
  destruct (Hv w Hw) as [E|E]; rewrite E; [by left|by right].
Qed.

Lemma AddRecords_respects user id' qrs : respects (keeps_owner id) (λ w, (CollectionManager.AddRecords user id' qrs w).2).
Proof.
  apply respects_view.
  { intros w Hw. by apply (collection_manager_wf user id' "" qrs). }
  intros w Hw. left. destruct (CollectionManager.AddRecords user id' qrs w) as [r w'] eqn:E.
  apply AddRecords_spec in E as [_ [(name & _ & [Hv|Hv] & _)|[Hv _]]]; [..|done]; cbn [snd]; by rewrite Hv.
Qed.

Lemma DeleteRecords_respects user id' qrs : respects (keeps_owner id) (λ w, (CollectionManager.DeleteRecords user id' qrs w).2).
Proof.
  apply respects_view.
  { intros w Hw. by apply (collection_manager_wf user id' "" qrs). }
  intros w Hw. left. destruct (CollectionManager.DeleteRecords user id' qrs w) as [r w'] eqn:E.
  apply DeleteRecords_spec in E as [_ [(name & n & _ & Hv & _)|[Hv _]]]; [..|done]; cbn [snd]; by rewrite Hv.
Qed.

Lemma Delete_respects user id' : respects (keeps_owner id) (λ w, (CollectionManager.Delete user id' w).2).
Proof.
  apply respects_view.
  { intros w Hw. by apply (collection_manager_wf user id' "" []). }
  intros w Hw. destruct (CollectionManager.Delete user id' w) as [r w'] eqn:E. cbn [snd].
  apply (run_spec (OpDeleteCollection id' user)) in E as [_ Hp]; [|done].
  assert (cs_view w' = cs_view w ∨ collection_effect (OpDeleteCollection id' user) (cs_view w) tt (cs_view w'))
    as [->|Hv] by (destruct r as [[]|e| |]; [by right|by destruct Hp as [?|[[] ?]]; auto|done..]); [by left|].
  cbn [collection_effect] in Hv. rewrite Hv. destruct (cv_collections (cs_view w) !! id') as [[u name]|]; [|by left].
  case_decide; [|by left]. simpl. destruct (decide (id' = id)) as [->|Hd].
  - right. apply lookup_delete_eq.
  - left. by apply lookup_delete_ne.
Qed.
End others_respect.

(** A method run at [w] among the steps [fs] of the others: its answer is [good],
    and the history is made of its own steps, in [G], and of theirs. *)
Definition tolerates `{Env} {A} (fs : list (World → World)) (w : World) (G : World → World → Prop)
    (m : M Shared GoError A) (good : outcome GoError A → Prop) : Prop :=
  ∀ r s', m (mkShared w fs) = (r, s') ->
  good r ∧ ∃ past, fs = past ++ sh_others s' ∧ interleaving G w past (sh_world s') ∧ world_wf (sh_world s').

Definition returns {A} (r : outcome GoError A) : Prop := r ≠ Panic ∧ r ≠ Blocked.
Definition fails {A} (r : outcome GoError A) : Prop := ∃ e, r = Err e.

Lemma guided_tolerates `{Env} {A} R G P (m : M Shared GoError A) Q good fs w :
  guided R G P m Q -> Forall (respects R) fs -> world_wf w -> P w -> (∀ r w', ends Q r w' -> good r) ->
  tolerates fs w G m good.
Proof.
  intros Hm Hfs Hw HP Hgood r s' Hr.
  destruct (Hm (mkShared w fs) r s' Hfs Hw HP Hr) as (past & ? & ? & ? & He).
  split; [by eapply Hgood|by exists past].
Qed.

Lemma ends_returns {A} (Q : A → World → Prop) r w : ends Q r w -> returns r.
Proof. by destruct r. Qed.

Lemma ends_fails {A} (r : outcome GoError A) w : ends (λ _ _, False) r w -> fails r.
Proof. destruct r; [done|by eexists|done..]. Qed.

(** An update of a tea that was answered. *)
Lemma Update_Ok `{Env} id v t (w w' : World) :
  world_wf w -> ts_Update id v w = (Ok t, w') ->
  world_wf w' ∧ w_events w' = w_events w ∧ t = mkTea id (stored_tea v) ∧
  ts_view w' = <[id := stored_tea v]> (ts_view w).
Proof.
  intros Hw Hr. apply (ts_spec _ (OpUpdate id v)) in Hr as (? & ? & -> & _ & ?); [|done]. by split_and!.
Qed.

(** An update in whose channel there is room. *)
Lemma Update_announced {S} `{TeaStorage S, EventBus S} id v t s s' :
  ts_Update id v s = (Ok t, s') ->
  length (buffered ch_tea_update (bus_events s')) < defaultChanSize ->
  TeaManager.Update id v s = (Ok t, bus_put (bus_events s' ++ [EvTeaUpdate t]) s').
Proof.
  intros Hr Hroom. unfold TeaManager.Update, bind. rewrite Hr. unfold send_event.
  by rewrite decide_True.
Qed.

(** ** Properties *)

(** C22: the collections are safe under interleaving. Let other requests run before
    and after every round trip of a method of the collection manager,
    as long as each of them leaves the database consistent and does not hand
    the collection to somebody else. Then the method comes back, the database
    is consistent at the end, and the history between is made of the others'
    steps and of steps of the method that keep every collection of another user
    with its records: also when the collection is deleted between the check of
    its owner and the write. For a user who does not own the collection at the
    start, adding, removing and listing records fail without a single change,
    whatever the others do. *)
Theorem collections_hold_under_interleaving `{Env} user id qrs name fs w :
  Forall (respects (keeps_owner id)) fs -> world_wf w ->
  tolerates fs w (own_step user) (CollectionManager.Create user name) returns ∧
  tolerates fs w (own_step user) (CollectionManager.AddRecords user id qrs) returns ∧
  tolerates fs w (own_step user) (CollectionManager.DeleteRecords user id qrs) returns ∧
  tolerates fs w (own_step user) (CollectionManager.Delete user id) returns ∧
  tolerates fs w (own_step user) (CollectionManager.List_ user) returns ∧
  tolerates fs w (own_step user) (CollectionManager.ListRecords id user) returns ∧
  (¬ owns (cs_view w) user id ->
   tolerates fs w idle_step (CollectionManager.AddRecords user id qrs) fails ∧
   tolerates fs w idle_step (CollectionManager.DeleteRecords user id qrs) fails ∧
   tolerates fs w idle_step (CollectionManager.ListRecords id user) fails).
Proof.
  intros Hfs Hw. split_and!; [..|intros Hn; assert (not_mine user id w) by (by rewrite <-(owner_Some id) in Hn); split_and!].
  - eapply (guided_tolerates (keeps_owner id)); [apply guided_Create|done..|apply ends_returns].
  - eapply (guided_tolerates (keeps_owner id)); [apply guided_AddRecords|done..|apply ends_returns].
  - eapply (guided_tolerates (keeps_owner id)); [apply guided_DeleteRecords|done..|apply ends_returns].
  - eapply (guided_tolerates (keeps_owner id)); [apply guided_Delete|done..|apply ends_returns].
  - eapply (guided_tolerates (keeps_owner id)); [apply guided_List|done..|apply ends_returns].
  - eapply (guided_tolerates (keeps_owner id)); [apply guided_ListRecords|done..|apply ends_returns].
  - eapply guided_tolerates; [apply guided_refused|done..|apply ends_fails].
  - eapply guided_tolerates; [apply guided_refused|done..|apply ends_fails].
  - eapply guided_tolerates; [apply guided_refused|done..|apply ends_fails].
Qed.

(** C34: the announcements of two updates of a tea can come in the wrong order. An
    update that runs between the write of another one and its announcement wins
    in the database and is announced first, so the last thing the subscribers
    hear of the tea is the value that has been overwritten; both updates succeed. *)
Theorem updates_can_be_announced_out_of_order `{Env} id v1 v2 t1 t2 w w1 w2 :
  world_wf w -> ts_Update id v1 w = (Ok t1, w1) -> ts_Update id v2 w1 = (Ok t2, w2) ->
  length (buffered ch_tea_update (w_events w)) + 1 < defaultChanSize ->
  let other w := (TeaManager.Update id v2 w).2 in
  ∃ w', TeaManager.Update id v1 (mkShared w [λ w, w; other]) = (Ok t1, mkShared w' []) ∧
    ts_view w' !! id = Some (tea_Data t2) ∧ tea_ID t1 = id ∧ tea_ID t2 = id ∧
    w_events w' = w_events w ++ [EvTeaUpdate t2; EvTeaUpdate t1].
Proof.
  intros Hw H1 H2 Hroom. cbv zeta.
  destruct (Update_Ok id v1 t1 w w1 Hw H1) as (Hw1 & Hev1 & -> & _).
  destruct (Update_Ok id v2 t2 w1 w2 Hw1 H2) as (_ & Hev2 & -> & Hv2). rewrite Hev1 in Hev2.
  set (t1 := mkTea id (stored_tea v1)) in *. set (t2 := mkTea id (stored_tea v2)) in *.
  assert (TeaManager.Update id v2 w1 = (Ok t2, set_events (w_events w ++ [EvTeaUpdate t2]) w2)) as Hother.
  { rewrite <-Hev2. refine (Update_announced id v2 t2 w1 w2 H2 _). simpl. rewrite Hev2. lia. }
  eexists. split.
  - rewrite (Update_announced id v1 t1 _ (mkShared (set_events (w_events w ++ [EvTeaUpdate t2]) w2) [])).
    + reflexivity.
    + rewrite Shared_Update. unfold interleaved, gap, put_sh_world. cbn [sh_others sh_world].
      rewrite H1. cbn [sh_others sh_world]. by rewrite Hother.
    + simpl. unfold buffered in *. rewrite filter_app, length_app. simpl. lia.
  - simpl. rewrite <-app_assoc. split_and!; [|done..].
    change (ts_view w2 !! id = Some (stored_tea v2)). rewrite Hv2. apply lookup_insert_eq.
Qed.

(** ** Witnesses *)
#[local] Existing Instance exampleEnv.

(** Alice deletes her shelf between the check and the write of another request of
    hers; Bob tries to fill it meanwhile. *)
Definition shelfGoes : list (World → World) :=
  [λ w, (CollectionManager.AddRecords bob shelf [box2] w).2; λ w, (CollectionManager.Delete alice shelf w).2].

Lemma shelfGoes_respects : Forall (respects (keeps_owner shelf)) shelfGoes.
Proof.
  apply Forall_cons. split; [apply AddRecords_respects|].
  apply Forall_cons. split; [apply Delete_respects|]. apply Forall_nil_2.
Qed.

Lemma collections_hold_under_interleaving_witness :
  tolerates shelfGoes exampleWorld (own_step alice) (CollectionManager.AddRecords alice shelf [box2]) returns ∧
  is_Ok (CollectionManager.AddRecords alice shelf [box2] (mkShared exampleWorld shelfGoes)).1 = false ∧
  is_Ok (CollectionManager.AddRecords alice shelf [box2] (mkShared exampleWorld [])).1 = true.
Proof.
  split; [|split; vm_compute; reflexivity].
  exact (proj1 (proj2 (collections_hold_under_interleaving alice shelf [box2] "" shelfGoes exampleWorld
    shelfGoes_respects exampleWorld_wf))).
Defined.

Definition firstEdit : TeaData := mkTeaData "Sencha" TeaBeverageType "first".
Definition secondEdit : TeaData := mkTeaData "Sencha" TeaBeverageType "second".

Lemma run_answer {A B} (p : A * B) a : p.1 = a -> p = (a, p.2).
Proof. by destruct p; intros <-. Qed.

Lemma updates_can_be_announced_out_of_order_witness :
  ∃ w', TeaManager.Update sencha firstEdit
      (mkShared exampleWorld [λ w, w; λ w, (TeaManager.Update sencha secondEdit w).2])
      = (Ok (mkTea sencha firstEdit), mkShared w' []) ∧
    ts_view w' !! sencha = Some secondEdit ∧
    w_events w' = w_events exampleWorld ++ [EvTeaUpdate (mkTea sencha secondEdit); EvTeaUpdate (mkTea sencha firstEdit)].
Proof.
  assert (ts_Update sencha firstEdit exampleWorld = (Ok (mkTea sencha firstEdit), (ts_Update sencha firstEdit exampleWorld).2)) as E1
    by (apply run_answer; vm_compute; reflexivity).
  assert (ts_Update sencha secondEdit (ts_Update sencha firstEdit exampleWorld).2
    = (Ok (mkTea sencha secondEdit), (ts_Update sencha secondEdit (ts_Update sencha firstEdit exampleWorld).2).2)) as E2
    by (apply run_answer; vm_compute; reflexivity).
  destruct (updates_can_be_announced_out_of_order sencha firstEdit secondEdit _ _ exampleWorld _ _ exampleWorld_wf E1 E2)
    as (w' & Hrun & Hv & _ & _ & Hev); [apply (bool_decide_unpack _); vm_compute; done|].
  exists w'. split_and!; [exact Hrun|exact Hv|exact Hev].
Defined.
