(* ===== verification/CategoryDeletion.v ===== *)
(** The deletion of a tag category among other requests. It makes three round
    trips, to list the tags, to delete them and to delete the category, outside a
    transaction: what may happen between them, and what must not. *)

From stdpp Require Import base gmap sets list strings.
From Stdlib Require Import ZArith Lia.
From S2P Require Import Prelude GoTime Common Models Env Schema Sql World Queries PgAdapter Interfaces PgStorage.
From S2P Require Import Example Managers StorageTheorems Frame AuthLib Auth Weather Resolvers TeaOfTheDay Api.
From S2P Require Import EventLoop Interference.

(** ** The own steps of a deletion *)
Section deletion.
Context `{Env} (id : UUID).

Definition tag_view (w : World) : TagView := db_tags (w_db w).

(** What the others promise: they put no tag into the category. *)
Definition no_tag_enters (w w' : World) : Prop := tags_in id (tag_view w') ⊆ tags_in id (tag_view w).

(** What the deletion promises once it has listed the tags [removed]: it deletes
    only tags of the category that are in the list, and the category only when
    it has no tag. *)
Definition deletes (removed : list UUID) (w w' : World) : Prop :=
  tag_view w' = tag_view w ∨
  (tags_in id (tag_view w) ⊆ list_to_set removed ∧
     tag_view w' = drop_tags (tags_in id (tag_view w)) (tag_view w)) ∨
  (tags_in id (tag_view w) = ∅ ∧ tag_view w' = drop_category id (tag_view w)).

Definition listed (removed : list UUID) (w : World) : Prop := tags_in id (tag_view w) ⊆ list_to_set removed.
Definition emptied (w : World) : Prop := tags_in id (tag_view w) = ∅.

Lemma stable_listed removed : stable no_tag_enters (listed removed).
Proof. intros f w Hf Hw Hl. destruct (Hf w Hw) as [_ Hn]. unfold listed. by etrans. Qed.
Lemma stable_emptied : stable no_tag_enters emptied.
Proof. intros f w Hf Hw He. destruct (Hf w Hw) as [_ Hn]. unfold no_tag_enters, emptied in *. set_solver. Qed.

Lemma drop_tags_empties v : tags_in id (drop_tags (tags_in id v) v) = ∅.
Proof.
  apply set_eq. intros i. unfold tags_in at 1. rewrite elem_of_dom. split; [|by intros ?%elem_of_empty].
  intros [data [[Hi Hn]%map_lookup_filter_Some Hc]%map_lookup_filter_Some]. exfalso. apply Hn.
  apply elem_of_dom. exists data. by apply map_lookup_filter_Some.
Qed.

Lemma exec_wf_run {A} (st : Stmt A) w r w' : stmt_wf st -> exec st w = (r, w') -> world_wf w -> world_wf w'.
Proof. intros Hs Hr Hw. pose proof (exec_wf st Hs w Hw) as H0. by rewrite Hr in H0. Qed.

(** A statement that takes the database to [f d], if it runs. *)
Lemma exec_cases {A} (st : Stmt A) w r w' :
  exec st w = (r, w') ->
  (∃ e, r = Err e ∧ w_db w' = w_db w) ∨
  (∃ a d, st (pg_now (w_tick w)) (w_db w) = inr (a, d) ∧ w_db w' = d ∧ (r = Ok a ∨ ∃ e, r = Err e)).
Proof.
  intros Hr. destruct (exec_returns st w) as [(a & w1 & E)|(e & w1 & E)]; rewrite E in Hr; injection Hr as <- <-.
  - apply exec_Ok_inv in E as (d & Hd & -> & _). right. exists a, d. by split_and!; [..|left].
  - apply exec_Err_inv in E as [->|(a & d & Hd & ->)]; [left; by exists e|].
    right. exists a, d. split_and!; [done..|right; by exists e].
Qed.

Lemma tags_deleted removed w r w' :
  world_wf w -> listed removed w -> exec (deleteTagsByCategory id) w = (r, w') ->
  world_wf w' ∧ deletes removed w w' ∧ ends (λ _, emptied) r w'.
Proof.
  intros Hw Hl Hr. split; [by eapply exec_wf_run; [apply deleteTagsByCategory_wf|..]|].
  apply exec_cases in Hr as [(e & -> & Hd)|(a & d & Hs & Hd & Hr)].
  - split; [|done]. left. unfold tag_view. by rewrite Hd.
  - rewrite deleteTagsByCategory_run in Hs. injection Hs as <- <-.
    assert (tag_view w' = drop_tags (tags_in id (tag_view w)) (tag_view w)) as Hv
      by (unfold tag_view; by rewrite Hd, db_tags_delete).
    split; [right; by left|]. destruct Hr as [->|[e ->]]; [|done]. simpl. unfold emptied.
    rewrite Hv. apply drop_tags_empties.
Qed.

Lemma category_deleted removed w r w' :
  world_wf w -> emptied w -> exec (deleteTagCategory id) w = (r, w') ->
  world_wf w' ∧ deletes removed w w' ∧ ends (λ _, emptied) r w'.
Proof.
  intros Hw He Hr. split; [by eapply exec_wf_run; [apply deleteTagCategory_wf|..]|].
  apply exec_cases in Hr as [(e & -> & Hd)|(a & d & Hs & Hd & Hr)].
  - split; [|done]. left. unfold tag_view. by rewrite Hd.
  - unfold deleteTagCategory in Hs. destruct (bool_decide _); [done|]. injection Hs as <- <-.
    assert (tag_view w' = drop_category id (tag_view w)) as Hv.
    { unfold tag_view. rewrite Hd. unfold drop_category, db_tags. simpl. by rewrite remove_rows_singleton. }
    split; [right; by right|]. destruct Hr as [->|[e ->]]; [|done]. simpl. unfold emptied. by rewrite Hv.
Qed.

(** What follows the listing. *)
Lemma guided_deletion removed :
  guided no_tag_enters (deletes removed) (listed removed)
    (do! wrapf "delete tags by category" (Queries_DeleteTagsByCategory id) in
     do! wrapf "delete category" (Queries_DeleteTagCategory id) in
     ret removed) (λ l w, l = removed ∧ emptied w).
Proof.
  apply (guided_bind _ _ _ _ (λ _, emptied)).
  { apply guided_map_err. apply guided_interleaved; [apply stable_listed|intros _; apply stable_emptied|].
    apply tags_deleted. }
  intros _. apply (guided_bind _ _ _ _ (λ _, emptied)); [|intros _; by apply guided_ret].
  apply guided_map_err. apply guided_interleaved; [apply stable_emptied|intros _; apply stable_emptied|].
  apply category_deleted.
Qed.
End deletion.

(** ** The deletion as a whole *)
Section whole.
Context `{Env} (id : UUID).

Lemma DeleteTagCategory_among fs w removed s' :
  Forall (respects (no_tag_enters id)) fs -> world_wf w ->
  gs_DeleteTagCategory id (mkShared w fs) = (Ok removed, s') ->
  ∃ past1 w1 past2, fs = past1 ++ past2 ++ sh_others s' ∧
    interleaving (λ _ _, False) w past1 w1 ∧ NoDup removed ∧ list_to_set removed = tags_in id (tag_view w1) ∧
    interleaving (deletes id removed) w1 past2 (sh_world s') ∧ emptied id (sh_world s').
Proof.
  intros Hfs Hw. set (s := mkShared w fs). cbn [Pg_TagStorage gs_DeleteTagCategory]. unfold PgAdapter.DeleteTagCategory.
  unfold bind at 1, map_err at 1, Queries_ListTagsByCategory. rewrite Shared_exec. unfold interleaved.
  destruct (gap_history (λ _ _, False) s) as (past1 & Hfs1 & Hil1).
  destruct (gap_stable (no_tag_enters id) (λ _, True) s (stable_const _ _) Hfs Hw I) as (Hfs' & Hw1 & _).
  set (w1 := sh_world (gap s)) in *.
  destruct (exec_returns (listTagsByCategory id) w1) as [(rows & w2 & E)|(e & w2 & E)]; rewrite E; [|done].
  apply exec_Ok_inv in E as (d & [= <- <-] & -> & _). intros Hr.
  pose proof (listed_tags_in id (w_db w1) (text_le (λ p, tag_name p.2))) as Hrows.
  pose proof (select_NoDup (λ p, tag_category_id p.2 = id) (text_le (λ p, tag_name p.2)) (tags (w_db w1))) as Hnd.
  set (rows := select _ _ _) in *.
  set (s2 := put_sh_world (set_db (w_db w1) (advance w1)) (gap s)) in *.
  destruct (gap_history (deletes id rows.*1) s2) as (past2 & Hfs2 & Hil2).
  destruct (gap_stable (no_tag_enters id) (listed id rows.*1) s2 (stable_listed id _) Hfs' Hw1)
    as (Hfs3 & Hw3 & Hl3); [by unfold listed; rewrite Hrows|].
  destruct (guided_deletion id rows.*1 _ _ _ Hfs3 Hw3 Hl3 Hr) as (past3 & Hfs4 & Hil3 & _ & [-> He]).
  exists past1, w1, (past2 ++ past3). split_and!; [|done..| |done].
  - change fs with (sh_others s). rewrite Hfs1, <-app_assoc. f_equal. rewrite <-Hfs4. exact Hfs2.
  - apply (il_own _ _ (sh_world s2)); [by left|]. by eapply interleaving_app.
Qed.

Lemma DeleteCategory_sends (s s' : Shared) :
  TagManager.DeleteCategory id s = (Ok tt, s') ->
  ∃ removed s1, gs_DeleteTagCategory id s = (Ok removed, s1) ∧
    s' = bus_put (bus_events s1 ++ (EvTagDelete <$> removed) ++ [EvCategoryDelete id]) s1.
Proof.
  pose proof (tag_manager_shape (S := Shared) (OpDeleteTagCategory id) s) as Hshape. simpl in Hshape.
  intros Hr. rewrite Hshape in Hr. unfold announcing, bind in Hr. simpl gs_DeleteTagCategory.
  destruct (PgAdapter.DeleteTagCategory id s) as [[removed|e| |] s1] eqn:E; [|done..]. exists removed, s1. split; [done|].
  destruct (for_range send_event _ s1) as [r2 s2] eqn:Es.
  apply send_events_spec in Es as [[-> ->]|(-> & _)]; [|done]. by injection Hr as <-.
Qed.
End whole.

(** ** A tag that comes in between *)
Section between_trips.
Context `{Env} (id : UUID).

Lemma send_events_room {S} `{EventBusLaws S} l (s : S) :
  (∀ c, length (buffered c (bus_events s ++ l)) <= defaultChanSize) ->
  for_range send_event l s = (Ok tt, bus_put (bus_events s ++ l) s).
Proof.
  intros Hroom. destruct (for_range send_event l s) as [r s'] eqn:E.
  apply send_events_spec in E as [[-> ->]|(-> & sent & e & rest & -> & -> & Hfull)]; [done|].
  specialize (Hroom (event_chan e)). rewrite bus_events_put in Hfull.
  rewrite (app_assoc _ sent (e :: rest)), buffered_app, length_app, buffered_cons, decide_True in Hroom by done.
  simpl in Hroom. lia.
Qed.

(** A created tag: what it does to the tags, and what is announced. *)
Lemma Create_Ok name color w t w' :
  world_wf w -> TagManager.Create name color id w = (Ok t, w') ->
  world_wf w' ∧ tag_Data t = mkTagData name color id ∧ tv_tags (tag_view w) !! tag_ID t = None ∧
  is_Some (tv_categories (tag_view w) !! id) ∧ tag_view w' = put_tag t (tag_view w) ∧
  w_events w' = w_events w ++ [EvTagCreate t].
Proof.
  intros Hw Hr. apply (tag_manager_announced (S := World) (OpCreateTag name color id)) in Hr as [Hw' Ha]; [|exact Hw].
  destruct Ha as (t' & Heq & (Hd & Hnone & Hcat & Hv) & Hev). simpl in *. subst t'. by split_and!.
Qed.

Lemma listed_run w rows w1 :
  world_wf w -> exec (listTagsByCategory id) w = (Ok rows, w1) ->
  world_wf w1 ∧ tag_view w1 = tag_view w ∧ w_events w1 = w_events w ∧ list_to_set rows.*1 = tags_in id (tag_view w).
Proof.
  intros Hw (d & [= <- <-] & -> & _)%exec_Ok_inv. split_and!; [done..|]. apply listed_tags_in.
Qed.

Lemma tags_deleted_run w w1 :
  world_wf w -> exec (deleteTagsByCategory id) w = (Ok tt, w1) ->
  world_wf w1 ∧ tag_view w1 = drop_tags (tags_in id (tag_view w)) (tag_view w) ∧ w_events w1 = w_events w.
Proof.
  intros Hw Hr. split; [by eapply exec_wf_run; [apply deleteTagsByCategory_wf|..]|].
  apply exec_Ok_inv in Hr as (d & Hs & -> & _). rewrite deleteTagsByCategory_run in Hs. injection Hs as <-.
  split; [apply db_tags_delete|done].
Qed.

Lemma category_deleted_run w w1 :
  exec (deleteTagCategory id) w = (Ok tt, w1) ->
  tag_view w1 = drop_category id (tag_view w) ∧ w_events w1 = w_events w.
Proof.
  intros (d & Hs & -> & _)%exec_Ok_inv. unfold deleteTagCategory in Hs. destruct (bool_decide _); [done|].
  injection Hs as <-. split; [|done]. unfold tag_view, drop_category, db_tags. simpl. by rewrite remove_rows_singleton.
Qed.

(** A category that has a tag is not deleted. *)
Lemma category_kept w i :
  i ∈ tags_in id (tag_view w) ->
  ∃ e w1, exec (deleteTagCategory id) w = (Err e, w1) ∧ tag_view w1 = tag_view w ∧ w_events w1 = w_events w.
Proof.
  unfold tag_view. rewrite db_tags_in. intros (r & [Hi Hc]%map_lookup_filter_Some)%elem_of_dom.
  destruct (exec_returns (deleteTagCategory id) w) as [([] & w1 & E)|(e & w1 & E)].
  - apply exec_Ok_inv in E as (d & Hs & _). unfold deleteTagCategory in Hs.
    rewrite bool_decide_eq_true_2 in Hs; [done|]. by exists i, r.
  - exists e, w1. split; [done|]. apply exec_Err_inv in E as [->|(a & d & Hs & _)]; [done|].
    unfold deleteTagCategory in Hs. rewrite bool_decide_eq_true_2 in Hs; [done|]. by exists i, r.
Qed.

Lemma drop_tags_lookup dead v i : i ∈ dead -> tv_tags (drop_tags dead v) !! i = None.
Proof. intros Hi. simpl. apply map_lookup_filter_None. right. by intros data _ ?. Qed.

Lemma tags_in_elem i v : i ∈ tags_in id v <-> ∃ data, tv_tags v !! i = Some data ∧ tagd_CategoryID data = id.
Proof. unfold tags_in. rewrite elem_of_dom. unfold is_Some. by setoid_rewrite map_lookup_filter_Some. Qed.

Lemma DeleteCategory_Ok removed (s s1 : Shared) :
  gs_DeleteTagCategory id s = (Ok removed, s1) ->
  let l := bus_events s1 ++ (EvTagDelete <$> removed) ++ [EvCategoryDelete id] in
  (∀ c, length (buffered c l) <= defaultChanSize) ->
  TagManager.DeleteCategory id s = (Ok tt, bus_put l s1).
Proof.
  intros Hr l Hroom. pose proof (tag_manager_shape (S := Shared) (OpDeleteTagCategory id) s) as Hshape.
  simpl in Hshape, Hr. rewrite Hshape. unfold announcing, bind. rewrite Hr. by rewrite send_events_room.
Qed.

Lemma DeleteCategory_Err e (s s1 : Shared) :
  gs_DeleteTagCategory id s = (Err e, s1) -> TagManager.DeleteCategory id s = (Err e, s1).
Proof. intros Hr. unfold TagManager.DeleteCategory, bind. by rewrite Hr. Qed.

(** A round trip whose neighbours are idle. *)
Lemma exec_gaps {A} (st : Stmt A) w f g fs r w' :
  exec st (f w) = (r, w') -> exec st (mkShared w (f :: g :: fs)) = (r, mkShared (g w') fs).
Proof. intros Hr. rewrite Shared_exec. unfold interleaved. simpl. by rewrite Hr. Qed.
Lemma exec_alone {A} (st : Stmt A) w r w' :
  exec st w = (r, w') -> exec st (mkShared w []) = (r, mkShared w' []).
Proof. intros Hr. rewrite Shared_exec. unfold interleaved. simpl. by rewrite Hr. Qed.

(** The listing, a request in between, and the deletions. *)
Lemma deletion_after_listing other w rows w1 w3 w4 :
  exec (listTagsByCategory id) w = (Ok rows, w1) ->
  exec (deleteTagsByCategory id) (other w1) = (Ok tt, w3) -> exec (deleteTagCategory id) w3 = (Ok tt, w4) ->
  gs_DeleteTagCategory id (mkShared w [λ w, w; other]) = (Ok rows.*1, mkShared w4 []).
Proof.
  intros H1 H2 H3. simpl. autounfold with go_preserves. unfold bind, map_err.
  rewrite (exec_gaps _ w _ _ _ _ _ H1), (exec_alone _ _ _ _ H2), (exec_alone _ _ _ _ H3). done.
Qed.

(** The listing, the deletion of the tags, and a request before the deletion of
    the category. *)
Lemma deletion_interrupted other w rows w1 w2 e w4 :
  exec (listTagsByCategory id) w = (Ok rows, w1) -> exec (deleteTagsByCategory id) w1 = (Ok tt, w2) ->
  exec (deleteTagCategory id) (other w2) = (Err e, w4) ->
  gs_DeleteTagCategory id (mkShared w [λ w, w; λ w, w; λ w, w; other])
  = (Err (EWrap "delete category" e), mkShared w4 []).
Proof.
  intros H1 H2 H3. simpl. autounfold with go_preserves. unfold bind, map_err.
  rewrite (exec_gaps _ w _ _ _ _ _ H1), (exec_gaps _ w1 _ _ _ _ _ H2), (exec_alone _ _ _ _ H3). done.
Qed.
End between_trips.

(** ** Requests that keep the promise *)
Section respectful.
Context `{Env} (id : UUID).

(** Every request on tags but one that creates a tag in the category or moves one
    there. *)
Definition stays_out {A} (op : tag_op A) : Prop :=
  match op with
  | OpCreateTag _ _ category | OpChangeTagCategory _ category => category ≠ id
  | _ => True
  end.

Lemma tags_in_mono v v' :
  (∀ i data, tv_tags v' !! i = Some data -> tagd_CategoryID data = id ->
     ∃ data', tv_tags v !! i = Some data' ∧ tagd_CategoryID data' = id) ->
  tags_in id v' ⊆ tags_in id v.
Proof. intros Hsub i. rewrite !tags_in_elem. intros (data & Hi & Hc). by eapply Hsub. Qed.

Lemma drop_tags_in dead v : tags_in id (drop_tags dead v) ⊆ tags_in id v.
Proof. apply tags_in_mono. intros i data [Hi _]%map_lookup_filter_Some Hc. by exists data. Qed.

Lemma put_tag_in tag v :
  (tagd_CategoryID (tag_Data tag) = id -> ∃ old, tv_tags v !! tag_ID tag = Some old ∧ tagd_CategoryID old = id) ->
  tags_in id (put_tag tag v) ⊆ tags_in id v.
Proof.
  intros Hold. apply tags_in_mono. intros i data Hi Hc. simpl in Hi.
  apply lookup_insert_Some in Hi as [[<- <-]|[_ Hi]]; [by apply Hold|by exists data].
Qed.

Lemma tag_effect_stays_out {A} (op : tag_op A) v a v' :
  stays_out op -> tag_effect op v a v' -> tags_in id v' ⊆ tags_in id v.
Proof.
  destruct op; cbn [stays_out tag_effect]; intros Hout.
  - by intros (_ & _ & _ & ->).
  - by intros (_ & ->).
  - intros (_ & _ & ->). apply (drop_tags_in (tags_in id0 v) v).
  - by intros (_ & _ & ->).
  - by intros (-> & _).
  - intros (Hd & _ & _ & ->). apply put_tag_in. by rewrite Hd.
  - intros (old & Hold & -> & ->). apply put_tag_in. simpl. intros Hc. by exists old.
  - intros (old & _ & _ & -> & ->). by apply put_tag_in.
  - intros ->. apply drop_tags_in.
  - by intros (_ & _ & ->).
  - by intros (-> & _).
  - by intros (_ & ->).
  - by intros ->.
  - by intros (-> & _).
Qed.

Lemma tag_promise_stays_out {A} (op : tag_op A) v r v' :
  stays_out op -> tag_promise op v r v' -> tags_in id v' ⊆ tags_in id v.
Proof.
  intros Hout Hp.
  assert (atomic (tag_effect op) v r v' ∨ ∃ category, v' = drop_tags (tags_in category v) v) as [Ha|[c ->]];
    [|clear Hp|apply drop_tags_in].
  - destruct op; try (by left). destruct Hp as [?|(e & _ & ->)]; [by left|right; by eexists].
  - destruct r; simpl in Ha; [by eapply tag_effect_stays_out| |done..].
    destruct Ha as [->|[a Ha]]; [done|by eapply tag_effect_stays_out].
Qed.

Lemma tag_requests_respect {A} (op : tag_op A) :
  stays_out op -> respects (no_tag_enters id) (λ w, (tag_manager op w).2).
Proof.
  intros Hout w Hw. destruct (tag_manager op w) as [r w'] eqn:E. simpl.
  apply (tag_manager_announced (S := World)) in E as [Hw' Ha]; [|exact Hw]. split; [exact Hw'|].
  unfold no_tag_enters. destruct r as [b|e| |]; simpl in Ha; [| |done|].
  - destruct Ha as (a & _ & Hp & _). by eapply tag_promise_stays_out.
  - destruct Ha as (Hp & _). by eapply tag_promise_stays_out.
  - destruct Ha as (a & sent & e & rest & Hp & _). by eapply tag_promise_stays_out.
Qed.
End respectful.

(** ** Properties *)

(** C23: a deleted category is announced with its tags, among other requests as
    well, as long as none of them puts a tag into it. Whatever they do before and
    after each of its round trips, a deletion that succeeds has listed the tags of
    the category at one moment, each once, has deleted only tags it had listed,
    and the category when it had no tag, leaves no tag in the category, and has
    announced the deletion of exactly the listed tags and then of the category. *)
Theorem category_deletion_is_announced `{Env} id fs w s' :
  Forall (respects (no_tag_enters id)) fs -> world_wf w ->
  TagManager.DeleteCategory id (mkShared w fs) = (Ok tt, s') ->
  ∃ past1 w1 past2 w2 removed, fs = past1 ++ past2 ++ sh_others s' ∧
    interleaving (λ _ _, False) w past1 w1 ∧ NoDup removed ∧ list_to_set removed = tags_in id (tag_view w1) ∧
    interleaving (deletes id removed) w1 past2 w2 ∧ tags_in id (tag_view w2) = ∅ ∧
    sh_world s' = set_events (w_events w2 ++ (EvTagDelete <$> removed) ++ [EvCategoryDelete id]) w2.
Proof.
  intros Hfs Hw (removed & s1 & Hr & ->)%DeleteCategory_sends.
  destruct (DeleteTagCategory_among id fs w removed s1 Hfs Hw Hr) as (past1 & w1 & past2 & ? & ? & ? & ? & ? & ?).
  by exists past1, w1, past2, (sh_world s1), removed.
Qed.

(** C35: a tag can vanish unannounced. A tag that is created in the category
    between the listing of its tags and their deletion is deleted with them, but
    only the listed ones are announced: the subscribers have heard that the tag
    was created and never hear that it is gone, although both requests succeed.
    If it is created between the deletion of the tags and that of the category,
    the deletion fails, and the tags it has deleted are announced by nobody. *)
Theorem tags_can_vanish_unannounced `{Env} id name color w rows w1 :
  world_wf w -> exec (listTagsByCategory id) w = (Ok rows, w1) ->
  let other := λ w, (TagManager.Create name color id w).2 in
  (∀ t w2 w3 w4, TagManager.Create name color id w1 = (Ok t, w2) ->
     exec (deleteTagsByCategory id) w2 = (Ok tt, w3) -> exec (deleteTagCategory id) w3 = (Ok tt, w4) ->
     let events := w_events w ++ [EvTagCreate t] ++ (EvTagDelete <$> rows.*1) ++ [EvCategoryDelete id] in
     (∀ c, length (buffered c events) <= defaultChanSize) ->
     ∃ w', TagManager.DeleteCategory id (mkShared w [λ w, w; other]) = (Ok tt, mkShared w' []) ∧
       w_events w' = events ∧ tag_ID t ∉ rows.*1 ∧ tv_tags (tag_view w') !! tag_ID t = None) ∧
  (∀ w2 t w3, exec (deleteTagsByCategory id) w1 = (Ok tt, w2) -> TagManager.Create name color id w2 = (Ok t, w3) ->
     ∃ e w', TagManager.DeleteCategory id (mkShared w [λ w, w; λ w, w; λ w, w; other]) = (Err e, mkShared w' []) ∧
       w_events w' = w_events w ++ [EvTagCreate t] ∧ tags_in id (tag_view w') = {[tag_ID t]} ∧
       ∀ i, i ∈ rows.*1 -> i ≠ tag_ID t -> tv_tags (tag_view w') !! i = None).
Proof.
  intros Hw Hlist other. destruct (listed_run id _ _ _ Hw Hlist) as (Hw1 & Hv1 & Hev1 & Hrows). split.
  - intros t w2 w3 w4 Hcreate Htags Hcat events Hroom.
    destruct (Create_Ok id _ _ _ _ _ Hw1 Hcreate) as (Hw2 & Hdata & Hfresh & _ & Hv2 & Hev2).
    destruct (tags_deleted_run id _ _ Hw2 Htags) as (_ & Hv3 & Hev3).
    destruct (category_deleted_run id _ _ Hcat) as (Hv4 & Hev4).
    assert (other w1 = w2) as Ho by (unfold other; by rewrite Hcreate). rewrite <-Ho in Htags.
    pose proof (deletion_after_listing id other w rows w1 w3 w4 Hlist Htags Hcat) as Hdel.
    assert (bus_events (mkShared w4 []) ++ (EvTagDelete <$> rows.*1) ++ [EvCategoryDelete id] = events) as Hevents
      by (simpl; by rewrite Hev4, Hev3, Hev2, Hev1, <-app_assoc).
    apply DeleteCategory_Ok in Hdel; [|by rewrite Hevents]. rewrite Hevents in Hdel.
    exists (set_events events w4). split_and!; [exact Hdel|done| |].
    + intros Hin. apply (elem_of_list_to_set (C := gset UUID)) in Hin. rewrite Hrows in Hin.
      apply tags_in_elem in Hin as (data & Hin & _).
      by rewrite <-Hv1, Hfresh in Hin.
    + change (tag_view (set_events events w4)) with (tag_view w4). rewrite Hv4, Hv3. apply drop_tags_lookup.
      apply tags_in_elem. exists (tag_Data t). rewrite Hv2, Hdata. simpl. by rewrite lookup_insert_eq, Hdata.
  - intros w2 t w3 Htags Hcreate. destruct (tags_deleted_run id _ _ Hw1 Htags) as (Hw2 & Hv2 & Hev2).
    destruct (Create_Ok id _ _ _ _ _ Hw2 Hcreate) as (_ & Hdata & Hfresh & _ & Hv3 & Hev3).
    assert (tags_in id (tag_view w3) = {[tag_ID t]}) as Hin.
    { apply set_eq. intros i. rewrite tags_in_elem, elem_of_singleton, Hv3. simpl. split.
      - intros (data & [[-> _]|[_ Hi]]%lookup_insert_Some & Hc); [done|].
        assert (i ∈ tags_in id (tag_view w2)) as Hi2 by (apply tags_in_elem; eauto).
        rewrite Hv2, drop_tags_empties in Hi2. by apply elem_of_empty in Hi2.
      - intros ->. exists (tag_Data t). by rewrite lookup_insert_eq, Hdata. }
    destruct (category_kept id w3 (tag_ID t)) as (e & w4 & Hcat & Hv4 & Hev4); [rewrite Hin; by apply elem_of_singleton|].
    assert (other w2 = w3) as Ho by (unfold other; by rewrite Hcreate). rewrite <-Ho in Hcat.
    pose proof (deletion_interrupted id other w rows w1 w2 e w4 Hlist Htags Hcat) as Hdel.
    apply DeleteCategory_Err in Hdel. exists (EWrap "delete category" e), w4. split_and!; [exact Hdel| |by rewrite Hv4|].
    + by rewrite Hev4, Hev3, Hev2, Hev1.
    + intros i Hi Hne. rewrite Hv4, Hv3. apply (elem_of_list_to_set (C := gset UUID)) in Hi. rewrite Hrows, <-Hv1 in Hi.
      assert (tv_tags (tag_view w2) !! i = None) as Hgone by (rewrite Hv2; by apply drop_tags_lookup).
      simpl. rewrite lookup_insert_ne; [exact Hgone|congruence].
Qed.

(** ** Witnesses *)
#[local] Existing Instance exampleEnv.

(** Somebody deletes the only tag of the category just after it was listed. *)
Definition busy : list (World → World) := [λ w, w; λ w, (tag_manager (OpDeleteTag grassy) w).2].

Lemma busy_respects : Forall (respects (no_tag_enters flavour)) busy.
Proof.
  apply Forall_cons. split; [intros w Hw; by unfold no_tag_enters|].
  apply Forall_cons. split; [|apply Forall_nil_2].
  by apply (tag_requests_respect flavour (OpDeleteTag grassy)).
Qed.

Lemma category_deletion_is_announced_witness :
  let run := TagManager.DeleteCategory flavour (mkShared exampleWorld busy) in
  run.1 = Ok tt ∧ ∃ w2 removed, tags_in flavour (tag_view w2) = ∅ ∧
    sh_world run.2 = set_events (w_events w2 ++ (EvTagDelete <$> removed) ++ [EvCategoryDelete flavour]) w2.
Proof.
  cbv zeta.
  assert ((TagManager.DeleteCategory flavour (mkShared exampleWorld busy)).1 = Ok tt) as Hok by (vm_compute; reflexivity).
  split; [exact Hok|].
  destruct (category_deletion_is_announced flavour busy exampleWorld _ busy_respects exampleWorld_wf
    (run_answer _ _ Hok)) as (past1 & w1 & past2 & w2 & removed & _ & _ & _ & _ & _ & He & Hrun).
  exists w2, removed. split; [exact He|exact Hrun].
Defined.

(** A smoky tag is created between the listing and the deletion of the tags. *)
Definition smoky : Tag := mkTag 1019%N (mkTagData "smoky" "#888" flavour).
Definition afterListing : World := (exec (listTagsByCategory flavour) exampleWorld).2.
Definition withSmoky : World := (TagManager.Create "smoky" "#888" flavour afterListing).2.
Definition withoutTags : World := (exec (deleteTagsByCategory flavour) withSmoky).2.

Lemma tags_can_vanish_unannounced_witness :
  ∃ w', TagManager.DeleteCategory flavour
      (mkShared exampleWorld [λ w, w; λ w, (TagManager.Create "smoky" "#888" flavour w).2])
      = (Ok tt, mkShared w' []) ∧
    w_events w' = [EvTagCreate smoky; EvTagDelete grassy; EvCategoryDelete flavour] ∧
    tv_tags (tag_view w') !! tag_ID smoky = None.
Proof.
  assert ((exec (listTagsByCategory flavour) exampleWorld).1 = Ok [(grassy, mkTagRow "grassy" "#0f0" flavour)]) as H1
    by (vm_compute; reflexivity).
  assert ((TagManager.Create "smoky" "#888" flavour afterListing).1 = Ok smoky) as H2 by (vm_compute; reflexivity).
  assert ((exec (deleteTagsByCategory flavour) withSmoky).1 = Ok tt) as H3 by (vm_compute; reflexivity).
  assert ((exec (deleteTagCategory flavour) withoutTags).1 = Ok tt) as H4 by (vm_compute; reflexivity).
  destruct (tags_can_vanish_unannounced flavour "smoky" "#888" exampleWorld _ _ exampleWorld_wf (run_answer _ _ H1))
    as [Hvanish _].
  destruct (Hvanish smoky _ _ _ (run_answer _ _ H2) (run_answer _ _ H3) (run_answer _ _ H4))
    as (w' & Hrun & Hev & _ & Hgone); [intros []; vm_compute; lia|].
  exists w'. split; [exact Hrun|]. split; [exact Hev|exact Hgone].
Defined.
