(* ===== verification/Json.v ===== *)
(** The text format of [encoding/json] as far as the program uses it: how a
    string is quoted and unquoted, the scanner that accepts a document, and the
    document as a tree. The scanner is the automaton of the package, one step
    for each byte, with the stack of the values that are open. *)

From Stdlib Require Import Ascii.
From stdpp Require Import base list strings.
From Stdlib Require Import ZArith Lia.
From S2P Require Import Prelude.

Declare Scope json_scope.
Delimit Scope json_scope with json.
Local Open Scope string_scope.

(** ** UTF-8 *)
Definition between (lo hi : N) (c : ascii) : bool :=
  (lo <=? N_of_ascii c)%N && (N_of_ascii c <=? hi)%N.

Definition continues (c : ascii) : bool := between 128 191 c.

(** The first two bytes of a character of three, and of four, bytes. *)
Definition starts_three (a b : ascii) : bool :=
  if Ascii.eqb a "224" then between 160 191 b
  else if Ascii.eqb a "237" then between 128 159 b
  else between 225 239 a && continues b.

Definition starts_four (a b : ascii) : bool :=
  if Ascii.eqb a "240" then between 144 191 b
  else if Ascii.eqb a "244" then between 128 143 b
  else between 241 243 a && continues b.

(** [utf8.DecodeRune], as the bytes of the character: none when they are not the
    start of a character. *)
Definition first_rune (s : string) : option string :=
  match s with
  | "" => None
  | String a s1 =>
      if between 0 127 a then Some (String a "") else
      match s1 with
      | "" => None
      | String b s2 =>
          if between 194 223 a && continues b then Some (String a (String b "")) else
          match s2 with
          | "" => None
          | String c s3 =>
              if starts_three a b && continues c then Some (String a (String b (String c ""))) else
              match s3 with
              | "" => None
              | String d _ =>
                  if starts_four a b && continues c && continues d
                  then Some (String a (String b (String c (String d "")))) else None
              end
          end
      end
  end.

Definition byte_at (n : N) : string := String (ascii_of_N n) "".

(** [utf8.AppendRune] *)
Definition utf8_encode (n : N) : string :=
  (if n <? 128 then byte_at n
   else if n <? 2048 then byte_at (192 + n / 64) +:+ byte_at (128 + n mod 64)
   else if (1114111 <? n) || ((55296 <=? n) && (n <=? 57343)) then byte_at 239 +:+ byte_at 191 +:+ byte_at 189
   else if n <? 65536
   then byte_at (224 + n / 4096) +:+ byte_at (128 + n / 64 mod 64) +:+ byte_at (128 + n mod 64)
   else byte_at (240 + n / 262144) +:+ byte_at (128 + n / 4096 mod 64)
     +:+ byte_at (128 + n / 64 mod 64) +:+ byte_at (128 + n mod 64))%N.

Definition RuneError : N := 65533.

(** ** Rewriting a string from left to right

    [f s] looks at what is left of the input: what to write, and how many bytes
    after the first it takes. *)
Fixpoint transduce (f : string → option (string * nat)) (taken : nat) (s : string) : option string :=
  match s with
  | "" => Some ""
  | String _ s' =>
      match taken with
      | S taken' => transduce f taken' s'
      | O => '(out, n) ← f s; tail ← transduce f n s'; Some (out +:+ tail)
      end
  end.

(** The string with U+FFFD for every byte that is not part of a character. *)
Definition sanitize_step (s : string) : option (string * nat) :=
  Some match first_rune s with
       | None => (utf8_encode RuneError, O)
       | Some r => (r, pred (String.length r))
       end.

Definition sanitize (s : string) : string := default "" (transduce sanitize_step 0 s).

(** ** Quoting (appendString of encode.go, with the escaping of HTML) *)
Definition hex_digit (n : N) : ascii := ascii_of_N (if n <? 10 then 48 + n else 87 + n)%N.

Definition escape_ascii (c : ascii) : string :=
  let n := N_of_ascii c in
  if Ascii.eqb c "034" || Ascii.eqb c "\" then String "\" (String c "")
  else if (n =? 8)%N then "\b"
  else if (n =? 12)%N then "\f"
  else if (n =? 10)%N then "\n"
  else if (n =? 13)%N then "\r"
  else if (n =? 9)%N then "\t"
  else if (n <? 32)%N || Ascii.eqb c "<" || Ascii.eqb c ">" || Ascii.eqb c "&"
  then "\u00" +:+ String (hex_digit (n / 16)) (String (hex_digit (n mod 16)) "")
  else String c "".

Definition escape_rune (r : string) : string :=
  match r with
  | String c "" => escape_ascii c
  | _ =>
      if String.eqb r (utf8_encode 8232) then "\u2028"
      else if String.eqb r (utf8_encode 8233) then "\u2029"
      else r
  end.

Definition escape_step (s : string) : option (string * nat) :=
  Some match first_rune s with
       | None => ("\ufffd", O)
       | Some r => (escape_rune r, pred (String.length r))
       end.

Definition escape (s : string) : string := default "" (transduce escape_step 0 s).

(** ** Unquoting (unquoteBytes and getu4 of decode.go) *)
Definition hex_value (c : ascii) : option N :=
  let n := N_of_ascii c in
  if between 48 57 c then Some (n - 48)%N
  else if between 97 102 c then Some (n - 87)%N
  else if between 65 70 c then Some (n - 55)%N
  else None.

Definition getu4 (s : string) : option N :=
  match s with
  | String b (String u (String h3 (String h2 (String h1 (String h0 _))))) =>
      if Ascii.eqb b "\" && Ascii.eqb u "u" then
        n3 ← hex_value h3; n2 ← hex_value h2; n1 ← hex_value h1; n0 ← hex_value h0;
        Some (((n3 * 16 + n2) * 16 + n1) * 16 + n0)%N
      else None
  | _ => None
  end.

Definition is_surrogate (r : N) : bool := (55296 <=? r)%N && (r <=? 57343)%N.

(** [utf16.DecodeRune] *)
Definition utf16_decode (r1 r2 : N) : option N :=
  if (55296 <=? r1)%N && (r1 <? 56320)%N && (56320 <=? r2)%N && (r2 <=? 57343)%N
  then Some ((r1 - 55296) * 1024 + (r2 - 56320) + 65536)%N else None.

Fixpoint string_drop (n : nat) (s : string) : string :=
  match n, s with
  | S n', String _ s' => string_drop n' s'
  | _, _ => s
  end.

Definition unquote_step (s : string) : option (string * nat) :=
  match s with
  | "" => None
  | String c s1 =>
      if Ascii.eqb c "\" then
        match s1 with
        | "" => None
        | String e _ =>
            if Ascii.eqb e "034" || Ascii.eqb e "\" || Ascii.eqb e "/" || Ascii.eqb e "'"
            then Some (String e "", 1)
            else if Ascii.eqb e "b" then Some (byte_at 8, 1)
            else if Ascii.eqb e "f" then Some (byte_at 12, 1)
            else if Ascii.eqb e "n" then Some (byte_at 10, 1)
            else if Ascii.eqb e "r" then Some (byte_at 13, 1)
            else if Ascii.eqb e "t" then Some (byte_at 9, 1)
            else
              rr ← getu4 s;
              if is_surrogate rr then
                match r2 ← getu4 (string_drop 6 s); utf16_decode rr r2 with
                | Some dec => Some (utf8_encode dec, 11)
                | None => Some (utf8_encode RuneError, 5)
                end
              else Some (utf8_encode rr, 5)
        end
      else if Ascii.eqb c "034" || between 0 31 c then None
      else sanitize_step s
  end.

Definition unquote (raw : string) : option string := transduce unquote_step 0 raw.

(** ** Quoting and unquoting *)
Lemma string_app_assoc (a b c : string) : (a +:+ b) +:+ c = a +:+ b +:+ c.
Proof. induction a as [|x a IH]; [done|]. exact (f_equal (String x) IH). Qed.

Lemma string_app_nil (a : string) : a +:+ "" = a.
Proof. induction a as [|x a IH]; [done|]. exact (f_equal (String x) IH). Qed.

Lemma first_rune_spec s r :
  first_rune s = Some r ->
  ∃ c r' rest, r = String c r' ∧ s = r +:+ rest ∧ ∀ rest', first_rune (r +:+ rest') = Some r.
Proof.
  destruct s as [|a s]; [done|]. simpl. destruct (between 0 127 a) eqn:Ea.
  { intros [= <-]. exists a, "", s. split_and!; [done..|]. intros rest. simpl. by rewrite Ea. }
  destruct s as [|b s]; [done|]. destruct (between 194 223 a && continues b) eqn:Eb.
  { intros [= <-]. exists a, (String b ""), s. split_and!; [done..|]. intros rest. simpl. by rewrite Ea, Eb. }
  destruct s as [|c s]; [done|]. destruct (starts_three a b && continues c) eqn:Ec.
  { intros [= <-]. exists a, (String b (String c "")), s. split_and!; [done..|]. intros rest. simpl.
    by rewrite Ea, Eb, Ec. }
  destruct s as [|d s]; [done|]. destruct (starts_four a b && continues c && continues d) eqn:Ed; [|done].
  intros [= <-]. exists a, (String b (String c (String d ""))), s. split_and!; [done..|]. intros rest. simpl.
  by rewrite Ea, Eb, Ec, Ed.
Qed.

Lemma string_drop_app (p rest : string) : string_drop (String.length p) (p +:+ rest) = rest.
Proof. induction p as [|c p IH]; [by destruct rest|exact IH]. Qed.

Lemma string_length_app (a b : string) : String.length (a +:+ b) = String.length a + String.length b.
Proof. induction a as [|x a IH]; [done|exact (f_equal S IH)]. Qed.

Section transduce.
Context (f : string → option (string * nat)).

Lemma transduce_taken n s : transduce f n s = transduce f 0 (string_drop n s).
Proof. revert s. induction n as [|n IH]; intros [|c s]; try done. simpl. by rewrite IH. Qed.

(** A step that takes exactly the piece in front. *)
Lemma transduce_piece c p rest out :
  f (String c p +:+ rest) = Some (out, String.length p) ->
  transduce f 0 (String c p +:+ rest) = (λ tail, out +:+ tail) <$> transduce f 0 rest.
Proof.
  intros Hf. change (String c p +:+ rest) with (String c (p +:+ rest)) in *. cbn [transduce]. rewrite Hf.
  cbn [mbind option_bind]. rewrite transduce_taken, string_drop_app. by destruct (transduce f 0 rest).
Qed.
End transduce.

(** What the first step of [sanitize] and of [escape] do. *)
Lemma sanitize_rune c r rest :
  first_rune (String c r +:+ rest) = Some (String c r) ->
  transduce sanitize_step 0 (String c r +:+ rest) = (λ t, String c r +:+ t) <$> transduce sanitize_step 0 rest.
Proof. intros Hr. apply transduce_piece. unfold sanitize_step. by rewrite Hr. Qed.

Lemma sanitize_invalid c rest :
  first_rune (String c rest) = None ->
  transduce sanitize_step 0 (String c rest) = (λ t, utf8_encode RuneError +:+ t) <$> transduce sanitize_step 0 rest.
Proof. intros Hr. apply (transduce_piece _ c "" rest). unfold sanitize_step. change (String c "" +:+ rest) with (String c rest). by rewrite Hr. Qed.

Lemma escape_rune_step c r rest :
  first_rune (String c r +:+ rest) = Some (String c r) ->
  transduce escape_step 0 (String c r +:+ rest) = (λ t, escape_rune (String c r) +:+ t) <$> transduce escape_step 0 rest.
Proof. intros Hr. apply transduce_piece. unfold escape_step. by rewrite Hr. Qed.

Lemma escape_invalid c rest :
  first_rune (String c rest) = None ->
  transduce escape_step 0 (String c rest) = (λ t, "\ufffd" +:+ t) <$> transduce escape_step 0 rest.
Proof. intros Hr. apply (transduce_piece _ c "" rest). unfold escape_step. change (String c "" +:+ rest) with (String c rest). by rewrite Hr. Qed.

(** Strings, character by character. *)
Lemma rune_ind (P : string → Prop) :
  P "" ->
  (∀ c rest, first_rune (String c rest) = None -> P rest -> P (String c rest)) ->
  (∀ c r rest, (∀ rest', first_rune (String c r +:+ rest') = Some (String c r)) -> P rest -> P (String c r +:+ rest)) ->
  ∀ s, P s.
Proof.
  intros Hnil Hbad Hrune s. remember (String.length s) as n eqn:Hn. revert s Hn.
  induction (lt_wf n) as [n _ IH]. intros [|c s] ->; [done|].
  destruct (first_rune (String c s)) as [r|] eqn:Hr.
  - apply first_rune_spec in Hr as (c' & r' & rest & -> & Heq & Hr). rewrite Heq. apply Hrune; [done|].
    eapply IH; [|done]. rewrite Heq. change (String c' r' +:+ rest) with (String c' (r' +:+ rest)).
    cbn [String.length]. rewrite string_length_app. lia.
  - apply Hbad; [done|]. eapply IH; [|done]. simpl. lia.
Qed.

Lemma escape_ascii_unquoted c :
  between 0 127 c = true ->
  ∃ x p, escape_ascii c = String x p ∧ ∀ rest, unquote_step (String x p +:+ rest) = Some (String c "", String.length p).
Proof.
  destruct c as [[] [] [] [] [] [] [] []]; intros Hc; try discriminate Hc;
    eexists _, _; (split; [vm_compute; reflexivity|intros rest; reflexivity]).
Qed.

Lemma first_rune_plain c r :
  first_rune (String c r) = Some (String c r) -> r ≠ "" -> between 0 127 c = false.
Proof. simpl. destruct (between 0 127 c); [|done]. by intros [= <-]. Qed.

(** The start of a character of several bytes is none of the bytes that mean
    something in a document. *)
Lemma high_byte c : between 0 127 c = false -> (128 <= N_of_ascii c)%N.
Proof. unfold between. rewrite andb_false_iff, !N.leb_gt. lia. Qed.

Lemma high_byte_ne c d : between 0 127 c = false -> (N_of_ascii d < 128)%N -> Ascii.eqb c d = false.
Proof. intros Hc%high_byte Hd. apply Ascii.eqb_neq. intros ->. lia. Qed.

Lemma escape_rune_unquoted c r rest :
  (∀ rest', first_rune (String c r +:+ rest') = Some (String c r)) ->
  transduce unquote_step 0 (escape_rune (String c r) +:+ rest) = (λ t, String c r +:+ t) <$> transduce unquote_step 0 rest.
Proof.
  intros Hr. destruct r as [|b r].
  - assert (between 0 127 c = true) as Hc.
    { specialize (Hr ""). simpl in Hr. by destruct (between 0 127 c). }
    destruct (escape_ascii_unquoted c Hc) as (x & p & Hx & Hp). unfold escape_rune. rewrite Hx.
    by apply transduce_piece.
  - assert (first_rune (String c (String b r)) = Some (String c (String b r))) as Hr0
      by (specialize (Hr ""); by rewrite string_app_nil in Hr).
    pose proof (first_rune_plain c (String b r) Hr0 ltac:(done)) as Hc.
    unfold escape_rune. destruct (String.eqb_spec (String c (String b r)) (utf8_encode 8232)) as [->|_];
      [by apply (transduce_piece unquote_step "\" "u2028" rest)|].
    destruct (String.eqb_spec (String c (String b r)) (utf8_encode 8233)) as [->|_];
      [by apply (transduce_piece unquote_step "\" "u2029" rest)|].
    apply transduce_piece. unfold unquote_step.
    change (String c (String b r) +:+ rest) with (String c (String b r +:+ rest)).
    cbv iota beta. rewrite !(high_byte_ne c) by done.
    replace (between 0 31 c) with false.
    + cbn [orb]. unfold sanitize_step. change (String c (String b r +:+ rest)) with (String c (String b r) +:+ rest).
      by rewrite Hr.
    + symmetry. apply high_byte in Hc. unfold between. rewrite andb_false_iff, !N.leb_gt. lia.
Qed.

(** Unquoting what was quoted gives the string back, with its invalid bytes
    replaced. *)
Lemma unquote_escape s : unquote (escape s) = Some (sanitize s).
Proof.
  unfold unquote, escape, sanitize.
  enough (∃ e t, transduce escape_step 0 s = Some e ∧ transduce sanitize_step 0 s = Some t ∧
    transduce unquote_step 0 e = Some t) as (e & t & -> & -> & Ht) by done.
  induction s as [|c rest Hr (e & t & He & Ht & Hu)|c r rest Hr (e & t & He & Ht & Hu)] using rune_ind.
  - by exists "", "".
  - rewrite escape_invalid, sanitize_invalid, He, Ht by done. eexists _, _. split_and!; [done..|].
    rewrite (transduce_piece unquote_step "\" "ufffd" e (utf8_encode RuneError)) by done. by rewrite Hu.
  - rewrite escape_rune_step, sanitize_rune, He, Ht by done. eexists _, _. split_and!; [done..|].
    simpl fmap. rewrite escape_rune_unquoted by done. by rewrite Hu.
Qed.

(** Valid UTF-8: every byte belongs to a character. *)
Definition utf8_valid (s : string) : bool := String.eqb (sanitize s) s.

Lemma unquote_escape_valid s : utf8_valid s = true -> unquote (escape s) = Some s.
Proof. intros Hs%String.eqb_eq. by rewrite unquote_escape, Hs. Qed.

(** ** Documents

    Numbers and strings keep the text of their literal. *)
Inductive json : Type :=
  | JNull
  | JBool (b : bool)
  | JNum (lit : string)
  | JStr (raw : string)
  | JArr (items : list json)
  | JObj (members : list (string * json)).

Definition quoted (raw : string) : string := String "034" (raw +:+ String "034" "").

(** The compact form [json.Marshal] writes. *)
Fixpoint print (j : json) : string :=
  match j with
  | JNull => "null"
  | JBool b => if b then "true" else "false"
  | JNum lit => lit
  | JStr raw => quoted raw
  | JArr items => "[" +:+ String.concat "," (print <$> items) +:+ "]"
  | JObj members =>
      "{" +:+ String.concat "," ((λ m : string * json, quoted m.1 +:+ ":" +:+ print m.2) <$> members) +:+ "}"
  end.

(** ** The scanner (scanner.go)

    What is open around the current value: an array, an object whose next key is
    being read, or one whose value under a key is, with what they hold so far,
    latest first. *)
Inductive frame : Type :=
  | parseArrayValue (items : list json)
  | parseObjectKey (members : list (string * json))
  | parseObjectValue (members : list (string * json)) (key : string).

Inductive num_state : Type :=
  | stateNeg | state0 | state1 | stateDot | stateDot0 | stateE | stateESign | stateE0.

Inductive scan_state : Type :=
  | stateBeginValue
  | stateBeginValueOrEmpty
  | stateBeginString
  | stateBeginStringOrEmpty
  | stateInString (raw : string)
  | stateInStringEsc (raw : string)
  | stateInStringEscU (raw : string) (missing : nat)
  | stateNum (n : num_state) (lit : string)
  | stateLit (missing : string) (value : json)
  | stateEndValue (value : json).

Definition scanner : Type := (scan_state * list frame)%type.

Definition isSpace (c : ascii) : bool :=
  Ascii.eqb c " " || Ascii.eqb c "009" || Ascii.eqb c "013" || Ascii.eqb c "010".

Definition is_digit (c : ascii) : bool := between 48 57 c.

Definition maxNestingDepth : N := 10000.

(** [pushParseState] *)
Definition push (st : scan_state) (f : frame) (stack : list frame) : option scanner :=
  if (N.of_nat (length (f :: stack)) <=? maxNestingDepth)%N then Some (st, f :: stack) else None.

Definition end_value (v : json) (stack : list frame) (c : ascii) : option scanner :=
  if isSpace c then Some (stateEndValue v, stack) else
  match stack with
  | [] => None
  | parseObjectKey members :: stack' =>
      match v with
      | JStr key => if Ascii.eqb c ":" then Some (stateBeginValue, parseObjectValue members key :: stack') else None
      | _ => None
      end
  | parseObjectValue members key :: stack' =>
      if Ascii.eqb c "," then Some (stateBeginString, parseObjectKey ((key, v) :: members) :: stack')
      else if Ascii.eqb c "}" then Some (stateEndValue (JObj (reverse ((key, v) :: members))), stack')
      else None
  | parseArrayValue items :: stack' =>
      if Ascii.eqb c "," then Some (stateBeginValue, parseArrayValue (v :: items) :: stack')
      else if Ascii.eqb c "]" then Some (stateEndValue (JArr (reverse (v :: items))), stack')
      else None
  end.

Definition begin_value (stack : list frame) (c : ascii) : option scanner :=
  if isSpace c then Some (stateBeginValue, stack)
  else if Ascii.eqb c "{" then push stateBeginStringOrEmpty (parseObjectKey []) stack
  else if Ascii.eqb c "[" then push stateBeginValueOrEmpty (parseArrayValue []) stack
  else if Ascii.eqb c "034" then Some (stateInString "", stack)
  else if Ascii.eqb c "-" then Some (stateNum stateNeg "-", stack)
  else if Ascii.eqb c "0" then Some (stateNum state0 "0", stack)
  else if Ascii.eqb c "t" then Some (stateLit "rue" (JBool true), stack)
  else if Ascii.eqb c "f" then Some (stateLit "alse" (JBool false), stack)
  else if Ascii.eqb c "n" then Some (stateLit "ull" JNull, stack)
  else if between 49 57 c then Some (stateNum state1 (String c ""), stack)
  else None.

Definition begin_string (stack : list frame) (c : ascii) : option scanner :=
  if isSpace c then Some (stateBeginString, stack)
  else if Ascii.eqb c "034" then Some (stateInString "", stack)
  else None.

(** A byte of a number: the next state, or none when it is not part of it. *)
Definition num_step (n : num_state) (c : ascii) : option num_state :=
  match n with
  | stateNeg => if Ascii.eqb c "0" then Some state0 else if between 49 57 c then Some state1 else None
  | state0 => if Ascii.eqb c "." then Some stateDot
              else if Ascii.eqb c "e" || Ascii.eqb c "E" then Some stateE else None
  | state1 => if is_digit c then Some state1 else if Ascii.eqb c "." then Some stateDot
              else if Ascii.eqb c "e" || Ascii.eqb c "E" then Some stateE else None
  | stateDot => if is_digit c then Some stateDot0 else None
  | stateDot0 => if is_digit c then Some stateDot0
                 else if Ascii.eqb c "e" || Ascii.eqb c "E" then Some stateE else None
  | stateE => if Ascii.eqb c "+" || Ascii.eqb c "-" then Some stateESign
              else if is_digit c then Some stateE0 else None
  | stateESign => if is_digit c then Some stateE0 else None
  | stateE0 => if is_digit c then Some stateE0 else None
  end.

Definition num_complete (n : num_state) : bool :=
  match n with state0 | state1 | stateDot0 | stateE0 => true | _ => false end.

Definition scan_step (s : scanner) (c : ascii) : option scanner :=
  let '(st, stack) := s in
  match st with
  | stateBeginValue => begin_value stack c
  | stateBeginValueOrEmpty =>
      if isSpace c then Some s
      else if Ascii.eqb c "]" then
        match stack with parseArrayValue _ :: stack' => Some (stateEndValue (JArr []), stack') | _ => None end
      else begin_value stack c
  | stateBeginString => begin_string stack c
  | stateBeginStringOrEmpty =>
      if isSpace c then Some s
      else if Ascii.eqb c "}" then
        match stack with parseObjectKey _ :: stack' => Some (stateEndValue (JObj []), stack') | _ => None end
      else begin_string stack c
  | stateInString raw =>
      if Ascii.eqb c "034" then Some (stateEndValue (JStr raw), stack)
      else if Ascii.eqb c "\" then Some (stateInStringEsc (raw +:+ "\"), stack)
      else if between 0 31 c then None
      else Some (stateInString (raw +:+ String c ""), stack)
  | stateInStringEsc raw =>
      if Ascii.eqb c "b" || Ascii.eqb c "f" || Ascii.eqb c "n" || Ascii.eqb c "r" || Ascii.eqb c "t"
         || Ascii.eqb c "\" || Ascii.eqb c "/" || Ascii.eqb c "034"
      then Some (stateInString (raw +:+ String c ""), stack)
      else if Ascii.eqb c "u" then Some (stateInStringEscU (raw +:+ "u") 4, stack)
      else None
  | stateInStringEscU raw missing =>
      match hex_value c, missing with
      | Some _, S (S m) => Some (stateInStringEscU (raw +:+ String c "") (S m), stack)
      | Some _, _ => Some (stateInString (raw +:+ String c ""), stack)
      | None, _ => None
      end
  | stateNum n lit =>
      match num_step n c with
      | Some n' => Some (stateNum n' (lit +:+ String c ""), stack)
      | None => if num_complete n then end_value (JNum lit) stack c else None
      end
  | stateLit missing v =>
      match missing with
      | String d "" => if Ascii.eqb c d then Some (stateEndValue v, stack) else None
      | String d missing' => if Ascii.eqb c d then Some (stateLit missing' v, stack) else None
      | "" => None
      end
  | stateEndValue v => end_value v stack c
  end.

Fixpoint scan (s : string) (st : scanner) : option scanner :=
  match s with
  | "" => Some st
  | String c s' => st' ← scan_step st c; scan s' st'
  end.

(** [checkValid], with the document it accepted: the end of the input counts as
    a space. *)
Definition parse (s : string) : option json :=
  st ← scan (s +:+ " ") (stateBeginValue, []);
  match st with
  | (stateEndValue v, []) => Some v
  | _ => None
  end.

(** ** The scanner accepts what is printed *)
Section json_ind.
Context (P : json → Prop) (Hnull : P JNull) (Hbool : ∀ b, P (JBool b)) (Hnum : ∀ lit, P (JNum lit))
  (Hstr : ∀ raw, P (JStr raw)) (Harr : ∀ items, Forall P items -> P (JArr items))
  (Hobj : ∀ members, Forall (λ m, P m.2) members -> P (JObj members)).

Fixpoint json_induction (j : json) : P j :=
  match j with
  | JNull => Hnull
  | JBool b => Hbool b
  | JNum lit => Hnum lit
  | JStr raw => Hstr raw
  | JArr items =>
      Harr items ((fix go (l : list json) : Forall P l :=
        match l with
        | [] => List.Forall_nil P
        | j' :: l' => List.Forall_cons P _ _ (json_induction j') (go l')
        end) items)
  | JObj members =>
      Hobj members ((fix go (l : list (string * json)) : Forall (λ m, P m.2) l :=
        match l with
        | [] => List.Forall_nil _
        | m :: l' => List.Forall_cons (λ m, P m.2) _ _ (json_induction m.2) (go l')
        end) members)
  end.
End json_ind.

(** How many values are open around the innermost one. *)
Fixpoint depth (j : json) : nat :=
  match j with
  | JNull | JBool _ | JNum _ | JStr _ => 0
  | JArr items => S (max_list (depth <$> items))
  | JObj members => S (max_list ((λ m : string * json, depth m.2) <$> members))
  end.

(** The text of a string literal, and of a number. *)
Definition raw_ok (raw : string) : Prop :=
  ∀ acc stack rest,
    scan (raw +:+ rest) (stateInString acc, stack) = scan rest (stateInString (acc +:+ raw), stack).

Definition delimiter (c : ascii) : bool :=
  isSpace c || Ascii.eqb c "," || Ascii.eqb c "]" || Ascii.eqb c "}".

Fixpoint num_run (n : num_state) (s : string) : option num_state :=
  match s with
  | "" => Some n
  | String c s' => n' ← num_step n c; num_run n' s'
  end.

Definition num_start (c : ascii) : option num_state :=
  if Ascii.eqb c "-" then Some stateNeg
  else if Ascii.eqb c "0" then Some state0
  else if between 49 57 c then Some state1
  else None.

Definition num_ok (lit : string) : bool :=
  match lit with
  | "" => false
  | String c lit' =>
      match n ← num_start c; num_run n lit' with
      | Some n => num_complete n
      | None => false
      end
  end.

(** Every string, key and number of a document satisfies its predicate. *)
Fixpoint json_all (R N : string → Prop) (j : json) : Prop :=
  match j with
  | JNull | JBool _ => True
  | JNum lit => N lit
  | JStr raw => R raw
  | JArr items =>
      (fix all (l : list json) := match l with [] => True | j' :: l' => json_all R N j' ∧ all l' end) items
  | JObj members =>
      (fix all (l : list (string * json)) :=
         match l with [] => True | m :: l' => (R m.1 ∧ json_all R N m.2) ∧ all l' end) members
  end.

Definition json_ok : json → Prop := json_all raw_ok (λ lit, num_ok lit = true).

Lemma json_all_items R N items : json_all R N (JArr items) <-> Forall (json_all R N) items.
Proof. split; induction items as [|j items IH]; simpl; rewrite ?Forall_cons; naive_solver. Qed.

Lemma json_all_members R N members :
  json_all R N (JObj members) <-> Forall (λ m, R m.1 ∧ json_all R N m.2) members.
Proof. split; induction members as [|j members IH]; simpl; rewrite ?Forall_cons; naive_solver. Qed.

Definition fits (stack : list frame) (n : nat) : Prop := (N.of_nat (length stack + n) <= maxNestingDepth)%N.

Lemma scan_app s s' st : scan (s +:+ s') st = (st' ← scan s st; scan s' st').
Proof.
  revert st. induction s as [|c s IH]; intros st; [done|]. change (String c s +:+ s') with (String c (s +:+ s')).
  cbn [scan]. destruct (scan_step st c) as [st'|]; [apply IH|done].
Qed.

Lemma scan_quoted raw rest stack :
  raw_ok raw -> scan (quoted raw +:+ rest) (stateBeginValue, stack) = scan rest (stateEndValue (JStr raw), stack).
Proof.
  intros Hraw. unfold quoted. change (String "034" (raw +:+ String "034" "") +:+ rest) with
    (String "034" ((raw +:+ String "034" "") +:+ rest)). rewrite string_app_assoc.
  cbn [scan]. exact (Hraw "" stack (String "034" rest)).
Qed.

(** A key of an object, with the colon after it. *)
Lemma scan_key st key rest members stack :
  raw_ok key -> st = stateBeginString ∨ st = stateBeginStringOrEmpty ->
  scan (quoted key +:+ ":" +:+ rest) (st, parseObjectKey members :: stack)
  = scan rest (stateBeginValue, parseObjectValue members key :: stack).
Proof.
  intros Hkey Hst. transitivity (scan (quoted key +:+ ":" +:+ rest) (stateBeginValue, parseObjectKey members :: stack)).
  - by destruct Hst as [-> | ->].
  - by rewrite scan_quoted.
Qed.

Lemma push_fits st f stack n : fits stack (S n) -> push st f stack = Some (st, f :: stack).
Proof.
  unfold fits, push. intros Hfit. rewrite (proj2 (N.leb_le _ _)); [done|]. cbn [length]. lia.
Qed.

Lemma fits_le stack n m : fits stack n -> m <= n -> fits stack m.
Proof. unfold fits. lia. Qed.

Lemma fits_cons f stack n : fits stack (S n) -> fits (f :: stack) n.
Proof. unfold fits. cbn [length]. lia. Qed.

Lemma num_step_delimiter n c : delimiter c = true -> num_complete n = true -> num_step n c = None.
Proof. destruct c as [[] [] [] [] [] [] [] []]; intros Hc; try discriminate Hc; by destruct n. Qed.

Lemma scan_num_run s n n' acc stack rest :
  num_run n s = Some n' ->
  scan (s +:+ rest) (stateNum n acc, stack) = scan rest (stateNum n' (acc +:+ s), stack).
Proof.
  revert n acc. induction s as [|c s IH]; intros n acc Hs.
  { injection Hs as ->. by rewrite string_app_nil. }
  cbn [num_run] in Hs. destruct (num_step n c) as [n1|] eqn:Hn; [|done].
  change (String c s +:+ rest) with (String c (s +:+ rest)). cbn [scan scan_step]. rewrite Hn.
  cbn [mbind option_bind]. rewrite IH by done. by rewrite string_app_assoc.
Qed.

Lemma begin_num c n stack : num_start c = Some n -> begin_value stack c = Some (stateNum n (String c ""), stack).
Proof.
  destruct c as [[] [] [] [] [] [] [] []]; intros Hc; try discriminate Hc; injection Hc as <-; reflexivity.
Qed.

Lemma scan_num lit stack c rest :
  num_ok lit = true -> delimiter c = true ->
  scan (lit +:+ String c rest) (stateBeginValue, stack) = scan (String c rest) (stateEndValue (JNum lit), stack).
Proof.
  destruct lit as [|d lit]; [done|]. cbn [num_ok]. destruct (num_start d) as [n|] eqn:Hd; [|done].
  cbn [mbind option_bind]. destruct (num_run n lit) as [n'|] eqn:Hn; [|done]. intros Hok Hc.
  change (String d lit +:+ String c rest) with (String d (lit +:+ String c rest)).
  cbn [scan]. cbn [scan_step]. rewrite (begin_num d n) by done. cbn [mbind option_bind].
  rewrite (scan_num_run lit n n') by done. cbn [scan scan_step]. by rewrite num_step_delimiter, Hok.
Qed.

(** A value starts with a byte that is neither a space nor the end of an array. *)
Lemma print_start j :
  json_ok j -> ∃ c s, print j = String c s ∧ isSpace c = false ∧ Ascii.eqb c "]" = false.
Proof.
  destruct j as [|[]|[|c lit]|raw|items|members]; unfold json_ok; simpl; intros Hok; try done;
    try (eexists _, _; split_and!; reflexivity).
  exists c, lit. destruct (num_start c) as [n|] eqn:Hc; [|done].
  destruct c as [[] [] [] [] [] [] [] []]; try discriminate Hc; done.
Qed.

Lemma scan_first_item j s stack :
  json_ok j -> scan (print j +:+ s) (stateBeginValueOrEmpty, stack) = scan (print j +:+ s) (stateBeginValue, stack).
Proof.
  intros (c & t & -> & Hsp & Hbr)%print_start. change (String c t +:+ s) with (String c (t +:+ s)).
  cbn [scan scan_step]. by rewrite Hsp, Hbr.
Qed.

Definition scans (j : json) : Prop :=
  ∀ stack c rest, fits stack (depth j) -> delimiter c = true ->
  scan (print j +:+ String c rest) (stateBeginValue, stack) = scan (String c rest) (stateEndValue j, stack).

(** What ends an item, and a member. *)
Lemma scan_next_item v items stack rest :
  scan (String "," rest) (stateEndValue v, parseArrayValue items :: stack)
  = scan rest (stateBeginValue, parseArrayValue (v :: items) :: stack).
Proof. reflexivity. Qed.

Lemma scan_last_item v items stack rest :
  scan (String "]" rest) (stateEndValue v, parseArrayValue items :: stack)
  = scan rest (stateEndValue (JArr (reverse (v :: items))), stack).
Proof. reflexivity. Qed.

Lemma scan_next_member v members key stack rest :
  scan (String "," rest) (stateEndValue v, parseObjectValue members key :: stack)
  = scan rest (stateBeginString, parseObjectKey ((key, v) :: members) :: stack).
Proof. reflexivity. Qed.

Lemma scan_last_member v members key stack rest :
  scan (String "}" rest) (stateEndValue v, parseObjectValue members key :: stack)
  = scan rest (stateEndValue (JObj (reverse ((key, v) :: members))), stack).
Proof. reflexivity. Qed.

Lemma scan_items items acc stack rest :
  Forall (λ j, scans j ∧ fits stack (S (depth j))) items -> items ≠ [] ->
  scan (String.concat "," (print <$> items) +:+ String "]" rest) (stateBeginValue, parseArrayValue acc :: stack)
  = scan rest (stateEndValue (JArr (reverse acc ++ items)), stack).
Proof.
  revert acc. induction items as [|j [|j' items] IH]; intros acc Hall Hne; [done|..];
    apply Forall_cons in Hall as [[Hj Hfit%(fits_cons (parseArrayValue acc))] Hall].
  - change (String.concat "," (print <$> [j])) with (print j). rewrite Hj by done.
    by rewrite scan_last_item, reverse_cons.
  - change (String.concat "," (print <$> j :: j' :: items)) with
      (print j +:+ "," +:+ String.concat "," (print <$> j' :: items)).
    rewrite !string_app_assoc. change ("," +:+ ?a) with (String "," a).
    rewrite Hj by done. rewrite scan_next_item, IH by done. by rewrite reverse_cons, <-app_assoc.
Qed.

Abbreviation print_member := (λ m : string * json, quoted m.1 +:+ ":" +:+ print m.2).

Lemma scan_members members st acc stack rest :
  Forall (λ m, raw_ok m.1 ∧ scans m.2 ∧ fits stack (S (depth m.2))) members -> members ≠ [] ->
  st = stateBeginString ∨ st = stateBeginStringOrEmpty ->
  scan (String.concat "," (print_member <$> members) +:+ String "}" rest) (st, parseObjectKey acc :: stack)
  = scan rest (stateEndValue (JObj (reverse acc ++ members)), stack).
Proof.
  revert st acc. induction members as [|[k j] [|m members] IH]; intros st acc Hall Hne Hst; [done|..];
    apply Forall_cons in Hall as [(Hk & Hj & Hfit%(fits_cons (parseObjectValue acc k))) Hall]; cbn [fst snd] in *.
  - change (String.concat "," (print_member <$> [(k, j)])) with (quoted k +:+ ":" +:+ print j).
    rewrite !string_app_assoc, scan_key, Hj by done. by rewrite scan_last_member, reverse_cons.
  - change (String.concat "," (print_member <$> (k, j) :: m :: members)) with
      ((quoted k +:+ ":" +:+ print j) +:+ "," +:+ String.concat "," (print_member <$> m :: members)).
    rewrite !string_app_assoc. change ("," +:+ ?a) with (String "," a).
    rewrite scan_key, Hj by done. rewrite scan_next_member, IH by auto. by rewrite reverse_cons, <-app_assoc.
Qed.

Lemma max_list_elem n l : n ∈ l -> n <= max_list l.
Proof. induction 1; simpl; lia. Qed.

Lemma scan_open c st f rest stack n :
  fits stack (S n) -> (∀ stack, begin_value stack c = push st f stack) ->
  scan (String c rest) (stateBeginValue, stack) = scan rest (st, f :: stack).
Proof. intros Hfit Hc. cbn [scan scan_step]. by rewrite Hc, (push_fits _ _ _ n). Qed.

(** Every well-formed document that is not nested too deeply is read as it was
    printed. *)
Lemma print_scans j : json_ok j -> scans j.
Proof.
  induction j as [|b|lit|raw|items IH|members IH] using json_induction; intros Hok stack c rest Hfit Hc.
  - reflexivity.
  - by destruct b.
  - by apply scan_num.
  - by apply scan_quoted.
  - apply json_all_items in Hok. cbn [print depth] in *. rewrite !string_app_assoc.
    change ("[" +:+ ?a) with (String "[" a). rewrite (scan_open _ _ _ _ _ _ Hfit) by reflexivity.
    change ("]" +:+ ?a) with (String "]" a). destruct items as [|j items]; [reflexivity|].
    assert (∀ s, scan (String.concat "," (print <$> j :: items) +:+ s) (stateBeginValueOrEmpty, parseArrayValue [] :: stack)
      = scan (String.concat "," (print <$> j :: items) +:+ s) (stateBeginValue, parseArrayValue [] :: stack)) as ->.
    { intros s. apply Forall_cons in Hok as [Hj _]. destruct items as [|j' items]; [by apply scan_first_item|].
      change (String.concat "," (print <$> j :: j' :: items)) with
        (print j +:+ "," +:+ String.concat "," (print <$> j' :: items)).
      rewrite string_app_assoc. by apply scan_first_item. }
    apply scan_items; [|done]. apply Forall_forall. intros j' Hj'. rewrite Forall_forall in *. split; [by apply IH, Hok|].
    eapply fits_le; [exact Hfit|]. apply le_n_S, max_list_elem, list_elem_of_fmap. by exists j'.
  - apply json_all_members in Hok. cbn [print depth] in *. rewrite !string_app_assoc.
    change ("{" +:+ ?a) with (String "{" a). rewrite (scan_open _ _ _ _ _ _ Hfit) by reflexivity.
    change ("}" +:+ ?a) with (String "}" a). destruct members as [|m members]; [reflexivity|].
    apply scan_members; [|done|by right]. apply Forall_forall. intros m' Hm'. rewrite Forall_forall in *.
    destruct (Hok m' Hm') as [? ?]. split_and!; [done|by apply IH|].
    eapply fits_le; [exact Hfit|]. apply le_n_S, max_list_elem, list_elem_of_fmap. by exists m'.
Qed.

Lemma parse_print j : json_ok j -> (N.of_nat (depth j) <= maxNestingDepth)%N -> parse (print j) = Some j.
Proof. intros Hok Hd. unfold parse. by rewrite (print_scans j Hok [] " "%char "" Hd eq_refl). Qed.

(** What quoting writes is the text of a string literal. *)
Lemma raw_ok_app a b : raw_ok a -> raw_ok b -> raw_ok (a +:+ b).
Proof. intros Ha Hb acc stack rest. by rewrite string_app_assoc, Ha, Hb, string_app_assoc. Qed.

Lemma raw_ok_nil : raw_ok "".
Proof. intros acc stack rest. by rewrite string_app_nil. Qed.

(** A byte with no meaning inside a string. *)
Definition plain_byte (c : ascii) : bool := negb (Ascii.eqb c "034" || Ascii.eqb c "\" || between 0 31 c).

Fixpoint plain_string (s : string) : bool :=
  match s with "" => true | String c s' => plain_byte c && plain_string s' end.

Lemma raw_ok_plain s : plain_string s = true -> raw_ok s.
Proof.
  induction s as [|c s IH]; [intros _; apply raw_ok_nil|]. cbn [plain_string].
  intros [Hc Hs]%andb_true_iff. change (String c s) with (String c "" +:+ s). apply raw_ok_app; [|by apply IH].
  intros acc stack rest. unfold plain_byte in Hc. apply negb_true_iff, orb_false_iff in Hc as [[Hq Hb]%orb_false_iff Hctl].
  change (String c "" +:+ rest) with (String c rest). cbn [scan scan_step]. by rewrite Hq, Hb, Hctl.
Qed.

Lemma plain_high_byte c : (128 <= N_of_ascii c)%N -> plain_byte c = true.
Proof.
  destruct c as [[] [] [] [] [] [] [] []]; intros Hc; first [reflexivity|exfalso; by apply Hc].
Qed.

Lemma between_high lo c hi : between lo hi c = true -> (128 <= lo)%N -> (128 <= N_of_ascii c)%N.
Proof. unfold between. rewrite andb_true_iff, !N.leb_le. lia. Qed.

(** The bytes of a character of several bytes are plain. *)
Lemma first_rune_plain_string c r :
  first_rune (String c r) = Some (String c r) -> r ≠ "" -> plain_string (String c r) = true.
Proof.
  intros Hr Hne. pose proof (first_rune_plain c r Hr Hne) as Hc. cbn [plain_string].
  rewrite (plain_high_byte c) by by apply high_byte. simpl in Hr. rewrite Hc in Hr.
  assert (∀ a b, starts_three a b = true -> plain_byte b = true) as H3.
  { intros a b Hb. unfold starts_three in Hb.
    destruct (Ascii.eqb a _); [|destruct (Ascii.eqb a _); [|apply andb_true_iff in Hb as [_ Hb]]];
      (eapply plain_high_byte, between_high; [exact Hb|lia]). }
  assert (∀ a b, starts_four a b = true -> plain_byte b = true) as H4.
  { intros a b Hb. unfold starts_four in Hb.
    destruct (Ascii.eqb a _); [|destruct (Ascii.eqb a _); [|apply andb_true_iff in Hb as [_ Hb]]];
      (eapply plain_high_byte, between_high; [exact Hb|lia]). }
  assert (∀ b, continues b = true -> plain_byte b = true) as Hcont
    by (intros b Hb; eapply plain_high_byte, between_high; [exact Hb|lia]).
  destruct r as [|b r]; [done|]. destruct (between 194 223 c && continues b) eqn:E2.
  { injection Hr as <-. apply andb_true_iff in E2 as [_ Hb]. simpl. by rewrite Hcont. }
  destruct r as [|d r]; [done|]. destruct (starts_three c b && continues d) eqn:E3.
  { injection Hr as <-. apply andb_true_iff in E3 as [Hb Hd]. simpl. by rewrite (H3 c b), Hcont. }
  destruct r as [|e r]; [done|]. destruct (starts_four c b && continues d && continues e) eqn:E4; [|done].
  injection Hr as <-. rewrite !andb_true_iff in E4. destruct E4 as [[Hb Hd] He]. simpl.
  by rewrite (H4 c b), !Hcont.
Qed.

Lemma raw_ok_escape_ascii c : between 0 127 c = true -> raw_ok (escape_ascii c).
Proof.
  intros Hc acc stack rest. destruct c as [[] [] [] [] [] [] [] []]; try discriminate Hc;
    vm_compute (escape_ascii _); simpl; by rewrite ?string_app_assoc.
Qed.

Lemma raw_ok_escape s : raw_ok (escape s).
Proof.
  unfold escape. enough (∃ e, transduce escape_step 0 s = Some e ∧ raw_ok e) as (e & -> & He) by done.
  induction s as [|c rest Hr (e & He & Hok)|c r rest Hr (e & He & Hok)] using rune_ind.
  - exists "". split; [done|apply raw_ok_nil].
  - rewrite escape_invalid, He by done. eexists. split; [done|]. apply raw_ok_app; [|done].
    intros acc stack rest'. simpl. by rewrite ?string_app_assoc.
  - rewrite escape_rune_step, He by done. eexists. split; [done|]. apply raw_ok_app; [|done].
    assert (first_rune (String c r) = Some (String c r)) as Hr0 by (specialize (Hr ""); by rewrite string_app_nil in Hr).
    destruct r as [|b r].
    + apply raw_ok_escape_ascii. simpl in Hr0. by destruct (between 0 127 c).
    + unfold escape_rune. repeat case_match; [..|by apply raw_ok_plain, first_rune_plain_string];
        intros acc stack rest'; simpl; by rewrite ?string_app_assoc.
Qed.

(** ** What the scanner accepts can be unquoted *)
Definition short_escape (e : ascii) : bool :=
  Ascii.eqb e "b" || Ascii.eqb e "f" || Ascii.eqb e "n" || Ascii.eqb e "r" || Ascii.eqb e "t"
  || Ascii.eqb e "\" || Ascii.eqb e "/" || Ascii.eqb e "034".

Definition is_hex (c : ascii) : Prop := is_Some (hex_value c).

(** The text of a string literal, as a grammar. *)
Inductive escaped : string → Prop :=
  | escaped_nil : escaped ""
  | escaped_plain c s : plain_byte c = true -> escaped s -> escaped (String c s)
  | escaped_short e s : short_escape e = true -> escaped s -> escaped (String "\" (String e s))
  | escaped_u h3 h2 h1 h0 s : is_hex h3 -> is_hex h2 -> is_hex h1 -> is_hex h0 -> escaped s ->
      escaped (String "\" (String "u" (String h3 (String h2 (String h1 (String h0 s)))))).

Lemma escaped_app a b : escaped a -> escaped b -> escaped (a +:+ b).
Proof.
  intros Ha Hb. induction Ha; [done|by apply escaped_plain|by apply escaped_short|by apply escaped_u].
Qed.

Lemma escaped_plain_suffix r rest : plain_string r = true -> escaped (r +:+ rest) -> escaped rest.
Proof.
  induction r as [|c r IH]; [done|]. cbn [plain_string]. intros [Hc Hr]%andb_true_iff Hesc.
  apply IH; [done|]. change (String c r +:+ rest) with (String c (r +:+ rest)) in Hesc. by inversion Hesc; subst.
Qed.

Lemma getu4_shape s r :
  getu4 s = Some r -> ∃ h3 h2 h1 h0 rest, s = String "\" (String "u" (String h3 (String h2 (String h1 (String h0 rest))))).
Proof.
  do 6 (destruct s as [|? s]; [done|]). cbn [getu4]. destruct (_ && _) eqn:E; [|done].
  apply andb_true_iff in E as [->%Ascii.eqb_eq ->%Ascii.eqb_eq]. intros _. by do 5 eexists.
Qed.

Lemma getu4_hex h3 h2 h1 h0 rest :
  is_hex h3 -> is_hex h2 -> is_hex h1 -> is_hex h0 ->
  is_Some (getu4 (String "\" (String "u" (String h3 (String h2 (String h1 (String h0 rest))))))).
Proof. intros [n3 H3] [n2 H2] [n1 H1] [n0 H0]. simpl. rewrite H3, H2, H1, H0. by eexists. Qed.

Lemma getu4_escaped s r : getu4 s = Some r -> escaped s -> escaped (string_drop 6 s).
Proof.
  intros (h3 & h2 & h1 & h0 & rest & ->)%getu4_shape Hesc. by inversion Hesc; subst.
Qed.

(** A step of [unquote] on such a text succeeds and leaves such a text. *)
Lemma unquote_step_escaped c s :
  escaped (String c s) -> ∃ out n, unquote_step (String c s) = Some (out, n) ∧ escaped (string_drop n s).
Proof.
  intros Hesc. inversion Hesc as [|? ? Hc Hs|e s' He Hs|h3 h2 h1 h0 s' H3 H2 H1 H0 Hs]; subst.
  - unfold plain_byte in Hc. apply negb_true_iff, orb_false_iff in Hc as [[Hq Hb]%orb_false_iff Hctl].
    unfold unquote_step. rewrite Hb, Hq, Hctl. cbn [orb]. unfold sanitize_step.
    destruct (first_rune (String c s)) as [r|] eqn:Hr; [|by exists (utf8_encode RuneError), 0].
    eexists _, _. split; [done|]. apply first_rune_spec in Hr as (c' & r' & rest & -> & Heq & Hr).
    change (String c' r' +:+ rest) with (String c' (r' +:+ rest)) in Heq. injection Heq as -> ->.
    cbn [String.length pred]. rewrite string_drop_app.
    destruct r' as [|b r']; [done|]. apply (escaped_plain_suffix (String b r')); [|done].
    specialize (Hr ""). rewrite string_app_nil in Hr. apply first_rune_plain_string in Hr; [|done].
    cbn [plain_string] in *. by apply andb_true_iff in Hr as [_ Hr].
  - assert (∃ out, unquote_step (String "\" (String e s')) = Some (out, 1)) as [out Hout].
    { unfold short_escape in He. rewrite !orb_true_iff, !Ascii.eqb_eq in He.
      repeat destruct He as [He|He]; subst; by eexists. }
    exists out, 1. split; [done|]. by destruct s'.
  - destruct (getu4_hex h3 h2 h1 h0 s' H3 H2 H1 H0) as [rr Hrr].
    set (s := String "\" _) in *. assert (∃ out n, unquote_step s = Some (out, n) ∧
      (n = 5 ∨ n = 11 ∧ is_Some (getu4 s'))) as (out & n & Hstep & Hn).
    { assert (unquote_step s = (rr ← getu4 s; if is_surrogate rr then
        match r2 ← getu4 (string_drop 6 s); utf16_decode rr r2 with
        | Some dec => Some (utf8_encode dec, 11) | None => Some (utf8_encode RuneError, 5) end
        else Some (utf8_encode rr, 5))) as -> by done.
      rewrite Hrr. cbn [mbind option_bind]. destruct (is_surrogate rr); [|by eexists _, _; auto].
      replace (string_drop 6 s) with s' by (by destruct s'). destruct (getu4 s') as [r2|] eqn:E2; cbn [mbind option_bind];
        [destruct (utf16_decode rr r2)|]; eexists _, _; (split; [reflexivity|]); eauto. }
    exists out, n. split; [exact Hstep|]. destruct Hn as [-> | [-> [r2 H2']]].
    + by destruct s'.
    + change (escaped (string_drop 6 s')). by eapply getu4_escaped.
Qed.

Lemma string_drop_length n s : String.length (string_drop n s) <= String.length s.
Proof. revert s. induction n as [|n IH]; intros [|c s]; simpl; [lia..|]. specialize (IH s). lia. Qed.

Lemma unquote_escaped s : escaped s -> is_Some (unquote s).
Proof.
  unfold unquote. remember (String.length s) as n eqn:Hn. revert s Hn. induction (lt_wf n) as [n _ IH].
  intros [|c s] -> Hesc; [by eexists|].
  destruct (unquote_step_escaped c s Hesc) as (out & k & Hstep & Hrest).
  destruct (IH (String.length (string_drop k s))) with (string_drop k s) as [t Ht]; [|done..|].
  { pose proof (string_drop_length k s). simpl. lia. }
  cbn [transduce]. rewrite Hstep. cbn [mbind option_bind]. rewrite transduce_taken, Ht. by eexists.
Qed.

Definition strings_ok : json → Prop := json_all escaped (λ _, True).

Definition frame_ok (f : frame) : Prop :=
  match f with
  | parseArrayValue items => Forall strings_ok items
  | parseObjectKey members => Forall (λ m, escaped m.1 ∧ strings_ok m.2) members
  | parseObjectValue members key => escaped key ∧ Forall (λ m, escaped m.1 ∧ strings_ok m.2) members
  end.

(** A literal that is being read is a text of the grammar so far, with the start
    of an escape after it. *)
Definition state_ok (st : scan_state) : Prop :=
  match st with
  | stateInString raw => escaped raw
  | stateInStringEsc raw => ∃ a, raw = a +:+ "\" ∧ escaped a
  | stateInStringEscU raw missing =>
      ∃ a, escaped a ∧
        ((missing = 4 ∧ raw = a +:+ "\u") ∨
         (∃ h3, missing = 3 ∧ is_hex h3 ∧ raw = a +:+ "\u" +:+ String h3 "") ∨
         (∃ h3 h2, missing = 2 ∧ is_hex h3 ∧ is_hex h2 ∧ raw = a +:+ "\u" +:+ String h3 (String h2 "")) ∨
         (∃ h3 h2 h1, missing = 1 ∧ is_hex h3 ∧ is_hex h2 ∧ is_hex h1 ∧
            raw = a +:+ "\u" +:+ String h3 (String h2 (String h1 ""))))
  | stateLit _ v | stateEndValue v => strings_ok v
  | _ => True
  end.

Definition scanner_ok (s : scanner) : Prop := state_ok s.1 ∧ Forall frame_ok s.2.

Lemma scanner_ok_intro st f stack : state_ok st -> frame_ok f -> Forall frame_ok stack -> scanner_ok (st, f :: stack).
Proof. intros Hst Hf Hstack. split; [done|]. by apply Forall_cons. Qed.

Lemma Forall_cons_intro {A} (P : A → Prop) x l : P x -> Forall P l -> Forall P (x :: l).
Proof. intros. by apply Forall_cons. Qed.

Lemma end_value_ok v stack c s :
  strings_ok v -> Forall frame_ok stack -> end_value v stack c = Some s -> scanner_ok s.
Proof.
  intros Hv Hstack. unfold end_value. destruct (isSpace c); [by intros [= <-]|].
  destruct stack as [|f stack]; [done|]. apply Forall_cons in Hstack as [Hf Hstack].
  destruct f as [items|members|members key]; simpl in Hf.
  - destruct (Ascii.eqb c ","); [|destruct (Ascii.eqb c "]"); [|done]]; intros [= <-].
    + apply scanner_ok_intro; [done| |done]. by apply Forall_cons_intro.
    + split; [|done]. by apply json_all_items, Forall_reverse, Forall_cons_intro.
  - destruct v; try done. destruct (Ascii.eqb c ":"); [|done]. intros [= <-]. by apply scanner_ok_intro.
  - destruct Hf as [Hk Hf]. destruct (Ascii.eqb c ","); [|destruct (Ascii.eqb c "}"); [|done]]; intros [= <-].
    + apply scanner_ok_intro; [done| |done]. by apply Forall_cons_intro.
    + split; [|done]. by apply json_all_members, Forall_reverse, Forall_cons_intro.
Qed.

Lemma push_ok st f stack s :
  state_ok st -> frame_ok f -> Forall frame_ok stack -> push st f stack = Some s -> scanner_ok s.
Proof.
  intros Hst Hf Hstack. unfold push. destruct (_ <=? _)%N; [|done]. intros [= <-]. by apply scanner_ok_intro.
Qed.

Lemma begin_value_ok stack c s : Forall frame_ok stack -> begin_value stack c = Some s -> scanner_ok s.
Proof.
  intros Hstack. unfold begin_value.
  assert (∀ st, state_ok st -> Some (st, stack) = Some s -> scanner_ok s) as Hkeep by by intros st Hst [= <-].
  repeat match goal with |- (if ?b then _ else _) = _ -> _ => destruct b end; try done.
  all: first [apply push_ok; [done|by apply Forall_nil|done]|apply Hkeep; first [done|apply escaped_nil]].
Qed.

Lemma begin_string_ok stack c s : Forall frame_ok stack -> begin_string stack c = Some s -> scanner_ok s.
Proof.
  intros Hstack. unfold begin_string. destruct (isSpace c); [by intros [= <-]|].
  destruct (Ascii.eqb c _); [|done]. intros [= <-]. split; [apply escaped_nil|done].
Qed.

Lemma escaped_snoc_plain a c : escaped a -> plain_byte c = true -> escaped (a +:+ String c "").
Proof. intros Ha Hc. apply escaped_app; [done|]. apply escaped_plain; [done|apply escaped_nil]. Qed.

Lemma scan_step_ok s c s' : scanner_ok s -> scan_step s c = Some s' -> scanner_ok s'.
Proof.
  destruct s as [st stack]. intros [Hst Hstack]. cbn [fst snd] in *. destruct st as [| | | |raw|raw|raw missing|n lit|missing v|v]; cbn [scan_step state_ok] in *.
  - by apply begin_value_ok.
  - destruct (isSpace c); [by intros [= <-]|]. destruct (Ascii.eqb c "]"); [|by apply begin_value_ok].
    destruct stack as [|[] stack]; intros; simplify_eq. by apply Forall_cons in Hstack as [_ Hstack].
  - by apply begin_string_ok.
  - destruct (isSpace c); [by intros [= <-]|]. destruct (Ascii.eqb c "}"); [|by apply begin_string_ok].
    destruct stack as [|[] stack]; intros; simplify_eq. by apply Forall_cons in Hstack as [_ Hstack].
  - destruct (Ascii.eqb c "034") eqn:Eq; [by intros [= <-]|]. destruct (Ascii.eqb c "\") eqn:Eb.
    { intros [= <-]. split; [by exists raw|done]. }
    destruct (between 0 31 c) eqn:Ec; [done|]. intros [= <-]. split; [|done]. apply escaped_snoc_plain; [done|].
    unfold plain_byte. by rewrite Eq, Eb, Ec.
  - destruct Hst as (a & -> & Ha). fold (short_escape c). destruct (short_escape c) eqn:Es.
    { intros [= <-]. split; [|done]. simpl. rewrite string_app_assoc. apply escaped_app; [done|].
      apply escaped_short; [done|apply escaped_nil]. }
    destruct (Ascii.eqb c "u"); [|done]. intros [= <-]. split; [|done]. exists a. split; [done|]. left.
    by rewrite string_app_assoc.
  - destruct (hex_value c) as [h|] eqn:Eh; [|done]. assert (is_hex c) as Hc by (by eexists).
    destruct Hst as (a & Ha & [[-> ->]|[(h3 & -> & H3 & ->)|[(h3 & h2 & -> & H3 & H2 & ->)|(h3 & h2 & h1 & -> & H3 & H2 & H1 & ->)]]]);
      intros [= <-]; (split; [|done]); simpl; rewrite !string_app_assoc.
    + exists a. split; [done|]. right; left. by exists c.
    + exists a. split; [done|]. right; right; left. by exists h3, c.
    + exists a. split; [done|]. right; right; right. by exists h3, h2, c.
    + apply escaped_app; [done|]. by apply (escaped_u h3 h2 h1 c ""); [..|apply escaped_nil].
  - destruct (num_step n c); [by intros [= <-]|]. destruct (num_complete n); [|done]. by apply end_value_ok.
  - destruct missing as [|d [|d' missing]]; [done|..]; destruct (Ascii.eqb c d); try done; by intros [= <-].
  - by apply end_value_ok.
Qed.

Lemma scan_ok s st st' : scanner_ok st -> scan s st = Some st' -> scanner_ok st'.
Proof.
  revert st. induction s as [|c s IH]; intros st Hst; [by intros [= <-]|]. cbn [scan].
  destruct (scan_step st c) as [st1|] eqn:E; [|done]. apply IH. by eapply scan_step_ok.
Qed.

(** The strings and keys of a document that was accepted can be unquoted. *)
Lemma parse_strings_ok s j : parse s = Some j -> strings_ok j.
Proof.
  unfold parse. destruct (scan _ _) as [[st stack]|] eqn:E; [|done]. cbn [mbind option_bind].
  apply scan_ok in E as [Hst _]; [|by split; [|apply Forall_nil]].
  destruct st; try done. destruct stack; [|done]. by intros [= <-].
Qed.
