(* ===== verification/Rfc3339.v ===== *)
(** The text of an instant: [Time.MarshalJSON] and [Time.UnmarshalJSON] of Go's
    [time], the proleptic Gregorian calendar and the layout RFC3339 they use. *)

From Stdlib Require Import Ascii.
From stdpp Require Import base list strings.
From Stdlib Require Import ZArith Lia.
From S2P Require Import Prelude GoTime Json.

Local Open Scope Z_scope.

(** ** The calendar

    Days are counted from 1 January of year 1. *)
Definition is_leap (y : Z) : bool := (y mod 4 =? 0) && (negb (y mod 100 =? 0) || (y mod 400 =? 0)).

Definition month_lengths (y : Z) : list Z :=
  [31; if is_leap y then 29 else 28; 31; 30; 31; 30; 31; 31; 30; 31; 30; 31].

Definition days_before_year (y : Z) : Z := let p := y - 1 in 365 * p + p / 4 - p / 100 + p / 400.

Definition sum_days (l : list Z) : Z := foldr Z.add 0 l.

(** The day of a date, and its inverse: the cycles of 400, 100, 4 and 1 years are
    cut off one after the other, then the months. *)
Definition day_of_date (y m d : Z) : Z :=
  days_before_year y + sum_days (take (Z.to_nat (m - 1)) (month_lengths y)) + d - 1.

Definition year_and_day (n : Z) : Z * Z :=
  let n400 := n / 146097 in
  let r400 := n mod 146097 in
  let n100 := Z.min 3 (r400 / 36524) in
  let r100 := r400 - 36524 * n100 in
  let n4 := r100 / 1461 in
  let r4 := r100 mod 1461 in
  let n1 := Z.min 3 (r4 / 365) in
  (400 * n400 + 100 * n100 + 4 * n4 + n1 + 1, r4 - 365 * n1).

Fixpoint month_and_day (lengths : list Z) (m yday : Z) : Z * Z :=
  match lengths with
  | [] => (m, yday + 1)
  | l :: lengths' => if yday <? l then (m, yday + 1) else month_and_day lengths' (m + 1) (yday - l)
  end.

Definition date_of_day (n : Z) : Z * Z * Z :=
  let '(y, yday) := year_and_day n in
  let '(m, d) := month_and_day (month_lengths y) 1 yday in
  (y, m, d).

Lemma days_before_year_cycles a b c e :
  0 <= b <= 3 -> 0 <= c <= 24 -> 0 <= e <= 3 ->
  days_before_year (400 * a + 100 * b + 4 * c + e + 1) = 146097 * a + 36524 * b + 1461 * c + 365 * e.
Proof.
  intros Hb Hc He. unfold days_before_year. cbv zeta.
  replace (400 * a + 100 * b + 4 * c + e + 1 - 1) with (400 * a + 100 * b + 4 * c + e) by lia.
  rewrite <-(Z.div_unique (400 * a + 100 * b + 4 * c + e) 4 (100 * a + 25 * b + c) e) by lia.
  rewrite <-(Z.div_unique (400 * a + 100 * b + 4 * c + e) 100 (4 * a + b) (4 * c + e)) by lia.
  rewrite <-(Z.div_unique (400 * a + 100 * b + 4 * c + e) 400 a (100 * b + 4 * c + e)) by lia.
  lia.
Qed.

Lemma is_leap_cycle a b c :
  0 <= b <= 3 -> 0 <= c <= 24 -> (c = 24 -> b = 3) -> is_leap (400 * a + 100 * b + 4 * c + 4) = true.
Proof.
  intros Hb Hc Hcb. unfold is_leap. apply andb_true_iff. split.
  - apply Z.eqb_eq. replace (_ + 4) with ((100 * a + 25 * b + c + 1) * 4) by lia. apply Z.mod_mul. lia.
  - apply orb_true_iff. destruct (Z.eq_dec c 24) as [->|Hne].
    + right. apply Z.eqb_eq. rewrite Hcb by done. replace (_ + 4) with ((a + 1) * 400) by lia. apply Z.mod_mul. lia.
    + left. apply negb_true_iff, Z.eqb_neq.
      rewrite <-(Z.mod_unique (400 * a + 100 * b + 4 * c + 4) 100 (4 * a + b) (4 * c + 4)) by lia. lia.
Qed.

Lemma year_and_day_spec n y yday :
  year_and_day n = (y, yday) ->
  days_before_year y + yday = n ∧ 0 <= yday < sum_days (month_lengths y).
Proof.
  unfold year_and_day. pose proof (Z.div_mod n 146097 ltac:(lia)) as Hn.
  pose proof (Z.mod_pos_bound n 146097 ltac:(lia)) as Hb.
  set (a := n / 146097) in *. set (r := n mod 146097) in *.
  pose proof (Z.div_mod r 36524 ltac:(lia)) as Hr. pose proof (Z.mod_pos_bound r 36524 ltac:(lia)) as Hrb.
  set (b := Z.min 3 (r / 36524)) in *.
  assert (0 <= b <= 3 ∧ 0 <= r - 36524 * b <= 36524 ∧ (r - 36524 * b = 36524 -> b = 3)) as (Hb3 & Hr1 & Hr1b) by lia.
  set (r1 := r - 36524 * b) in *.
  pose proof (Z.div_mod r1 1461 ltac:(lia)) as Hr1d. pose proof (Z.mod_pos_bound r1 1461 ltac:(lia)) as Hr4.
  set (c := r1 / 1461) in *. set (r4 := r1 mod 1461) in *.
  assert (0 <= c <= 24) as Hc by lia.
  pose proof (Z.div_mod r4 365 ltac:(lia)) as Hr4d. pose proof (Z.mod_pos_bound r4 365 ltac:(lia)) as Hr4b.
  set (e := Z.min 3 (r4 / 365)) in *.
  assert (0 <= e <= 3 ∧ 0 <= r4 - 365 * e <= 365 ∧ (r4 - 365 * e = 365 -> e = 3 ∧ r4 = 1460)) as (He & Hyd & Hlast) by lia.
  intros [= <- <-]. rewrite days_before_year_cycles by done. split; [lia|]. split; [lia|].
  set (y := _ + 1). destruct (Z.eq_dec (r4 - 365 * e) 365) as [H365|Hne].
  - destruct (Hlast H365) as [He3 Hr4e]. assert (is_leap y = true) as Hleap.
    { subst y. rewrite He3. replace (_ + 3 + 1) with (400 * a + 100 * b + 4 * c + 4) by lia.
      apply is_leap_cycle; [done..|]. intros ->. apply Hr1b. lia. }
    unfold month_lengths. rewrite Hleap. simpl. lia.
  - unfold month_lengths. destruct (is_leap y); simpl; lia.
Qed.

Lemma month_and_day_spec lengths m yday m' d :
  0 <= yday < sum_days lengths -> month_and_day lengths m yday = (m', d) ->
  m <= m' < m + Z.of_nat (length lengths) ∧
  sum_days (take (Z.to_nat (m' - m)) lengths) + d - 1 = yday ∧
  1 <= d <= default 0 (lengths !! Z.to_nat (m' - m)).
Proof.
  revert m yday. induction lengths as [|l lengths IH]; intros m yday Hy; cbn [month_and_day sum_days foldr length] in *; [lia|].
  destruct (Z.ltb_spec yday l) as [Hlt|Hge].
  - intros [= <- <-]. rewrite Z.sub_diag. simpl. lia.
  - intros Hmd. destruct (IH (m + 1) (yday - l) ltac:(unfold sum_days; lia) Hmd) as (Hm & Hsum & Hd).
    replace (Z.to_nat (m' - m)) with (S (Z.to_nat (m' - (m + 1)))) by lia.
    change ((l :: lengths) !! S ?k) with (lengths !! k).
    cbn [take sum_days foldr] in *. fold (sum_days (take (Z.to_nat (m' - (m + 1))) lengths)). lia.
Qed.

(** A day has a date of the calendar, which is the date of no other day. *)
Lemma date_of_day_spec n y m d :
  date_of_day n = (y, m, d) ->
  day_of_date y m d = n ∧ 1 <= m <= 12 ∧ 1 <= d <= default 0 (month_lengths y !! Z.to_nat (m - 1)).
Proof.
  unfold date_of_day. destruct (year_and_day n) as [y0 yday] eqn:Ey.
  destruct (year_and_day_spec _ _ _ Ey) as [Hn Hyd].
  destruct (month_and_day (month_lengths y0) 1 yday) as [m0 d0] eqn:Em. intros [= <- <- <-].
  destruct (month_and_day_spec _ _ _ _ _ Hyd Em) as (Hm & Hsum & Hd). unfold day_of_date.
  change (Z.of_nat (length (month_lengths y0))) with 12 in Hm. lia.
Qed.

(** ** Writing

    [appendInt] with a width, for numbers that fill at most the width. *)
Definition digit_char (n : Z) : ascii := ascii_of_N (Z.to_N (48 + n)).

Fixpoint appendInt (width : nat) (n : Z) : string :=
  match width with
  | O => ""
  | S w => appendInt w (n / 10) +:+ String (digit_char (n mod 10)) ""
  end.

(** The digits of [n] after the point, of [k] places, without the zeros at the
    end. *)
Fixpoint fraction (k : nat) (n : Z) : string :=
  match k with
  | O => ""
  | S k' => if n =? 0 then "" else String (digit_char (n / 10 ^ Z.of_nat k')) (fraction k' (n mod 10 ^ Z.of_nat k'))
  end.

Definition appendNano (nanos : Z) : string := if nanos =? 0 then "" else "." +:+ fraction 9 nanos.

Definition appendZone (offset : Z) : string :=
  if offset =? 0 then "Z"
  else
    let zone := Z.quot offset 60 in
    (if zone <? 0 then "-" else "+") +:+ appendInt 2 (Z.abs zone / 60) +:+ ":" +:+ appendInt 2 (Z.abs zone mod 60).

(** [appendStrictRFC3339] for the instant [t] in a location. *)
Definition appendStrictRFC3339 (loc : Location) (t : Time) : string + string :=
  let offset := zs_offset (lookup_zone loc (Unix t)) in
  let local := t / Second + offset in
  let '(y, m, d) := date_of_day (local / secondsPerDay) in
  let s := local mod secondsPerDay in
  if negb ((0 <=? y) && (y <=? 9999)) then inl "year outside of range [0,9999]"
  else if 24 <=? Z.abs (Z.quot offset 60) / 60 then inl "timezone hour outside of range [0,23]"
  else inr (appendInt 4 y +:+ "-" +:+ appendInt 2 m +:+ "-" +:+ appendInt 2 d +:+ "T"
    +:+ appendInt 2 (s / 3600) +:+ ":" +:+ appendInt 2 (s / 60 mod 60) +:+ ":" +:+ appendInt 2 (s mod 60)
    +:+ appendNano (t mod Second) +:+ appendZone offset).

(** ** Reading

    [parseStrictRFC3339]: the fast path reads a part of what [Parse] reads with
    the layout RFC3339, as the same instant, so [Parse] is all of it. *)
Definition digit (c : ascii) : option Z :=
  if is_digit c then Some (Z.of_N (N_of_ascii c) - 48) else None.

(** [getnum] *)
Definition getnum (fixed : bool) (s : string) : option (Z * string) :=
  match s with
  | "" => None
  | String a s1 =>
      n1 ← digit a;
      match s1 with
      | "" => if fixed then None else Some (n1, s1)
      | String b s2 =>
          match digit b with
          | Some n0 => Some (n1 * 10 + n0, s2)
          | None => if fixed then None else Some (n1, s1)
          end
      end
  end%string.

Definition expect (c : ascii) (s : string) : option string :=
  match s with
  | String d s' => if Ascii.eqb d c then Some s' else None
  | "" => None
  end%string.

Definition in_range (lo hi : Z) (p : option (Z * string)) : option (Z * string) :=
  '(n, s) ← p; if (lo <=? n) && (n <=? hi) then Some (n, s) else None.

Definition long_year (s : string) : option (Z * string) :=
  '(hi, s) ← getnum true s; '(lo, s) ← getnum true s; Some (hi * 100 + lo, s).

(** The digits of a fraction; the first is worth [scale], and nothing counts
    after nine of them. *)
Fixpoint read_fraction (scale : Z) (s : string) : Z * string :=
  match s with
  | "" => (0, s)
  | String c s' =>
      match digit c with
      | Some n => let '(rest, s'') := read_fraction (scale / 10) s' in (n * scale + rest, s'')
      | None => (0, s)
      end
  end%string.

Definition fractional_seconds (s : string) : Z * string :=
  match s with
  | String p (String c _ as s') =>
      if (Ascii.eqb p "." || Ascii.eqb p ",") && is_digit c then read_fraction 100000000 s' else (0, s)
  | _ => (0, s)
  end.

(** [Z] or an offset, which must be all that is left. *)
Definition zone_offset (s : string) : option Z :=
  match s with
  | "" => None
  | String sign s1 =>
      if Ascii.eqb sign "Z" then match s1 with "" => Some 0 | _ => None end
      else
        '(hr, s2) ← in_range 0 24 (getnum true s1);
        s3 ← expect ":" s2;
        '(mm, s4) ← in_range 0 60 (getnum true s3);
        match s4 with
        | "" => if Ascii.eqb sign "+" then Some ((hr * 60 + mm) * 60)
                else if Ascii.eqb sign "-" then Some (- ((hr * 60 + mm) * 60)) else None
        | _ => None
        end
  end%string.

Definition parseRFC3339 (s : string) : option Time :=
  '(y, s) ← long_year s; s ← expect "-" s;
  '(m, s) ← in_range 1 12 (getnum true s); s ← expect "-" s;
  '(d, s) ← getnum true s; s ← expect "T" s;
  '(hour, s) ← in_range 0 23 (getnum false s); s ← expect ":" s;
  '(minute, s) ← in_range 0 59 (getnum true s); s ← expect ":" s;
  '(sec, s) ← in_range 0 59 (getnum true s);
  let '(nanos, s) := fractional_seconds s in
  offset ← zone_offset s;
  if (1 <=? d) && (d <=? default 0 (month_lengths y !! Z.to_nat (m - 1))) then
    Some ((day_of_date y m d * secondsPerDay + hour * 3600 + minute * 60 + sec - offset) * Second + nanos)
  else None.

(** [Time.MarshalJSON], the text between the quotes, and [Time.UnmarshalJSON] on
    such a text. *)
Definition time_MarshalJSON (loc : Location) (t : Time) : string + string :=
  match appendStrictRFC3339 loc t with
  | inl msg => inl ("Time.MarshalJSON: " +:+ msg)
  | inr text => inr text
  end.

(** ** What is written reads back *)
Lemma digit_digit_char n : 0 <= n <= 9 -> digit (digit_char n) = Some n ∧ is_digit (digit_char n) = true.
Proof.
  intros Hn. assert (n = 0 ∨ n = 1 ∨ n = 2 ∨ n = 3 ∨ n = 4 ∨ n = 5 ∨ n = 6 ∨ n = 7 ∨ n = 8 ∨ n = 9) as H by lia.
  by repeat destruct H as [->|H]; [..|rewrite H].
Qed.

Lemma appendInt_2 n : 0 <= n < 100 -> appendInt 2 n = String (digit_char (n / 10)) (String (digit_char (n mod 10)) "").
Proof.
  intros Hn. cbn [appendInt]. rewrite (Z.mod_small (n / 10)); [done|].
  pose proof (Z.div_mod n 10 ltac:(lia)). pose proof (Z.mod_pos_bound n 10 ltac:(lia)). lia.
Qed.

Lemma getnum_appendInt fixed n rest : 0 <= n < 100 -> getnum fixed (appendInt 2 n +:+ rest) = Some (n, rest).
Proof.
  intros Hn. rewrite appendInt_2 by done. pose proof (Z.div_mod n 10 ltac:(lia)). pose proof (Z.mod_pos_bound n 10 ltac:(lia)).
  destruct (digit_digit_char (n / 10) ltac:(lia)) as [Hhi _]. destruct (digit_digit_char (n mod 10) ltac:(lia)) as [Hlo _].
  change (String ?a (String ?b "") +:+ ?r) with (String a (String b r)). cbn [getnum]. rewrite Hhi. cbn [mbind option_bind]. rewrite Hlo. do 2 f_equal. lia.
Qed.

Lemma long_year_appendInt n rest : 0 <= n <= 9999 -> long_year (appendInt 4 n +:+ rest) = Some (n, rest).
Proof.
  intros Hn. pose proof (Z.div_mod n 100 ltac:(lia)). pose proof (Z.mod_pos_bound n 100 ltac:(lia)).
  replace (appendInt 4 n) with (appendInt 2 (n / 100) +:+ appendInt 2 (n mod 100)).
  - unfold long_year. rewrite string_app_assoc, getnum_appendInt by lia. cbn [mbind option_bind].
    rewrite getnum_appendInt by lia. cbn [mbind option_bind]. do 2 f_equal. lia.
  - rewrite (appendInt_2 (n mod 100)) by lia. cbn [appendInt]. rewrite !Z.div_div by lia.
    replace (n mod 100 / 10) with (n / 10 mod 10); [replace (n mod 100 mod 10) with (n mod 10); [done|]|].
    + Z.to_euclidean_division_equations. lia.
    + Z.to_euclidean_division_equations. lia.
Qed.

Lemma read_fraction_stop scale rest :
  match rest with String c _ => digit c = None | "" => True end%string -> read_fraction scale rest = (0, rest).
Proof. destruct rest as [|c rest]; [done|]. cbn [read_fraction]. by intros ->. Qed.

Lemma read_fraction_fraction k n rest :
  0 <= n < 10 ^ Z.of_nat k -> match rest with String c _ => digit c = None | "" => True end%string ->
  read_fraction (10 ^ Z.of_nat k / 10) (fraction k n +:+ rest) = (n, rest).
Proof.
  intros Hn Hrest. revert n Hn. induction k as [|k IH]; intros n Hn; cbn [fraction].
  { rewrite read_fraction_stop by done. f_equal. simpl in Hn. lia. }
  destruct (Z.eqb_spec n 0) as [->|Hne]; [by apply read_fraction_stop|].
  rewrite Nat2Z.inj_succ, Z.pow_succ_r in Hn |- * by lia.
  pose proof (Z.pow_pos_nonneg 10 (Z.of_nat k) ltac:(lia) ltac:(lia)) as Hpos.
  set (p := 10 ^ Z.of_nat k) in *. replace (10 * p / 10) with p by (rewrite Z.mul_comm, Z.div_mul; lia).
  pose proof (Z.div_mod n p ltac:(lia)). pose proof (Z.mod_pos_bound n p Hpos).
  destruct (digit_digit_char (n / p)) as [Hd _]; [nia|].
  change (String ?c ?a +:+ rest) with (String c (a +:+ rest)). cbn [read_fraction]. rewrite Hd, IH by done.
  f_equal. lia.
Qed.

Definition zone_start (c : ascii) : Prop := c = "Z"%char ∨ c = "+"%char ∨ c = "-"%char.

Lemma appendZone_start offset : ∃ c s, appendZone offset = String c s ∧ zone_start c.
Proof.
  unfold appendZone, zone_start. destruct (offset =? 0); [by eexists _, _; eauto|].
  destruct (_ <? 0); eexists _, _; (split; [reflexivity|]); auto.
Qed.

Lemma fractional_seconds_append nanos offset :
  0 <= nanos < Second -> fractional_seconds (appendNano nanos +:+ appendZone offset) = (nanos, appendZone offset).
Proof.
  intros Hn. destruct (appendZone_start offset) as (c & s & -> & Hc). unfold appendNano.
  destruct (Z.eqb_spec nanos 0) as [->|Hne].
  { change ("" +:+ String c s) with (String c s). by destruct s, Hc as [-> | [-> | ->]]. }
  rewrite string_app_assoc. change ("." +:+ ?a) with (String "." a).
  assert (read_fraction 100000000 (fraction 9 nanos +:+ String c s) = (nanos, String c s)) as Hread.
  { apply (read_fraction_fraction 9); [done|]. by destruct Hc as [-> | [-> | ->]]. }
  assert (∃ d f, fraction 9 nanos = String d f ∧ is_digit d = true) as (d & f & Hf & Hd).
  { cbn [fraction]. rewrite (proj2 (Z.eqb_neq _ _) Hne). eexists _, _. split; [done|].
    apply digit_digit_char. unfold Second, Nanosecond in Hn.
    change (10 ^ Z.of_nat 8) with 100000000. Z.to_euclidean_division_equations. lia. }
  rewrite Hf in *. change (String d f +:+ String c s) with (String d (f +:+ String c s)) in *.
  unfold fractional_seconds. by rewrite Hd.
Qed.

Lemma expect_app c rest : expect c (String c "" +:+ rest) = Some rest.
Proof. change (String c "" +:+ rest) with (String c rest). cbn [expect]. by rewrite Ascii.eqb_refl. Qed.

Lemma in_range_getnum lo hi fixed n rest :
  0 <= n < 100 -> lo <= n <= hi -> in_range lo hi (getnum fixed (appendInt 2 n +:+ rest)) = Some (n, rest).
Proof.
  intros Hn Hr. unfold in_range. rewrite getnum_appendInt by done. cbn [mbind option_bind].
  by rewrite (proj2 (Z.leb_le _ _)), (proj2 (Z.leb_le _ _)) by lia.
Qed.

(** Go's offsets are in seconds; the text has minutes. *)
Definition minute_offset (offset : Z) : Prop := offset mod 60 = 0.

Lemma zone_offset_signed (sign : ascii) z :
  sign = "+"%char ∨ sign = "-"%char -> 0 <= z < 1440 ->
  zone_offset (String sign (appendInt 2 (z / 60) +:+ String ":" (appendInt 2 (z mod 60))))
  = Some (if Ascii.eqb sign "+" then z * 60 else - (z * 60)).
Proof.
  intros Hs Hz. assert (0 <= z / 60 < 24 ∧ 0 <= z mod 60 < 60 ∧ z = z / 60 * 60 + z mod 60) as (Hh & Hm & He)
    by (Z.to_euclidean_division_equations; lia).
  unfold zone_offset. replace (Ascii.eqb sign "Z") with false by (by destruct Hs as [-> | ->]).
  rewrite in_range_getnum by lia. cbn [mbind option_bind expect]. rewrite Ascii.eqb_refl. cbn [mbind option_bind].
  rewrite <-(string_app_nil (appendInt 2 (z mod 60))), in_range_getnum by lia. cbn [mbind option_bind].
  rewrite <-He. by destruct Hs as [-> | ->].
Qed.

Lemma zone_offset_append offset :
  minute_offset offset -> Z.abs (Z.quot offset 60) / 60 < 24 -> zone_offset (appendZone offset) = Some offset.
Proof.
  intros Hm Hlt. unfold appendZone. destruct (Z.eqb_spec offset 0) as [->|Hne]; [done|].
  set (z := Z.abs (Z.quot offset 60)) in *.
  assert (0 <= z < 1440 ∧ offset = (if Z.quot offset 60 <? 0 then - (z * 60) else z * 60)) as [Hz Hoff].
  { subst z. unfold minute_offset in Hm. destruct (Z.ltb_spec (Z.quot offset 60) 0); Z.to_euclidean_division_equations; lia. }
  destruct (_ <? 0).
  - etransitivity; [apply (zone_offset_signed "-" z); auto|]. by rewrite Hoff at 1.
  - etransitivity; [apply (zone_offset_signed "+" z); auto|]. by rewrite Hoff at 1.
Qed.

Lemma month_lengths_bound y m : default 0 (month_lengths y !! m) <= 31.
Proof. unfold month_lengths. destruct (is_leap y); do 12 (destruct m as [|m]; [simpl; lia|]); simpl; lia. Qed.

(** An instant reads back as it was written, in every location whose offset at
    that instant is a whole number of minutes. *)
Lemma parse_append loc t text :
  minute_offset (zs_offset (lookup_zone loc (Unix t))) ->
  appendStrictRFC3339 loc t = inr text -> parseRFC3339 text = Some t.
Proof.
  intros Hmin. unfold appendStrictRFC3339. set (offset := zs_offset _) in *. set (local := t / Second + offset).
  destruct (date_of_day (local / secondsPerDay)) as [[y m] d] eqn:Ed.
  destruct (date_of_day_spec _ _ _ _ Ed) as (Hday & Hm & Hd). pose proof (month_lengths_bound y (Z.to_nat (m - 1))).
  destruct (negb _) eqn:Ey; [done|]. apply negb_false_iff, andb_true_iff in Ey as [Hy0%Z.leb_le Hy1%Z.leb_le].
  destruct (Z.leb_spec 24 (Z.abs (Z.quot offset 60) / 60)); [done|]. intros Htext%(inj inr). subst text.
  set (s := local mod secondsPerDay).
  assert (0 <= s < 86400 ∧ local = local / secondsPerDay * 86400 + s) as [Hs Hlocal]
    by (subst s; unfold secondsPerDay; Z.to_euclidean_division_equations; lia).
  assert (0 <= s / 3600 < 24 ∧ 0 <= s / 60 mod 60 < 60 ∧ 0 <= s mod 60 < 60 ∧ s = s / 3600 * 3600 + s / 60 mod 60 * 60 + s mod 60)
    as (Hh & Hmi & Hse & Hs') by (Z.to_euclidean_division_equations; lia).
  assert (0 <= t mod Second < Second ∧ t = t / Second * Second + t mod Second) as [Hns Ht]
    by (unfold Second, Nanosecond; Z.to_euclidean_division_equations; lia).
  unfold parseRFC3339. rewrite long_year_appendInt by done. cbn [mbind option_bind].
  rewrite expect_app. cbn [mbind option_bind]. rewrite in_range_getnum by lia. cbn [mbind option_bind].
  rewrite expect_app. cbn [mbind option_bind]. rewrite getnum_appendInt by lia. cbn [mbind option_bind].
  rewrite expect_app. cbn [mbind option_bind]. rewrite in_range_getnum by lia. cbn [mbind option_bind].
  rewrite expect_app. cbn [mbind option_bind]. rewrite in_range_getnum by lia. cbn [mbind option_bind].
  rewrite expect_app. cbn [mbind option_bind]. rewrite in_range_getnum by lia. cbn [mbind option_bind].
  rewrite fractional_seconds_append, zone_offset_append by done. cbn [mbind option_bind].
  rewrite (proj2 (Z.leb_le 1 d)), (proj2 (Z.leb_le d _)) by lia. cbn [andb]. f_equal.
  rewrite Hday. unfold secondsPerDay in *. lia.
Qed.

(** *** The text is plain *)
Lemma plain_string_app a b : plain_string (a +:+ b) = plain_string a && plain_string b.
Proof. induction a as [|c a IH]; [done|]. change (String c a +:+ b) with (String c (a +:+ b)). cbn [plain_string]. by rewrite IH, andb_assoc. Qed.

Lemma plain_digit_char n : 0 <= n <= 9 -> plain_byte (digit_char n) = true.
Proof.
  intros Hn. assert (n = 0 ∨ n = 1 ∨ n = 2 ∨ n = 3 ∨ n = 4 ∨ n = 5 ∨ n = 6 ∨ n = 7 ∨ n = 8 ∨ n = 9) as H by lia.
  by repeat destruct H as [-> | H]; [..|rewrite H].
Qed.

Lemma plain_appendInt w n : plain_string (appendInt w n) = true.
Proof.
  revert n. induction w as [|w IH]; intros n; [done|]. cbn [appendInt]. rewrite plain_string_app, IH.
  cbn [plain_string]. by rewrite plain_digit_char by (Z.to_euclidean_division_equations; lia).
Qed.

Lemma plain_fraction k n : 0 <= n < 10 ^ Z.of_nat k -> plain_string (fraction k n) = true.
Proof.
  revert n. induction k as [|k IH]; intros n Hn; [done|]. cbn [fraction]. destruct (n =? 0); [done|].
  rewrite Nat2Z.inj_succ, Z.pow_succ_r in Hn by lia. cbn [plain_string].
  pose proof (Z.pow_pos_nonneg 10 (Z.of_nat k) ltac:(lia) ltac:(lia)) as Hpos. set (p := 10 ^ Z.of_nat k) in *.
  pose proof (Z.div_mod n p ltac:(lia)). pose proof (Z.mod_pos_bound n p Hpos).
  by rewrite plain_digit_char, IH by nia.
Qed.

Lemma plain_appendNano nanos : 0 <= nanos < Second -> plain_string (appendNano nanos) = true.
Proof.
  intros Hn. unfold appendNano. destruct (nanos =? 0); [done|]. rewrite plain_string_app. by rewrite plain_fraction.
Qed.

Lemma plain_appendZone offset : plain_string (appendZone offset) = true.
Proof.
  unfold appendZone. destruct (offset =? 0); [done|]. destruct (_ <? 0);
    by rewrite !plain_string_app, !plain_appendInt.
Qed.

Lemma plain_append loc t text : appendStrictRFC3339 loc t = inr text -> plain_string text = true.
Proof.
  unfold appendStrictRFC3339. destruct (date_of_day _) as [[y m] d]. destruct (negb _); [done|].
  destruct (24 <=? _); [done|]. intros Htext%(inj inr). subst text.
  rewrite !plain_string_app, !plain_appendInt, plain_appendNano, plain_appendZone; [done|].
  apply Z.mod_pos_bound. done.
Qed.
