(* ===== verification/JsonCodec.v ===== *)
(** [json.Marshal] and [json.Unmarshal] for the types the program stores: how a
    value becomes a document, and how a document is stored into a value that is
    already there, field by field. *)

From Stdlib Require Import Ascii.
From stdpp Require Import base list strings pretty.
From Stdlib Require Import ZArith Lia.
From S2P Require Import Prelude GoTime Common Json Rfc3339.

Local Open Scope string_scope.

(** The errors of the package. The value of an [UnmarshalTypeError] is the
    description of what was found. *)
Inductive JsonError : Type :=
  | SyntaxError
  | UnmarshalTypeError (value : string)
  | UnmarshalerError (err : GoError)
  | MarshalerError (msg : string).

#[export] Instance JsonError_eq_dec : EqDecision JsonError.
Proof. solve_decision. Defined.

(** ** Storing

    A decoder stores into a value and keeps the first error it went on after
    ([decodeState.saveError]); an error of an [Unmarshaler] stops it. *)
Abbreviation decoder A := (M (A * option JsonError) JsonError unit).

Definition saveError {A} (e : JsonError) : decoder A := modify (λ s, (s.1, Some (default e s.2))).

Definition store {A} (a : A) : decoder A := modify (λ s, (a, s.2)).

Definition on_part {T A} (get : T → A) (put : A → T → T) (d : decoder A) : decoder T :=
  zoom (λ s : T * option JsonError, (get s.1, s.2)) (λ p s, (put p.1 s.1, p.2)) d.

Record codec (A : Type) : Type := mkCodec {
  marshal : A → JsonError + json;
  unmarshal : json → decoder A }.
Arguments mkCodec {A} _ _.
Arguments marshal {A} _ _.
Arguments unmarshal {A} _ _.

(** The name of a kind of value in an [UnmarshalTypeError]. *)
Definition kind_name (j : json) : string :=
  match j with
  | JNull => "null"
  | JBool _ => "bool"
  | JNum _ => "number"
  | JStr _ => "string"
  | JArr _ => "array"
  | JObj _ => "object"
  end.

Definition mismatch {A} (j : json) : decoder A := saveError (UnmarshalTypeError (kind_name j)).

(** [unquoteBytes], whose failure is a panic: the scanner has accepted the text. *)
Definition unquoted {S} (raw : string) : M S JsonError string :=
  match unquote raw with
  | Some s => ret s
  | None => panic
  end.

Definition string_codec : codec string := mkCodec
  (λ s, inr (JStr (escape s)))
  (λ j, match j with
        | JNull => ret tt
        | JStr raw => let! s := unquoted raw in store s
        | _ => mismatch j
        end).

(** [strconv.ParseInt(lit, 10, 64)] on the text of a number. *)
Fixpoint digits_value (acc : Z) (s : string) : option Z :=
  match s with
  | "" => Some acc
  | String c s' => n ← digit c; digits_value (acc * 10 + n) s'
  end.

Definition ParseInt (lit : string) : option Z :=
  n ← match lit with
      | "" => None
      | String c s => if Ascii.eqb c "-" then Z.opp <$> match s with "" => None | _ => digits_value 0 s end
                      else digits_value 0 lit
      end;
  if (int64_min <=? n)%Z && (n <=? int64_max)%Z then Some n else None.

Definition int_codec : codec Z := mkCodec
  (λ n, inr (JNum (pretty n)))
  (λ j, match j with
        | JNull => ret tt
        | JNum lit =>
            match ParseInt lit with
            | Some n => store n
            | None => saveError (UnmarshalTypeError ("number " +:+ lit))
            end
        | _ => mismatch j
        end).

(** [uuid.UUID]: [MarshalText] and [UnmarshalText] of github.com/google/uuid. *)
Class UuidText : Type := {
  uuid_MarshalText : UUID → string;
  uuid_UnmarshalText : string → GoError + UUID }.

Class UuidTextLaws `{UuidText} : Prop := {
  uuid_UnmarshalText_MarshalText : ∀ u, uuid_valid u -> uuid_UnmarshalText (uuid_MarshalText u) = inr u;
  uuid_MarshalText_utf8 : ∀ u, utf8_valid (uuid_MarshalText u) = true }.

(** What a type with [UnmarshalText] stores. *)
Definition uuid_codec `{UuidText} : codec UUID := mkCodec
  (λ u, inr (JStr (escape (uuid_MarshalText u))))
  (λ j, match j with
        | JNull => ret tt
        | JStr raw =>
            let! s := unquoted raw in
            match uuid_UnmarshalText s with
            | inl err => throw (UnmarshalerError err)
            | inr u => store u
            end
        | _ => mismatch j
        end).

(** [time.Time], of the location the value carries; it reads the text between the
    quotes as it is, and a failure leaves the zero time. *)
Definition time_codec (loc : Location) : codec Time := mkCodec
  (λ t, match time_MarshalJSON loc t with
        | inl msg => inl (MarshalerError msg)
        | inr text => inr (JStr text)
        end)
  (λ j, match j with
        | JNull => ret tt
        | JStr raw =>
            match parseRFC3339 raw with
            | Some t => store t
            | None => do! store 0%Z in throw (UnmarshalerError (EForeign "parsing time"))
            end
        | _ => throw (UnmarshalerError (EForeign "Time.UnmarshalJSON: input is not a JSON string"))
        end).

(** ** Structs

    A field has its name and writes or is left out; a field of an embedded nil
    pointer is. *)
Record field (T : Type) : Type := mkField {
  field_name : string;
  field_marshal : T → option (JsonError + json);
  field_unmarshal : json → decoder T }.
Arguments mkField {T} _ _ _.
Arguments field_name {T} _.
Arguments field_marshal {T} _ _.
Arguments field_unmarshal {T} _ _.

Definition plain_field {T A} (name : string) (get : T → A) (put : A → T → T) (c : codec A) : field T :=
  mkField name (λ t, Some (marshal c (get t))) (λ j, on_part get put (unmarshal c j)).

(** [foldName], as far as it can make a name of ASCII letters: the case of a
    letter, the long s and the Kelvin sign. *)
Definition upper (c : ascii) : ascii :=
  if between 97 122 c then ascii_of_N (N_of_ascii c - 32) else c.

Definition fold_step (s : string) : option (string * nat) :=
  Some match first_rune s with
       | None => (utf8_encode RuneError, O)
       | Some r =>
           (match r with
            | String c "" => String (upper c) ""
            | _ => if String.eqb r (utf8_encode 383) then "S"
                   else if String.eqb r (utf8_encode 8490) then "K" else r
            end, pred (String.length r))
       end.

Definition foldName (s : string) : string := default "" (transduce fold_step 0 s).

(** The field of a key: of that name, or else of that name but for the case. *)
Definition find_field {X} (name : X → string) (fields : list X) (key : string) : option X :=
  match List.find (λ f, String.eqb (name f) key) fields with
  | Some f => Some f
  | None => List.find (λ f, String.eqb (foldName (name f)) (foldName key)) fields
  end.

(** The members of an object, or the first error. *)
Fixpoint marshal_members (l : list (string * option (JsonError + json))) : JsonError + list (string * json) :=
  match l with
  | [] => inr []
  | (_, None) :: l' => marshal_members l'
  | (_, Some (inl e)) :: _ => inl e
  | (name, Some (inr j)) :: l' =>
      match marshal_members l' with
      | inl e => inl e
      | inr members => inr ((escape name, j) :: members)
      end
  end.

Definition object_of (members : JsonError + list (string * json)) : JsonError + json :=
  match members with inl e => inl e | inr members => inr (JObj members) end.

(** A member goes to its field, and is skipped when there is none. *)
Definition unmarshal_member {T X} (name : X → string) (fields : list X) (put : X → json → decoder T)
    (m : string * json) : decoder T :=
  let! key := unquoted m.1 in
  match find_field name fields key with
  | Some f => put f m.2
  | None => ret tt
  end.

Definition unmarshal_struct {T} (fields : list (field T)) (j : json) : decoder T :=
  match j with
  | JNull => ret tt
  | JObj members => for_range (unmarshal_member field_name fields field_unmarshal) members
  | _ => mismatch j
  end.

Definition struct_codec {T} (fields : list (field T)) : codec T := mkCodec
  (λ t, object_of (marshal_members ((λ f, (field_name f, field_marshal f t)) <$> fields)))
  (unmarshal_struct fields).

(** ** [json.Marshal] and [json.Unmarshal] *)
Definition Marshal {A} (c : codec A) (a : A) : JsonError + string :=
  match marshal c a with inl e => inl e | inr j => inr (print j) end.

Definition Unmarshal {A} (c : codec A) (data : string) : M A JsonError unit := λ a,
  match parse data with
  | None => (Err SyntaxError, a)
  | Some j =>
      match unmarshal c j (a, None) with
      | (Ok _, (a', None)) => (Ok tt, a')
      | (Ok _, (a', Some e)) => (Err e, a')
      | (Err e, (a', _)) => (Err e, a')
      | (Panic, (a', _)) => (Panic, a')
      | (Blocked, (a', _)) => (Blocked, a')
      end
  end.

(** ** What is written is stored back *)

(** A codec carries the values that are [ok]: they are written, as a document of
    at most [n] levels, and stored back over any value. *)
Definition carries {A} (c : codec A) (ok : A → Prop) (n : nat) : Prop :=
  ∀ a, ok a -> ∃ j, marshal c a = inr j ∧ json_ok j ∧ depth j <= n ∧
    ∀ a0 e, unmarshal c j (a0, e) = (Ok tt, (a, e)).

Lemma Marshal_Unmarshal {A} (c : codec A) ok n a :
  carries c ok n -> (N.of_nat n <= maxNestingDepth)%N -> ok a ->
  ∃ data, Marshal c a = inr data ∧ ∀ a0, Unmarshal c data a0 = (Ok tt, a).
Proof.
  intros Hc Hn Ha. destruct (Hc a Ha) as (j & Hj & Hok & Hd & Hu). exists (print j).
  unfold Marshal, Unmarshal. rewrite Hj, parse_print by (done || lia). split; [done|]. intros a0. by rewrite Hu.
Qed.

Lemma unquoted_escape {S} s (st : S) : utf8_valid s = true -> unquoted (escape s) st = (Ok s, st).
Proof. intros Hs. unfold unquoted. by rewrite unquote_escape_valid. Qed.

Lemma string_codec_carries : carries string_codec (λ s, utf8_valid s = true) 0.
Proof.
  intros s Hs. eexists. split; [done|]. split; [apply raw_ok_escape|]. split; [done|]. intros s0 e.
  simpl. unfold bind. by rewrite unquoted_escape.
Qed.

Lemma uuid_codec_carries `{UuidTextLaws} : carries uuid_codec uuid_valid 0.
Proof.
  intros u Hu. eexists. split; [done|]. split; [apply raw_ok_escape|]. split; [done|]. intros u0 e.
  simpl. unfold bind. rewrite unquoted_escape by apply uuid_MarshalText_utf8.
  by rewrite uuid_UnmarshalText_MarshalText.
Qed.

(** *** Integers *)
Lemma digits_value_app a c acc n v :
  digits_value acc a = Some v -> digit c = Some n -> digits_value acc (a +:+ String c "") = Some (v * 10 + n)%Z.
Proof.
  revert acc. induction a as [|d a IH]; intros acc Ha Hc.
  - injection Ha as ->. change ("" +:+ String c "") with (String c ""). cbn [digits_value]. by rewrite Hc.
  - change (String d a +:+ String c "") with (String d (a +:+ String c "")). cbn [digits_value] in *.
    destruct (digit d) as [m|]; [|done]. by apply IH.
Qed.

Lemma pretty_N_char_digit n :
  (n < 10)%N -> digit (pretty_N_char n) = Some (Z.of_N n) ∧ num_step state1 (pretty_N_char n) = Some state1.
Proof.
  intros Hn. assert (n = 0 ∨ n = 1 ∨ n = 2 ∨ n = 3 ∨ n = 4 ∨ n = 5 ∨ n = 6 ∨ n = 7 ∨ n = 8 ∨ n = 9)%N as H by lia.
  by repeat destruct H as [-> | H]; [..|rewrite H].
Qed.

Lemma num_run_app st s s' : num_run st (s +:+ s') = (st' ← num_run st s; num_run st' s').
Proof.
  revert st. induction s as [|c s IH]; intros st; [done|].
  change (String c s +:+ s') with (String c (s +:+ s')). cbn [num_run].
  destruct (num_step st c) as [st'|]; [apply IH|done].
Qed.

(** A positive number in decimal. *)
Lemma pretty_N_go_spec x s :
  (0 < x)%N -> ∃ c t, pretty_N_go x s = String c (t +:+ s) ∧ num_start c = Some state1 ∧
    num_run state1 t = Some state1 ∧ digits_value 0 (String c t) = Some (Z.of_N x).
Proof.
  revert s. induction (N.lt_wf_0 x) as [x _ IH]. intros s Hx. rewrite pretty_N_go_step by done.
  assert (x = 10 * (x / 10) + x mod 10)%N as Hdiv by (apply N.div_mod; lia).
  assert (x mod 10 < 10)%N as Hmod by (apply N.mod_lt; lia).
  destruct (pretty_N_char_digit (x mod 10) Hmod) as [Hd Hstep]. set (c := pretty_N_char (x mod 10)) in *.
  destruct (decide (x / 10 = 0)%N) as [Hz|Hnz].
  - rewrite Hz, pretty_N_go_0. exists c, "". rewrite Hz in Hdiv. split; [done|]. split_and!; [|done|].
    + subst c. assert (x = 1 ∨ x = 2 ∨ x = 3 ∨ x = 4 ∨ x = 5 ∨ x = 6 ∨ x = 7 ∨ x = 8 ∨ x = 9)%N as Hcases by lia.
      by repeat destruct Hcases as [-> | Hcases]; [..|rewrite Hcases].
    + cbn [digits_value]. rewrite Hd. simpl. f_equal. lia.
  - destruct (IH (x / 10)%N ltac:(apply N.div_lt; lia) (String c s) ltac:(lia)) as (d & t & -> & Hstart & Hrun & Hval).
    exists d, (t +:+ String c ""). split_and!.
    + by rewrite string_app_assoc.
    + done.
    + rewrite num_run_app, Hrun. cbn [mbind option_bind num_run]. by rewrite Hstep.
    + change (String d (t +:+ String c "")) with (String d t +:+ String c "").
      rewrite (digits_value_app _ _ _ (Z.of_N (x mod 10)) _ Hval Hd). f_equal. lia.
Qed.

Definition int64 (n : Z) : Prop := (int64_min <= n <= int64_max)%Z.

Lemma pretty_Z_spec n : num_ok (pretty n) = true ∧ (int64 n -> ParseInt (pretty n) = Some n).
Proof.
  assert (∀ m v, int64 m -> v = Some m ->
    (k ← v; if (int64_min <=? k)%Z && (k <=? int64_max)%Z then Some k else None) = Some m) as Hin.
  { intros m v [Hlo Hhi] ->. cbn [mbind option_bind]. by rewrite (proj2 (Z.leb_le _ _) Hlo), (proj2 (Z.leb_le _ _) Hhi). }
  destruct n as [|p|p].
  - split; [done|]. intros Hi. by apply Hin.
  - assert (pretty (Z.pos p) = pretty_N_go (Npos p) "") as -> by done.
    destruct (pretty_N_go_spec (Npos p) "" ltac:(lia)) as (c & t & -> & Hc & Ht & Hv).
    rewrite string_app_nil. cbn [num_ok]. rewrite Hc. cbn [mbind option_bind]. rewrite Ht. split; [done|].
    intros Hi. apply Hin; [done|].
    replace (Ascii.eqb c "-") with false; [done|]. unfold num_start in Hc. by destruct (Ascii.eqb c "-").
  - assert (pretty (Z.neg p) = String "-" (pretty_N_go (Npos p) "")) as -> by done.
    destruct (pretty_N_go_spec (Npos p) "" ltac:(lia)) as (c & t & -> & Hc & Ht & Hv).
    rewrite string_app_nil. split.
    + cbn [num_ok]. change (num_start "-") with (Some stateNeg). cbn [mbind option_bind num_run].
      assert (num_step stateNeg c = Some state1) as ->; [|cbn [mbind option_bind]; by rewrite Ht].
      unfold num_start, num_step in *. by destruct (Ascii.eqb c "-"), (Ascii.eqb c "0").
    + intros Hi. apply Hin; [done|]. cbn [Ascii.eqb]. simpl Ascii.eqb. cbv iota. by rewrite Hv.
Qed.

Lemma int_codec_carries : carries int_codec int64 0.
Proof.
  intros n Hn. destruct (pretty_Z_spec n) as [Hok Hp]. eexists. split; [done|]. split; [exact Hok|].
  split; [done|]. intros n0 e. simpl. by rewrite Hp.
Qed.

(** *** Instants *)
Definition writable (loc : Location) (t : Time) : Prop :=
  minute_offset (zs_offset (lookup_zone loc (Unix t))) ∧ ∃ text, appendStrictRFC3339 loc t = inr text.

Lemma time_codec_carries loc : carries (time_codec loc) (writable loc) 0.
Proof.
  intros t [Hm [text Ht]]. exists (JStr text). simpl. unfold time_MarshalJSON. rewrite Ht. split_and!; [done| |done|].
  - by eapply raw_ok_plain, plain_append.
  - intros t0 e. by rewrite (parse_append _ _ _ Hm Ht).
Qed.

(** *** Structs

    A field carries a part of the struct: it is written, and stored back by
    [copy], the assignment of that part. *)
Definition field_carries {T} (f : field T) (copy : T → T → T) (ok : T → Prop) (n : nat) : Prop :=
  utf8_valid (field_name f) = true ∧
  ∀ t, ok t -> ∃ j, field_marshal f t = Some (inr j) ∧ json_ok j ∧ depth j <= n ∧
    ∀ t0 e, field_unmarshal f j (t0, e) = (Ok tt, (copy t t0, e)).

Lemma plain_field_carries {T A} name (get : T → A) put (c : codec A) okA (ok : T → Prop) n :
  utf8_valid name = true -> carries c okA n -> (∀ t, ok t -> okA (get t)) ->
  field_carries (plain_field name get put c) (λ t t0, put (get t) t0) ok n.
Proof.
  intros Hname Hc Hok. split; [done|]. intros t Ht. destruct (Hc (get t) (Hok t Ht)) as (j & Hj & Hjok & Hd & Hu).
  exists j. simpl. rewrite Hj. split_and!; [done..|]. intros t0 e. unfold on_part, zoom. simpl. by rewrite Hu.
Qed.

Lemma unmarshal_member_field {T X} (name : X → string) fields (put : X → json → decoder T) f j :
  utf8_valid (name f) = true -> find_field name fields (name f) = Some f ->
  ∀ s, unmarshal_member name fields put (escape (name f), j) s = put f j s.
Proof.
  intros Hutf Hfind s. unfold unmarshal_member, bind. cbn [fst snd]. by rewrite unquoted_escape, Hfind.
Qed.

Lemma max_list_le (l : list nat) n : Forall (λ m, m <= n) l -> max_list l <= n.
Proof. induction 1; simpl; lia. Qed.

(** A struct carries what its fields carry: the assignments of all fields, in
    order, turn any value into the one that was written. *)
Lemma struct_codec_carries {T} (fields : list (field T)) (copies : list (T → T → T)) ok n :
  Forall2 (λ f copy, field_carries f copy ok n) fields copies ->
  Forall (λ f, find_field field_name fields (field_name f) = Some f) fields ->
  (∀ t t0, ok t -> foldl (λ t0 copy, copy t t0) t0 copies = t) ->
  carries (struct_codec fields) ok (S n).
Proof.
  intros Hfs Hfind Hcopy t Ht.
  assert (∃ members, marshal_members ((λ f, (field_name f, field_marshal f t)) <$> fields) = inr members ∧
    Forall (λ m, raw_ok m.1 ∧ json_ok m.2) members ∧ Forall (λ d, d <= n) ((λ m : string * json, depth m.2) <$> members) ∧
    ∀ t0 e, for_range (unmarshal_member field_name fields field_unmarshal) members (t0, e)
      = (Ok tt, (foldl (λ t0 copy, copy t t0) t0 copies, e))) as (members & Hm & Hok & Hd & Hu).
  { clear Hcopy. revert Hfind. generalize fields at 1 4 as all. intros all Hfind.
    induction Hfs as [|f copy fields copies [Hname Hf] Hfs IH]; [by exists []|].
    apply Forall_cons in Hfind as [Hff Hfind]. destruct (IH Hfind) as (members & Hm & Hok & Hd & Hu).
    destruct (Hf t Ht) as (j & Hj & Hjok & Hjd & Hju).
    exists ((escape (field_name f), j) :: members). rewrite fmap_cons. cbn [marshal_members].
    rewrite Hj, Hm. split_and!; [done| | |].
    - apply Forall_cons. split; [split; [apply raw_ok_escape|done]|done].
    - by apply Forall_cons.
    - intros t0 e. cbn [for_range]. unfold bind. rewrite unmarshal_member_field by done. by rewrite Hju, Hu. }
  exists (JObj members). simpl marshal. rewrite Hm. split_and!; [done|by apply json_all_members| |].
  - apply le_n_S. by apply max_list_le.
  - intros t0 e. simpl. by rewrite Hu, Hcopy.
Qed.

Lemma struct_codec_not_null {T} (fields : list (field T)) t : marshal (struct_codec fields) t ≠ inr JNull.
Proof. simpl. by destruct (marshal_members _). Qed.

(** ** No document makes a decoder panic *)
Definition comes_back {S E A} (m : M S E A) : Prop := ∀ s, (m s).1 ≠ Panic ∧ (m s).1 ≠ Blocked.

Create HintDb json.

Section comes_back.
Context {S E : Type}.

Lemma comes_back_ret {A} (a : A) : comes_back (S := S) (E := E) (ret a).
Proof. done. Qed.
Lemma comes_back_throw {A} e : comes_back (S := S) (E := E) (A := A) (throw e).
Proof. done. Qed.
Lemma comes_back_modify f : comes_back (S := S) (E := E) (modify f).
Proof. done. Qed.
Lemma comes_back_bind {A B} (m : M S E A) (k : A → M S E B) :
  comes_back m -> (∀ a, comes_back (k a)) -> comes_back (bind m k).
Proof.
  intros Hm Hk s. specialize (Hm s). unfold bind. destruct (m s) as [[a|e| |] s']; simpl in *; [apply Hk|done|naive_solver..].
Qed.
Lemma comes_back_zoom {T A} get put (m : M T E A) : comes_back m -> comes_back (zoom (S := S) get put m).
Proof. intros Hm s. specialize (Hm (get s)). unfold zoom. by destruct (m (get s)). Qed.
Lemma comes_back_for_range {A} (f : A → M S E unit) l :
  Forall (λ x, comes_back (f x)) l -> comes_back (for_range f l).
Proof. induction 1; [done|]. by apply comes_back_bind. Qed.
End comes_back.

#[export] Hint Resolve comes_back_ret comes_back_throw comes_back_modify comes_back_bind comes_back_zoom : json.

Lemma unquoted_comes_back {S} raw : escaped raw -> comes_back (unquoted (S := S) raw).
Proof. intros [s Hs]%unquote_escaped. unfold unquoted. by rewrite Hs. Qed.
#[export] Hint Resolve unquoted_comes_back : json.

Definition calm {A} (d : json → decoder A) : Prop := ∀ j, strings_ok j -> comes_back (d j).

Lemma mismatch_comes_back {A} j : comes_back (mismatch (A := A) j).
Proof. done. Qed.
#[export] Hint Resolve mismatch_comes_back : json.

Lemma string_codec_calm : calm (unmarshal string_codec).
Proof.
  intros [] Hj; simpl in *; auto with json. apply comes_back_bind; [by apply unquoted_comes_back|done].
Qed.

Lemma int_codec_calm : calm (unmarshal int_codec).
Proof. intros [| |lit| | |] Hj; simpl; auto with json. by destruct (ParseInt lit). Qed.

Lemma uuid_codec_calm `{UuidText} : calm (unmarshal uuid_codec).
Proof.
  intros [] Hj; simpl in *; auto with json. apply comes_back_bind; [by apply unquoted_comes_back|].
  intros s. by destruct (uuid_UnmarshalText s).
Qed.

Lemma time_codec_calm loc : calm (unmarshal (time_codec loc)).
Proof. intros [| | |raw| |] Hj; simpl; auto with json. by destruct (parseRFC3339 raw). Qed.

Lemma on_part_calm {T A} (get : T → A) put (d : json → decoder A) :
  calm d -> calm (λ j, on_part get put (d j)).
Proof. intros Hd j Hj. by apply comes_back_zoom, Hd. Qed.

Lemma unmarshal_member_comes_back {T X} (name : X → string) fields (put : X → json → decoder T) m :
  escaped m.1 -> (∀ f, f ∈ fields -> comes_back (put f m.2)) -> comes_back (unmarshal_member name fields put m).
Proof.
  intros Hk Hput. apply comes_back_bind; [by apply unquoted_comes_back|]. intros key.
  destruct (find_field name fields key) as [f|] eqn:Hf; [|done]. apply Hput.
  unfold find_field in Hf. destruct (List.find _ fields) eqn:E; [injection Hf as ->|];
    (eapply list_elem_of_In, List.find_some; eassumption).
Qed.

Lemma unmarshal_struct_calm {T} (fields : list (field T)) :
  Forall (λ f, calm (field_unmarshal f)) fields -> calm (unmarshal_struct fields).
Proof.
  intros Hfs j Hj. destruct j; simpl; auto with json. apply json_all_members in Hj.
  apply comes_back_for_range, Forall_forall. rewrite Forall_forall in Hj. rewrite Forall_forall in Hfs. intros m Hm. destruct (Hj m Hm) as [Hk Hv].
  apply unmarshal_member_comes_back; [done|]. intros f Hf. by apply Hfs.
Qed.

(** Whatever the data, [Unmarshal] comes back; data that is no document is
    refused and changes nothing. *)
Lemma Unmarshal_comes_back {A} (c : codec A) data :
  calm (unmarshal c) -> comes_back (Unmarshal c data).
Proof.
  intros Hc a. unfold Unmarshal. destruct (parse data) as [j|] eqn:Hj; [|done].
  apply parse_strings_ok in Hj. pose proof (Hc j Hj (a, None)) as Hb.
  by destruct (unmarshal c j (a, None)) as [[|e| |] [a' [e'|]]].
Qed.

Lemma Unmarshal_malformed {A} (c : codec A) data a : parse data = None -> Unmarshal c data a = (Err SyntaxError, a).
Proof. intros Hp. unfold Unmarshal. by rewrite Hp. Qed.

(** ** Pointers *)
Definition pointer_codec {A} (zero : A) (c : codec A) : codec (option A) := mkCodec
  (λ p, match p with None => inr JNull | Some a => marshal c a end)
  (λ j, match j with
        | JNull => store None
        | _ => on_part (default zero) (λ a _, Some a) (unmarshal c j)
        end).

Lemma carries_weaken {A} (c : codec A) (ok ok' : A → Prop) n n' :
  carries c ok n -> (∀ a, ok' a -> ok a) -> n <= n' -> carries c ok' n'.
Proof. intros Hc Hok Hn a Ha. destruct (Hc a (Hok a Ha)) as (j & ? & ? & ? & ?). exists j. split_and!; [done..|lia|done]. Qed.

Lemma pointer_codec_carries {A} (zero : A) (c : codec A) ok n :
  carries c ok n -> (∀ a, marshal c a ≠ inr JNull) ->
  carries (pointer_codec zero c) (λ p, match p with None => True | Some a => ok a end) n.
Proof.
  intros Hc Hnull [a|] Ha; [|exists JNull; split_and!; [done..|simpl; lia|done]].
  destruct (Hc a Ha) as (j & Hj & ? & ? & Hu). exists j. split_and!; [done..|]. intros p e.
  assert (unmarshal (pointer_codec zero c) j = on_part (default zero) (λ a _, Some a) (unmarshal c j)) as ->
    by (destruct j; [by destruct (Hnull a)|done..]).
  unfold on_part, zoom. simpl. by rewrite Hu.
Qed.

Lemma find_field_fmap {X Y} (name : Y → string) (g : X → Y) l key :
  find_field name (g <$> l) key = g <$> find_field (name ∘ g) l key.
Proof.
  assert (∀ P : Y → bool, List.find P (g <$> l) = g <$> List.find (P ∘ g) l) as Hfind.
  { intros P. induction l as [|x l IH]; [done|]. simpl. by destruct (P (g x)). }
  unfold find_field. rewrite !Hfind. unfold compose. by destruct (List.find _ l).
Qed.

(** Strings of ASCII are valid. *)
Fixpoint ascii_string (s : string) : bool :=
  match s with "" => true | String c s' => between 0 127 c && ascii_string s' end.

Lemma ascii_utf8_valid s : ascii_string s = true -> utf8_valid s = true.
Proof.
  intros Hs. unfold utf8_valid, sanitize. apply String.eqb_eq.
  enough (transduce sanitize_step 0 s = Some s) as -> by done. induction s as [|c s IH]; [done|].
  cbn [ascii_string] in Hs. apply andb_true_iff in Hs as [Hc Hs]. change (String c s) with (String c "" +:+ s) at 1.
  rewrite sanitize_rune, IH by (done || (simpl; by rewrite Hc)). done.
Qed.
