(* ===== verification/Encoder.v ===== *)
(** src/common/key_value/encoder/encoder.go: the JSON forms of the records of the
    former key-value store. A record is encoded by [Encode] and decoded into a
    value that is already there by [Decode]. *)

From Stdlib Require Import Ascii.
From stdpp Require Import base list strings pretty.
From Stdlib Require Import ZArith Lia.
From S2P Require Import Prelude GoTime Common Json Rfc3339 JsonCodec.

Local Open Scope string_scope.

Module Encoder.

(** ** Types

    [common.Tea] embeds a pointer to its data. *)
Record Tea : Type := mkTea { ID : UUID; Data : option Common.TeaData }.

Record TeaData : Type := mkTeaData { Name : string; Type_ : string; Description : string }.

Definition QR : Type := Common.QR.
Definition TagData : Type := Common.TagData.
Definition Notification : Type := Common.Notification.

Record Collection : Type := mkCollection { col_Name : string; col_UserID : UUID }.

Record Device : Type := mkDevice { dev_UserID : UUID; dev_Token : string }.

(** [common.User] with its embedded session, which may point to another user. A
    ring of users, which [json.Marshal] refuses, is not a value of this type. *)
Inductive User : Type :=
  | mkUser (ID : UUID) (AppleID JWT : string) (user : option User) (ExpiredAt : Time).

Definition u_ID (u : User) : UUID := let 'mkUser id _ _ _ _ := u in id.
Definition u_AppleID (u : User) : string := let 'mkUser _ a _ _ _ := u in a.
Definition u_JWT (u : User) : string := let 'mkUser _ _ w _ _ := u in w.
Definition u_User (u : User) : option User := let 'mkUser _ _ _ p _ := u in p.
Definition u_ExpiredAt (u : User) : Time := let 'mkUser _ _ _ _ t := u in t.

Definition put_u_ID (id : UUID) (u : User) : User := let 'mkUser _ a w p t := u in mkUser id a w p t.
Definition put_u_AppleID (a : string) (u : User) : User := let 'mkUser id _ w p t := u in mkUser id a w p t.
Definition put_u_JWT (w : string) (u : User) : User := let 'mkUser id a _ p t := u in mkUser id a w p t.
Definition put_u_User (p : option User) (u : User) : User := let 'mkUser id a w _ t := u in mkUser id a w p t.
Definition put_u_ExpiredAt (t : Time) (u : User) : User := let 'mkUser id a w p _ := u in mkUser id a w p t.

(** The zero values a decoder allocates. *)
Definition zeroUser : User := mkUser uuid_Nil "" "" None 0%Z.
Definition zeroTeaData : Common.TeaData := Common.mkTeaData "" 0%Z "".

(** ** Conversions *)
Definition FromCommonTeaData (td : option Common.TeaData) : option TeaData :=
  match td with
  | None => None
  | Some td => Some (mkTeaData (td_Name td) (BeverageType_String (td_Type td)) (td_Description td))
  end.

Definition ToCommonTeaData (t : option TeaData) : option Common.TeaData :=
  match t with
  | None => None
  | Some t => Some (Common.mkTeaData (Name t) (StringToBeverageType (Type_ t)) (Description t))
  end.

(** ** Codecs: the fields of each type, by the names and tags of the structs *)
Section codecs.
Context `{UuidText} (loc : Location).

(** A field of the embedded data: left out when the pointer is nil, and allocated
    when the document has it. *)
Definition embedded_field {A} (name : string) (get : Common.TeaData → A) (put : A → Common.TeaData → Common.TeaData)
    (c : codec A) : field Tea :=
  mkField name (λ t, (λ d, marshal c (get d)) <$> Data t)
    (λ j, on_part (λ t, default zeroTeaData (Data t)) (λ d t, mkTea (ID t) (Some d)) (on_part get put (unmarshal c j))).

Definition Tea_fields : list (field Tea) :=
  [plain_field "ID" ID (λ id t, mkTea id (Data t)) uuid_codec;
   embedded_field "name" td_Name (λ n d, Common.mkTeaData n (td_Type d) (td_Description d)) string_codec;
   embedded_field "type" td_Type (λ b d, Common.mkTeaData (td_Name d) b (td_Description d)) int_codec;
   embedded_field "description" td_Description (λ s d, Common.mkTeaData (td_Name d) (td_Type d) s) string_codec].

Definition TeaData_fields : list (field TeaData) :=
  [plain_field "name" Name (λ n d, mkTeaData n (Type_ d) (Description d)) string_codec;
   plain_field "type" Type_ (λ b d, mkTeaData (Name d) b (Description d)) string_codec;
   plain_field "description" Description (λ s d, mkTeaData (Name d) (Type_ d) s) string_codec].

Definition QR_fields : list (field QR) :=
  [plain_field "Tea" qr_Tea (λ u q, mkQR u (qr_BowlingTemp q) (qr_ExpirationDate q)) uuid_codec;
   plain_field "BowlingTemp" qr_BowlingTemp (λ b q, mkQR (qr_Tea q) b (qr_ExpirationDate q)) int_codec;
   plain_field "ExpirationDate" qr_ExpirationDate (λ t q, mkQR (qr_Tea q) (qr_BowlingTemp q) t) (time_codec loc)].

Definition TagData_fields : list (field TagData) :=
  [plain_field "Name" tagd_Name (λ n d, mkTagData n (tagd_Color d) (tagd_CategoryID d)) string_codec;
   plain_field "Color" tagd_Color (λ c d, mkTagData (tagd_Name d) c (tagd_CategoryID d)) string_codec;
   plain_field "CategoryID" tagd_CategoryID (λ u d, mkTagData (tagd_Name d) (tagd_Color d) u) uuid_codec].

Definition Collection_fields : list (field Collection) :=
  [plain_field "Name" col_Name (λ n c, mkCollection n (col_UserID c)) string_codec;
   plain_field "UserID" col_UserID (λ u c, mkCollection (col_Name c) u) uuid_codec].

Definition Device_fields : list (field Device) :=
  [plain_field "UserID" dev_UserID (λ u d, mkDevice u (dev_Token d)) uuid_codec;
   plain_field "Token" dev_Token (λ t d, mkDevice (dev_UserID d) t) string_codec].

Definition Notification_fields : list (field Notification) :=
  [plain_field "UserID" ntf_UserID (λ u n, mkNotification u (ntf_Type n)) uuid_codec;
   plain_field "Type" ntf_Type (λ t n, mkNotification (ntf_UserID n) t) int_codec].

(** The fields of a user, one of which points to a user. *)
Inductive user_part : Type := PartID | PartAppleID | PartJWT | PartUser | PartExpiredAt.

Definition user_parts : list user_part := [PartID; PartAppleID; PartJWT; PartUser; PartExpiredAt].

Definition part_name (p : user_part) : string :=
  match p with
  | PartID => "ID"
  | PartAppleID => "AppleID"
  | PartJWT => "JWT"
  | PartUser => "User"
  | PartExpiredAt => "ExpiredAt"
  end.

Fixpoint User_marshal (u : User) : JsonError + json :=
  let 'mkUser id a w p t := u in
  object_of (marshal_members
    [(part_name PartID, Some (marshal uuid_codec id));
     (part_name PartAppleID, Some (marshal string_codec a));
     (part_name PartJWT, Some (marshal string_codec w));
     (part_name PartUser, Some match p with None => inr JNull | Some u' => User_marshal u' end);
     (part_name PartExpiredAt, Some (marshal (time_codec loc) t))]).

Fixpoint User_unmarshal (j : json) : decoder User :=
  match j with
  | JNull => ret tt
  | JObj members =>
      for_range (unmarshal_member part_name user_parts (λ p v,
        match p with
        | PartID => on_part u_ID put_u_ID (unmarshal uuid_codec v)
        | PartAppleID => on_part u_AppleID put_u_AppleID (unmarshal string_codec v)
        | PartJWT => on_part u_JWT put_u_JWT (unmarshal string_codec v)
        | PartUser => on_part u_User put_u_User
            match v with
            | JNull => store None
            | _ => on_part (default zeroUser) (λ u _, Some u) (User_unmarshal v)
            end
        | PartExpiredAt => on_part u_ExpiredAt put_u_ExpiredAt (unmarshal (time_codec loc) v)
        end)) members
  | _ => mismatch j
  end.

Definition Tea_codec : codec Tea := struct_codec Tea_fields.
Definition TeaData_codec : codec TeaData := struct_codec TeaData_fields.
Definition QR_codec : codec QR := struct_codec QR_fields.
Definition TagData_codec : codec TagData := struct_codec TagData_fields.
Definition Collection_codec : codec Collection := struct_codec Collection_fields.
Definition User_codec : codec User := mkCodec User_marshal User_unmarshal.
Definition Device_codec : codec Device := struct_codec Device_fields.
Definition Notification_codec : codec Notification := struct_codec Notification_fields.

(** ** The methods [Encode] and [Decode], and the functions of those names *)
Definition Encode {A} (c : codec A) (v : A) : JsonError + string := Marshal c v.
Definition Decode {A} (c : codec A) (data : string) : M A JsonError unit := Unmarshal c data.

Definition Tea_Encode (t : Tea) : JsonError + string := Marshal Tea_codec t.
Definition Tea_Decode (data : string) : M Tea JsonError unit := Unmarshal Tea_codec data.
Definition TeaData_Encode (t : TeaData) : JsonError + string := Marshal TeaData_codec t.
Definition TeaData_Decode (data : string) : M TeaData JsonError unit := Unmarshal TeaData_codec data.
Definition QR_Encode (q : QR) : JsonError + string := Marshal QR_codec q.
Definition QR_Decode (data : string) : M QR JsonError unit := Unmarshal QR_codec data.
Definition TagData_Encode (t : TagData) : JsonError + string := Marshal TagData_codec t.
Definition TagData_Decode (data : string) : M TagData JsonError unit := Unmarshal TagData_codec data.
Definition Collection_Encode (c : Collection) : JsonError + string := Marshal Collection_codec c.
Definition Collection_Decode (data : string) : M Collection JsonError unit := Unmarshal Collection_codec data.
Definition User_Encode (u : User) : JsonError + string := Marshal User_codec u.
Definition User_Decode (data : string) : M User JsonError unit := Unmarshal User_codec data.
Definition Device_Encode (d : Device) : JsonError + string := Marshal Device_codec d.
Definition Device_Decode (data : string) : M Device JsonError unit := Unmarshal Device_codec data.
Definition Notification_Encode (n : Notification) : JsonError + string := Marshal Notification_codec n.
Definition Notification_Decode (data : string) : M Notification JsonError unit := Unmarshal Notification_codec data.
End codecs.
End Encoder.

Import Encoder.

(** ** A user is a struct whose pointer field is a codec of users *)
Section user.
Context `{UuidText} (loc : Location).

Definition user_pointer : codec (option User) := pointer_codec zeroUser (User_codec loc).

Definition part_field (p : user_part) : field User :=
  match p with
  | PartID => plain_field "ID" u_ID put_u_ID uuid_codec
  | PartAppleID => plain_field "AppleID" u_AppleID put_u_AppleID string_codec
  | PartJWT => plain_field "JWT" u_JWT put_u_JWT string_codec
  | PartUser => plain_field "User" u_User put_u_User user_pointer
  | PartExpiredAt => plain_field "ExpiredAt" u_ExpiredAt put_u_ExpiredAt (time_codec loc)
  end.

Definition User_fields : list (field User) := part_field <$> user_parts.

Lemma User_marshal_struct u : User_marshal loc u = marshal (struct_codec User_fields) u.
Proof. by destruct u as [id a w [u|] t]. Qed.

Lemma for_range_ext {S E A} (f g : A → M S E unit) l :
  (∀ x s, f x s = g x s) -> ∀ s, for_range f l s = for_range g l s.
Proof.
  intros Hfg. induction l as [|x l IH]; intros s; [done|]. simpl. unfold bind. rewrite Hfg.
  destruct (g x s) as [[[]|e| |] s']; [apply IH|done..].
Qed.

Lemma User_unmarshal_struct j s : User_unmarshal loc j s = unmarshal_struct User_fields j s.
Proof.
  destruct j as [| | | | |members]; try done. simpl. apply for_range_ext. intros m s'.
  unfold unmarshal_member, bind. destruct (unquoted m.1 s') as [[key|e| |] s1]; [|done..].
  unfold User_fields. rewrite find_field_fmap.
  change (field_name ∘ part_field) with (λ p, field_name (part_field p)).
  replace (find_field (λ p, field_name (part_field p)) user_parts key) with (find_field part_name user_parts key) by done.
  destruct (find_field part_name user_parts key) as [p|]; [|done]. by destruct p; [..|destruct m.2|].
Qed.
End user.

(** ** Which values are carried

    Strings must be UTF-8, integers of 64 bits, UUIDs of 128, and an instant must
    have a year of four digits and an offset of whole minutes. *)
Section carried.
Context `{UuidTextLaws} (loc : Location).

Definition text (s : string) : Prop := utf8_valid s = true.

Definition CommonTeaData_ok (d : Common.TeaData) : Prop := text (td_Name d) ∧ int64 (td_Type d) ∧ text (td_Description d).
Definition Tea_ok (t : Tea) : Prop := uuid_valid (ID t) ∧ ∃ d, Data t = Some d ∧ CommonTeaData_ok d.
Definition TeaData_ok (d : TeaData) : Prop := text (Name d) ∧ text (Type_ d) ∧ text (Description d).
Definition QR_ok (q : QR) : Prop := uuid_valid (qr_Tea q) ∧ int64 (qr_BowlingTemp q) ∧ writable loc (qr_ExpirationDate q).
Definition TagData_ok (d : TagData) : Prop := text (tagd_Name d) ∧ text (tagd_Color d) ∧ uuid_valid (tagd_CategoryID d).
Definition Collection_ok (c : Collection) : Prop := text (col_Name c) ∧ uuid_valid (col_UserID c).
Definition Device_ok (d : Device) : Prop := uuid_valid (dev_UserID d) ∧ text (dev_Token d).
Definition Notification_ok (n : Notification) : Prop := uuid_valid (ntf_UserID n) ∧ int64 (ntf_Type n).

Fixpoint User_ok (u : User) : Prop :=
  let 'mkUser id a w p t := u in
  uuid_valid id ∧ text a ∧ text w ∧ writable loc t ∧ match p with None => True | Some u' => User_ok u' end.

(** How many users a user leads to, itself included. *)
Fixpoint User_height (u : User) : nat :=
  let 'mkUser _ _ _ p _ := u in S match p with None => 0 | Some u' => User_height u' end.

Lemma embedded_field_carries {A} name (get : Common.TeaData → A) put (c : codec A) okA n :
  utf8_valid name = true -> carries c okA n -> (∀ d, CommonTeaData_ok d -> okA (get d)) ->
  field_carries (embedded_field name get put c)
    (λ t t0, mkTea (ID t0) (Some (put (get (default zeroTeaData (Data t))) (default zeroTeaData (Data t0))))) Tea_ok n.
Proof.
  intros Hname Hc Hok. split; [done|]. intros t (Hid & d & Hd & Hdok).
  destruct (Hc (get d) (Hok d Hdok)) as (j & Hj & Hjok & Hjd & Hu). exists j. simpl. rewrite Hd. simpl. rewrite Hj.
  split_and!; [done..|]. intros t0 e. unfold on_part, zoom. simpl. by rewrite Hu.
Qed.

Create HintDb carries.
#[local] Hint Resolve string_codec_carries int_codec_carries uuid_codec_carries time_codec_carries : carries.

(** The fields of a struct, one after the other. *)
Ltac carry_fields :=
  eapply struct_codec_carries;
    [ repeat (apply Forall2_cons; split);
        [ (first [eapply plain_field_carries | eapply embedded_field_carries]; [reflexivity|eauto with carries|]).. | apply Forall2_nil_2 ]
    | repeat (apply Forall_cons; split); try reflexivity; apply Forall_nil_2 | ].

(** Of a struct: what is left are the conditions of its fields. *)
Ltac carry := carry_fields; first [by intros [] [] ? | by intros ? Hok; hnf in Hok; naive_solver].

Lemma TeaData_codec_carries : carries TeaData_codec TeaData_ok 1.
Proof. carry. Qed.

Lemma QR_codec_carries : carries (QR_codec loc) QR_ok 1.
Proof. carry. Qed.

Lemma TagData_codec_carries : carries TagData_codec TagData_ok 1.
Proof. carry. Qed.

Lemma Collection_codec_carries : carries Collection_codec Collection_ok 1.
Proof. carry. Qed.

Lemma Device_codec_carries : carries Device_codec Device_ok 1.
Proof. carry. Qed.

Lemma Notification_codec_carries : carries Notification_codec Notification_ok 1.
Proof. carry. Qed.

Lemma Tea_codec_carries : carries Tea_codec Tea_ok 1.
Proof.
  carry_fields; try by intros ? Hok; hnf in Hok; naive_solver.
  intros [id [d|]] [id0 d0] (_ & d' & [=] & _). subst. by destruct d'.
Qed.

(** A tea without data is written as its id alone, which is all that decoding
    stores. *)
Lemma Tea_id_alone id :
  uuid_valid id ->
  ∃ data, Tea_Encode (Encoder.mkTea id None) = inr data ∧
    ∀ t0, Tea_Decode data t0 = (Ok tt, Encoder.mkTea id (Data t0)).
Proof.
  intros Hid. destruct (uuid_codec_carries id Hid) as (j & Hj & Hok & Hd & Hu).
  exists (print (JObj [(escape "ID", j)])). split.
  { unfold Tea_Encode, Marshal, Tea_codec, struct_codec, object_of. injection Hj as <-. reflexivity. }
  intros t0. unfold Tea_Decode, Unmarshal. rewrite parse_print.
  - unfold Tea_codec, struct_codec. cbn [unmarshal unmarshal_struct for_range]. unfold bind at 1.
    rewrite (unmarshal_member_field field_name Tea_fields field_unmarshal
      (plain_field "ID" ID (λ id t, Encoder.mkTea id (Data t)) uuid_codec) j) by done.
    cbn [field_unmarshal plain_field]. unfold on_part, zoom. cbn [fst snd]. by rewrite Hu.
  - apply json_all_members. repeat constructor; [apply raw_ok_escape|done].
  - simpl. assert (depth j = 0) as -> by lia. done.
Qed.

Lemma User_codec_carries n : carries (User_codec loc) (λ u, User_ok u ∧ User_height u <= n) n.
Proof.
  induction n as [|n IH]; [intros [id a w p t] [_ Hh]; simpl in Hh; lia|].
  assert (carries (user_pointer loc) (λ p, match p with None => True | Some u => User_ok u ∧ User_height u <= n end) n)
    as Hpointer.
  { apply pointer_codec_carries; [done|]. intros u. change (User_marshal loc u ≠ inr JNull).
    rewrite User_marshal_struct. apply struct_codec_not_null. }
  assert (carries (struct_codec (User_fields loc)) (λ u, User_ok u ∧ User_height u <= S n) (S n)) as Hstruct.
  { assert (∀ A (c : codec A) ok, carries c ok 0 -> carries c ok n) as Hup
      by (intros A c ok Hc; eapply carries_weaken; [done..|lia]).
    eapply (struct_codec_carries _ [_; _; _; _; _]).
    - repeat (apply Forall2_cons; split); [..|apply Forall2_nil_2];
        (eapply plain_field_carries; [reflexivity|eauto with carries|]);
        intros [id a w p t] [(Hid & Ha & Hw & Ht & Hp) Hh]; try done; simpl in *.
      destruct p; [split; [done|lia]|done].
    - repeat (apply Forall_cons; split); try reflexivity; apply Forall_nil_2.
    - by intros [] []. }
  intros u Hu. destruct (Hstruct u Hu) as (j & Hj & Hok & Hd & Hun). exists j. split_and!; [|done..|].
  - change (User_marshal loc u = inr j). by rewrite User_marshal_struct.
  - intros u0 e. etransitivity; [apply User_unmarshal_struct|]. apply Hun.
Qed.
End carried.

(** ** No document makes a decoder panic *)
Section calm.
Context `{UuidText} (loc : Location).

Lemma plain_field_calm {T A} name (get : T → A) put (c : codec A) :
  calm (unmarshal c) -> calm (field_unmarshal (plain_field name get put c)).
Proof. intros Hc. by apply (on_part_calm get put (unmarshal c)). Qed.

Lemma embedded_field_calm {A} name (get : Common.TeaData → A) put (c : codec A) :
  calm (unmarshal c) -> calm (field_unmarshal (embedded_field name get put c)).
Proof. intros Hc j Hj. apply comes_back_zoom, comes_back_zoom, Hc, Hj. Qed.

#[local] Hint Resolve string_codec_calm int_codec_calm uuid_codec_calm time_codec_calm : json.

Ltac calm_fields :=
  apply unmarshal_struct_calm;
  repeat (apply Forall_cons; split); try apply Forall_nil_2;
  first [apply plain_field_calm | apply embedded_field_calm]; auto with json.

Lemma Tea_codec_calm : calm (unmarshal Tea_codec).
Proof. calm_fields. Qed.
Lemma TeaData_codec_calm : calm (unmarshal TeaData_codec).
Proof. calm_fields. Qed.
Lemma QR_codec_calm : calm (unmarshal (QR_codec loc)).
Proof. calm_fields. Qed.
Lemma TagData_codec_calm : calm (unmarshal TagData_codec).
Proof. calm_fields. Qed.
Lemma Collection_codec_calm : calm (unmarshal Collection_codec).
Proof. calm_fields. Qed.
Lemma Device_codec_calm : calm (unmarshal Device_codec).
Proof. calm_fields. Qed.
Lemma Notification_codec_calm : calm (unmarshal Notification_codec).
Proof. calm_fields. Qed.

Lemma User_codec_calm : calm (unmarshal (User_codec loc)).
Proof.
  intros j. induction j as [| | | | |members IH] using json_induction; intros Hj; try done.
  apply json_all_members in Hj. apply comes_back_for_range, Forall_forall. intros m Hm.
  rewrite Forall_forall in Hj. rewrite Forall_forall in IH. destruct (Hj m Hm) as [Hk Hv].
  apply unmarshal_member_comes_back; [done|]. intros [] _; apply comes_back_zoom.
  - by apply uuid_codec_calm.
  - by apply string_codec_calm.
  - by apply string_codec_calm.
  - pose proof (IH m Hm Hv) as Hu. destruct m.2; [done|..]; by apply comes_back_zoom.
  - by apply time_codec_calm.
Qed.
End calm.

(** ** Properties *)

(** What a type of the package promises of its two methods. *)
Definition survives {A} (encode : A → JsonError + string) (decode : string → M A JsonError unit) (ok : A → Prop) : Prop :=
  ∀ a, ok a -> ∃ data, encode a = inr data ∧ ∀ a0, decode data a0 = (Ok tt, a).

Lemma carries_survives {A} (c : codec A) ok n :
  carries c ok n -> (N.of_nat n <= maxNestingDepth)%N -> survives (Marshal c) (Unmarshal c) ok.
Proof. intros Hc Hn a Ha. by eapply Marshal_Unmarshal. Qed.

Lemma BeverageType_String_text b : text (BeverageType_String b).
Proof.
  destruct (decide (declared_BeverageType b)) as [Hb|Hb]; [|by rewrite BeverageType_String_undeclared].
  unfold declared_BeverageType in Hb. assert (b = 0 ∨ b = 1 ∨ b = 2 ∨ b = 3)%Z as [->|[->|[->| ->]]] by lia; reflexivity.
Qed.

(** C39: every record of the former key-value store survives its encoding: teas, tea
    data, QR records, tags, collections, users, devices and notifications whose
    strings are UTF-8, whose numbers and UUIDs have their width and whose
    instants can be written are encoded, and decoding the data over any old
    record yields exactly the record that was encoded, embedded and pointed-to
    records included. A tea has its data then: one without is written as its id
    alone, and decoding that leaves in place whatever data the old record had,
    so that the tea comes back only over a record without data. Tea data
    converted from the domain comes back with its type, if that is one of the
    declared ones. *)
Theorem records_survive_encoding `{UuidTextLaws} loc :
  survives Tea_Encode Tea_Decode Tea_ok ∧
  (∀ id, uuid_valid id -> ∃ data, Tea_Encode (Encoder.mkTea id None) = inr data ∧
     ∀ t0, Tea_Decode data t0 = (Ok tt, Encoder.mkTea id (Data t0))) ∧
  survives TeaData_Encode TeaData_Decode TeaData_ok ∧
  survives (QR_Encode loc) (QR_Decode loc) (QR_ok loc) ∧
  survives TagData_Encode TagData_Decode TagData_ok ∧
  survives Collection_Encode Collection_Decode Collection_ok ∧
  survives (User_Encode loc) (User_Decode loc)
    (λ u, User_ok loc u ∧ (N.of_nat (User_height u) <= maxNestingDepth)%N) ∧
  survives Device_Encode Device_Decode Device_ok ∧
  survives Notification_Encode Notification_Decode Notification_ok ∧
  (∀ td, CommonTeaData_ok td -> declared_BeverageType (td_Type td) ->
     ∃ t data, FromCommonTeaData (Some td) = Some t ∧ TeaData_Encode t = inr data ∧
       ∀ t0, ∃ t1, TeaData_Decode data t0 = (Ok tt, t1) ∧ ToCommonTeaData (Some t1) = Some td).
Proof.
  split_and!.
  - by eapply carries_survives; [apply Tea_codec_carries|].
  - apply Tea_id_alone.
  - by eapply carries_survives; [apply TeaData_codec_carries|].
  - by eapply carries_survives; [apply QR_codec_carries|].
  - by eapply carries_survives; [apply TagData_codec_carries|].
  - by eapply carries_survives; [apply Collection_codec_carries|].
  - intros u [Hu Hh]. eapply (Marshal_Unmarshal (User_codec loc)); [apply User_codec_carries|exact Hh|]. done.
  - by eapply carries_survives; [apply Device_codec_carries|].
  - by eapply carries_survives; [apply Notification_codec_carries|].
  - intros [name b descr] (Hn & _ & Hd) Hb. eexists. simpl in *.
    destruct (carries_survives _ _ _ TeaData_codec_carries ltac:(done) (mkTeaData name (BeverageType_String b) descr))
      as (data & Henc & Hdec); [split_and!; [done|apply BeverageType_String_text|done]|].
    exists data. split_and!; [reflexivity|done|]. intros t0. eexists. split; [apply Hdec|].
    simpl. by rewrite BeverageType_String_roundtrip.
Qed.

(** Decoding is total. Whatever the bytes and whatever the record they are
    decoded into, every [Decode] comes back with a value or an error and never
    panics, in particular not on the text of a string; bytes that are no JSON
    document are refused with a syntax error that leaves the record as it was. *)
Theorem decoding_never_panics `{UuidText} loc data :
  comes_back (Tea_Decode data) ∧ comes_back (TeaData_Decode data) ∧ comes_back (QR_Decode loc data) ∧
  comes_back (TagData_Decode data) ∧ comes_back (Collection_Decode data) ∧ comes_back (User_Decode loc data) ∧
  comes_back (Device_Decode data) ∧ comes_back (Notification_Decode data) ∧
  (parse data = None -> ∀ A (c : codec A) (v : A), Decode c data v = (Err SyntaxError, v)).
Proof.
  split_and!; [apply Unmarshal_comes_back..|intros Hp A c v; by apply Unmarshal_malformed].
  - apply Tea_codec_calm.
  - apply TeaData_codec_calm.
  - apply QR_codec_calm.
  - apply TagData_codec_calm.
  - apply Collection_codec_calm.
  - apply User_codec_calm.
  - apply Device_codec_calm.
  - apply Notification_codec_calm.
Qed.

(** ** Witnesses

    UUIDs in decimal. *)
#[local] Instance exampleUuidText : UuidText := {
  uuid_MarshalText := @pretty N _;
  uuid_UnmarshalText s :=
    match digits_value 0 s with
    | Some n => inr (Z.to_N n)
    | None => inl (EForeign "invalid UUID")
    end }.

Lemma ascii_string_pretty_N_go x s : ascii_string s = true -> ascii_string (pretty_N_go x s) = true.
Proof.
  revert s. induction (N.lt_wf_0 x) as [x _ IH]. intros s Hs. destruct (decide (x = 0)%N) as [->|Hx]; [done|].
  rewrite pretty_N_go_step by lia. apply IH; [apply N.div_lt; lia|]. cbn [ascii_string]. rewrite Hs, andb_true_r.
  unfold pretty_N_char. by repeat case_match.
Qed.

Lemma pretty_N_positive (u : N) : u ≠ 0%N -> pretty u = pretty_N_go u "".
Proof. intros Hu. unfold pretty, pretty_N. by rewrite decide_False. Qed.

#[local] Instance exampleUuidTextLaws : UuidTextLaws.
Proof.
  split; intros u; cbn [uuid_MarshalText uuid_UnmarshalText exampleUuidText];
    (destruct (decide (u = 0%N)) as [->|Hu]; [done|rewrite (pretty_N_positive u) by done]).
  - intros _. destruct (pretty_N_go_spec u "" ltac:(lia)) as (c & t & -> & _ & _ & Hv).
    rewrite string_app_nil, Hv. by rewrite N2Z.id.
  - by apply ascii_utf8_valid, ascii_string_pretty_N_go.
Qed.

(** A tea whose name has to be quoted, and a box of it. *)
Definition quotedTea : Tea :=
  Encoder.mkTea 1004%N (Some (Common.mkTeaData "Thé <vert> & \x" 0%Z "a
b")).

Definition otherTea : Tea := Encoder.mkTea 7%N None.

(** A user who points to another. *)
Definition pointingUser : User :=
  Encoder.mkUser 1000%N "alice" "token" (Some (Encoder.mkUser 1002%N "bob" "" None 0%Z)) (UnixNs 1709210096123450000).

Lemma records_survive_encoding_witness :
  (∃ data, Tea_Encode quotedTea = inr data ∧ Tea_Decode data otherTea = (Ok tt, quotedTea)) ∧
  (∃ data, User_Encode UTC pointingUser = inr data ∧ User_Decode UTC data zeroUser = (Ok tt, pointingUser)).
Proof.
  split.
  - destruct (proj1 (records_survive_encoding UTC) quotedTea) as (data & Henc & Hdec).
    { split; [done|]. eexists. split; [reflexivity|]. split_and!; [vm_compute; reflexivity|done|vm_compute; reflexivity]. }
    exists data. split; [exact Henc|apply Hdec].
  - destruct (proj1 (proj2 (proj2 (proj2 (proj2 (proj2 (proj2 (records_survive_encoding UTC))))))) pointingUser)
      as (data & Henc & Hdec).
    { split; [|done]. repeat split; first [done|vm_compute; reflexivity|eexists; vm_compute; reflexivity]. }
    exists data. split; [exact Henc|apply Hdec].
Defined.

Lemma decoding_never_panics_witness :
  Decode Tea_codec "{]" otherTea = (Err SyntaxError, otherTea) ∧
  (User_Decode UTC "[1, {}, null]" zeroUser).1 ≠ Panic.
Proof.
  split.
  - apply (decoding_never_panics UTC "{]"). vm_compute. reflexivity.
  - apply (decoding_never_panics UTC).
Defined.
